(* ===== verification/_CoqProject ===== *)
-Q . S2P
Prelude.v
Types.v
Names.v
Namespace.v
Ordered.v
Env.v
RustStd.v
Context.v
Value.v
Parser.v
PkgLength.v
Opcode.v
NameObject.v
Flat.v
Preorder.v
Grammar.v
Expression.v
Statement.v
TermObject.v
Interp.v
Sample.v
TestUtils.v
Program.v
Declarations.v
Denotation.v
First.v
Calculus.v
Memory.v
Input.v
Fuel.v
Safety.v
Invariant.v
EvalCorrect.v
StmtCorrect.v
ExecCorrect.v
DataCorrect.v
Method.v
TableOps.v
TableCorrect.v
Load.v
Session.v
Devices.v
Startup.v
Tester.v
Dumper.v
Resource.v
UnitTests.v
PciRouting.v
Physical.v
Rsdp.v
Sdt.v
Address.v
Fadt.v
Tables.v
Slice.v
Mcfg.v
Hpet.v
Madt.v
MadtEntries.v
MadtCorrect.v
Platform.v
