(* ===== verification/Prelude.v ===== *)
(** * The ACPI crates

    A verification of the three crates of the repository: [rsdp] finds the root pointer
    in the memory of the firmware, [acpi] walks the static tables it leads to, and
    [aml] interprets the code that some of these tables hold; and of the tools beside
    them, [aml_tester] and [acpi-dumper].

    ** The model

    Every function is translated to a Rocq function of the same name, its control flow
    and its guards in the order of the source. A [u8] is a [byte] or a number, other
    integers are [Z] with their width written out where they are made: [checked],
    [add_w], [sub_w] and [mul_w] panic or wrap as the build says ([Target], which also
    gives the width of [usize]). [result] and [sres] are the outcomes: a value, an error
    of the code, or a [Fail] - a panic, a spin lock that is taken twice, undefined
    behaviour, or the end of the fuel of the model. Stateful code is in the state and
    error monad [SE], whose errors keep the state reached so far, as the code does.

    Crates that are not part of the repository are classes in [Env.v] ([bit_field],
    [byteorder], [bitvec], the [Handler] of the user) and in [Physical.v] and [Slice.v]
    (the [AcpiHandler] and the allocator of the user), with what their documentation
    says as laws; each has an instance on which the theorems are tried. The methods of
    the [Handler] may panic. The operating system of the tools is a class in
    [Tester.v] and one in [Dumper.v].

    ** The parts

    The interpreter ([aml]):
    - [Types.v], [Context.v]: values, errors and the state ([value.rs], [lib.rs]); the
      [Arc<Spinlock<Vec<u8>>>] of buffers are references into a store of the context,
      which also says which of them are locked.
    - [Names.v], [Namespace.v]: names and the namespace ([name_object.rs],
      [namespace.rs]): the tree of levels and the map of handles; [Ordered.v]: the order
      of the entries of a level, because of which a level that is added and removed
      leaves the tree as it was.
    - [RustStd.v]: the string functions of the standard library that the code uses.
    - [Value.v]: conversions, fields of regions and of buffers, comparison, stores
      ([value.rs], [lib.rs]).
    - [Parser.v], [PkgLength.v], [Opcode.v], [NameObject.v]: the combinators and the
      parsers of lengths, opcodes and names ([parser.rs], [pkg_length.rs], [opcode.rs],
      [name_object.rs], [misc.rs]).
    - [Grammar.v], [Expression.v], [Statement.v], [TermObject.v]: the parsers of terms,
      which also execute them ([expression.rs], [statement.rs], [term_object.rs]). Their
      recursion goes through the class [Grammar]; [Interp.v] closes it with fuel for the
      depth of the nesting, and models methods, tables and devices ([lib.rs]).
    - [Resource.v], [PciRouting.v]: lists of resources and PCI routing
      ([resource.rs], [pci_routing.rs]).
    - [TestUtils.v], [UnitTests.v]: the scaffolding of the tests and of the fuzzer
      ([test_utils.rs], [fuzz_target_1.rs]), and the unit tests of the modules.

    The tables ([rsdp] and [acpi]):
    - [Physical.v]: windows on memory, layouts of packed structures, mappings and their
      drops ([handler.rs]); [Rsdp.v]: the root pointer and the search for it.
    - [Sdt.v], [Address.v]: table headers and generic addresses; [Tables.v]: from the
      root pointer to the tables ([acpi/src/lib.rs]); [Fadt.v], [Mcfg.v], [Hpet.v] (also
      the BGRT): the tables with a fixed layout; [Slice.v]: slices of an allocator.
    - [Madt.v], [Platform.v]: interrupt controllers, processors and what is collected
      about the platform ([madt.rs], [platform/]).

    The tools: [Tester.v] ([aml_tester]) and [Dumper.v] ([acpi-dumper]).

    ** The theorems

    - From tables to results: [Flat.v] gives the namespace as flat maps from paths and
      shows that the tree of levels implements them; [Declarations.v] is the abstract
      syntax of definition blocks, what declarations do to a namespace behind the
      interface [NamespaceOps] (which the tree and the flat maps both implement) and how
      tables encode them; [DataCorrect.v], [TableOps.v] and [TableCorrect.v] show that
      [parse_table] does on an encoding what the declarations say, on the flat maps;
      [Load.v] loads tables into a new context one after the other, [Devices.v] then
      initializes the devices in it, which is a walk over the levels in the order of
      [Preorder.v], [Session.v] calls the methods that the tables declare, one after the
      other, and reads objects, and [Startup.v] puts the three together.
    - Execution: [Program.v] defines programs of structured methods, which call each
      other anywhere in their expressions and compute with integers in their locals,
      their arguments and the objects of the namespace that they share, their encodings
      and a big-step semantics, in which an expression is evaluated from the calls that
      were executed for it; [Memory.v] is the part of the namespace that a program sees,
      and says when a program is linked in a namespace; [EvalCorrect.v] (expressions,
      from what is known of the calls), [StmtCorrect.v] (statements, from their parts),
      [ExecCorrect.v] (the induction over whole executions) and [Method.v] show that
      parsing the encodings does what the semantics says, on the calculus of parsers of
      [Denotation.v], [First.v] and [Calculus.v].
    - Invariants: [Safety.v] states what holds of every context - values are of their
      types, handles and buffers exist and are given out in order, the scope is absolute,
      no lock stays held - and [Invariant.v] that every operation keeps it, on the error
      paths as well, and that objects keep their types.
    - Termination: [Input.v] shows that the parsers of terms consume their input, which
      bounds the loops over it; [Fuel.v] that fuel only bounds the depth of the
      recursion, so that a result does not depend on it.
    - Names and the namespace: normal forms, resolution, the search rules, printing and
      parsing, and what each operation changes.
    - Comparisons: of values by the operators of the language, and of values in tests.
    - Tools and tests: which files of a directory [aml_tester] compiles and tests and what
      it reports for each of them, what [acpi-dumper] copies, and that the unit tests of
      the [aml] crate pass on the definitions here.
    - Encodings: names, package lengths, resource lists, root pointers, tables, generic
      addresses and MADT entries are read back.
    - Specifications: the search for the root pointer and the memory it looks at, finding
      tables, the regions of configuration space, the routing of pins; [MadtCorrect.v], on
      the lists of entries of [MadtEntries.v]: the two passes over a MADT refine a direct
      reading of its list, for every allocator, which may fail or give larger blocks than
      it was asked for; and [Platform.v]: the platform information is what the bytes of the
      FADT and the entries of the MADT say.
    - Limits of the code: methods that are called again while they execute, tables that
      are read after their mapping is gone, pointers at the end of a search area, the
      iterator over SSDTs, x2APIC processors and entries of length zero, register blocks
      and fields that are too long, buffers that are compared with themselves.

    [Sample.v] holds a small table that is run.

    ** Bounds

    Loops over the input have a round per byte, a bound that the theorems show to be
    enough. The fuel of the interpreter bounds the nesting of terms and calls, on which
    the code has no bound but its stack; while loops of methods may run for ever, in
    the code as in the model, and take a unit of fuel for a round. The loops over the
    entries of a MADT take fuel because an entry of length zero does stop them for ever.

    ** Not modelled

    Logging and the printing of values and names for debugging; the messages of the tools
    and the parsing of their arguments, by crates; what the allocator does with
    the slices that are given back, after which nothing is read; accessors that only
    return a field; alignment, and overflows of sizes in bytes that exceed the address
    space; concurrent use of the interpreter, which its [&mut] interface excludes. Opcodes and descriptors
    that the source leaves unimplemented panic or give errors, as in the source. The
    declarations of [Declarations.v] are a part of the language: regions with constant
    bounds, no fields of buffers ([CreateField] and the like, which need a buffer that is
    computed), no executable code outside of methods. Such tables are covered by the
    invariants, not by the theorems on declarations. The same holds of the statements and
    expressions that are not in [Program.v]: calls of methods that are executing already,
    strings, buffers, packages and fields. *)
From stdpp Require Export base tactics numbers list gmap.
From Stdlib Require Export ZArith Lia.
From Corelib Require Export Init.Byte.
From Stdlib Require Strings.Byte.
From Stdlib Require Strings.String.
Export Strings.String.StringSyntax.

Declare Scope aml_scope.
Delimit Scope aml_scope with aml.
Open Scope aml_scope.
Open Scope Z_scope.


(** * Hint databases of the development *)
Create HintDb aml discriminated.
Create HintDb bytes discriminated.

(** * Bytes *)

Abbreviation byte := Byte.byte.
Abbreviation bytes := (list Byte.byte).

#[export] Instance byte_eq_dec : EqDecision byte := Byte.byte_eq_dec.

(** [u8 as u64]: the value of a byte. *)
Definition u8 (b : byte) : Z := Z.of_N (Byte.to_N b).

(** [z as u8]: truncation to the low eight bits. *)
Definition to_u8 (z : Z) : byte :=
  match Byte.of_N (Z.to_N (z mod 256)) with
  | Some b => b
  | None => Byte.x00
  end.

(** A byte-string literal, [b"..."]. *)
Definition bstr (s : String.string) : bytes := String.list_byte_of_string s.
Arguments bstr s%_string_scope.

(** [uN::from_le_bytes] and [uN::to_le_bytes]. *)
Fixpoint from_le_bytes (bs : bytes) : Z :=
  match bs with
  | [] => 0
  | b :: bs => u8 b + 256 * from_le_bytes bs
  end.

Fixpoint to_le_bytes (n : nat) (z : Z) : bytes :=
  match n with
  | O => []
  | S n => to_u8 z :: to_le_bytes n (z / 256)
  end.

Lemma u8_range (b : byte) : 0 <= u8 b < 256.
Proof.
  unfold u8. pose proof (Byte.to_N_bounded b) as H. lia.
Qed.

Lemma to_u8_val (z : Z) : u8 (to_u8 z) = z mod 256.
Proof.
  unfold u8, to_u8. pose proof (Z.mod_pos_bound z 256 eq_refl) as Hz.
  destruct (Byte.of_N (Z.to_N (z mod 256))) as [b|] eqn:E.
  - apply Byte.to_of_N in E. rewrite E. lia.
  - apply Byte.of_N_None_iff in E. lia.
Qed.

Lemma u8_inj (a b : byte) : u8 a = u8 b -> a = b.
Proof.
  unfold u8. intros H. apply N2Z.inj in H.
  pose proof (Byte.of_to_N a) as Ea. pose proof (Byte.of_to_N b) as Eb.
  rewrite H in Ea. congruence.
Qed.

#[export] Instance u8_Inj : Inj (=) (=) u8 := u8_inj.

Lemma to_u8_u8 (b : byte) : to_u8 (u8 b) = b.
Proof.
  apply u8_inj. rewrite to_u8_val. apply Z.mod_small, u8_range.
Qed.

Lemma from_le_bytes_range (bs : bytes) :
  0 <= from_le_bytes bs < 2 ^ (8 * Z.of_nat (length bs)).
Proof.
  induction bs as [|b bs IH]; cbn [from_le_bytes length].
  - cbn. lia.
  - rewrite Nat2Z.inj_succ, Z.mul_succ_r, Z.pow_add_r by lia.
    change (2 ^ 8) with 256. pose proof (u8_range b). nia.
Qed.

Lemma length_to_le_bytes (n : nat) (z : Z) : length (to_le_bytes n z) = n.
Proof. revert z. induction n; intros z; cbn; auto. Qed.

Lemma from_to_le_bytes (n : nat) (z : Z) :
  0 <= z < 2 ^ (8 * Z.of_nat n) -> from_le_bytes (to_le_bytes n z) = z.
Proof.
  revert z. induction n as [|n IH]; intros z Hz; cbn [from_le_bytes to_le_bytes].
  - cbn in Hz. lia.
  - rewrite Nat2Z.inj_succ, Z.mul_succ_r, Z.pow_add_r in Hz by lia.
    change (2 ^ 8) with 256 in Hz.
    rewrite to_u8_val, IH.
    + pose proof (Z.div_mod z 256). lia.
    + split; [apply Z.div_pos; lia|]. apply Z.div_lt_upper_bound; lia.
Qed.

Lemma to_from_le_bytes (bs : bytes) :
  to_le_bytes (length bs) (from_le_bytes bs) = bs.
Proof.
  induction bs as [|b bs IH]; cbn [from_le_bytes to_le_bytes length]; [done|].
  pose proof (u8_range b). f_equal.
  - apply u8_inj. rewrite to_u8_val.
    rewrite (Z.mul_comm 256), Z.mod_add, Z.mod_small; lia.
  - rewrite (Z.mul_comm 256), Z.div_add, Z.div_small, Z.add_0_l by lia. done.
Qed.

(** * Machine integers *)

(** A value of a [w]-bit unsigned type. *)
Definition in_width (w z : Z) : Prop := 0 <= z < 2 ^ w.
Abbreviation is_u8 := (in_width 8).
Abbreviation is_u16 := (in_width 16).
Abbreviation is_u32 := (in_width 32).
Abbreviation is_u64 := (in_width 64).

#[export] Instance in_width_dec w z : Decision (in_width w z).
Proof. unfold in_width. apply _. Defined.

(** [z as uW]: truncation. *)
Definition wrap (w z : Z) : Z := z mod 2 ^ w.

Lemma wrap_in_width (w z : Z) : 0 <= w -> in_width w (wrap w z).
Proof. intros Hw. apply Z.mod_pos_bound. apply Z.pow_pos_nonneg; lia. Qed.

Lemma wrap_id (w z : Z) : in_width w z -> wrap w z = z.
Proof. intros H. apply Z.mod_small. exact H. Qed.

Lemma in_width_mono (v w z : Z) : v <= w -> in_width v z -> in_width w z.
Proof.
  intros Hle [H1 H2]. split; [done|].
  eapply Z.lt_le_trans; [exact H2|]. apply Z.pow_le_mono_r; lia.
Qed.

Lemma u8_in_width (w : Z) (b : byte) : 8 <= w -> in_width w (u8 b).
Proof. intros Hw. eapply in_width_mono; [exact Hw|]. apply u8_range. Qed.

Lemma from_le_bytes_in_width (w : Z) (bs : bytes) :
  8 * Z.of_nat (length bs) <= w -> in_width w (from_le_bytes bs).
Proof.
  intros Hw. eapply in_width_mono; [exact Hw|]. apply from_le_bytes_range.
Qed.

(** The compilation target: the width of [usize], and whether the build checks
    integer arithmetic for overflow (debug builds panic, release builds wrap). *)
Class Target := {
  usize_bits : Z;
  overflow_checks : bool;
  usize_bits_ok : usize_bits = 32 \/ usize_bits = 64
}.

(** A target of 64 bits, in a debug and in a release build. *)
Definition target_debug : Target :=
  {| usize_bits := 64; overflow_checks := true; usize_bits_ok := or_intror eq_refl |}.
Definition target_release : Target :=
  {| usize_bits := 64; overflow_checks := false; usize_bits_ok := or_intror eq_refl |}.

(** [z as usize] *)
Definition as_usize {tgt : Target} (z : Z) : Z := wrap usize_bits z.

#[export] Hint Resolve u8_range wrap_in_width u8_in_width from_le_bytes_in_width : bytes.

(** * Outcomes *)

(** The ways in which an operation of the code does not return: a Rust panic, a
    spin lock taken twice by the same thread, an access outside of what the
    code is allowed to read (undefined behaviour), and the exhaustion of the
    fuel of the model. *)
Inductive abort := Panic | Deadlock | UB | OutOfFuel.

#[export] Instance abort_eq_dec : EqDecision abort.
Proof. solve_decision. Defined.

(** [Result<A, E>], or no return. *)
Inductive result (E A : Type) :=
  | Ok (a : A)
  | Err (e : E)
  | Fail (r : abort).
Arguments Ok {E A} a.
Arguments Err {E A} e.
Arguments Fail {E A} r.

Definition result_bind {E A B} (m : result E A) (k : A -> result E B) : result E B :=
  match m with
  | Ok a => k a
  | Err e => Err e
  | Fail r => Fail r
  end.

Definition result_map {E A B} (f : A -> B) (m : result E A) : result E B :=
  result_bind m (fun a => Ok (f a)).

(** [Result::map_err]. *)
Definition result_map_err {E F A} (f : E -> F) (m : result E A) : result F A :=
  match m with
  | Ok a => Ok a
  | Err e => Err (f e)
  | Fail r => Fail r
  end.

(** [Option::ok_or], [Option::unwrap], [Result::unwrap] and [assert!]. *)
Definition ok_or {E A} (e : E) (o : option A) : result E A :=
  match o with Some a => Ok a | None => Err e end.
Definition unwrap {E A} (o : option A) : result E A :=
  match o with Some a => Ok a | None => Fail Panic end.
Definition unwrap_ok {E F A} (m : result E A) : result F A :=
  match m with
  | Ok a => Ok a
  | Err _ => Fail Panic
  | Fail r => Fail r
  end.
Definition assert_ {E} (b : bool) : result E unit :=
  if b then Ok tt else Fail Panic.

Notation "'let?' x := m 'in' k" := (result_bind m (fun x => k))
  (at level 10, x pattern, m at level 100, k at level 200,
   format "'[v' 'let?'  x  :=  m  'in' '/' k ']'") : aml_scope.

(** [a + b], [a - b] and [a * b] at a [w]-bit unsigned type. *)
Section Arith.
Context {tgt : Target} {E : Type}.

Definition checked (w z : Z) : result E Z :=
  if (0 <=? z) && (z <? 2 ^ w) then Ok z
  else if overflow_checks then Fail Panic else Ok (wrap w z).

Definition add_w (w a b : Z) : result E Z := checked w (a + b).
Definition sub_w (w a b : Z) : result E Z := checked w (a - b).
Definition mul_w (w a b : Z) : result E Z := checked w (a * b).

Lemma checked_in_width (w z r : Z) : 0 <= w -> checked w z = Ok r -> in_width w r.
Proof.
  unfold checked. intros Hw. destruct (_ && _) eqn:B.
  - apply andb_prop in B as [B1 B2]. intros [= <-]. unfold in_width. lia.
  - destruct overflow_checks; [discriminate|]. intros [= <-]. by apply wrap_in_width.
Qed.

Lemma checked_exact (w z : Z) : in_width w z -> checked w z = Ok z.
Proof.
  intros [H1 H2]. unfold checked.
  apply Z.leb_le in H1. apply Z.ltb_lt in H2. by rewrite H1, H2.
Qed.

Lemma checked_not_err (w z : Z) (e : E) : checked w z <> Err e.
Proof.
  unfold checked. destruct (_ && _); [done|]. by destruct overflow_checks.
Qed.
End Arith.

(** * Stateful computations *)

(** The outcome of a computation on a state [S] that is passed by [&mut]: it
    returns [Ok] or [Err], with the state it leaves, or it does not return. *)
Inductive sres (S E A : Type) :=
  | SOk (a : A) (s : S)
  | SErr (e : E) (s : S)
  | SFail (r : abort).
Arguments SOk {S E A} a s.
Arguments SErr {S E A} e s.
Arguments SFail {S E A} r.

Definition SE (S E A : Type) : Type := S -> sres S E A.

Section SE.
Context {S E : Type}.

Definition se_ret {A} (a : A) : SE S E A := fun s => SOk a s.
Definition se_bind {A B} (m : SE S E A) (k : A -> SE S E B) : SE S E B := fun s =>
  match m s with
  | SOk a s' => k a s'
  | SErr e s' => SErr e s'
  | SFail r => SFail r
  end.
Definition se_err {A} (e : E) : SE S E A := fun s => SErr e s.
Definition se_fail {A} (r : abort) : SE S E A := fun _ => SFail r.
Definition se_get : SE S E S := fun s => SOk s s.
Definition se_modify (f : S -> S) : SE S E unit := fun s => SOk tt (f s).
Definition se_gets {A} (f : S -> A) : SE S E A := fun s => SOk (f s) s.

(** A [Result] computed from a shared reference to the state. *)
Definition se_lift {A} (r : result E A) : SE S E A := fun s =>
  match r with
  | Ok a => SOk a s
  | Err e => SErr e s
  | Fail f => SFail f
  end.

(** [match m { r => ... }]: runs [m] and gives its [Result] to the continuation. *)
Definition se_try {A} (m : SE S E A) : SE S E (result E A) := fun s =>
  match m s with
  | SOk a s' => SOk (Ok a) s'
  | SErr e s' => SOk (Err e) s'
  | SFail r => SFail r
  end.

(** Running a list of computations in order, and collecting what they give. *)
Section Each.
Context {A B : Type} (f : A -> SE S E unit) (h : A -> SE S E B).

Fixpoint se_each (l : list A) : SE S E unit :=
  match l with
  | [] => se_ret tt
  | a :: l => se_bind (f a) (fun _ => se_each l)
  end.

Fixpoint se_map (l : list A) : SE S E (list B) :=
  match l with
  | [] => se_ret []
  | a :: l => se_bind (h a) (fun b => se_bind (se_map l) (fun bs => se_ret (b :: bs)))
  end.
End Each.
End SE.

(** The conversion of the error by [From]. *)
Definition se_map_err {S E F A} (f : E -> F) (m : SE S E A) : SE S F A := fun s =>
  match m s with
  | SOk a s' => SOk a s'
  | SErr e s' => SErr (f e) s'
  | SFail r => SFail r
  end.

Notation "'let!' x := m 'in' k" := (se_bind m (fun x => k))
  (at level 10, x pattern, m at level 100, k at level 200,
   format "'[v' 'let!'  x  :=  m  'in' '/' k ']'") : aml_scope.
Notation "'do!' m 'in' k" := (se_bind m (fun _ => k))
  (at level 10, m at level 100, k at level 200,
   format "'[v' 'do!'  m  'in' '/' k ']'") : aml_scope.

(** ** Hoare triples *)

(** [triple P m Q R]: from a state in [P], [m] either does not return, or
    returns [Ok] in [Q] or [Err] in [R]. *)
Definition triple {S E A} (P : S -> Prop) (m : SE S E A)
    (Q : A -> S -> Prop) (R : E -> S -> Prop) : Prop :=
  forall s, P s ->
    match m s with
    | SOk a s' => Q a s'
    | SErr e s' => R e s'
    | SFail _ => True
    end.

Section Triples.
Context {S E : Type}.
Implicit Types (P : S -> Prop) (R : E -> S -> Prop).

Lemma triple_ret {A} P (Q : A -> S -> Prop) R a :
  (forall s, P s -> Q a s) -> triple P (se_ret a) Q R.
Proof. intros H s Hs. by apply H. Qed.

Lemma triple_err {A} P (Q : A -> S -> Prop) R e :
  (forall s, P s -> R e s) -> triple P (se_err e) Q R.
Proof. intros H s Hs. by apply H. Qed.

Lemma triple_fail {A} P (Q : A -> S -> Prop) R r : triple P (se_fail r) Q R.
Proof. by intros s Hs. Qed.

Lemma triple_bind {A B} P (Q : A -> S -> Prop) (Q' : B -> S -> Prop) R m k :
  triple P m Q R -> (forall a, triple (Q a) (k a) Q' R) ->
  triple P (se_bind m k) Q' R.
Proof.
  intros Hm Hk s Hs. unfold se_bind. specialize (Hm s Hs).
  destruct (m s) as [a s'|e s'|r]; [|done|done]. by apply Hk.
Qed.

Lemma triple_weaken {A} P P' (Q Q' : A -> S -> Prop) R R' m :
  triple P' m Q' R' -> (forall s, P s -> P' s) ->
  (forall a s, Q' a s -> Q a s) -> (forall e s, R' e s -> R e s) ->
  triple P m Q R.
Proof.
  intros H HP HQ HR s Hs. specialize (H s (HP s Hs)).
  destruct (m s); auto.
Qed.

Lemma triple_modify P (Q : unit -> S -> Prop) R f :
  (forall s, P s -> Q tt (f s)) -> triple P (se_modify f) Q R.
Proof. intros H s Hs. by apply H. Qed.

Lemma triple_gets {A} P (Q : A -> S -> Prop) R f :
  (forall s, P s -> Q (f s) s) -> triple P (se_gets f) Q R.
Proof. intros H s Hs. by apply H. Qed.

Lemma triple_get P (Q : S -> S -> Prop) R :
  (forall s, P s -> Q s s) -> triple P se_get Q R.
Proof. intros H s Hs. by apply H. Qed.

Lemma triple_lift {A} P (Q : A -> S -> Prop) R r :
  (forall a s, r = Ok a -> P s -> Q a s) ->
  (forall e s, r = Err e -> P s -> R e s) ->
  triple P (se_lift r) Q R.
Proof. intros HQ HR s Hs. unfold se_lift. destruct r; auto. Qed.

Lemma triple_try {A} P (Q : result E A -> S -> Prop) R (m : SE S E A) :
  triple P m (fun a => Q (Ok a)) (fun e => Q (Err e)) -> triple P (se_try m) Q R.
Proof.
  intros H s Hs. unfold se_try. specialize (H s Hs). by destruct (m s).
Qed.
End Triples.

(** ** Simulation *)

(** From related states the two computations end in the same way, with the same
    result or error, and in related states. *)
Definition sim {S T E A} (R : S -> T -> Prop) (m : SE S E A) (n : SE T E A) : Prop :=
  forall s t, R s t ->
    match m s, n t with
    | SOk a s', SOk b t' => a = b /\ R s' t'
    | SErr e s', SErr e' t' => e = e' /\ R s' t'
    | SFail r, SFail r' => r = r'
    | _, _ => False
    end.

Section Simulation.
Context {S T E : Type} {R : S -> T -> Prop}.

Lemma sim_ret {A} (a : A) : sim (E := E) R (se_ret a) (se_ret a).
Proof. by intros s t H. Qed.
Lemma sim_err {A} (e : E) : sim (A := A) R (se_err e) (se_err e).
Proof. by intros s t H. Qed.
Lemma sim_fail {A} (r : abort) : sim (E := E) (A := A) R (se_fail r) (se_fail r).
Proof. by intros s t H. Qed.
Lemma sim_lift {A} (r : result E A) : sim R (se_lift r) (se_lift r).
Proof. intros s t H. by destruct r. Qed.

Lemma sim_bind {A B} (m : SE S E A) (n : SE T E A) (k : A -> SE S E B) (l : A -> SE T E B) :
  sim R m n -> (forall a, sim R (k a) (l a)) -> sim R (se_bind m k) (se_bind n l).
Proof.
  intros Hm Hk s t H. unfold se_bind. specialize (Hm s t H).
  destruct (m s) as [a s'|e s'|r], (n t) as [b t'|e' t'|r']; try done.
  destruct Hm as [-> H']. by apply Hk.
Qed.

Lemma sim_modify (f : S -> S) (h : T -> T) :
  (forall s t, R s t -> R (f s) (h t)) -> sim (E := E) R (se_modify f) (se_modify h).
Proof. intros H s t Hs. split; [done|by apply H]. Qed.

Lemma sim_gets {A} (f : S -> A) (h : T -> A) :
  (forall s t, R s t -> f s = h t) -> sim (E := E) R (se_gets f) (se_gets h).
Proof. intros H s t Hs. split; [by apply H|done]. Qed.
Lemma sim_each {A} (f : A -> SE S E unit) (h : A -> SE T E unit) (l : list A) :
  Forall (fun a => sim R (f a) (h a)) l -> sim R (se_each f l) (se_each h l).
Proof.
  induction 1 as [|a l Ha _ IH]; [apply sim_ret|]. by apply sim_bind; [|intros _].
Qed.

Lemma sim_map {A B} (f : A -> SE S E B) (h : A -> SE T E B) (l : list A) :
  Forall (fun a => sim R (f a) (h a)) l -> sim R (se_map f l) (se_map h l).
Proof.
  induction 1 as [|a l Ha _ IH]; [apply sim_ret|].
  apply sim_bind; [done|intros b]. apply sim_bind; [done|intros bs]. apply sim_ret.
Qed.
End Simulation.

#[export] Hint Resolve sim_ret sim_err sim_fail sim_lift sim_bind : aml.

(** ** The approximation order of fuel *)

(** [r1] is [r2], or ran out of fuel. *)
Definition sres_le {S E A} (r1 r2 : sres S E A) : Prop :=
  r1 = SFail OutOfFuel \/ r1 = r2.
Definition se_le {S E A} (m1 m2 : SE S E A) : Prop := forall s, sres_le (m1 s) (m2 s).

#[export] Instance sres_le_refl {S E A} : Reflexive (@sres_le S E A).
Proof. intros r. by right. Qed.
#[export] Instance sres_le_trans {S E A} : Transitive (@sres_le S E A).
Proof. intros r1 r2 r3 [->| ->] H; [by left|done]. Qed.
#[export] Instance se_le_refl {S E A} : Reflexive (@se_le S E A).
Proof. intros m s. reflexivity. Qed.
#[export] Instance se_le_trans {S E A} : Transitive (@se_le S E A).
Proof. intros m1 m2 m3 H1 H2 s. etrans; [apply H1|apply H2]. Qed.

Lemma sres_le_ok {S E A} (r1 r2 : sres S E A) :
  sres_le r1 r2 -> r1 <> SFail OutOfFuel -> r2 = r1.
Proof. intros [->| ->] H; [done|done]. Qed.

Lemma se_le_bind {S E A B} (m1 m2 : SE S E A) (k1 k2 : A -> SE S E B) :
  se_le m1 m2 -> (forall a, se_le (k1 a) (k2 a)) -> se_le (se_bind m1 k1) (se_bind m2 k2).
Proof.
  intros Hm Hk s. unfold se_bind. destruct (Hm s) as [->| ->]; [by left|].
  destruct (m2 s); [apply Hk|reflexivity|reflexivity].
Qed.

Lemma se_le_try {S E A} (m1 m2 : SE S E A) :
  se_le m1 m2 -> se_le (se_try m1) (se_try m2).
Proof.
  intros Hm s. unfold se_try. destruct (Hm s) as [->| ->]; [by left|reflexivity].
Qed.

#[export] Hint Resolve se_le_bind se_le_try : aml.
