(* ===== verification/Types.v ===== *)
(** The data of the AML interpreter: name segments and names
    ([aml/src/name_object.rs], [aml/src/namespace.rs]), the AML object types and
    values ([aml/src/value.rs]) and the error type ([aml/src/lib.rs]). *)
From S2P Require Import Prelude.

(** * Names *)

(** [NameSeg([u8; 4])]. *)
Record NameSeg := MkSeg { seg0 : byte; seg1 : byte; seg2 : byte; seg3 : byte }.

#[export] Instance NameSeg_eq_dec : EqDecision NameSeg.
Proof. solve_decision. Defined.

Inductive NameComponent :=
  | Root
  | Prefix
  | Segment (seg : NameSeg).

#[export] Instance NameComponent_eq_dec : EqDecision NameComponent.
Proof. solve_decision. Defined.

(** [AmlName(Vec<NameComponent>)]. *)
Abbreviation AmlName := (list NameComponent).

(** [AmlHandle(u32)]. *)
Abbreviation AmlHandle := Z (only parsing).

(** * Object types *)

Inductive AmlType :=
  | TUninitialized | TBuffer | TBufferField | TDdbHandle | TDebugObject | TEvent
  | TFieldUnit | TDevice | TInteger | TMethod | TMutex | TObjReference | TOpRegion
  | TPackage | TPowerResource | TProcessor | TRawDataBuffer | TString | TThermalZone.

#[export] Instance AmlType_eq_dec : EqDecision AmlType.
Proof. solve_decision. Defined.

(** * Errors *)

Inductive AmlError :=
  | UnexpectedEndOfStream
  | UnexpectedByte (b : byte)
  | MalformedStream
  | InvalidNameSeg
  | InvalidPkgLength
  | InvalidFieldFlags
  | UnterminatedStringConstant
  | InvalidStringConstant
  | InvalidRegionSpace (b : byte)
  | MalformedPackage
  | MalformedBuffer
  | WrongParser
  | FatalError
  | EmptyNamesAreInvalid
  | InvalidNormalizedName (n : AmlName)
  | RootHasNoParent
  | LevelDoesNotExist (n : AmlName)
  | ValueDoesNotExist (n : AmlName)
  | NameCollision (n : AmlName)
  | TriedToRemoveRootNamespace
  | NotExecutingControlMethod
  | InvalidArgAccess (n : Z)
  | InvalidLocalAccess (n : Z)
  | TooManyArgs
  | BreakInInvalidPosition
  | ContinueInInvalidPosition
  | PrtInvalidAddress
  | PrtInvalidPin
  | PrtInvalidSource
  | PrtInvalidGsi
  | PrtNoEntry
  | ReservedResourceType
  | ResourceDescriptorTooShort
  | ResourceDescriptorTooLong
  | UnexpectedResourceType
  | IncompatibleValueConversion (current target : AmlType)
  | InvalidStatusObject
  | InvalidShiftLeft
  | InvalidShiftRight
  | FieldRegionIsNotOpRegion
  | FieldInvalidAddress
  | FieldInvalidAccessSize
  | TypeCannotBeCompared (t : AmlType)
  | TypeCannotBeSliced (t : AmlType)
  | TypeCannotBeWrittenToBufferField (t : AmlType)
  | BufferFieldIndexesOutOfBounds.

#[export] Instance AmlError_eq_dec : EqDecision AmlError.
Proof. solve_decision. Defined.

(** * Values *)

Inductive RegionSpace :=
  | SystemMemory | SystemIo | PciConfig | EmbeddedControl | SMBus | SystemCmos
  | PciBarTarget | IPMI | GeneralPurposeIo | GenericSerialBus
  | OemDefined (b : byte).

Inductive FieldAccessType := AccAny | AccByte | AccWord | AccDWord | AccQWord | AccBuffer.
Inductive FieldUpdateRule := Preserve | WriteAsOnes | WriteAsZeros.

(** [FieldFlags(u8)] and [MethodFlags(u8)]. *)
Record FieldFlags := MkFieldFlags { field_flags : byte }.
Record MethodFlags := MkMethodFlags { method_flags : byte }.

#[export] Instance RegionSpace_eq_dec : EqDecision RegionSpace.
Proof. solve_decision. Defined.
#[export] Instance FieldFlags_eq_dec : EqDecision FieldFlags.
Proof. solve_decision. Defined.
#[export] Instance MethodFlags_eq_dec : EqDecision MethodFlags.
Proof. solve_decision. Defined.

(** A [Arc<Spinlock<Vec<u8>>>]: the address of a shared, mutable buffer in the
    buffer store of the context. *)
Abbreviation BufRef := nat (only parsing).

(** The native methods: the closure that [add_predefined_objects] installs as
    [\_OSI], and those that the user of the library adds. *)
Inductive NativeMethod :=
  | OsiMethod
  | UserMethod (n : nat).

Inductive MethodCode :=
  | Aml (code : bytes)
  | Native (m : NativeMethod).

Inductive AmlValue :=
  | VBoolean (b : bool)
  | VInteger (z : Z)
  | VString (s : bytes)
  | VOpRegion (region : RegionSpace) (offset length : Z) (parent_device : option AmlName)
  | VField (region : AmlHandle) (flags : FieldFlags) (offset length : Z)
  | VDevice
  | VMethod (flags : MethodFlags) (code : MethodCode)
  | VBuffer (buffer : BufRef)
  | VBufferField (buffer_data : BufRef) (offset length : Z)
  | VProcessor (id : byte) (pblk_address : Z) (pblk_len : byte)
  | VMutex (sync_level : byte)
  | VPackage (elements : list AmlValue)
  | VPowerResource (system_level : byte) (resource_order : Z)
  | VThermalZone.

(** Induction with the hypothesis for every element of a package. *)
Section NestedInduction.
Context (P : AmlValue -> Prop).
Context (Hleaf : forall v, (forall vs, v <> VPackage vs) -> P v).
Context (Hpackage : forall vs, Forall P vs -> P (VPackage vs)).

Fixpoint AmlValue_nested_ind (v : AmlValue) : P v.
Proof.
    destruct v as [| | | | | | | | | | |vs| |];
      try (apply Hleaf; intros vs' H; discriminate H).
    apply Hpackage. induction vs as [|v vs IH]; constructor.
    - apply AmlValue_nested_ind.
    - exact IH.
Defined.
End NestedInduction.

(** What the target of a store names ([name_object.rs]). *)
Inductive Target_ :=
  | TgtNull
  | TgtName (n : AmlName)
  | TgtDebug
  | TgtArg (a : Z)
  | TgtLocal (l : Z).

(** [value.rs]: the arguments of a method, [[Option<AmlValue>; 7]]. *)
Abbreviation Args := (list (option AmlValue)).

(** [value.rs]: the result of evaluating [_STA]. *)
Record StatusObject := MkStatus {
  present : bool;
  enabled : bool;
  show_in_ui : bool;
  functional : bool;
  battery_present : bool
}.
