(* ===== verification/Names.v ===== *)
(** AML names: [NameSeg] ([aml/src/name_object.rs]) and [AmlName]
    ([aml/src/namespace.rs]): construction from and printing to strings,
    normalisation, parents and resolution against a scope. *)
From S2P Require Import Prelude Types.
#[local] Open Scope string_scope.
#[local] Open Scope Z_scope.

(** * Characters and segments *)

Definition is_lead_name_char (c : byte) : bool :=
  ((u8 "A" <=? u8 c) && (u8 c <=? u8 "Z")) || bool_decide (c = "_"%byte).
Definition is_digit_char (c : byte) : bool :=
  (u8 "0" <=? u8 c) && (u8 c <=? u8 "9").
Definition is_name_char (c : byte) : bool := is_lead_name_char c || is_digit_char c.

(** [NameSeg::from_str] *)
Definition seg_from_str (s : bytes) : result AmlError NameSeg :=
  if (Z.of_nat (length s) <? 1) || (4 <? Z.of_nat (length s)) then Err InvalidNameSeg
  else match s with
  | [] => Err InvalidNameSeg
  | c :: rest =>
      if negb (is_lead_name_char c) then Err InvalidNameSeg
      else if forallb is_name_char rest then
        Ok (MkSeg c (nth 0 rest "_"%byte) (nth 1 rest "_"%byte) (nth 2 rest "_"%byte))
      else Err InvalidNameSeg
  end.

(** [NameSeg::as_str] *)
Definition seg_as_str (s : NameSeg) : bytes := [seg0 s; seg1 s; seg2 s; seg3 s].

(** A segment that the code can build: a lead character and three name characters. *)
Definition seg_ok (s : NameSeg) : bool :=
  is_lead_name_char (seg0 s) && is_name_char (seg1 s) &&
  is_name_char (seg2 s) && is_name_char (seg3 s).

(** * Strings *)

(** [str::split(c)]. *)
Fixpoint split_on (c : byte) (s : bytes) : list bytes :=
  match s with
  | [] => [[]]
  | b :: s =>
      let parts := split_on c s in
      if bool_decide (b = c) then [] :: parts
      else match parts with
           | p :: ps => (b :: p) :: ps
           | [] => [[b]]
           end
  end.

(** [str::trim_end_matches(c)]. *)
Fixpoint trim_end (c : byte) (s : bytes) : bytes :=
  match s with
  | [] => []
  | b :: s =>
      match trim_end c s with
      | [] => if bool_decide (b = c) then [] else [b]
      | s' => b :: s'
      end
  end.

(** * Names *)

(** [AmlName::root] *)
Definition root : AmlName := [Root].
(** [AmlName::from_name_seg] *)
Definition from_name_seg (s : NameSeg) : AmlName := [Segment s].
(** [AmlName::from_components] *)
Definition from_components (cs : list NameComponent) : result AmlError AmlName :=
  let? _ := assert_ (0 <? Z.of_nat (length cs)) in Ok cs.

(** The loop of [AmlName::from_str] over the characters of one part. *)
Fixpoint part_components (part : bytes) : result AmlError AmlName :=
  match part with
  | [] => let? s := seg_from_str [] in Ok [Segment s]
  | c :: part' =>
      if bool_decide (c = "^"%byte) then
        let? cs := part_components part' in Ok (Prefix :: cs)
      else
        let? s := seg_from_str part in Ok [Segment s]
  end.

Fixpoint parts_components (parts : list bytes) : result AmlError AmlName :=
  match parts with
  | [] => Ok []
  | p :: ps =>
      let? cs := part_components p in
      let? cs' := parts_components ps in Ok (cs ++ cs')
  end.

(** [AmlName::from_str] *)
Definition name_from_str (s : bytes) : result AmlError AmlName :=
  match s with
  | [] => Err EmptyNamesAreInvalid
  | c :: s' =>
      let '(pre, rest) := if bool_decide (c = "\"%byte) then ([Root], s') else ([], s) in
      match rest with
      | [] => Ok pre
      | _ => let? cs := parts_components (split_on "." rest) in Ok (pre ++ cs)
      end
  end.

Definition component_as_str (c : NameComponent) : bytes :=
  match c with
  | Root => ["\"%byte]
  | Prefix => ["^"%byte]
  | Segment s => seg_as_str s ++ ["."%byte]
  end.

(** [AmlName::as_string] *)
Definition as_string (n : AmlName) : bytes :=
  trim_end "." (fold_left (fun acc c => acc ++ component_as_str c) n []).

Definition is_prefix (c : NameComponent) : bool :=
  match c with Prefix => true | _ => false end.

(** [AmlName::is_normal] *)
Definition is_normal (n : AmlName) : bool := negb (existsb is_prefix n).

(** [AmlName::is_absolute] *)
Definition is_absolute (n : AmlName) : bool :=
  match n with Root :: _ => true | _ => false end.

(** [AmlName::search_rules_apply] *)
Definition search_rules_apply (n : AmlName) : bool :=
  match n with [Segment _] => true | _ => false end.

(** The fold of [AmlName::normalize]; [name] is the vector built so far. *)
Fixpoint normalize_fold (whole : AmlName) (name : AmlName) (cs : list NameComponent)
    : result AmlError AmlName :=
  match cs with
  | [] => Ok name
  | Prefix :: cs =>
      match last name with
      | Some (Segment _) => normalize_fold whole (removelast name) cs
      | _ => Err (InvalidNormalizedName whole)
      end
  | c :: cs => normalize_fold whole (name ++ [c]) cs
  end.

(** [AmlName::normalize] *)
Definition normalize (n : AmlName) : result AmlError AmlName :=
  if is_normal n then Ok n else normalize_fold n [] n.

(** [AmlName::parent] *)
Definition parent (n : AmlName) : result AmlError AmlName :=
  let? n' := normalize n in
  match last n' with
  | None | Some Root => Err RootHasNoParent
  | Some (Segment _) => Ok (removelast n')
  | Some Prefix => Fail Panic
  end.

(** [AmlName::resolve] *)
Definition resolve (n scope : AmlName) : result AmlError AmlName :=
  let? _ := assert_ (is_absolute scope) in
  if is_absolute n then Ok n else normalize (scope ++ n).

(** [NameComponent::as_segment] *)
Definition as_segment (c : NameComponent) : option NameSeg :=
  match c with Segment s => Some s | Root | Prefix => None end.

(** * Specification *)

(** What normalisation means: a [^] cancels the segment before it. *)
Inductive cancel : AmlName -> AmlName -> Prop :=
  | cancel_step l s r : cancel (l ++ Segment s :: Prefix :: r) (l ++ r).

(** The names that have a string: [\ ], or an optional [\ ] followed by
    components that are segments and [^]s and end with a segment. *)
Fixpoint body_ok (cs : list NameComponent) : bool :=
  match cs with
  | [] => false
  | [Segment s] => seg_ok s
  | Segment s :: cs => seg_ok s && body_ok cs
  | Prefix :: cs => body_ok cs
  | Root :: _ => false
  end.

Definition name_ok (n : AmlName) : bool :=
  match n with
  | [Root] => true
  | Root :: cs => body_ok cs
  | cs => body_ok cs
  end.

Fixpoint body_str (cs : list NameComponent) : bytes :=
  match cs with
  | [Segment s] => seg_as_str s
  | Segment s :: cs => seg_as_str s ++ "."%byte :: body_str cs
  | c :: cs => component_as_str c ++ body_str cs
  | [] => []
  end.

(** * Normalisation *)

Lemma is_normal_app (a b : AmlName) : is_normal (a ++ b) = is_normal a && is_normal b.
Proof. unfold is_normal. by rewrite existsb_app, negb_orb. Qed.

Lemma is_normal_removelast (n : AmlName) : is_normal n = true -> is_normal (removelast n) = true.
Proof.
  destruct (decide (n = [])) as [->|Hn]; [done|].
  rewrite (app_removelast_last Root Hn) at 1. rewrite is_normal_app.
  by intros [? _]%andb_prop.
Qed.

Lemma last_Some_removelast {A} (l : list A) (x : A) : last l = Some x -> l = removelast l ++ [x].
Proof.
  intros H. apply last_Some in H as [l' ->]. by rewrite removelast_last.
Qed.

Lemma removelast_snoc {A} (l : list A) (x : A) : removelast (l ++ [x]) = l.
Proof. apply removelast_last. Qed.

Lemma normalize_fold_app w name a b :
  normalize_fold w name (a ++ b) =
  let? name' := normalize_fold w name a in normalize_fold w name' b.
Proof.
  revert name. induction a as [|c a IH]; intros name; [done|].
  destruct c; cbn; [apply IH| |apply IH].
  destruct (last name) as [[| |s]|]; [done|done|apply IH|done].
Qed.

Lemma normalize_fold_normal w name cs :
  is_normal cs = true -> normalize_fold w name cs = Ok (name ++ cs).
Proof.
  revert name. induction cs as [|c cs IH]; intros name H; cbn.
  - by rewrite app_nil_r.
  - destruct c; [|done|]; cbn in H; rewrite IH by done; by rewrite <-app_assoc.
Qed.

(** The error value is the only thing that depends on [whole]. *)
Lemma normalize_fold_whole w w' name cs m :
  normalize_fold w name cs = Ok m -> normalize_fold w' name cs = Ok m.
Proof.
  revert name. induction cs as [|c cs IH]; intros name; [done|].
  destruct c; cbn; [apply IH| |apply IH].
  destruct (last name) as [[| |s]|]; [done|done|apply IH|done].
Qed.

Lemma normalize_fold_not_fail w name cs r : normalize_fold w name cs <> Fail r.
Proof.
  revert name. induction cs as [|c cs IH]; intros name; [done|].
  destruct c; cbn; [apply IH| |apply IH].
  destruct (last name) as [[| |s]|]; [done|done|apply IH|done].
Qed.

Lemma normalize_fold_result w name cs m :
  is_normal name = true -> normalize_fold w name cs = Ok m -> is_normal m = true.
Proof.
  revert name. induction cs as [|c cs IH]; intros name Hn; cbn.
  - by intros [= <-].
  - destruct c; cbn.
    + apply IH. by rewrite is_normal_app, Hn.
    + destruct (last name) as [[| |s]|]; try done. apply IH. by apply is_normal_removelast.
    + apply IH. by rewrite is_normal_app, Hn.
Qed.

Lemma normalize_as_fold (n m : AmlName) :
  normalize n = Ok m <-> normalize_fold n [] n = Ok m.
Proof.
  unfold normalize. destruct (is_normal n) eqn:Hn; [|done].
  by rewrite normalize_fold_normal.
Qed.

Lemma normalize_not_fail (n : AmlName) (r : abort) : normalize n <> Fail r.
Proof. unfold normalize. destruct (is_normal n); [done|]. apply normalize_fold_not_fail. Qed.

Lemma normalize_normal (n m : AmlName) : normalize n = Ok m -> is_normal m = true.
Proof. rewrite normalize_as_fold. by apply normalize_fold_result. Qed.

Lemma normalize_id (n : AmlName) : is_normal n = true -> normalize n = Ok n.
Proof. unfold normalize. by intros ->. Qed.

Lemma normalize_fold_cancels w name cs m :
  normalize_fold w name cs = Ok m -> rtc cancel (name ++ cs) m.
Proof.
  revert name. induction cs as [|c cs IH]; intros name; cbn.
  - intros [= <-]. by rewrite app_nil_r.
  - assert (normalize_fold w (name ++ [c]) cs = Ok m -> rtc cancel (name ++ c :: cs) m) as Hpush.
    { intros H. apply IH in H. by rewrite <-app_assoc in H. }
    destruct c; [exact Hpush| |exact Hpush].
    destruct (last name) as [[| |s]|] eqn:Hl; try done.
    intros H. apply IH in H. apply last_Some_removelast in Hl.
    rewrite Hl at 1. rewrite <-app_assoc. eapply rtc_l; [|exact H]. apply cancel_step.
Qed.

Lemma cancel_normalize_fold w n n' m :
  cancel n n' -> normalize_fold w [] n' = Ok m -> normalize_fold w [] n = Ok m.
Proof.
  intros [l s r]. rewrite !normalize_fold_app.
  destruct (normalize_fold w [] l) as [name| |]; cbn; [|done|done].
  by rewrite last_snoc, removelast_snoc.
Qed.

Lemma rtc_cancel_normalize n m :
  rtc cancel n m -> is_normal m = true -> normalize_fold n [] n = Ok m.
Proof.
  intros H Hm. enough (forall w, normalize_fold w [] n = Ok m) by auto.
  intros w. induction H as [n|n n' m Hstep Hrtc IH].
  - by rewrite normalize_fold_normal.
  - eapply cancel_normalize_fold; [exact Hstep|]. by apply IH.
Qed.

(** ** Absolute names stay absolute *)

Lemma is_absolute_app (a b : AmlName) : is_absolute a = true -> is_absolute (a ++ b) = true.
Proof. by destruct a as [|[]]. Qed.

Lemma is_absolute_removelast (n : AmlName) (s : NameSeg) :
  is_absolute n = true -> last n = Some (Segment s) -> is_absolute (removelast n) = true.
Proof. destruct n as [|[] [|]]; done. Qed.

Lemma normalize_fold_absolute w name cs m :
  is_absolute name = true -> normalize_fold w name cs = Ok m -> is_absolute m = true.
Proof.
  revert name. induction cs as [|c cs IH]; intros name Hn; cbn.
  - by intros [= <-].
  - destruct c; cbn; [apply IH, is_absolute_app, Hn| |apply IH, is_absolute_app, Hn].
    destruct (last name) as [[| |s]|] eqn:Hl; try done.
    apply IH. by eapply is_absolute_removelast.
Qed.

Lemma normalize_absolute (n m : AmlName) :
  is_absolute n = true -> normalize n = Ok m -> is_absolute m = true.
Proof.
  rewrite normalize_as_fold. destruct n as [|[] n]; try done. intros _. cbn.
  by apply normalize_fold_absolute.
Qed.

Lemma resolve_absolute (n scope m : AmlName) : resolve n scope = Ok m -> is_absolute m = true.
Proof.
  unfold resolve, assert_. destruct (is_absolute scope) eqn:Hs; cbn; [|done].
  destruct (is_absolute n) eqn:Hn; [by intros [= <-]|].
  apply normalize_absolute. by apply is_absolute_app.
Qed.

Lemma resolve_not_fail (n scope : AmlName) (r : abort) :
  is_absolute scope = true -> resolve n scope <> Fail r.
Proof.
  unfold resolve, assert_. intros ->. cbn.
  destruct (is_absolute n); [done|]. apply normalize_not_fail.
Qed.

Lemma parent_absolute (n m : AmlName) :
  is_absolute n = true -> parent n = Ok m -> is_absolute m = true /\ is_normal m = true.
Proof.
  unfold parent. intros Hn. destruct (normalize n) as [n'| |] eqn:E; cbn; [|done|done].
  pose proof (normalize_absolute _ _ Hn E) as Ha. pose proof (normalize_normal _ _ E) as Hnorm.
  destruct (last n') as [[| |s]|] eqn:Hl; try done. intros [= <-]. split.
  - by eapply is_absolute_removelast.
  - by apply is_normal_removelast.
Qed.

Lemma last_normal (n : AmlName) : is_normal n = true -> last n <> Some Prefix.
Proof.
  intros H Hl. apply last_Some_removelast in Hl. rewrite Hl, is_normal_app in H.
  apply andb_prop in H as [_ H]. done.
Qed.

Lemma parent_not_fail (n : AmlName) (r : abort) : parent n <> Fail r.
Proof.
  unfold parent. destruct (normalize n) as [n'| |r'] eqn:E; cbn; [|done|].
  - pose proof (normalize_normal _ _ E) as Hnorm. apply last_normal in Hnorm.
    by destruct (last n') as [[]|].
  - by apply normalize_not_fail in E.
Qed.

(** * Strings and names *)

Lemma name_char_not (c d : byte) :
  is_name_char d = false -> is_name_char c = true -> c <> d.
Proof. congruence. Qed.

Lemma lead_name_char (c : byte) : is_lead_name_char c = true -> is_name_char c = true.
Proof. unfold is_name_char. by intros ->. Qed.

Lemma seg_ok_chars (s : NameSeg) :
  seg_ok s = true -> is_lead_name_char (seg0 s) = true /\ Forall (fun c => is_name_char c = true) (seg_as_str s).
Proof.
  unfold seg_ok, seg_as_str. intros [[[H0 H1]%andb_prop H2]%andb_prop H3]%andb_prop.
  split; [done|]. repeat constructor; auto using lead_name_char.
Qed.

Lemma seg_from_as_str (s : NameSeg) : seg_ok s = true -> seg_from_str (seg_as_str s) = Ok s.
Proof.
  unfold seg_ok, seg_from_str, seg_as_str. destruct s as [a b c d].
  cbn -[is_lead_name_char is_name_char].
  intros [[[-> ->]%andb_prop ->]%andb_prop ->]%andb_prop. done.
Qed.

Lemma seg_from_str_ok (str : bytes) (s : NameSeg) : seg_from_str str = Ok s -> seg_ok s = true.
Proof.
  unfold seg_from_str. destruct (_ || _); [done|]. destruct str as [|c rest]; [done|].
  destruct (is_lead_name_char c) eqn:Hc; [|done].
  destruct (forallb is_name_char rest) eqn:Hr; [|done]. intros [= <-].
  unfold seg_ok. cbn [seg0 seg1 seg2 seg3]. rewrite Hc. cbn.
  rewrite forallb_forall in Hr.
  assert (forall i, is_name_char (nth i rest "_"%byte) = true) as Hn.
  { intros i. destruct (nth_in_or_default i rest "_"%byte) as [Hin| ->]; [by apply Hr|done]. }
  by rewrite !Hn.
Qed.

Lemma split_on_nonempty c s : exists p ps, split_on c s = p :: ps.
Proof.
  destruct s as [|b s]; cbn; [eauto|]. case_bool_decide; [eauto|].
  destruct (split_on c s); eauto.
Qed.

Lemma split_on_app c p rest :
  c ∉ p -> split_on c (p ++ c :: rest) = p :: split_on c rest.
Proof.
  induction p as [|b p IH]; cbn; intros Hp.
  - by rewrite bool_decide_true.
  - rewrite bool_decide_false by set_solver. rewrite IH by set_solver. done.
Qed.

Lemma split_on_none c p : c ∉ p -> split_on c p = [p].
Proof.
  induction p as [|b p IH]; cbn; intros Hp; [done|].
  rewrite bool_decide_false by set_solver. by rewrite IH by set_solver.
Qed.

Lemma trim_end_app c a b : trim_end c b <> [] -> trim_end c (a ++ b) = a ++ trim_end c b.
Proof.
  intros Hb. induction a as [|x a IH]; [done|]. cbn. rewrite IH.
  destruct (a ++ trim_end c b) as [|y l] eqn:E; [|done].
  apply app_eq_nil in E as [_ E]. done.
Qed.

Lemma seg_not_in (s : NameSeg) (d : byte) :
  is_name_char d = false -> seg_ok s = true -> d ∉ seg_as_str s.
Proof.
  intros Hd Hs Hin. apply seg_ok_chars in Hs as [_ Hs].
  rewrite Forall_forall in Hs. apply Hs in Hin. congruence.
Qed.

Lemma body_str_nonempty cs : body_ok cs = true -> body_str cs <> [].
Proof. destruct cs as [|[] []]; done. Qed.

Lemma print_fold n acc :
  fold_left (fun acc c => acc ++ component_as_str c) n acc =
  acc ++ concat (map component_as_str n).
Proof.
  revert acc. induction n as [|c n IH]; intros acc; cbn; [by rewrite app_nil_r|].
  by rewrite IH, app_assoc.
Qed.

Lemma trim_seg (s : NameSeg) :
  seg_ok s = true -> trim_end "." (seg_as_str s ++ ["."%byte]) = seg_as_str s.
Proof.
  intros Hs. unfold seg_as_str.
  change ([seg0 s; seg1 s; seg2 s; seg3 s] ++ ["."%byte])
    with ([seg0 s; seg1 s; seg2 s] ++ [seg3 s; "."%byte]).
  assert (trim_end "." [seg3 s; "."%byte] = [seg3 s]) as E.
  { cbn. rewrite bool_decide_true by done. rewrite bool_decide_false; [done|].
    intros E. assert ("."%byte ∈ seg_as_str s) as Hin by (unfold seg_as_str; rewrite E; set_solver).
    by apply seg_not_in in Hin. }
  rewrite trim_end_app; rewrite E; done.
Qed.

Lemma trim_body cs :
  body_ok cs = true -> trim_end "." (concat (map component_as_str cs)) = body_str cs.
Proof.
  induction cs as [|c cs IH]; [done|]. intros H.
  destruct cs as [|c' cs].
  - destruct c as [| |s]; [done|done|]. cbn [map concat component_as_str].
    rewrite app_nil_r. by apply trim_seg.
  - assert (body_ok (c' :: cs) = true) as Hcs.
    { destruct c; [done|done|]. by apply andb_prop in H as [_ H]. }
    specialize (IH Hcs). pose proof (body_str_nonempty _ Hcs) as Hne.
    cbn [map concat] in IH |- *. rewrite trim_end_app by (by rewrite IH). rewrite IH.
    destruct c; [done|done|]. cbn [component_as_str]. by rewrite <-app_assoc.
Qed.

Lemma as_string_body cs : body_ok cs = true -> as_string cs = body_str cs.
Proof. intros H. unfold as_string. rewrite print_fold, app_nil_l. by apply trim_body. Qed.

Lemma as_string_root cs : body_ok cs = true -> as_string (Root :: cs) = "\"%byte :: body_str cs.
Proof.
  intros H. unfold as_string. rewrite print_fold, app_nil_l. cbn [map concat component_as_str].
  rewrite trim_end_app; rewrite trim_body by done; [done|by apply body_str_nonempty].
Qed.

Lemma part_components_seg (s : NameSeg) :
  seg_ok s = true -> part_components (seg_as_str s) = Ok [Segment s].
Proof.
  intros Hs. unfold seg_as_str at 1. cbn [part_components].
  rewrite bool_decide_false.
  - change [seg0 s; seg1 s; seg2 s; seg3 s] with (seg_as_str s).
    by rewrite seg_from_as_str.
  - apply seg_ok_chars in Hs as [Hs _]. intros E. by rewrite E in Hs.
Qed.

Lemma parts_body_str cs :
  body_ok cs = true -> parts_components (split_on "." (body_str cs)) = Ok cs.
Proof.
  induction cs as [|c cs IH]; [done|]. intros H.
  destruct c as [| |s]; [done| |].
  - assert (body_ok cs = true) as Hcs by (by destruct cs).
    specialize (IH Hcs). destruct (split_on_nonempty "." (body_str cs)) as (p & ps & E).
    replace (body_str (Prefix :: cs)) with ("^"%byte :: body_str cs) by (by destruct cs).
    cbn. rewrite E in IH |- *. rewrite bool_decide_false by done. cbn in IH |- *.
    rewrite bool_decide_true by done.
    destruct (part_components p) as [cs1| |]; [|done|done]. cbn in IH |- *.
    destruct (parts_components ps) as [cs2| |]; [|done|done]. cbn in IH |- *. congruence.
  - destruct cs as [|c' cs].
    + change (seg_ok s = true) in H. change (body_str [Segment s]) with (seg_as_str s).
      rewrite split_on_none by (by apply seg_not_in).
      cbn [parts_components]. by rewrite part_components_seg.
    + change (seg_ok s && body_ok (c' :: cs) = true) in H.
      apply andb_prop in H as [Hs Hcs]. specialize (IH Hcs).
      change (body_str (Segment s :: c' :: cs))
        with (seg_as_str s ++ "."%byte :: body_str (c' :: cs)).
      rewrite split_on_app by (by apply seg_not_in).
      cbn [parts_components]. rewrite part_components_seg by done. by rewrite IH.
Qed.

Lemma body_str_head cs c r : body_ok cs = true -> body_str cs = c :: r -> c <> "\"%byte.
Proof.
  destruct cs as [|[| |s] cs]; [done|done| |].
  - intros _ H. replace (body_str (Prefix :: cs)) with ("^"%byte :: body_str cs) in H
      by (by destruct cs). congruence.
  - intros H E. assert (seg_ok s = true) as Hs.
    { destruct cs; [done|]. by apply andb_prop in H as [? _]. }
    apply seg_ok_chars in Hs as [Hs _].
    assert (c = seg0 s) as -> by (destruct cs; cbn in E; unfold seg_as_str in E; cbn in E; congruence).
    intros E'. by rewrite E' in Hs.
Qed.

Lemma name_from_body cs : body_ok cs = true -> name_from_str (body_str cs) = Ok cs.
Proof.
  intros H. pose proof (parts_body_str cs H) as Hp. unfold name_from_str.
  destruct (body_str cs) as [|c r] eqn:E; [by apply body_str_nonempty in E|].
  rewrite bool_decide_false by (by eapply body_str_head). by rewrite Hp.
Qed.

Lemma name_from_root_body cs :
  body_ok cs = true -> name_from_str ("\"%byte :: body_str cs) = Ok (Root :: cs).
Proof.
  intros H. pose proof (parts_body_str cs H) as Hp. unfold name_from_str.
  rewrite bool_decide_true by done.
  destruct (body_str cs) as [|c r] eqn:E; [by apply body_str_nonempty in E|].
  by rewrite Hp.
Qed.

Lemma part_components_ok p cs : part_components p = Ok cs -> body_ok cs = true.
Proof.
  revert cs. induction p as [|c p IH]; intros cs; cbn; [done|].
  case_bool_decide.
  - destruct (part_components p) as [cs'| |]; cbn; [|done|done]. intros [= <-].
    specialize (IH _ eq_refl). by destruct cs'.
  - destruct (seg_from_str (c :: p)) as [s| |] eqn:E; cbn; [|done|done]. intros [= <-].
    by eapply seg_from_str_ok.
Qed.

Lemma body_ok_app a b : body_ok a = true -> body_ok b = true -> body_ok (a ++ b) = true.
Proof.
  intros Ha Hb. induction a as [|c a IH]; [done|].
  destruct c as [| |s]; [done| |].
  - assert (body_ok a = true) by (by destruct a). apply IH in H. cbn. by destruct (a ++ b).
  - destruct a as [|c' a].
    + cbn in Ha |- *. by destruct b; [|rewrite Ha, Hb].
    + change (seg_ok s && body_ok (c' :: a) = true) in Ha. apply andb_prop in Ha as [Hs Ha].
      change (seg_ok s && body_ok ((c' :: a) ++ b) = true). by rewrite Hs, IH.
Qed.

Lemma parts_components_ok p ps cs : parts_components (p :: ps) = Ok cs -> body_ok cs = true.
Proof.
  revert p cs. induction ps as [|q ps IH]; intros p cs; cbn [parts_components].
  - destruct (part_components p) as [c1| |] eqn:E; cbn; [|done|done]. intros [= <-].
    rewrite app_nil_r. by eapply part_components_ok.
  - destruct (part_components p) as [c1| |] eqn:E; cbn; [|done|done].
    specialize (IH q). cbn [parts_components] in IH. unfold result_bind at 1 in IH.
    destruct (part_components q) as [c2| |]; cbn in *; [|done|done].
    destruct (parts_components ps) as [c3| |]; cbn in *; [|done|done]. intros [= <-].
    apply body_ok_app; [by eapply part_components_ok|]. by apply IH.
Qed.

Lemma name_ok_body cs : body_ok cs = true -> name_ok cs = true.
Proof. by destruct cs as [|[]]. Qed.
Lemma name_ok_root cs : body_ok cs = true -> name_ok (Root :: cs) = true.
Proof. by destruct cs. Qed.

(** * Resolution of parsed names *)

(** The names that [name_string] produces below a scope: [k] times [^], then segments. *)
Lemma normalize_fold_pops w (path : list NameSeg) (k : nat) (rest : AmlName) :
  (k <= length path)%nat ->
  normalize_fold w (Root :: map Segment path) (replicate k Prefix ++ rest) =
  normalize_fold w (Root :: map Segment (take (length path - k) path)) rest.
Proof.
  revert path. induction k as [|k IH]; intros path Hk.
  - by rewrite Nat.sub_0_r, firstn_all.
  - destruct path as [|s path' _] using rev_ind; [cbn in Hk; lia|].
    rewrite length_app in *. cbn [length] in *. cbn [replicate app normalize_fold].
    rewrite map_app. cbn [map]. rewrite app_comm_cons, last_snoc, removelast_snoc.
    rewrite IH by lia.
    replace (length path' + 1 - S k)%nat with (length path' - k)%nat by lia.
    by rewrite take_app_le by lia.
Qed.

Lemma normalize_fold_underflow w (path : list NameSeg) (k : nat) (rest : AmlName) :
  (length path < k)%nat ->
  normalize_fold w (Root :: map Segment path) (replicate k Prefix ++ rest) =
  Err (InvalidNormalizedName w).
Proof.
  intros Hk. replace k with (length path + S (k - length path - 1))%nat by lia.
  rewrite replicate_add, <-app_assoc, normalize_fold_pops by lia.
  by rewrite Nat.sub_diag.
Qed.

Lemma is_normal_segments (l : list NameSeg) : is_normal (map Segment l) = true.
Proof. by induction l. Qed.

Lemma is_normal_prefixes (k : nat) (l : AmlName) : is_normal (replicate (S k) Prefix ++ l) = false.
Proof. done. Qed.

Lemma resolve_prefixes (k : nat) (segs path : list NameSeg) :
  resolve (replicate k Prefix ++ map Segment segs) (Root :: map Segment path) =
  if (k <=? length path)%nat then
    Ok (Root :: map Segment (take (length path - k) path ++ segs))
  else
    Err (InvalidNormalizedName
           (Root :: map Segment path ++ replicate k Prefix ++ map Segment segs)).
Proof.
  unfold resolve. cbn [assert_ is_absolute result_bind].
  assert (is_absolute (replicate k Prefix ++ map Segment segs) = false) as ->
    by (destruct k; [by destruct segs|done]).
  destruct (Nat.leb_spec k (length path)) as [Hk|Hk].
  - apply normalize_as_fold. cbn [app normalize_fold]. rewrite normalize_fold_app.
    rewrite normalize_fold_normal by apply is_normal_segments. cbn [result_bind app].
    rewrite normalize_fold_pops by done.
    rewrite normalize_fold_normal by apply is_normal_segments. by rewrite map_app.
  - destruct k as [|k]; [lia|]. unfold normalize. cbn [app].
    assert (is_normal (Root :: map Segment path ++ replicate (S k) Prefix ++ map Segment segs) = false) as ->.
    { change (Root :: map Segment path ++ replicate (S k) Prefix ++ map Segment segs)
        with ((Root :: map Segment path) ++ replicate (S k) Prefix ++ map Segment segs).
      rewrite is_normal_app, is_normal_prefixes. by rewrite andb_false_r. }
    cbn [app normalize_fold]. rewrite normalize_fold_app.
    rewrite normalize_fold_normal by apply is_normal_segments. cbn [result_bind app].
    by apply normalize_fold_underflow.
Qed.

(** * Properties *)

(** C21: [normalize] computes normal forms of the rule that a [^] cancels the
    segment before it: it succeeds with [m] exactly when [n] reduces to [m] and
    [m] has no [^] left; otherwise it reports the name it was given, and no
    reduction of [n] gets rid of all its [^]s. It never panics. *)
Theorem normalize_spec (n : AmlName) :
  (forall m, normalize n = Ok m <-> rtc cancel n m /\ is_normal m = true) /\
  (forall e, normalize n = Err e ->
     e = InvalidNormalizedName n /\ forall m, rtc cancel n m -> is_normal m = false) /\
  (forall r, normalize n <> Fail r).
Proof.
  assert (forall m, normalize n = Ok m <-> rtc cancel n m /\ is_normal m = true) as Hok.
  { intros m. split.
    - intros H. split; [|by eapply normalize_normal]. apply normalize_as_fold in H.
      by apply normalize_fold_cancels in H.
    - intros [H1 H2]. apply normalize_as_fold. by apply rtc_cancel_normalize. }
  split; [done|]. split; [|intros r; apply normalize_not_fail].
  intros e He. split.
  - unfold normalize in He. destruct (is_normal n); [done|].
    assert (forall w name cs, normalize_fold w name cs = Err e -> e = InvalidNormalizedName w) as Hf.
    { intros w name cs. revert name. induction cs as [|c cs IH]; intros name; [done|].
      destruct c; cbn; [apply IH| |apply IH].
      destruct (last name) as [[| |s]|]; [by intros [= <-]..|apply IH|by intros [= <-]]. }
    by eapply Hf.
  - intros m Hm. destruct (is_normal m) eqn:E; [|done].
    assert (normalize n = Ok m) by (by apply Hok). congruence.
Qed.

(** C36: Printing and parsing of names are inverse: a well-formed name is parsed
    back from its string, and every name that parses is well-formed (so that it
    survives printing and parsing again). *)
Theorem name_string_roundtrip (n : AmlName) :
  (name_ok n = true -> name_from_str (as_string n) = Ok n) /\
  (forall s, name_from_str s = Ok n -> name_ok n = true).
Proof.
  split.
  - intros H. destruct n as [|[| |s] cs]; [done| | |].
    + destruct cs as [|c cs]; [done|]. rewrite as_string_root by done.
      by apply name_from_root_body.
    + rewrite as_string_body by done. by apply name_from_body.
    + rewrite as_string_body by done. by apply name_from_body.
  - intros s. unfold name_from_str. destruct s as [|c s]; [done|].
    case_bool_decide.
    + destruct s as [|c' s]; [by intros [= <-]|].
      destruct (split_on_nonempty "." (c' :: s)) as (p & ps & E). rewrite E.
      destruct (parts_components (p :: ps)) as [cs| |] eqn:E'; cbn; [|done|done].
      intros [= <-]. apply name_ok_root. by eapply parts_components_ok.
    + destruct (split_on_nonempty "." (c :: s)) as (p & ps & E). rewrite E.
      destruct (parts_components (p :: ps)) as [cs| |] eqn:E'; cbn; [|done|done].
      intros [= <-]. apply name_ok_body. by eapply parts_components_ok.
Qed.

(** Resolving a relative name of [k] [^]s and some segments against a scope
    goes up [k] levels and then down the segments; it is an error, with the
    unresolved path, exactly when the scope has fewer than [k] levels. *)
Theorem resolve_relative (k : nat) (segs path : list NameSeg) :
  resolve (replicate k Prefix ++ map Segment segs) (Root :: map Segment path) =
  if (k <=? length path)%nat then
    Ok (Root :: map Segment (take (length path - k) path ++ segs))
  else
    Err (InvalidNormalizedName
           (Root :: map Segment path ++ replicate k Prefix ++ map Segment segs)).
Proof. apply resolve_prefixes. Qed.

Lemma normalize_spec_witness :
  let foo := Segment (MkSeg x46 x4f x4f x5f) in
  normalize [Root; foo; Prefix; foo] = Ok [Root; foo] /\ rtc cancel [Root; foo; Prefix; foo] [Root; foo].
Proof.
  cbv zeta. destruct (normalize_spec [Root; Segment (MkSeg x46 x4f x4f x5f); Prefix;
    Segment (MkSeg x46 x4f x4f x5f)]) as [H _].
  assert (normalize [Root; Segment (MkSeg x46 x4f x4f x5f); Prefix; Segment (MkSeg x46 x4f x4f x5f)]
    = Ok [Root; Segment (MkSeg x46 x4f x4f x5f)]) as E by (vm_compute; reflexivity).
  split; [exact E|]. apply H, E.
Defined.

Lemma name_string_roundtrip_witness :
  let n := [Root; Prefix; Segment (MkSeg x46 x4f x4f x5f)] in
  name_ok n = true /\ name_from_str (as_string n) = Ok n.
Proof.
  cbv zeta. destruct (name_string_roundtrip [Root; Prefix; Segment (MkSeg x46 x4f x4f x5f)]) as [H _].
  split; [reflexivity|]. apply H. reflexivity.
Defined.
