(* ===== verification/Namespace.v ===== *)
(** The AML namespace ([aml/src/namespace.rs]): a tree of levels, each with the
    handles of the values it holds, and the map from handles to values; the
    operations that add, remove, look up and search for levels and values. *)
From S2P Require Import Prelude Types Names.
#[local] Open Scope Z_scope.

(** * Ordered maps keyed by name segments ([BTreeMap<NameSeg, V>]) *)

(** The order of [[u8; 4]]. *)
Definition seg_compare (a b : NameSeg) : comparison :=
  match Z.compare (u8 (seg0 a)) (u8 (seg0 b)) with
  | Eq => match Z.compare (u8 (seg1 a)) (u8 (seg1 b)) with
          | Eq => match Z.compare (u8 (seg2 a)) (u8 (seg2 b)) with
                  | Eq => Z.compare (u8 (seg3 a)) (u8 (seg3 b))
                  | c => c
                  end
          | c => c
          end
  | c => c
  end.

Section BTreeMap.
Context {V : Type}.

Fixpoint bt_get (k : NameSeg) (m : list (NameSeg * V)) : option V :=
  match m with
  | [] => None
  | (k', v) :: m => if decide (k = k') then Some v else bt_get k m
  end.

Fixpoint bt_insert (k : NameSeg) (v : V) (m : list (NameSeg * V)) : list (NameSeg * V) :=
  match m with
  | [] => [(k, v)]
  | (k', v') :: m' =>
      match seg_compare k k' with
      | Eq => (k, v) :: m'
      | Lt => (k, v) :: m
      | Gt => (k', v') :: bt_insert k v m'
      end
  end.

Definition bt_remove (k : NameSeg) (m : list (NameSeg * V)) : list (NameSeg * V) :=
  filter (fun kv => kv.1 <> k) m.
End BTreeMap.

(** * Data *)

Inductive LevelType :=
  | LScope | LDevice | LProcessor | LPowerResource | LThermalZone | LMethodLocals.

#[export] Instance LevelType_eq_dec : EqDecision LevelType.
Proof. solve_decision. Defined.

Inductive NamespaceLevel :=
  MkLevel (typ : LevelType)
          (children : list (NameSeg * NamespaceLevel))
          (values : list (NameSeg * AmlHandle)).

Definition level_typ (l : NamespaceLevel) := let '(MkLevel t _ _) := l in t.
Definition children (l : NamespaceLevel) := let '(MkLevel _ c _) := l in c.
Definition values (l : NamespaceLevel) := let '(MkLevel _ _ v) := l in v.

(** [NamespaceLevel::new] *)
Definition new_level (typ : LevelType) : NamespaceLevel := MkLevel typ [] [].

Record Namespace := MkNamespace {
  next_handle : AmlHandle;
  object_map : gmap AmlHandle AmlValue;
  root_level : NamespaceLevel
}.

(** [Namespace::new] *)
Definition new_namespace : Namespace := MkNamespace 0 ∅ (new_level LScope).

Definition set_root_level (l : NamespaceLevel) (ns : Namespace) : Namespace :=
  MkNamespace (next_handle ns) (object_map ns) l.
Definition set_object_map (m : gmap AmlHandle AmlValue) (ns : Namespace) : Namespace :=
  MkNamespace (next_handle ns) m (root_level ns).

(** * Paths *)

(** [get_level_for_path]: the components above the last one, and the last segment. *)
Definition split_path (path : AmlName) : result AmlError (list NameComponent * NameSeg) :=
  let? _ := assert_ (negb (bool_decide (path = root))) in
  match path with
  | [] => Fail Panic
  | _ :: rest =>
      let? c := unwrap (last rest) in
      let? s := unwrap (as_segment c) in
      Ok (removelast rest, s)
  end.

(** The loop of [get_level_for_path] over the levels of the path. *)
Fixpoint descend (traversed : AmlName) (l : NamespaceLevel) (levels : list NameComponent)
    : result AmlError NamespaceLevel :=
  match levels with
  | [] => Ok l
  | c :: levels =>
      let traversed := traversed ++ [c] in
      let? s := unwrap (as_segment c) in
      let? child := ok_or (LevelDoesNotExist traversed) (bt_get s (children l)) in
      descend traversed child levels
  end.

(** [Namespace::get_level_for_path] *)
Definition get_level_for_path (ns : Namespace) (path : AmlName)
    : result AmlError (NamespaceLevel * NameSeg) :=
  let? (levels, last_seg) := split_path path in
  let? level := descend root (root_level ns) levels in
  Ok (level, last_seg).

(** What the code writes through the [&mut NamespaceLevel] that
    [get_level_for_path_mut] returns for the same path. *)
Fixpoint update_level (l : NamespaceLevel) (levels : list NameComponent)
    (f : NamespaceLevel -> NamespaceLevel) : NamespaceLevel :=
  match levels with
  | [] => f l
  | Segment s :: levels =>
      match bt_get s (children l) with
      | Some child =>
          MkLevel (level_typ l) (bt_insert s (update_level child levels f) (children l)) (values l)
      | None => l
      end
  | _ :: _ => l
  end.

Definition insert_child (s : NameSeg) (c : NamespaceLevel) (l : NamespaceLevel) :=
  MkLevel (level_typ l) (bt_insert s c (children l)) (values l).
Definition remove_child (s : NameSeg) (l : NamespaceLevel) :=
  MkLevel (level_typ l) (bt_remove s (children l)) (values l).
Definition insert_handle (s : NameSeg) (h : AmlHandle) (l : NamespaceLevel) :=
  MkLevel (level_typ l) (children l) (bt_insert s h (values l)).

(** [Namespace::get_level_for_path_mut], followed by a write of the level. *)
Definition get_level_for_path_mut (path : AmlName) : SE Namespace AmlError (NamespaceLevel * NameSeg) :=
  let! ns := se_get in se_lift (get_level_for_path ns path).
Definition write_level (path : AmlName) (f : NamespaceLevel -> NamespaceLevel)
    : SE Namespace AmlError unit :=
  let! (levels, _) := se_lift (split_path path) in
  se_modify (fun ns => set_root_level (update_level (root_level ns) levels f) ns).

(** * Operations *)

Section Operations.
Context {tgt : Target}.

(** [Namespace::add_level] *)
Definition add_level (path : AmlName) (typ : LevelType) : SE Namespace AmlError unit :=
  do! se_lift (assert_ (is_absolute path)) in
  let! path := se_lift (normalize path) in
  if bool_decide (path = root) then se_ret tt
  else
    let! (level, last_seg) := get_level_for_path_mut path in
    match bt_get last_seg (children level) with
    | None => write_level path (insert_child last_seg (new_level typ))
    | Some _ => se_ret tt
    end.

(** [Namespace::remove_level] *)
Definition remove_level (path : AmlName) : SE Namespace AmlError unit :=
  do! se_lift (assert_ (is_absolute path)) in
  let! path := se_lift (normalize path) in
  if bool_decide (path = root) then se_err TriedToRemoveRootNamespace
  else
    let! (level, last_seg) := get_level_for_path_mut path in
    match bt_get last_seg (children level) with
    | Some _ => write_level path (remove_child last_seg)
    | None => se_err (LevelDoesNotExist path)
    end.

(** [AmlHandle::increment] and the insertion into the object map. *)
Definition add_object (value : AmlValue) : SE Namespace AmlError AmlHandle :=
  let! handle := se_gets next_handle in
  let! next := se_lift (add_w 32 handle 1) in
  do! se_modify (fun ns =>
        MkNamespace next (<[handle := value]> (object_map ns)) (root_level ns)) in
  se_ret handle.

(** [Namespace::add_value] *)
Definition add_value (path : AmlName) (value : AmlValue) : SE Namespace AmlError AmlHandle :=
  do! se_lift (assert_ (is_absolute path)) in
  let! path := se_lift (normalize path) in
  let! handle := add_object value in
  let! (level, last_seg) := get_level_for_path_mut path in
  do! write_level path (insert_handle last_seg handle) in
  match bt_get last_seg (values level) with
  | None => se_ret handle
  | Some _ => se_err (NameCollision path)
  end.

(** [Namespace::add_value_at_resolved_path] *)
Definition add_value_at_resolved_path (path scope : AmlName) (value : AmlValue)
    : SE Namespace AmlError AmlHandle :=
  let! path := se_lift (resolve path scope) in
  add_value path value.
End Operations.

(** [Namespace::get] *)
Definition ns_get (ns : Namespace) (h : AmlHandle) : result AmlError AmlValue :=
  unwrap (object_map ns !! h).

(** [*Namespace::get_mut(h)? = v] *)
Definition ns_set (h : AmlHandle) (v : AmlValue) : SE Namespace AmlError unit :=
  let! ns := se_get in
  do! se_lift (ns_get ns h) in
  se_modify (fun ns => set_object_map (<[h := v]> (object_map ns)) ns).

(** [Namespace::get_handle] *)
Definition get_handle (ns : Namespace) (path : AmlName) : result AmlError AmlHandle :=
  let? (level, last_seg) := get_level_for_path ns path in
  ok_or (ValueDoesNotExist path) (bt_get last_seg (values level)).

(** [Namespace::get_by_path] *)
Definition get_by_path (ns : Namespace) (path : AmlName) : result AmlError AmlValue :=
  let? handle := get_handle ns path in
  ns_get ns handle.

(** The loop of [Namespace::search] over the scope and its parents. *)
Fixpoint search_loop (fuel : nat) (ns : Namespace) (path scope : AmlName)
    : result AmlError (AmlName * AmlHandle) :=
  match fuel with
  | O => Fail OutOfFuel
  | S fuel =>
      let? name := resolve path scope in
      let go_up :=
        match parent scope with
        | Ok p => search_loop fuel ns path p
        | Err RootHasNoParent => Err (ValueDoesNotExist path)
        | Err e => Err e
        | Fail r => Fail r
        end in
      match get_level_for_path ns name with
      | Ok (level, last_seg) =>
          match bt_get last_seg (values level) with
          | Some handle => Ok (name, handle)
          | None => go_up
          end
      | Err (LevelDoesNotExist _) => go_up
      | Err e => Err e
      | Fail r => Fail r
      end
  end.

(** [Namespace::search] *)
Definition search (ns : Namespace) (path starting_scope : AmlName)
    : result AmlError (AmlName * AmlHandle) :=
  if search_rules_apply path then
    let? _ := assert_ (is_absolute starting_scope) in
    search_loop (S (length starting_scope)) ns path starting_scope
  else
    let? name := resolve path starting_scope in
    let? (level, last_seg) := get_level_for_path ns name in
    match bt_get last_seg (values level) with
    | Some handle => Ok (name, handle)
    | None => Err (ValueDoesNotExist path)
    end.

(** The loop of [Namespace::search_for_level]. *)
Fixpoint search_for_level_loop (fuel : nat) (ns : Namespace) (level_name scope : AmlName)
    : result AmlError AmlName :=
  match fuel with
  | O => Fail OutOfFuel
  | S fuel =>
      let? name := resolve level_name scope in
      let go_up :=
        match parent scope with
        | Ok p => search_for_level_loop fuel ns level_name p
        | Err RootHasNoParent => Err (LevelDoesNotExist level_name)
        | Err e => Err e
        | Fail r => Fail r
        end in
      match get_level_for_path ns name with
      | Ok (level, last_seg) =>
          match bt_get last_seg (children level) with
          | Some _ => Ok name
          | None => go_up
          end
      | Err _ => go_up
      | Fail r => Fail r
      end
  end.

(** [Namespace::search_for_level] *)
Definition search_for_level (ns : Namespace) (level_name starting_scope : AmlName)
    : result AmlError AmlName :=
  if search_rules_apply level_name then
    let? scope := normalize starting_scope in
    let? _ := assert_ (is_absolute scope) in
    search_for_level_loop (S (length scope)) ns level_name scope
  else Ok level_name.

Section Traverse.
Context {S : Type} (f : AmlName -> NamespaceLevel -> SE S AmlError bool).

(** [traverse_level] *)
Fixpoint traverse_level (level : NamespaceLevel) (scope : AmlName) {struct level}
    : SE S AmlError unit :=
  let '(MkLevel _ cs _) := level in
  (fix go (cs : list (NameSeg * NamespaceLevel)) : SE S AmlError unit :=
     match cs with
     | [] => se_ret tt
     | (name, child) :: cs =>
         let! name := se_lift (resolve (from_name_seg name) scope) in
         let! traverse_children := f name child in
         do! (if traverse_children : bool then traverse_level child name else se_ret tt) in
         go cs
     end) cs.

(** [Namespace::traverse] *)
Definition traverse (ns : Namespace) : SE S AmlError unit :=
  let! traverse_children := f root (root_level ns) in
  if traverse_children : bool then traverse_level (root_level ns) root else se_ret tt.
End Traverse.

(** * Specification *)

(** The absolute, normal name of a list of segments. *)
Definition abs (p : list NameSeg) : AmlName := Root :: map Segment p.

Fixpoint level_at (l : NamespaceLevel) (p : list NameSeg) : option NamespaceLevel :=
  match p with
  | [] => Some l
  | s :: p => bt_get s (children l) ≫= fun c => level_at c p
  end.

(** The abstract namespace: the kind of level at every path, and the handle of
    every name in a level. *)
Definition ns_level (ns : Namespace) (p : list NameSeg) : option LevelType :=
  level_typ <$> level_at (root_level ns) p.
Definition ns_lookup (ns : Namespace) (p : list NameSeg) (s : NameSeg) : option AmlHandle :=
  level_at (root_level ns) p ≫= fun l => bt_get s (values l).

(** The shortest prefix of a path at which there is no level. *)
Fixpoint missing (l : NamespaceLevel) (p : list NameSeg) : list NameSeg :=
  match p with
  | [] => []
  | s :: p =>
      match bt_get s (children l) with
      | Some c => s :: missing c p
      | None => [s]
      end
  end.

(** The scopes that [search] visits, innermost first. *)
Fixpoint ancestors_fuel (n : nat) (p : list NameSeg) : list (list NameSeg) :=
  match n with
  | O => [p]
  | S n => p :: ancestors_fuel n (removelast p)
  end.
Definition ancestors (p : list NameSeg) : list (list NameSeg) := ancestors_fuel (length p) p.

(** The first of the scopes that has a value of the given name. *)
Fixpoint nearest (ns : Namespace) (s : NameSeg) (scopes : list (list NameSeg))
    : option (list NameSeg * AmlHandle) :=
  match scopes with
  | [] => None
  | p :: ps =>
      match ns_lookup ns p s with
      | Some h => Some (p, h)
      | None => nearest ns s ps
      end
  end.

(** Every handle that the tree holds is in the object map. *)
Definition handles_valid (ns : Namespace) : Prop :=
  forall p s h, ns_lookup ns p s = Some h -> is_Some (object_map ns !! h).

(** The object map only has handles that were given out. *)
Definition handles_fresh (ns : Namespace) : Prop :=
  in_width 32 (next_handle ns) /\
  forall h, is_Some (object_map ns !! h) -> 0 <= h < next_handle ns.

Definition level_info (l : NamespaceLevel) := (level_typ l, values l).

(** * Lemmas on the ordered maps *)

Lemma seg_compare_eq (a b : NameSeg) : seg_compare a b = Eq <-> a = b.
Proof.
  unfold seg_compare. destruct a as [a0 a1 a2 a3], b as [b0 b1 b2 b3]. cbn. split.
  - destruct (Z.compare_spec (u8 a0) (u8 b0)) as [E0|?|?]; [|done..].
    destruct (Z.compare_spec (u8 a1) (u8 b1)) as [E1|?|?]; [|done..].
    destruct (Z.compare_spec (u8 a2) (u8 b2)) as [E2|?|?]; [|done..].
    intros E3%Z.compare_eq_iff. apply u8_inj in E0, E1, E2, E3. congruence.
  - intros [= -> -> -> ->]. by rewrite !Z.compare_refl.
Qed.

Lemma bt_get_insert {V} k k' (v : V) m :
  bt_get k (bt_insert k' v m) = if decide (k = k') then Some v else bt_get k m.
Proof.
  induction m as [|[k2 v2] m IH]; cbn; [done|].
  destruct (seg_compare k' k2) eqn:E.
  - apply seg_compare_eq in E as ->. cbn. by destruct (decide (k = k2)).
  - cbn. by destruct (decide (k = k')).
  - cbn. rewrite IH. destruct (decide (k = k2)) as [->|]; [|done].
    destruct (decide (k2 = k')) as [->|]; [|done].
    assert (seg_compare k' k' = Eq) by (by apply seg_compare_eq). congruence.
Qed.

Lemma bt_get_remove {V} k k' (m : list (NameSeg * V)) :
  bt_get k (bt_remove k' m) = if decide (k = k') then None else bt_get k m.
Proof.
  unfold bt_remove. induction m as [|[k2 v2] m IH]; [by cbn; destruct (decide (k = k'))|].
  rewrite filter_cons. cbn [fst bt_get]. destruct (decide (k2 <> k')) as [H|H].
  - cbn. destruct (decide (k = k2)) as [->|]; [by destruct (decide (k2 = k'))|done].
  - assert (k2 = k') as -> by (by destruct (decide (k2 = k'))). rewrite IH.
    by destruct (decide (k = k')).
Qed.

(** * Lemmas on paths *)

Lemma abs_snoc p s : abs (p ++ [s]) = abs p ++ [Segment s].
Proof. unfold abs. by rewrite map_app. Qed.

Lemma abs_not_root p s : abs (p ++ [s]) <> root.
Proof. unfold abs, root. destruct p; done. Qed.

Lemma abs_inj p q : abs p = abs q -> p = q.
Proof.
  unfold abs. intros [= H]. revert q H. induction p as [|a p IH]; intros [|b q]; try done.
  intros [= -> H]. f_equal. by apply IH.
Qed.

Lemma is_normal_abs p : is_normal (abs p) = true.
Proof. apply (is_normal_segments p). Qed.

Lemma normalize_abs p : normalize (abs p) = Ok (abs p).
Proof. apply normalize_id, is_normal_abs. Qed.

Lemma split_path_abs p s : split_path (abs (p ++ [s])) = Ok (map Segment p, s).
Proof.
  unfold split_path. rewrite bool_decide_false by apply abs_not_root. cbn.
  rewrite map_app. cbn. by rewrite last_snoc, removelast_snoc.
Qed.

Lemma descend_spec t l p :
  descend t l (map Segment p) =
  match level_at l p with
  | Some l' => Ok l'
  | None => Err (LevelDoesNotExist (t ++ map Segment (missing l p)))
  end.
Proof.
  revert t l. induction p as [|s p IH]; intros t l; [done|]. cbn.
  destruct (bt_get s (children l)) as [c|]; cbn; [|done].
  rewrite IH, <-app_assoc. by destruct (level_at c p).
Qed.

Lemma get_level_for_path_abs ns p s :
  get_level_for_path ns (abs (p ++ [s])) =
  match level_at (root_level ns) p with
  | Some l => Ok (l, s)
  | None => Err (LevelDoesNotExist (abs (missing (root_level ns) p)))
  end.
Proof.
  unfold get_level_for_path. rewrite split_path_abs. cbn. rewrite descend_spec.
  by destruct (level_at (root_level ns) p).
Qed.

Lemma level_at_app l p q : level_at l (p ++ q) = level_at l p ≫= fun l' => level_at l' q.
Proof.
  revert l. induction p as [|s p IH]; intros l; [done|]. cbn.
  destruct (bt_get s (children l)); [apply IH|done].
Qed.

Lemma missing_not_level l p : level_at l p = None -> level_at l (missing l p) = None.
Proof.
  revert l. induction p as [|s p IH]; intros l; [done|]. cbn.
  destruct (bt_get s (children l)) as [c|] eqn:E; cbn; intros H.
  - rewrite E. cbn. by apply IH.
  - by rewrite E.
Qed.

(** ** Updates of a level *)

Lemma update_level_at l p f lp q :
  level_at l p = Some lp ->
  level_at (update_level l (map Segment p) f) (p ++ q) = level_at (f lp) q.
Proof.
  revert l. induction p as [|s p IH]; intros l; cbn; [by intros [= ->]|].
  destruct (bt_get s (children l)) as [c|]; cbn; [|done]. intros H.
  rewrite bt_get_insert, decide_True by done. cbn. by apply IH.
Qed.

Lemma update_level_off l p f q :
  ¬ p `prefix_of` q ->
  level_info <$> level_at (update_level l (map Segment p) f) q = level_info <$> level_at l q.
Proof.
  revert l q. induction p as [|s p IH]; intros l q Hpq.
  - exfalso. apply Hpq. by exists q.
  - cbn. destruct (bt_get s (children l)) as [c|] eqn:E; [|done].
    destruct q as [|s' q]; [done|]. cbn. rewrite bt_get_insert.
    destruct (decide (s' = s)) as [->|]; [|done].
    rewrite E. cbn. apply IH. intros H. apply Hpq. by apply prefix_cons.
Qed.

Lemma ns_views_info ns ns' q :
  level_info <$> level_at (root_level ns') q = level_info <$> level_at (root_level ns) q ->
  ns_level ns' q = ns_level ns q /\ forall s, ns_lookup ns' q s = ns_lookup ns q s.
Proof.
  unfold ns_level, ns_lookup.
  destruct (level_at (root_level ns') q), (level_at (root_level ns) q); cbn; intros E; try done.
  injection E as E1 E2. rewrite E1, E2. done.
Qed.

Lemma ns_views_at ns p l :
  level_at (root_level ns) p = Some l ->
  ns_level ns p = Some (level_typ l) /\ forall s, ns_lookup ns p s = bt_get s (values l).
Proof. unfold ns_level, ns_lookup. by intros ->. Qed.

Lemma ns_level_None ns p : ns_level ns p = None <-> level_at (root_level ns) p = None.
Proof. unfold ns_level. by destruct (level_at (root_level ns) p). Qed.

(** An update of the level at [p] that keeps its kind and its children. *)
Lemma update_values_views ns p lp f :
  level_at (root_level ns) p = Some lp ->
  level_typ (f lp) = level_typ lp -> children (f lp) = children lp ->
  let ns' := set_root_level (update_level (root_level ns) (map Segment p) f) ns in
  (forall q, ns_level ns' q = ns_level ns q) /\
  (forall q t, ns_lookup ns' q t =
     if decide (q = p) then bt_get t (values (f lp)) else ns_lookup ns q t).
Proof.
  intros Hp Ht Hc ns'.
  assert (forall q, exists l', level_at (root_level ns') (p ++ q) = l' /\
            level_at (root_level ns) (p ++ q) = level_at lp q /\ l' = level_at (f lp) q) as Hin.
  { intros q. exists (level_at (f lp) q). cbn. rewrite (update_level_at _ _ _ _ _ Hp).
    by rewrite level_at_app, Hp. }
  split; [intros q|intros q t]; destruct (decide (p `prefix_of` q)) as [[r ->]|Hoff].
  - destruct (Hin r) as (l' & E1 & E2 & E3). unfold ns_level. rewrite E1, E2, E3.
    destruct r as [|x r]; cbn; [by rewrite Ht|by rewrite Hc].
  - by destruct (ns_views_info ns ns' q (update_level_off _ _ _ _ Hoff)) as [-> _].
  - destruct (Hin r) as (l' & E1 & E2 & E3). unfold ns_lookup. rewrite E1, E2, E3.
    destruct r as [|x r]; cbn.
    + by rewrite decide_True by (by rewrite app_nil_r).
    + rewrite decide_False; [by rewrite Hc|]. intros E.
      apply (f_equal length) in E. rewrite length_app in E. cbn in E. lia.
  - destruct (ns_views_info ns ns' q (update_level_off _ _ _ _ Hoff)) as [_ ->].
    rewrite decide_False; [done|]. intros ->. by apply Hoff.
Qed.

(** An update of the level at [p] that keeps its kind and its values, and
    changes the child [s] only. *)
Lemma update_child_views ns p lp f s :
  level_at (root_level ns) p = Some lp ->
  level_info (f lp) = level_info lp ->
  (forall t, t <> s -> bt_get t (children (f lp)) = bt_get t (children lp)) ->
  let ns' := set_root_level (update_level (root_level ns) (map Segment p) f) ns in
  (forall q, ¬ (p ++ [s]) `prefix_of` q ->
     ns_level ns' q = ns_level ns q /\ forall t, ns_lookup ns' q t = ns_lookup ns q t) /\
  (forall q, level_at (root_level ns') (p ++ s :: q) =
     bt_get s (children (f lp)) ≫= fun c => level_at c q).
Proof.
  intros Hp Hi Hc ns'. split.
  - intros q Hq. apply ns_views_info.
    destruct (decide (p `prefix_of` q)) as [[r ->]|Hoff]; [|by apply update_level_off].
    cbn. rewrite (update_level_at _ _ _ _ _ Hp), level_at_app, Hp. cbn.
    destruct r as [|x r]; cbn; [by rewrite Hi|]. rewrite Hc; [done|].
    intros ->. apply Hq. exists r. by rewrite <-app_assoc.
  - intros q. cbn. by rewrite (update_level_at _ _ _ _ _ Hp).
Qed.

(** A child is added where there was none. *)
Lemma add_child_views ns p s l new :
  level_at (root_level ns) p = Some l -> bt_get s (children l) = None ->
  let ns' := set_root_level (update_level (root_level ns) (map Segment p) (insert_child s new)) ns in
  (forall q, ¬ (p ++ [s]) `prefix_of` q ->
     ns_level ns' q = ns_level ns q /\ forall t, ns_lookup ns' q t = ns_lookup ns q t) /\
  (forall q, level_at (root_level ns') (p ++ s :: q) = level_at new q /\
     level_at (root_level ns) (p ++ s :: q) = None).
Proof.
  intros Hp Hc ns'.
  destruct (update_child_views ns p l (insert_child s new) s Hp eq_refl) as [Hoff Hon].
  { intros t Ht. cbn. by rewrite bt_get_insert, decide_False. }
  split; [exact Hoff|]. intros q. subst ns'. rewrite Hon, level_at_app, Hp. cbn.
  by rewrite bt_get_insert, decide_True, Hc by done.
Qed.

(** Every path at which [get_level_for_path] finds a level. *)
Lemma get_level_for_path_inv ns path l s :
  get_level_for_path ns path = Ok (l, s) ->
  exists c p, path = c :: map Segment (p ++ [s]) /\ level_at (root_level ns) p = Some l /\
    split_path path = Ok (map Segment p, s).
Proof.
  unfold get_level_for_path. destruct (split_path path) as [[levels s']| |] eqn:E; cbn; [|done|done].
  unfold split_path, assert_ in E. destruct (negb _); cbn in E; [|done].
  destruct path as [|c rest]; [done|].
  destruct (last rest) as [[| |x]|] eqn:Hl; cbn in E; try done. injection E as E1 E2.
  apply last_Some_removelast in Hl. rewrite E1, E2 in Hl. clear E1 E2.
  destruct (descend root (root_level ns) levels) as [l'| |] eqn:Ed; cbn; [|done|done].
  intros [= -> ->].
  enough (exists p, levels = map Segment p /\ level_at (root_level ns) p = Some l) as (p & -> & Hp).
  { exists c, p. rewrite map_app. cbn. rewrite <-Hl. done. }
  clear Hl. revert Ed. generalize root as t. generalize (root_level ns) as lv.
  induction levels as [|[| |y] levels IH]; intros lv t; cbn.
  - intros [= ->]. by exists [].
  - done.
  - done.
  - destruct (bt_get y (children lv)) as [c'|] eqn:Ey; cbn; [|done]. intros H.
    destruct (IH _ _ H) as (p & -> & Hp). exists (y :: p). cbn. by rewrite Ey.
Qed.

(** * The operations on the abstract namespace *)

Section OperationLemmas.
Context {tgt : Target}.

Lemma add_object_eq ns v :
  0 <= next_handle ns -> next_handle ns + 1 < 2 ^ 32 ->
  add_object v ns =
    SOk (next_handle ns)
      (MkNamespace (next_handle ns + 1) (<[next_handle ns := v]> (object_map ns)) (root_level ns)).
Proof.
  intros H0 H1. unfold add_object, se_bind, se_gets, se_lift, add_w.
  rewrite checked_exact by (unfold in_width; lia). done.
Qed.

Lemma write_level_eq ns path levels s f :
  split_path path = Ok (levels, s) ->
  write_level path f ns = SOk tt (set_root_level (update_level (root_level ns) levels f) ns).
Proof. unfold write_level, se_bind, se_lift. by intros ->. Qed.

Lemma write_child_lookup ns p lp f s :
  level_at (root_level ns) p = Some lp ->
  level_info (f lp) = level_info lp ->
  (forall t, t <> s -> bt_get t (children (f lp)) = bt_get t (children lp)) ->
  (forall c q t, bt_get s (children (f lp)) = Some c ->
     level_at c q ≫= (fun l => bt_get t (values l)) = None) ->
  forall q t h,
    ns_lookup (set_root_level (update_level (root_level ns) (map Segment p) f) ns) q t = Some h ->
    ns_lookup ns q t = Some h.
Proof.
  intros Hp Hi Hc Hnew q t h.
  destruct (update_child_views ns p lp f s Hp Hi Hc) as [Hoff Hon].
  destruct (decide ((p ++ [s]) `prefix_of` q)) as [[r ->]|Hq].
  - rewrite <-app_assoc. change ([s] ++ r) with (s :: r). unfold ns_lookup at 1. rewrite Hon.
    destruct (bt_get s (children (f lp))) as [c|] eqn:E; cbn; [|done].
    rewrite (Hnew c r t eq_refl). done.
  - destruct (Hoff q Hq) as [_ ->]. done.
Qed.

(** The tree operations never make up a handle. *)
Lemma add_level_views path typ ns :
  match add_level path typ ns with
  | SOk _ ns' | SErr _ ns' =>
      object_map ns' = object_map ns /\ next_handle ns' = next_handle ns /\
      forall q t h, ns_lookup ns' q t = Some h -> ns_lookup ns q t = Some h
  | SFail _ => True
  end.
Proof.
  unfold add_level, se_bind, se_lift, assert_.
  destruct (is_absolute path); [|done].
  destruct (normalize path) as [path'| |]; [|done|done].
  case_bool_decide; [done|]. unfold get_level_for_path_mut, se_bind, se_get, se_lift.
  destruct (get_level_for_path ns path') as [[l s]| |] eqn:E; [|done|done].
  apply get_level_for_path_inv in E as (c & p & -> & Hp & Hs).
  destruct (bt_get s (children l)) eqn:Ec; [done|].
  rewrite (write_level_eq _ _ _ _ _ Hs). split; [done|]. split; [done|].
  eapply (write_child_lookup ns p l _ s); [done|done| |].
  - intros t Ht. cbn. by rewrite bt_get_insert, decide_False.
  - intros c' q t. cbn. rewrite bt_get_insert, decide_True by done. intros [= <-].
    by destruct q.
Qed.

Lemma remove_level_views path ns :
  match remove_level path ns with
  | SOk _ ns' | SErr _ ns' =>
      object_map ns' = object_map ns /\ next_handle ns' = next_handle ns /\
      forall q t h, ns_lookup ns' q t = Some h -> ns_lookup ns q t = Some h
  | SFail _ => True
  end.
Proof.
  unfold remove_level, se_bind, se_lift, assert_.
  destruct (is_absolute path); [|done].
  destruct (normalize path) as [path'| |]; [|done|done].
  case_bool_decide; [done|]. unfold get_level_for_path_mut, se_bind, se_get, se_lift.
  destruct (get_level_for_path ns path') as [[l s]| |] eqn:E; [|done|done].
  apply get_level_for_path_inv in E as (c & p & -> & Hp & Hs).
  destruct (bt_get s (children l)) eqn:Ec; [|done].
  rewrite (write_level_eq _ _ _ _ _ Hs). split; [done|]. split; [done|].
  eapply (write_child_lookup ns p l _ s); [done|done| |].
  - intros t Ht. cbn. by rewrite bt_get_remove, decide_False.
  - intros c' q t. cbn. by rewrite bt_get_remove, decide_True.
Qed.

Lemma add_value_views path v ns :
  match add_value path v ns with
  | SOk h ns' =>
      h = next_handle ns /\ object_map ns' = <[h := v]> (object_map ns) /\
      add_w (E := AmlError) 32 h 1 = Ok (next_handle ns') /\
      forall q t h', ns_lookup ns' q t = Some h' -> h' = h \/ ns_lookup ns q t = Some h'
  | SErr _ ns' =>
      ns' = ns \/
      (object_map ns' = <[next_handle ns := v]> (object_map ns) /\
       add_w (E := AmlError) 32 (next_handle ns) 1 = Ok (next_handle ns') /\
       forall q t h', ns_lookup ns' q t = Some h' ->
         h' = next_handle ns \/ ns_lookup ns q t = Some h')
  | SFail _ => True
  end.
Proof.
  unfold add_value, se_bind, se_lift, assert_.
  destruct (is_absolute path); [|done].
  destruct (normalize path) as [path'| |]; [|by left|done].
  unfold add_object, se_bind, se_gets, se_lift, se_modify.
  destruct (add_w 32 (next_handle ns) 1) as [n|e|] eqn:En; cbn; [|by apply checked_not_err in En|done].
  unfold get_level_for_path_mut, se_bind, se_get, se_lift.
  set (ns1 := MkNamespace n _ _). change (get_level_for_path ns1 path') with (get_level_for_path ns path').
  destruct (get_level_for_path ns path') as [[l s]| |] eqn:E; [| |done].
  2: { right. split; [done|]. split; [done|]. auto. }
  apply get_level_for_path_inv in E as (c & p & -> & Hp & Hs).
  rewrite (write_level_eq _ _ _ _ _ Hs).
  destruct (update_values_views ns1 p l (insert_handle s (next_handle ns)) Hp eq_refl eq_refl) as [_ Hl].
  assert (forall q t h', ns_lookup (set_root_level (update_level (root_level ns1) (map Segment p)
            (insert_handle s (next_handle ns))) ns1) q t = Some h' ->
            h' = next_handle ns \/ ns_lookup ns q t = Some h') as Hviews.
  { intros q t h'. rewrite Hl. destruct (decide (q = p)) as [->|]; [|auto]. cbn.
    rewrite bt_get_insert. destruct (decide (t = s)) as [->|]; [intros [= <-]; auto|].
    intros Ht. right. unfold ns_lookup. by rewrite Hp. }
  destruct (bt_get s (values l)); unfold se_ret, se_err; [right|]; split_and?; auto.
Qed.

Lemma handles_valid_same ns ns' :
  handles_valid ns -> object_map ns' = object_map ns ->
  (forall q t h, ns_lookup ns' q t = Some h -> ns_lookup ns q t = Some h) ->
  handles_valid ns'.
Proof. intros Hv Ho Hl q t h' H. rewrite Ho. eapply Hv. by apply Hl. Qed.

Lemma handles_valid_add ns ns' h1 v :
  handles_valid ns -> object_map ns' = <[h1 := v]> (object_map ns) ->
  (forall q t h', ns_lookup ns' q t = Some h' -> h' = h1 \/ ns_lookup ns q t = Some h') ->
  handles_valid ns'.
Proof.
  intros Hv Ho Hl q t h' H. rewrite Ho, lookup_insert.
  case_decide; [by eexists|]. destruct (Hl _ _ _ H) as [->|H']; [done|]. by eapply Hv.
Qed.

Lemma add_level_valid path typ :
  triple handles_valid (add_level path typ) (fun _ => handles_valid) (fun _ => handles_valid).
Proof.
  intros ns Hv. pose proof (add_level_views path typ ns) as H.
  destruct (add_level path typ ns); [| |done]; destruct H as (Ho & _ & Hl);
    by eapply handles_valid_same.
Qed.

Lemma remove_level_valid path :
  triple handles_valid (remove_level path) (fun _ => handles_valid) (fun _ => handles_valid).
Proof.
  intros ns Hv. pose proof (remove_level_views path ns) as H.
  destruct (remove_level path ns); [| |done]; destruct H as (Ho & _ & Hl);
    by eapply handles_valid_same.
Qed.

Lemma add_value_valid path v :
  triple handles_valid (add_value path v) (fun _ => handles_valid) (fun _ => handles_valid).
Proof.
  intros ns Hv. pose proof (add_value_views path v ns) as H.
  destruct (add_value path v ns) as [h1 ns'|e ns'|]; [| |done].
  - destruct H as (-> & Ho & _ & Hl). by eapply handles_valid_add.
  - destruct H as [->|(Ho & _ & Hl)]; [done|]. by eapply handles_valid_add.
Qed.

Lemma ns_set_valid h v :
  triple handles_valid (ns_set h v) (fun _ => handles_valid) (fun _ => handles_valid).
Proof.
  intros ns Hv. unfold ns_set, ns_get, se_bind, se_get, se_lift, unwrap.
  destruct (object_map ns !! h) as [v'|] eqn:E; cbn; [|done].
  intros q t h' H. cbn. rewrite lookup_insert. case_decide; [by eexists|]. by eapply Hv.
Qed.

(** ** Adding and removing levels at absolute paths *)

Lemma ns_level_child ns p s l : level_at (root_level ns) p = Some l ->
  ns_level ns (p ++ [s]) = level_typ <$> bt_get s (children l).
Proof. intros Hp. unfold ns_level. rewrite level_at_app, Hp. cbn. by destruct (bt_get s (children l)). Qed.

Lemma add_level_abs ns p s typ :
  add_level (abs (p ++ [s])) typ ns =
  match level_at (root_level ns) p with
  | Some l =>
      match bt_get s (children l) with
      | None => SOk tt (set_root_level (update_level (root_level ns) (map Segment p)
                          (insert_child s (new_level typ))) ns)
      | Some _ => SOk tt ns
      end
  | None => SErr (LevelDoesNotExist (abs (missing (root_level ns) p))) ns
  end.
Proof.
  unfold add_level, se_bind, se_lift. change (is_absolute (abs (p ++ [s]))) with true. cbn [assert_].
  rewrite normalize_abs, bool_decide_false by apply abs_not_root.
  unfold get_level_for_path_mut, se_bind, se_get, se_lift. rewrite get_level_for_path_abs.
  destruct (level_at (root_level ns) p) as [l|]; [|done]. destruct (bt_get s (children l)); [done|].
  by rewrite (write_level_eq _ _ _ _ _ (split_path_abs p s)).
Qed.

Lemma add_level_ok ns p s typ : is_Some (ns_level ns p) ->
  exists ns', add_level (abs (p ++ [s])) typ ns = SOk tt ns' /\
    object_map ns' = object_map ns /\ next_handle ns' = next_handle ns /\
    (forall q, ns_level ns' q =
       if decide (q = p ++ [s]) then Some (default typ (ns_level ns (p ++ [s])))
       else ns_level ns q) /\
    (forall q t, ns_lookup ns' q t = ns_lookup ns q t).
Proof.
  intros [ty Hty]. rewrite add_level_abs. unfold ns_level in Hty.
  destruct (level_at (root_level ns) p) as [l|] eqn:Hp; [|done]. clear ty Hty.
  pose proof (ns_level_child ns p s l Hp) as Els.
  destruct (bt_get s (children l)) as [c|] eqn:Hc; (eexists; split_and!; [reflexivity|done|done| |]).
  - intros q. destruct (decide (q = p ++ [s])) as [->|]; [by rewrite Els|done].
  - done.
  - destruct (add_child_views ns p s l (new_level typ) Hp Hc) as [Hoff Hon].
    intros q. destruct (decide ((p ++ [s]) `prefix_of` q)) as [[r ->]|Hq].
    + rewrite <-app_assoc. cbn [app]. unfold ns_level at 1 3. rewrite (proj1 (Hon r)), (proj2 (Hon r)), Els.
      destruct r as [|x r]; [by rewrite decide_True|]. rewrite decide_False; [done|].
      intros E. apply (f_equal length) in E. rewrite !length_app in E. cbn in E. lia.
    + destruct (Hoff q Hq) as [-> _]. rewrite decide_False; [done|]. by intros ->.
  - destruct (add_child_views ns p s l (new_level typ) Hp Hc) as [Hoff Hon].
    intros q t. destruct (decide ((p ++ [s]) `prefix_of` q)) as [[r ->]|Hq].
    + rewrite <-app_assoc. cbn [app]. unfold ns_lookup. rewrite (proj1 (Hon r)), (proj2 (Hon r)).
      by destruct r.
    + by destruct (Hoff q Hq) as [_ ->].
Qed.

Lemma remove_level_abs ns p s l : level_at (root_level ns) p = Some l ->
  remove_level (abs (p ++ [s])) ns =
  match bt_get s (children l) with
  | Some _ => SOk tt (set_root_level (update_level (root_level ns) (map Segment p) (remove_child s)) ns)
  | None => SErr (LevelDoesNotExist (abs (p ++ [s]))) ns
  end.
Proof.
  intros Hp. unfold remove_level, se_bind, se_lift.
  change (is_absolute (abs (p ++ [s]))) with true. cbn [assert_].
  rewrite normalize_abs, bool_decide_false by apply abs_not_root.
  unfold get_level_for_path_mut, se_bind, se_get, se_lift.
  rewrite get_level_for_path_abs, Hp. destruct (bt_get s (children l)); [|done].
  by rewrite (write_level_eq _ _ _ _ _ (split_path_abs p s)).
Qed.

Lemma remove_level_missing ns p s : ns_level ns (p ++ [s]) = None -> is_Some (ns_level ns p) ->
  remove_level (abs (p ++ [s])) ns = SErr (LevelDoesNotExist (abs (p ++ [s]))) ns.
Proof.
  intros Hn [ty Hty]. unfold ns_level in Hty.
  destruct (level_at (root_level ns) p) as [l|] eqn:Hp; [|done].
  rewrite (remove_level_abs ns p s l Hp). rewrite (ns_level_child ns p s l Hp) in Hn.
  by destruct (bt_get s (children l)).
Qed.

Lemma remove_level_ok ns p s : is_Some (ns_level ns (p ++ [s])) ->
  exists ns', remove_level (abs (p ++ [s])) ns = SOk tt ns' /\
    object_map ns' = object_map ns /\ next_handle ns' = next_handle ns /\
    (forall q, (p ++ [s]) `prefix_of` q ->
       ns_level ns' q = None /\ forall t, ns_lookup ns' q t = None) /\
    (forall q, ¬ (p ++ [s]) `prefix_of` q ->
       ns_level ns' q = ns_level ns q /\ forall t, ns_lookup ns' q t = ns_lookup ns q t).
Proof.
  intros [ty Hty]. destruct (level_at (root_level ns) p) as [l|] eqn:Hp.
  2: { unfold ns_level in Hty. by rewrite level_at_app, Hp in Hty. }
  rewrite (ns_level_child ns p s l Hp) in Hty. rewrite (remove_level_abs ns p s l Hp).
  destruct (bt_get s (children l)) as [c|] eqn:Hc; [|done].
  eexists. split_and!; [done|done|done| |].
  all: destruct (update_child_views ns p l (remove_child s) s Hp eq_refl)
    as [Hoff Hon]; [intros t Ht; cbn; by rewrite bt_get_remove, decide_False|].
  - intros q [r ->]. rewrite <-app_assoc. cbn [app].
    unfold ns_level, ns_lookup. rewrite Hon. cbn. by rewrite bt_get_remove, decide_True.
  - exact Hoff.
Qed.

End OperationLemmas.

(** * Properties *)

Section Properties.
Context {tgt : Target}.

(** Adding a value at an absolute path gives out the next handle, binds it to
    the value and, when the level exists, to the name; nothing else of the
    namespace changes. A missing level is reported with the shortest missing
    prefix of the path, a name that was taken is reported after its handle
    has been replaced. *)
Theorem add_value_spec (ns : Namespace) (p : list NameSeg) (s : NameSeg) (v : AmlValue) :
  0 <= next_handle ns -> next_handle ns + 1 < 2 ^ 32 ->
  exists ns',
    add_value (abs (p ++ [s])) v ns =
      match ns_level ns p, ns_lookup ns p s with
      | None, _ => SErr (LevelDoesNotExist (abs (missing (root_level ns) p))) ns'
      | Some _, None => SOk (next_handle ns) ns'
      | Some _, Some _ => SErr (NameCollision (abs (p ++ [s]))) ns'
      end /\
    object_map ns' = <[next_handle ns := v]> (object_map ns) /\
    next_handle ns' = next_handle ns + 1 /\
    (forall q, ns_level ns' q = ns_level ns q) /\
    (forall q t, ns_lookup ns' q t =
       if decide (q = p /\ t = s /\ is_Some (ns_level ns p)) then Some (next_handle ns)
       else ns_lookup ns q t).
Proof.
  intros H0 H1. unfold add_value, se_bind, se_lift.
  change (is_absolute (abs (p ++ [s]))) with true. cbn [assert_].
  rewrite normalize_abs, add_object_eq by done.
  set (ns1 := MkNamespace _ _ _). unfold get_level_for_path_mut, se_bind, se_get, se_lift.
  rewrite get_level_for_path_abs. change (root_level ns1) with (root_level ns).
  destruct (level_at (root_level ns) p) as [l|] eqn:Hp.
  - destruct (ns_views_at ns p l Hp) as [El Es]. rewrite El, Es.
    rewrite (write_level_eq _ _ _ _ _ (split_path_abs p s)).
    destruct (update_values_views ns1 p l (insert_handle s (next_handle ns)) Hp eq_refl eq_refl)
      as [Hlev Hlk].
    eexists. split; [by destruct (bt_get s (values l))|]. split; [done|]. split; [done|].
    split; [exact Hlev|]. intros q t. rewrite Hlk. cbn.
    destruct (decide (q = p)) as [->|Hq].
    + rewrite bt_get_insert. destruct (decide (t = s)) as [->|Ht].
      * by rewrite decide_True by (split_and!; [done|done|by eexists]).
      * rewrite decide_False by naive_solver. by rewrite Es.
    + by rewrite decide_False by naive_solver.
  - assert (ns_level ns p = None) as El by (by apply ns_level_None). rewrite El.
    exists ns1. split_and!; [done..|]. intros q t. rewrite decide_False; [done|].
    intros (_ & _ & [? Hx]). done.
Qed.

(** Adding a level at an absolute path makes the level of the given kind,
    empty, if it does not exist, and keeps an existing level as it is; every
    other level and every value is untouched. Adding the root does nothing,
    and a missing parent is reported with the shortest missing prefix. *)
Theorem add_level_spec (ns : Namespace) (p : list NameSeg) (s : NameSeg) (typ : LevelType) :
  add_level root typ ns = SOk tt ns /\
  (ns_level ns p = None ->
   add_level (abs (p ++ [s])) typ ns =
     SErr (LevelDoesNotExist (abs (missing (root_level ns) p))) ns) /\
  (is_Some (ns_level ns p) ->
   exists ns', add_level (abs (p ++ [s])) typ ns = SOk tt ns' /\
     object_map ns' = object_map ns /\ next_handle ns' = next_handle ns /\
     (forall q, ns_level ns' q =
        if decide (q = p ++ [s]) then Some (default typ (ns_level ns (p ++ [s])))
        else ns_level ns q) /\
     (forall q t, ns_lookup ns' q t = ns_lookup ns q t)).
Proof.
  split; [done|]. split; [|apply add_level_ok].
  intros Hp%ns_level_None. by rewrite add_level_abs, Hp.
Qed.

(** Removing the level at an absolute path removes it, the levels below it and
    all their values, and nothing else; the handles stay in the object map.
    Removing the root or a level that does not exist is an error that changes
    nothing. *)
Theorem remove_level_spec (ns : Namespace) (p : list NameSeg) (s : NameSeg) :
  remove_level root ns = SErr TriedToRemoveRootNamespace ns /\
  (ns_level ns (p ++ [s]) = None -> is_Some (ns_level ns p) ->
   remove_level (abs (p ++ [s])) ns = SErr (LevelDoesNotExist (abs (p ++ [s]))) ns) /\
  (is_Some (ns_level ns (p ++ [s])) ->
   exists ns', remove_level (abs (p ++ [s])) ns = SOk tt ns' /\
     object_map ns' = object_map ns /\ next_handle ns' = next_handle ns /\
     (forall q, (p ++ [s]) `prefix_of` q ->
        ns_level ns' q = None /\ forall t, ns_lookup ns' q t = None) /\
     (forall q, ¬ (p ++ [s]) `prefix_of` q ->
        ns_level ns' q = ns_level ns q /\ forall t, ns_lookup ns' q t = ns_lookup ns q t)).
Proof. split; [done|]. split; [apply remove_level_missing|apply remove_level_ok]. Qed.

(** Whatever the arguments, also on the error paths: the operations keep
    every handle of the tree valid, so that looking up a handle of the tree
    never panics. *)
Theorem handles_valid_preserved (path : AmlName) (typ : LevelType) (v : AmlValue) (h : AmlHandle) :
  triple handles_valid (add_level path typ) (fun _ => handles_valid) (fun _ => handles_valid) /\
  triple handles_valid (remove_level path) (fun _ => handles_valid) (fun _ => handles_valid) /\
  triple handles_valid (add_value path v) (fun _ => handles_valid) (fun _ => handles_valid) /\
  triple handles_valid (ns_set h v) (fun _ => handles_valid) (fun _ => handles_valid).
Proof.
  auto using add_level_valid, remove_level_valid, add_value_valid, ns_set_valid.
Qed.

(** Handles are given out in order, so they are not reused before they wrap around. *)
Lemma add_value_fresh (path : AmlName) (v : AmlValue) (ns : Namespace) :
  handles_fresh ns -> (overflow_checks = true \/ next_handle ns + 1 < 2 ^ 32) ->
  match add_value path v ns with
  | SOk h ns' => object_map ns !! h = None /\ handles_fresh ns'
  | SErr _ ns' => handles_fresh ns'
  | SFail _ => True
  end.
Proof.
  intros [Hn Hf] Hc. pose proof (add_value_views path v ns) as H.
  assert (forall n, add_w (E := AmlError) 32 (next_handle ns) 1 = Ok n -> n = next_handle ns + 1) as Hnext.
  { intros n. unfold add_w, checked. destruct (_ && _) eqn:B; [by intros [= <-]|].
    destruct Hc as [->|Hc]; [done|]. unfold in_width in Hn. lia. }
  assert (forall ns', object_map ns' = <[next_handle ns := v]> (object_map ns) ->
    add_w (E := AmlError) 32 (next_handle ns) 1 = Ok (next_handle ns') -> handles_fresh ns') as Hfresh.
  { intros ns' Ho Hw. split; [eapply checked_in_width; [|exact Hw]; lia|].
    apply Hnext in Hw. intros h'. rewrite Ho, lookup_insert, Hw.
    destruct Hn. case_decide; [lia|]. intros Hs. apply Hf in Hs. lia. }
  destruct (add_value path v ns) as [h ns'|e ns'|]; [| |done].
  - destruct H as (-> & Ho & Hw & _). split; [|by apply Hfresh].
    destruct (object_map ns !! next_handle ns) eqn:E; [|done].
    assert (0 <= next_handle ns < next_handle ns) by (apply Hf; by eexists). lia.
  - destruct H as [->|(Ho & Hw & _)]; [done|]. by apply Hfresh.
Qed.

(** In a build that checks arithmetic, or while fewer than [2^32] handles have
    been given out, a handle is never reused: [add_value] gives out a handle
    that is not in the object map, and all handles stay below the next one. *)
Theorem handles_fresh_preserved (path : AmlName) (v : AmlValue) (ns : Namespace) :
  handles_fresh ns -> (overflow_checks = true \/ next_handle ns + 1 < 2 ^ 32) ->
  match add_value path v ns with
  | SOk h ns' => object_map ns !! h = None /\ handles_fresh ns'
  | SErr _ ns' => handles_fresh ns'
  | SFail _ => True
  end.
Proof. apply add_value_fresh. Qed.
End Properties.

(** ** Searching *)

Lemma resolve_seg (s : NameSeg) (p : list NameSeg) : resolve [Segment s] (abs p) = Ok (abs (p ++ [s])).
Proof.
  pose proof (resolve_prefixes 0 [s] p) as H. cbn [replicate app map] in H.
  unfold abs. rewrite H. cbn. by rewrite Nat.sub_0_r, firstn_all.
Qed.

Lemma parent_abs (p : list NameSeg) :
  parent (abs p) =
  match p with [] => Err RootHasNoParent | _ => Ok (abs (removelast p)) end.
Proof.
  unfold parent. rewrite normalize_abs. cbn [result_bind].
  destruct p as [|s p _] using rev_ind; [done|].
  rewrite removelast_snoc, abs_snoc, last_snoc, removelast_snoc. by destruct p.
Qed.

Lemma search_loop_spec (ns : Namespace) (s : NameSeg) (p : list NameSeg) (fuel : nat) :
  (length p < fuel)%nat ->
  search_loop fuel ns [Segment s] (abs p) =
  match nearest ns s (ancestors p) with
  | Some (q, h) => Ok (abs (q ++ [s]), h)
  | None => Err (ValueDoesNotExist [Segment s])
  end.
Proof.
  unfold ancestors. revert fuel. induction (length p) as [|n IH] eqn:En in p |- *;
    intros [|fuel] Hf; try lia; cbn [search_loop ancestors_fuel nearest].
  all: rewrite resolve_seg; cbn [result_bind]; rewrite get_level_for_path_abs, parent_abs;
    unfold ns_lookup; destruct (level_at (root_level ns) p) as [l|]; cbn.
  - apply nil_length_inv in En as ->. by destruct (bt_get s (values l)).
  - by apply nil_length_inv in En as ->.
  - destruct (bt_get s (values l)); [done|]. destruct p as [|x p _] using rev_ind; [done|].
    rewrite removelast_snoc. rewrite length_app in En. cbn in En.
    destruct (p ++ [x]) eqn:E; [by destruct p|]. apply IH; lia.
  - destruct p as [|x p _] using rev_ind; [done|].
    rewrite removelast_snoc. rewrite length_app in En. cbn in En.
    destruct (p ++ [x]) eqn:E; [by destruct p|]. apply IH; lia.
Qed.

(** The search rules: a single segment is looked up in the starting scope and
    then in each of its parents up to the root, also when some of these levels
    do not exist, and the first scope that has it wins. The search always ends
    and never panics. *)
Theorem search_spec (ns : Namespace) (s : NameSeg) (p : list NameSeg) :
  search ns [Segment s] (abs p) =
  match nearest ns s (ancestors p) with
  | Some (q, h) => Ok (abs (q ++ [s]), h)
  | None => Err (ValueDoesNotExist [Segment s])
  end.
Proof.
  unfold search. cbn [search_rules_apply]. change (is_absolute (abs p)) with true.
  cbn [assert_ result_bind]. apply search_loop_spec. unfold abs. cbn. rewrite length_map. lia.
Qed.

(** ** The properties on a concrete namespace *)

Lemma add_value_spec_witness :
  exists ns, @add_value target_debug (abs [MkSeg x46 x4f x4f x5f]) (VInteger 1) new_namespace = SOk 0 ns /\
    ns_lookup ns [] (MkSeg x46 x4f x4f x5f) = Some 0.
Proof.
  destruct (@add_value_spec target_debug new_namespace [] (MkSeg x46 x4f x4f x5f) (VInteger 1))
    as (ns & H & _ & _ & _ & Hl); [vm_compute; congruence|vm_compute; reflexivity|].
  exists ns. split; [exact H|]. rewrite Hl. vm_compute. reflexivity.
Defined.

Lemma add_level_spec_witness :
  exists ns, add_level (abs [MkSeg x46 x4f x4f x5f]) LDevice new_namespace = SOk tt ns /\
    ns_level ns [MkSeg x46 x4f x4f x5f] = Some LDevice.
Proof.
  destruct (add_level_spec new_namespace [] (MkSeg x46 x4f x4f x5f) LDevice)
    as (_ & _ & H). destruct H as (ns & H & _ & _ & Hl & _); [vm_compute; by eexists|].
  exists ns. split; [exact H|]. rewrite Hl. vm_compute. reflexivity.
Defined.

Lemma remove_level_spec_witness :
  exists ns, remove_level (abs [MkSeg x46 x4f x4f x5f])
    (set_root_level (MkLevel LScope [(MkSeg x46 x4f x4f x5f, new_level LDevice)] []) new_namespace)
    = SOk tt ns /\ ns_level ns [MkSeg x46 x4f x4f x5f] = None.
Proof.
  destruct (@remove_level_spec
    (set_root_level (MkLevel LScope [(MkSeg x46 x4f x4f x5f, new_level LDevice)] []) new_namespace)
    [] (MkSeg x46 x4f x4f x5f)) as (_ & _ & H).
  destruct H as (ns & H & _ & _ & Hl & _); [vm_compute; by eexists|].
  exists ns. split; [exact H|]. apply Hl. exists []. reflexivity.
Defined.

Lemma handles_fresh_preserved_witness :
  handles_fresh new_namespace /\
  match @add_value target_debug (abs [MkSeg x46 x4f x4f x5f]) (VInteger 1) new_namespace with
  | SOk h ns' => object_map new_namespace !! h = None /\ handles_fresh ns'
  | SErr _ ns' => handles_fresh ns'
  | SFail _ => True
  end.
Proof.
  assert (handles_fresh new_namespace) as H.
  { split; [vm_compute; split; congruence|]. intros h [v Hv]. cbn in Hv. by rewrite lookup_empty in Hv. }
  split; [exact H|].
  exact (@handles_fresh_preserved target_debug (abs [MkSeg x46 x4f x4f x5f]) (VInteger 1)
           new_namespace H (or_introl eq_refl)).
Defined.
