(* ===== verification/Ordered.v ===== *)
(** The order of the [BTreeMap]s of the namespace: every operation keeps the children of
    every level in the order of their keys, and so a level that is made and removed again
    leaves the tree exactly as it was. *)
From Stdlib Require Import Sorted.
From S2P Require Import Prelude Types Names Namespace.
#[local] Open Scope Z_scope.

(** * Ordered maps *)

(** A segment as a number, most significant byte first. *)
Definition seg_key (s : NameSeg) : Z :=
  ((u8 (seg0 s) * 256 + u8 (seg1 s)) * 256 + u8 (seg2 s)) * 256 + u8 (seg3 s).

Lemma seg_compare_key a b : seg_compare a b = (seg_key a ?= seg_key b).
Proof.
  unfold seg_compare, seg_key.
  pose proof (u8_range (seg1 a)); pose proof (u8_range (seg1 b)).
  pose proof (u8_range (seg2 a)); pose proof (u8_range (seg2 b)).
  pose proof (u8_range (seg3 a)); pose proof (u8_range (seg3 b)).
  destruct (Z.compare_spec (u8 (seg0 a)) (u8 (seg0 b))); [|symmetry..].
  2: apply Z.compare_lt_iff; lia. 2: apply Z.compare_gt_iff; lia.
  destruct (Z.compare_spec (u8 (seg1 a)) (u8 (seg1 b))); [|symmetry..].
  2: apply Z.compare_lt_iff; lia. 2: apply Z.compare_gt_iff; lia.
  destruct (Z.compare_spec (u8 (seg2 a)) (u8 (seg2 b))); [|symmetry..].
  2: apply Z.compare_lt_iff; lia. 2: apply Z.compare_gt_iff; lia.
  destruct (Z.compare_spec (u8 (seg3 a)) (u8 (seg3 b))); symmetry.
  - apply Z.compare_eq_iff. lia.
  - apply Z.compare_lt_iff. lia.
  - apply Z.compare_gt_iff. lia.
Qed.

Section OrderedMaps.
Context {V : Type}.
Implicit Types (m : list (NameSeg * V)) (k : NameSeg) (v : V).

(** The keys of a map are in strictly increasing order. *)
Definition bt_ordered m : Prop := StronglySorted (fun a b => seg_key a.1 < seg_key b.1) m.

Lemma bt_get_above k m v x : bt_get k m = Some v -> Forall (fun b => x < seg_key b.1) m -> x < seg_key k.
Proof.
  induction m as [|[k' v'] m IH]; [done|]. cbn. intros Hg [Hx Hm]%Forall_cons.
  case_decide; [by subst|by apply IH].
Qed.

Lemma bt_insert_same k m v : bt_ordered m -> bt_get k m = Some v -> bt_insert k v m = m.
Proof.
  induction 1 as [|[k' v'] m Hm IH Hk]; [done|]. cbn. rewrite seg_compare_key.
  case_decide as E; [intros [= <-]; subst; by rewrite Z.compare_refl|]. intros Hg.
  pose proof (bt_get_above k m v (seg_key k') Hg Hk). rewrite (proj2 (Z.compare_gt_iff _ _)) by done.
  by rewrite IH.
Qed.

Lemma bt_insert_twice k m v v' : bt_insert k v' (bt_insert k v m) = bt_insert k v' m.
Proof.
  assert (seg_compare k k = Eq) as Hk by by apply seg_compare_eq.
  induction m as [|[k2 v2] m IH]; cbn; [by rewrite Hk|].
  destruct (seg_compare k k2) eqn:E; cbn; rewrite ?Hk, ?E; [done..|]. by rewrite IH.
Qed.

Lemma bt_remove_missing k m : bt_get k m = None -> bt_remove k m = m.
Proof.
  unfold bt_remove. induction m as [|[k' v'] m IH]; [done|]. cbn [bt_get]. case_decide; [done|].
  intros Hg. rewrite filter_cons, decide_True by (cbn; congruence). by rewrite IH.
Qed.

Lemma bt_remove_insert k m v : bt_get k m = None -> bt_remove k (bt_insert k v m) = m.
Proof.
  intros Hg. rewrite <-(bt_remove_missing k m Hg) at 2. unfold bt_remove. clear Hg.
  induction m as [|[k' v'] m IH]; cbn [bt_insert].
  - rewrite filter_cons, decide_False; [done|]. by intros [].
  - destruct (seg_compare k k') eqn:E.
    + apply seg_compare_eq in E as <-. rewrite !filter_cons, !decide_False by (by intros []). done.
    + rewrite filter_cons, decide_False by (by intros []). done.
    + rewrite !filter_cons, IH. done.
Qed.

Lemma bt_insert_above k m v x : x < seg_key k -> Forall (fun b => x < seg_key b.1) m ->
  Forall (fun b => x < seg_key b.1) (bt_insert k v m).
Proof.
  intros Hk. induction 1 as [|[k' v'] m Hx Hm IH]; cbn; [by repeat constructor|].
  destruct (seg_compare k k'); repeat constructor; done.
Qed.

Lemma bt_insert_ordered k m v : bt_ordered m -> bt_ordered (bt_insert k v m).
Proof.
  induction 1 as [|[k' v'] m Hm IH Hk]; cbn; [by repeat constructor|]. rewrite seg_compare_key.
  destruct (Z.compare_spec (seg_key k) (seg_key k')) as [E|E|E].
  - constructor; [done|]. cbn. by rewrite E.
  - constructor; [by constructor|]. constructor; [done|]. eapply Forall_impl; [exact Hk|]. cbn. lia.
  - constructor; [done|]. by apply bt_insert_above.
Qed.

Lemma bt_remove_ordered k m : bt_ordered m -> bt_ordered (bt_remove k m).
Proof.
  unfold bt_remove. induction 1 as [|[k' v'] m Hm IH Hk]; [constructor|].
  rewrite filter_cons. case_decide; [|done]. constructor; [done|].
  rewrite Forall_forall in *. intros x [_ Hx]%list_elem_of_filter. by apply Hk.
Qed.
End OrderedMaps.

(** * Ordered trees *)

Definition tree_ordered (l : NamespaceLevel) : Prop :=
  forall p l', level_at l p = Some l' -> bt_ordered (children l').

Lemma tree_ordered_children l :
  tree_ordered l <-> bt_ordered (children l) /\
    forall s c, bt_get s (children l) = Some c -> tree_ordered c.
Proof.
  split.
  - intros H. split; [by apply (H [])|]. intros s c Hc p l' Hp. apply (H (s :: p)). cbn. by rewrite Hc.
  - intros [H Hc] [|s p] l'; [by intros [= <-]|]. cbn. destruct (bt_get s (children l)) as [c|] eqn:E; [|done].
    cbn. intros Hp. by apply (Hc s c E p).
Qed.

Lemma update_ordered p f l lp : tree_ordered l -> level_at l p = Some lp -> tree_ordered (f lp) ->
  tree_ordered (update_level l (map Segment p) f).
Proof.
  revert l. induction p as [|s p IH]; intros l Hl; cbn; [by intros [= ->]|].
  apply tree_ordered_children in Hl as [Ho Hc].
  destruct (bt_get s (children l)) as [c|] eqn:E; [|done]. cbn. intros Hp Hf.
  apply tree_ordered_children. cbn. split; [by apply bt_insert_ordered|]. intros t c'.
  rewrite bt_get_insert. case_decide as Ht; [intros [= <-]; by eauto|]. by apply Hc.
Qed.

(** An update that is undone by another. *)
Lemma update_undone p f g l lp : tree_ordered l -> level_at l p = Some lp -> g (f lp) = lp ->
  update_level (update_level l (map Segment p) f) (map Segment p) g = l.
Proof.
  revert l. induction p as [|s p IH]; intros l Hl; cbn; [by intros [= ->]|].
  apply tree_ordered_children in Hl as [Ho Hc].
  destruct (bt_get s (children l)) as [c|] eqn:E; [|done]. cbn. intros Hp Hg.
  rewrite bt_get_insert, decide_True by done. rewrite (IH c) by eauto.
  rewrite bt_insert_twice, bt_insert_same by done. by destruct l.
Qed.

Lemma insert_child_ordered s l c : tree_ordered l -> tree_ordered c -> tree_ordered (insert_child s c l).
Proof.
  intros [Ho Hc]%tree_ordered_children Hn. apply tree_ordered_children. cbn.
  split; [by apply bt_insert_ordered|]. intros t c'. rewrite bt_get_insert.
  case_decide; [by intros [= <-]|]. by apply Hc.
Qed.

Lemma new_level_ordered typ : tree_ordered (new_level typ).
Proof. apply tree_ordered_children. split; [constructor|done]. Qed.

Lemma remove_child_ordered s l : tree_ordered l -> tree_ordered (remove_child s l).
Proof.
  intros [Ho Hc]%tree_ordered_children. apply tree_ordered_children. cbn.
  split; [by apply bt_remove_ordered|]. intros t c'. rewrite bt_get_remove.
  case_decide; [done|]. by apply Hc.
Qed.

Lemma insert_handle_ordered s h l : tree_ordered l -> tree_ordered (insert_handle s h l).
Proof. intros [Ho Hc]%tree_ordered_children. by apply tree_ordered_children. Qed.

Lemma level_ordered l p l' : tree_ordered l -> level_at l p = Some l' -> tree_ordered l'.
Proof. intros H Hp q l2 Hq. apply (H (p ++ q)). by rewrite level_at_app, Hp. Qed.

(** * The operations *)

Section Operations.
Context {tgt : Target}.

Definition ns_ordered (ns : Namespace) : Prop := tree_ordered (root_level ns).

Lemma add_level_ordered p typ ns ns' : ns_ordered ns -> add_level (abs p) typ ns = SOk tt ns' -> ns_ordered ns'.
Proof.
  intros Ho. destruct p as [|s p _] using rev_ind; [by intros [= <-]|]. rewrite add_level_abs.
  destruct (level_at (root_level ns) p) as [l|] eqn:Hp; [|done].
  destruct (bt_get s (children l)); [by intros [= <-]|]. intros [= <-].
  eapply update_ordered; [done..|]. apply insert_child_ordered; [by eapply level_ordered|apply new_level_ordered].
Qed.

Lemma remove_level_ordered p ns ns' : ns_ordered ns -> remove_level (abs p) ns = SOk tt ns' -> ns_ordered ns'.
Proof.
  intros Ho. destruct p as [|s p _] using rev_ind; [done|].
  destruct (level_at (root_level ns) p) as [l|] eqn:Hp.
  - rewrite (remove_level_abs ns p s l Hp). destruct (bt_get s (children l)); [|done]. intros [= <-].
    eapply update_ordered; [done..|]. apply remove_child_ordered. by eapply level_ordered.
  - unfold remove_level, se_bind, se_lift. change (is_absolute (abs (p ++ [s]))) with true. cbn [assert_].
    rewrite normalize_abs, bool_decide_false by apply abs_not_root.
    unfold get_level_for_path_mut, se_bind, se_get, se_lift. by rewrite get_level_for_path_abs, Hp.
Qed.

(** A level that is made and removed again leaves the namespace as it was. *)
Lemma level_restored p s typ ns : ns_ordered ns -> is_Some (ns_level ns p) -> ns_level ns (p ++ [s]) = None ->
  exists ns', add_level (abs (p ++ [s])) typ ns = SOk tt ns' /\
    remove_level (abs (p ++ [s])) ns' = SOk tt ns /\
    object_map ns' = object_map ns /\ ns_ordered ns' /\
    (forall q, ns_level ns' q = if decide (q = p ++ [s]) then Some typ else ns_level ns q) /\
    (forall q t, ns_lookup ns' q t = ns_lookup ns q t).
Proof.
  intros Ho Hp Hs. destruct (add_level_ok ns p s typ Hp) as (ns' & E1 & O1 & _ & L1 & V1).
  exists ns'. split; [done|]. split; [|split; [done|]; split; [by eapply add_level_ordered|];
    split; [by intros q; rewrite L1, Hs|done]].
  destruct Hp as [ty Hty]. unfold ns_level in Hty.
  destruct (level_at (root_level ns) p) as [l|] eqn:Hl; [|done].
  rewrite add_level_abs, Hl in E1. rewrite (ns_level_child ns p s l Hl) in Hs.
  destruct (bt_get s (children l)) as [c|] eqn:Hc; [done|]. injection E1 as <-.
  rewrite (remove_level_abs _ p s (insert_child s (new_level typ) l)).
  2: { cbn. rewrite <-(app_nil_r p) at 2. by rewrite (update_level_at _ _ _ _ _ Hl). }
  cbn [insert_child children]. rewrite bt_get_insert, decide_True by done. f_equal.
  destruct ns as [n o r]. unfold set_root_level. cbn. f_equal. apply update_undone with (lp := l); [done..|].
  unfold insert_child, remove_child. cbn [children level_typ values]. rewrite bt_remove_insert by done. by destruct l.
Qed.
End Operations.
