(* ===== verification/Env.v ===== *)
(** The interfaces of the code that is not part of the repository: the crates
    [bit_field], [byteorder] and [bitvec], and the [Handler] that the user of the
    [aml] crate supplies. Each is a class of the operations the code calls, with
    what their documentation promises; the instances at the end show that the
    promises can be kept, and are what the concrete runs use. *)
From S2P Require Import Prelude.
#[local] Open Scope Z_scope.

(** * [bit_field::BitField] *)

(** [get_bits v lo hi] is [v.get_bits(lo..hi)]. [range_panics w lo hi] says
    whether a [w]-bit value rejects the range, [value_panics lo hi x] whether
    [set_bits] rejects the value [x] for the range. *)
Class BitField := {
  get_bit : Z -> Z -> bool;
  get_bits : Z -> Z -> Z -> Z;
  set_bit : Z -> Z -> bool -> Z;
  set_bits : Z -> Z -> Z -> Z -> Z;
  range_panics : Z -> Z -> Z -> bool;
  value_panics : Z -> Z -> Z -> bool;
  get_bit_spec v i : 0 <= v -> 0 <= i < 64 -> get_bit v i = Z.testbit v i;
  get_bits_spec v lo hi : 0 <= v -> 0 <= lo < hi -> hi <= 64 ->
    get_bits v lo hi = Z.land (Z.shiftr v lo) (Z.ones (hi - lo));
  set_bit_spec v i b : 0 <= v -> 0 <= i < 64 ->
    set_bit v i b = if b then Z.setbit v i else Z.clearbit v i;
  set_bits_spec v lo hi x : 0 <= v -> 0 <= lo < hi -> hi <= 64 -> 0 <= x < 2 ^ (hi - lo) ->
    set_bits v lo hi x =
      Z.lor (Z.ldiff v (Z.shiftl (Z.ones (hi - lo)) lo)) (Z.shiftl x lo);
  range_panics_in w lo hi : 0 <= lo < hi -> hi <= w -> range_panics w lo hi = false;
  range_panics_out w lo hi : w < hi -> range_panics w lo hi = true;
  value_panics_in lo hi x : 0 <= x < 2 ^ (hi - lo) -> value_panics lo hi x = false;
  value_panics_out lo hi x : 0 <= lo < hi -> 2 ^ (hi - lo) <= x -> value_panics lo hi x = true;
  (* the results are of the type of the value *)
  get_bits_width w v lo hi : in_width w v -> range_panics w lo hi = false ->
    in_width w (get_bits v lo hi)
}.

(** * [byteorder::LittleEndian] *)

Class ByteOrder := {
  read_u16_le : bytes -> Z;
  read_u32_le : bytes -> Z;
  read_uint_le : bytes -> nat -> Z;
  read_u16_le_spec bs : length bs = 2%nat -> read_u16_le bs = from_le_bytes bs;
  read_u32_le_spec bs : length bs = 4%nat -> read_u32_le bs = from_le_bytes bs;
  read_uint_le_spec bs n : length bs = n -> (1 <= n <= 8)%nat -> read_uint_le bs n = from_le_bytes bs
}.

(** * [bitvec] *)

(** The bits of a byte, least significant first. *)
Definition byte_bits (b : byte) : list bool :=
  map (fun i => Z.testbit (u8 b) (Z.of_nat i)) (seq 0 8).

(** The number whose bits, least significant first, are given. *)
Fixpoint bits_value (bs : list bool) : Z :=
  match bs with
  | [] => 0
  | b :: bs => Z.b2z b + 2 * bits_value bs
  end.

(** [view_bits] is [view_bits::<Lsb0>()] on a byte slice, [write_bits] the bytes
    after a write of all the bits of such a view, [u64_bits] the view of a [u64],
    [load_u64] a zeroed [u64] after its low bits were written through its view,
    and [bits_to_vec d lo hi] is the [Vec<u8>] that
    [d.view_bits()[lo..hi].to_bitvec()] turns into, with its dead bits cleared. *)
Class BitVec := {
  view_bits : bytes -> list bool;
  write_bits : list bool -> bytes;
  u64_bits : Z -> list bool;
  load_u64 : list bool -> Z;
  bits_to_vec : bytes -> nat -> nat -> bytes;
  view_bits_spec bs : view_bits bs = concat (map byte_bits bs);
  write_bits_spec bs : view_bits (write_bits (view_bits bs)) = view_bits bs;
  write_bits_view l n : length l = (8 * n)%nat -> view_bits (write_bits l) = l;
  u64_bits_spec z : 0 <= z < 2 ^ 64 -> u64_bits z = view_bits (to_le_bytes 8 z);
  load_u64_spec bs : (length bs <= 64)%nat -> load_u64 bs = bits_value bs;
  bits_to_vec_aligned d i n : (8 * (i + n) <= length (view_bits d))%nat ->
    bits_to_vec d (8 * i) (8 * (i + n)) = take n (drop i d)
}.

(** * [Handler] *)

(** The state [hw] of the hardware behind the handler. A value of a [w]-bit type
    that a method returns is [wrap w] of the number given here. Any method may
    panic ([None]), as the default of [handle_fatal_error] does. *)
Class Handler := {
  hw : Type;
  h_read : Z -> Z -> hw -> option (Z * hw);              (* access size, address *)
  h_write : Z -> Z -> Z -> hw -> option hw;            (* access size, address, value *)
  h_read_io : Z -> Z -> hw -> option (Z * hw);           (* access size, port *)
  h_write_io : Z -> Z -> Z -> hw -> option hw;
  h_read_pci : Z -> Z -> Z -> Z -> Z -> Z -> hw -> option (Z * hw);  (* size, seg, bus, dev, fn, offset *)
  h_write_pci : Z -> Z -> Z -> Z -> Z -> Z -> Z -> hw -> option hw;
  handle_fatal_error : Z -> Z -> Z -> hw -> option hw
}.

(** Ranges of bits by division. *)
Lemma get_bits_div {bitfield : BitField} v lo hi : 0 <= v -> 0 <= lo < hi -> hi <= 64 ->
  get_bits v lo hi = (v / 2 ^ lo) mod 2 ^ (hi - lo).
Proof.
  intros Hv Hl Hh. rewrite get_bits_spec by done.
  by rewrite Z.land_ones, Z.shiftr_div_pow2 by lia.
Qed.

Lemma get_bit_div {bitfield : BitField} v i : 0 <= v -> 0 <= i < 64 -> Z.b2z (get_bit v i) = (v / 2 ^ i) mod 2.
Proof. intros Hv Hi. rewrite get_bit_spec by done. apply Z.testbit_spec'. lia. Qed.

(** * What the [aml] crate is compiled against *)

Class AmlEnv := {
  #[global] env_target :: Target;
  #[global] env_bitfield :: BitField;
  #[global] env_byteorder :: ByteOrder;
  #[global] env_bitvec :: BitVec;
  #[global] env_handler :: Handler
}.

(** * Instances *)

Lemma land_ones_range x n : 0 <= n -> 0 <= Z.land x (Z.ones n) < 2 ^ n.
Proof. intros Hn. rewrite Z.land_ones by done. apply Z.mod_pos_bound. lia. Qed.

#[local, program] Instance bitfield_model : BitField := {
  get_bit v i := Z.testbit v i;
  get_bits v lo hi := Z.land (Z.shiftr v lo) (Z.ones (hi - lo));
  set_bit v i b := if b then Z.setbit v i else Z.clearbit v i;
  set_bits v lo hi x := Z.lor (Z.ldiff v (Z.shiftl (Z.ones (hi - lo)) lo)) (Z.shiftl x lo);
  range_panics w lo hi := negb ((0 <=? lo) && (lo <? hi) && (hi <=? w));
  value_panics lo hi x := negb ((0 <=? x) && (x <? 2 ^ (hi - lo)))
}.
Next Obligation. done. Qed.
Next Obligation. done. Qed.
Next Obligation. done. Qed.
Next Obligation. done. Qed.
Next Obligation. intros w lo hi H1 H2. cbn. lia. Qed.
Next Obligation. intros w lo hi H. cbn. lia. Qed.
Next Obligation. intros lo hi x H. cbn. lia. Qed.
Next Obligation. intros lo hi x H1 H2. cbn. lia. Qed.
Next Obligation.
  intros w v lo hi [H1 H2] Hr. cbn in *.
  pose proof (land_ones_range (Z.shiftr v lo) (hi - lo) ltac:(lia)) as H.
  eapply (in_width_mono (hi - lo)); [lia|exact H].
Qed.

#[local, program] Instance byteorder_model : ByteOrder := {
  read_u16_le := from_le_bytes;
  read_u32_le := from_le_bytes;
  read_uint_le bs _ := from_le_bytes bs
}.
Solve Obligations with (intros; done).

(** The inverse of [byte_bits] on every group of eight bits. *)
Fixpoint bits_bytes (n : nat) (l : list bool) : bytes :=
  match n with
  | O => []
  | S n => to_u8 (bits_value (take 8 l)) :: bits_bytes n (drop 8 l)
  end.

Lemma byte_bits_of_value (l : list bool) :
  length l = 8%nat -> byte_bits (to_u8 (bits_value l)) = l.
Proof.
  intros H. do 8 (destruct l as [|[] l]; [done|..]); destruct l; try done; reflexivity.
Qed.

Lemma length_byte_bits b : length (byte_bits b) = 8%nat.
Proof. done. Qed.

Lemma bits_value_byte b : bits_value (byte_bits b) = u8 b.
Proof. by destruct b. Qed.

Lemma length_view_concat (bs : bytes) : length (concat (map byte_bits bs)) = (8 * length bs)%nat.
Proof.
  induction bs as [|b bs IH]; [done|]. cbn [map concat].
  rewrite length_app, IH, length_byte_bits. cbn [length]. lia.
Qed.

Lemma bits_bytes_view n l :
  length l = (8 * n)%nat -> concat (map byte_bits (bits_bytes n l)) = l.
Proof.
  revert l. induction n as [|n IH]; intros l H; cbn [bits_bytes map concat].
  - by destruct l.
  - rewrite byte_bits_of_value by (rewrite length_take; lia).
    rewrite IH by (rewrite length_drop; lia). apply take_drop.
Qed.

Lemma bits_bytes_of_view bs : bits_bytes (length bs) (concat (map byte_bits bs)) = bs.
Proof.
  induction bs as [|b bs IH]; [done|]. cbn [length bits_bytes map concat].
  rewrite take_app_length' by done. rewrite drop_app_length' by done.
  by rewrite IH, bits_value_byte, to_u8_u8.
Qed.

Lemma bits_bytes_app n l r : length l = (8 * n)%nat -> bits_bytes n (l ++ r) = bits_bytes n l.
Proof.
  revert l. induction n as [|n IH]; intros l H; [done|]. cbn [bits_bytes].
  rewrite take_app_le, drop_app_le by lia. by rewrite IH by (rewrite length_drop; lia).
Qed.

Lemma drop_view i d : drop (8 * i) (concat (map byte_bits d)) = concat (map byte_bits (drop i d)).
Proof.
  revert i. induction d as [|b d IH]; intros i; [cbn [map concat]; by rewrite !drop_nil|].
  destruct i as [|i]; [done|]. cbn [map concat drop].
  replace (8 * S i)%nat with (length (byte_bits b) + 8 * i)%nat by (rewrite length_byte_bits; lia).
  by rewrite drop_app_add, IH.
Qed.

Lemma take_view n d : take (8 * n) (concat (map byte_bits d)) = concat (map byte_bits (take n d)).
Proof.
  revert n. induction d as [|b d IH]; intros n; [cbn [map concat]; by rewrite !take_nil|].
  destruct n as [|n]; [done|]. cbn [map concat take].
  replace (8 * S n)%nat with (length (byte_bits b) + 8 * n)%nat by (rewrite length_byte_bits; lia).
  by rewrite take_app_add, IH.
Qed.

#[local, program] Instance bitvec_model : BitVec := {
  view_bits bs := concat (map byte_bits bs);
  write_bits l := bits_bytes (length l / 8) l;
  u64_bits z := concat (map byte_bits (to_le_bytes 8 z));
  load_u64 := bits_value;
  bits_to_vec d lo hi :=
    let bits := take (hi - lo) (drop lo (concat (map byte_bits d))) in
    bits_bytes ((length bits + 7) / 8) (bits ++ replicate 7 false)
}.
Next Obligation. done. Qed.
Next Obligation.
  intros bs. cbv beta. rewrite length_view_concat, (Nat.mul_comm 8), Nat.div_mul by done.
  by rewrite bits_bytes_of_view.
Qed.
Next Obligation.
  intros l n H. cbv beta. rewrite H, (Nat.mul_comm 8), Nat.div_mul by done.
  by apply bits_bytes_view.
Qed.
Next Obligation. done. Qed.
Next Obligation. done. Qed.
Next Obligation.
  intros d i n. cbv beta zeta. rewrite length_view_concat. intros H.
  replace (8 * (i + n) - 8 * i)%nat with (8 * n)%nat by lia.
  rewrite drop_view, take_view, length_view_concat.
  assert (length (take n (drop i d)) = n) as E by (rewrite length_take, length_drop; lia).
  replace ((8 * length (take n (drop i d)) + 7) / 8)%nat with n.
  2: { rewrite E, (Nat.mul_comm 8), Nat.div_add_l by done. cbn. lia. }
  rewrite bits_bytes_app by (by rewrite length_view_concat, E).
  rewrite <-E at 1. apply bits_bytes_of_view.
Qed.

(** A handler over a byte-addressed memory that has no ports or PCI functions. *)
Definition mem_read (size addr : Z) (m : gmap Z byte) : Z :=
  from_le_bytes (map (fun i => default x00 (m !! (addr + Z.of_nat i))) (seq 0 (Z.to_nat (size / 8)))).
Definition mem_write (size addr v : Z) (m : gmap Z byte) : gmap Z byte :=
  fold_right (fun '(i, b) m => <[addr + Z.of_nat i := b]> m) m
    (combine (seq 0 (Z.to_nat (size / 8))) (to_le_bytes (Z.to_nat (size / 8)) v)).
#[local] Instance handler_model : Handler := {
  hw := gmap Z byte;
  h_read size a m := Some (mem_read size a m, m);
  h_write size a v m := Some (mem_write size a v m);
  h_read_io _ _ m := Some (0, m);
  h_write_io _ _ _ m := Some m;
  h_read_pci _ _ _ _ _ _ m := Some (0, m);
  h_write_pci _ _ _ _ _ _ _ m := Some m;
  handle_fatal_error _ _ _ _ := None
}.

(** The environments of the concrete runs. *)
Definition env_debug : AmlEnv := {|
  env_target := target_debug; env_bitfield := bitfield_model; env_byteorder := byteorder_model;
  env_bitvec := bitvec_model; env_handler := handler_model |}.
Definition env_release : AmlEnv := {|
  env_target := target_release; env_bitfield := bitfield_model; env_byteorder := byteorder_model;
  env_bitvec := bitvec_model; env_handler := handler_model |}.
