(* ===== verification/RustStd.v ===== *)
(** The string functions of the Rust standard library that the code uses:
    validity of UTF-8, character boundaries, and the parsing of [u64]s. *)
From S2P Require Import Prelude.
#[local] Open Scope Z_scope.

(** * UTF-8 *)

Definition in_range (lo hi : Z) (b : byte) : bool := (lo <=? u8 b) && (u8 b <=? hi).
Definition is_continuation (b : byte) : bool := in_range 0x80 0xbf b.

(** The second byte that the lead byte [b] of a three or four byte sequence allows. *)
Definition second3_ok (b c : byte) : bool :=
  if u8 b =? 0xe0 then in_range 0xa0 0xbf c
  else if u8 b =? 0xed then in_range 0x80 0x9f c
  else in_range 0xe1 0xef b && is_continuation c.
Definition second4_ok (b c : byte) : bool :=
  if u8 b =? 0xf0 then in_range 0x90 0xbf c
  else if u8 b =? 0xf4 then in_range 0x80 0x8f c
  else in_range 0xf1 0xf3 b && is_continuation c.

(** [str::from_utf8(s).is_ok()] *)
Fixpoint utf8_valid (s : bytes) : bool :=
  match s with
  | [] => true
  | b :: s =>
      if u8 b <? 0x80 then utf8_valid s
      else if in_range 0xc2 0xdf b then
        match s with
        | c1 :: s => is_continuation c1 && utf8_valid s
        | _ => false
        end
      else if in_range 0xe0 0xef b then
        match s with
        | c1 :: c2 :: s => second3_ok b c1 && is_continuation c2 && utf8_valid s
        | _ => false
        end
      else if in_range 0xf0 0xf4 b then
        match s with
        | c1 :: c2 :: c3 :: s =>
            second4_ok b c1 && is_continuation c2 && is_continuation c3 && utf8_valid s
        | _ => false
        end
      else false
  end.

(** [str::is_char_boundary] *)
Definition is_char_boundary (s : bytes) (i : nat) : bool :=
  match i with
  | O => true
  | _ => match s !! i with
         | Some b => negb (is_continuation b)
         | None => (i =? length s)%nat
         end
  end.

(** [&s[a..b]] on a [str]: panics outside of the string and inside a character. *)
Definition str_slice {E} (s : bytes) (a b : nat) : result E bytes :=
  if (a <=? b)%nat && (b <=? length s)%nat && is_char_boundary s a && is_char_boundary s b
  then Ok (take (b - a) (drop a s)) else Fail Panic.

(** [&s[a..b]] and the write of a slice of the same length into it. *)
Definition slice {A E} (s : list A) (a b : nat) : result E (list A) :=
  if (a <=? b)%nat && (b <=? length s)%nat then Ok (take (b - a) (drop a s)) else Fail Panic.
Definition slice_write {A E} (s : list A) (a b : nat) (x : list A) : result E (list A) :=
  if (a <=? b)%nat && (b <=? length s)%nat && (length x =? b - a)%nat
  then Ok (take a s ++ x ++ drop b s) else Fail Panic.

(** * Parsing of numbers *)

Definition digit_value (c : byte) : option Z :=
  if in_range 0x30 0x39 c then Some (u8 c - 0x30)
  else if in_range 0x41 0x5a c then Some (u8 c - 0x41 + 10)
  else if in_range 0x61 0x7a c then Some (u8 c - 0x61 + 10)
  else None.

Fixpoint parse_digits (radix acc : Z) (s : bytes) : option Z :=
  match s with
  | [] => Some acc
  | c :: s =>
      match digit_value c with
      | Some d =>
          if (d <? radix) && (acc * radix + d <? 2 ^ 64)
          then parse_digits radix (acc * radix + d) s else None
      | None => None
      end
  end.

(** [u64::from_str_radix(s, radix).ok()] *)
Definition parse_u64 (radix : Z) (s : bytes) : option Z :=
  match s with
  | [] => None
  | c :: s' =>
      if bool_decide (c = "+"%byte) then
        match s' with [] => None | _ => parse_digits radix 0 s' end
      else parse_digits radix 0 s
  end.

Fixpoint starts_with (p s : bytes) : bool :=
  match p, s with
  | [], _ => true
  | a :: p, b :: s => bool_decide (a = b) && starts_with p s
  | _ :: _, [] => false
  end.

(** [s.trim_start_matches("0x")] *)
Fixpoint trim_0x (s : bytes) : bytes :=
  match s with
  | a :: ((b :: s') as t) =>
      if bool_decide (a = "0"%byte) && bool_decide (b = "x"%byte) then trim_0x s' else a :: t
  | _ => s
  end.

(** Lexicographic comparison of byte strings ([Ord] of [str] and of [[u8]]). *)
Fixpoint bytes_compare (a b : bytes) : comparison :=
  match a, b with
  | [], [] => Eq
  | [], _ :: _ => Lt
  | _ :: _, [] => Gt
  | x :: a, y :: b =>
      match Z.compare (u8 x) (u8 y) with
      | Eq => bytes_compare a b
      | c => c
      end
  end.

(** [a] is before [b] in the lexicographic order: it ends first, or has the smaller byte
    at the first place where they differ. *)
Definition lex_less (a b : bytes) : Prop := exists p,
  (exists y r, a = p /\ b = p ++ y :: r) \/
  (exists x y r r', a = p ++ x :: r /\ b = p ++ y :: r' /\ u8 x < u8 y).

Lemma lex_less_cons x a b : lex_less a b -> lex_less (x :: a) (x :: b).
Proof.
  intros [p [(y & r & -> & ->)|(x' & y & r & r' & -> & -> & H)]]; exists (x :: p); [left|right].
  - by exists y, r.
  - by exists x', y, r, r'.
Qed.

Lemma bytes_compare_spec a b :
  match bytes_compare a b with
  | Eq => a = b
  | Lt => lex_less a b
  | Gt => lex_less b a
  end.
Proof.
  revert b. induction a as [|x a IH]; intros [|y b]; cbn [bytes_compare].
  - done.
  - exists []. left. by exists y, b.
  - exists []. left. by exists x, a.
  - destruct (Z.compare_spec (u8 x) (u8 y)) as [E|H|H].
    + apply u8_inj in E as <-. specialize (IH b).
      destruct (bytes_compare a b); [by subst|by apply lex_less_cons..].
    + exists []. right. by exists x, y, a, b.
    + exists []. right. by exists y, x, b, a.
Qed.

(** * Lemmas *)

Lemma parse_digits_u64 radix acc s z :
  0 <= acc -> 0 <= radix -> parse_digits radix acc s = Some z -> is_u64 acc -> is_u64 z.
Proof.
  intros Ha Hr. revert acc Ha. induction s as [|c s IH]; intros acc Ha; cbn.
  - intros [= <-]. done.
  - destruct (digit_value c) as [d|] eqn:E; [|done].
    assert (0 <= d) as Hd.
    { unfold digit_value, in_range in E. repeat case_match; simplify_eq; lia. }
    destruct (_ && _) eqn:B; [|done]. apply andb_prop in B as [_ B].
    intros H _. eapply IH; [|exact H|]; [nia|]. unfold in_width. nia.
Qed.

Lemma parse_u64_range radix s z : 0 <= radix -> parse_u64 radix s = Some z -> is_u64 z.
Proof.
  unfold parse_u64. intros Hr. destruct s as [|c s]; [done|]. case_bool_decide.
  - destruct s; [done|]. intros Hp. eapply parse_digits_u64; [| |exact Hp|]; done.
  - intros Hp. eapply parse_digits_u64; [| |exact Hp|]; done.
Qed.

Lemma bytes_compare_eq a b : bytes_compare a b = Eq <-> a = b.
Proof.
  revert b. induction a as [|x a IH]; intros [|y b]; cbn; [done..|].
  destruct (Z.compare_spec (u8 x) (u8 y)) as [E|E|E].
  - apply u8_inj in E as ->. rewrite IH. split; [by intros ->|by intros [= ->]].
  - split; [done|]. intros [= -> _]. lia.
  - split; [done|]. intros [= -> _]. lia.
Qed.

Lemma bytes_compare_antisym a b : bytes_compare b a = CompOpp (bytes_compare a b).
Proof.
  revert b. induction a as [|x a IH]; intros [|y b]; cbn; [done..|].
  rewrite (Z.compare_antisym (u8 x) (u8 y)). destruct (u8 x ?= u8 y); cbn; [apply IH|done|done].
Qed.
