(* ===== verification/Context.v ===== *)
(** The state of the AML interpreter ([AmlContext] in [aml/src/lib.rs]): the
    handler, the namespace, the state of the executing control method, the
    current scope and the state of the debug output; and the store of the
    buffers that values share, with the locks that are held. *)
From S2P Require Import Prelude Types Names Namespace Env.
#[local] Open Scope Z_scope.

Inductive DebugVerbosity := VbNone | VbScopes | VbAllScopes | VbAll.

(** The derived [Ord]. *)
Definition verbosity_rank (v : DebugVerbosity) : Z :=
  match v with VbNone => 0 | VbScopes => 1 | VbAllScopes => 2 | VbAll => 3 end.
Definition verbosity_le (a b : DebugVerbosity) : bool := verbosity_rank a <=? verbosity_rank b.

Record MethodContext := MkMethodContext {
  locals : list (option AmlValue);
  args : Args
}.

(** [MethodContext::new] *)
Definition new_method_context (args : Args) : MethodContext :=
  MkMethodContext (replicate 8 None) args.

Record AmlContext {env : AmlEnv} := MkContext {
  hardware : hw;
  namespace : Namespace;
  method_context : option MethodContext;
  current_scope : AmlName;
  scope_indent : Z;
  debug_verbosity : DebugVerbosity;
  buffers : list bytes;
  locked : list BufRef
}.

Section Context.
Context {env : AmlEnv}.

Definition set_hardware (h : hw) (c : AmlContext) : AmlContext :=
  MkContext _ h (namespace c) (method_context c) (current_scope c) (scope_indent c)
    (debug_verbosity c) (buffers c) (locked c).
Definition set_namespace (n : Namespace) (c : AmlContext) : AmlContext :=
  MkContext _ (hardware c) n (method_context c) (current_scope c) (scope_indent c)
    (debug_verbosity c) (buffers c) (locked c).
Definition set_method_context (m : option MethodContext) (c : AmlContext) : AmlContext :=
  MkContext _ (hardware c) (namespace c) m (current_scope c) (scope_indent c)
    (debug_verbosity c) (buffers c) (locked c).
Definition set_current_scope (s : AmlName) (c : AmlContext) : AmlContext :=
  MkContext _ (hardware c) (namespace c) (method_context c) s (scope_indent c)
    (debug_verbosity c) (buffers c) (locked c).
Definition set_scope_indent (i : Z) (c : AmlContext) : AmlContext :=
  MkContext _ (hardware c) (namespace c) (method_context c) (current_scope c) i
    (debug_verbosity c) (buffers c) (locked c).
Definition set_buffers (b : list bytes) (c : AmlContext) : AmlContext :=
  MkContext _ (hardware c) (namespace c) (method_context c) (current_scope c) (scope_indent c)
    (debug_verbosity c) b (locked c).

Definition set_locked (l : list BufRef) (c : AmlContext) : AmlContext :=
  MkContext _ (hardware c) (namespace c) (method_context c) (current_scope c) (scope_indent c)
    (debug_verbosity c) (buffers c) l.

(** A method of the namespace called on [self.namespace]. *)
Definition on_namespace {A} (m : SE Namespace AmlError A) : SE AmlContext AmlError A := fun c =>
  match m (namespace c) with
  | SOk a ns => SOk a (set_namespace ns c)
  | SErr e ns => SErr e (set_namespace ns c)
  | SFail r => SFail r
  end.

(** A function of the shared namespace. *)
Definition in_namespace {A} (f : Namespace -> result AmlError A) : SE AmlContext AmlError A :=
  let! ns := se_gets namespace in se_lift (f ns).

(** [Arc::new(Spinlock::new(data))] *)
Definition alloc_buffer (data : bytes) : SE AmlContext AmlError BufRef := fun c =>
  SOk (length (buffers c)) (set_buffers (buffers c ++ [data]) c).

(** Reading and replacing the data of a buffer under its lock, which is
    released at once. Taking a lock that an enclosing expression holds never
    returns. Every reference of a running program points into the store. *)
Definition load_buffer (l : BufRef) : SE AmlContext AmlError bytes := fun c =>
  if bool_decide (l ∈ locked c) then SFail Deadlock
  else match buffers c !! l with
       | Some data => SOk data c
       | None => SFail UB
       end.
Definition store_buffer (l : BufRef) (data : bytes) : SE AmlContext AmlError unit :=
  do! load_buffer l in
  se_modify (fun c => set_buffers (<[l := data]> (buffers c)) c).

(** Runs [m] on the data of a buffer while its lock is held. *)
Definition with_lock {A} (l : BufRef) (m : bytes -> SE AmlContext AmlError A)
    : SE AmlContext AmlError A := fun c =>
  match load_buffer l c with
  | SOk data _ =>
      match m data (set_locked (l :: locked c) c) with
      | SOk a c' => SOk a (set_locked (locked c) c')
      | SErr e c' => SErr e (set_locked (locked c) c')
      | SFail r => SFail r
      end
  | SErr e c' => SErr e c'
  | SFail r => SFail r
  end.

(** A call of a method of the handler, which may panic. *)
Definition with_hardware {A} (f : hw -> option (A * hw)) : SE AmlContext AmlError A := fun c =>
  match f (hardware c) with
  | Some (a, h) => SOk a (set_hardware h c)
  | None => SFail Panic
  end.

(** [z.try_into().map_err(|_| e)] to a [w]-bit type. *)
Definition try_into (w : Z) (e : AmlError) (z : Z) : result AmlError Z :=
  if bool_decide (in_width w z) then Ok z else Err e.

End Context.

(** The native methods that the user of the library adds with [native_method]. *)
Class UserNatives {env : AmlEnv} := {
  user_native : nat -> SE AmlContext AmlError AmlValue
}.
