(* ===== verification/Value.v ===== *)
(** AML values ([aml/src/value.rs]) and the parts of [aml/src/lib.rs] that read
    and write them: the flag bytes, conversions between types, fields of operation
    regions, fields of buffers, comparison, arguments and locals, and stores. *)
From S2P Require Import Prelude Types Names Namespace Env RustStd Context.
#[local] Open Scope Z_scope.

(** * Flags *)

Section Flags.
Context {bf : BitField}.

(** [FieldFlags::access_type] *)
Definition access_type (f : FieldFlags) : result AmlError FieldAccessType :=
  match get_bits (u8 (field_flags f)) 0 4 with
  | 0 => Ok AccAny
  | 1 => Ok AccByte
  | 2 => Ok AccWord
  | 3 => Ok AccDWord
  | 4 => Ok AccQWord
  | 5 => Ok AccBuffer
  | _ => Err InvalidFieldFlags
  end.

(** [FieldFlags::lock_rule] *)
Definition lock_rule (f : FieldFlags) : bool := get_bit (u8 (field_flags f)) 4.

(** [FieldFlags::field_update_rule] *)
Definition field_update_rule (f : FieldFlags) : result AmlError FieldUpdateRule :=
  match get_bits (u8 (field_flags f)) 5 7 with
  | 0 => Ok Preserve
  | 1 => Ok WriteAsOnes
  | 2 => Ok WriteAsZeros
  | _ => Err InvalidFieldFlags
  end.

(** [MethodFlags::new] *)
Definition method_flags_new {E} (arg_count : Z) (serialize : bool) (sync_level : Z)
    : result E MethodFlags :=
  let? _ := assert_ (arg_count <=? 7) in
  let? _ := assert_ (sync_level <=? 15) in
  let value := set_bits 0 0 3 arg_count in
  let value := set_bit value 3 serialize in
  let value := set_bits value 4 8 sync_level in
  Ok (MkMethodFlags (to_u8 value)).

(** [MethodFlags::arg_count], [MethodFlags::serialize], [MethodFlags::sync_level] *)
Definition arg_count (f : MethodFlags) : Z := get_bits (u8 (method_flags f)) 0 3.
Definition serialize (f : MethodFlags) : bool := get_bit (u8 (method_flags f)) 3.
Definition sync_level (f : MethodFlags) : Z := get_bits (u8 (method_flags f)) 4 8.

(** [AmlValue::native_method] *)
Definition native_method {E} (arg_count : Z) (serialize : bool) (sync_level : Z)
    (m : NativeMethod) : result E AmlValue :=
  let? flags := method_flags_new arg_count serialize sync_level in
  Ok (VMethod flags (Native m)).
End Flags.

(** * Values that need no context *)

Definition value_zero : AmlValue := VInteger 0.
Definition value_one : AmlValue := VInteger 1.
Definition value_ones : AmlValue := VInteger (2 ^ 64 - 1).

(** [AmlValue::type_of] *)
Definition type_of (v : AmlValue) : AmlType :=
  match v with
  | VBoolean _ => TInteger
  | VInteger _ => TInteger
  | VString _ => TString
  | VOpRegion _ _ _ _ => TOpRegion
  | VField _ _ _ _ => TFieldUnit
  | VDevice => TDevice
  | VMethod _ _ => TMethod
  | VBuffer _ => TBuffer
  | VBufferField _ _ _ => TBufferField
  | VProcessor _ _ _ => TProcessor
  | VMutex _ => TMutex
  | VPackage _ => TPackage
  | VPowerResource _ _ => TPowerResource
  | VThermalZone => TThermalZone
  end.

(** [AmlValue::as_bool] *)
Definition as_bool (v : AmlValue) : result AmlError bool :=
  match v with
  | VBoolean b => Ok b
  | VInteger z => Ok (negb (z =? 0))
  | _ => Err (IncompatibleValueConversion (type_of v) TInteger)
  end.

(** [AmlValue::as_concat_type] *)
Definition as_concat_type (v : AmlValue) : AmlValue :=
  match type_of v with
  | TInteger => v
  | TString => v
  | TBuffer => v
  | TUninitialized => VString (bstr "[Uninitialized]")
  | TBufferField => VString (bstr "[Buffer Field]")
  | TDdbHandle => VString (bstr "[Ddb Handle]")
  | TDebugObject => VString (bstr "[Debug Object]")
  | TEvent => VString (bstr "[Event]")
  | TFieldUnit => VString (bstr "[Field]")
  | TDevice => VString (bstr "[Device]")
  | TMethod => VString (bstr "[Control Method]")
  | TMutex => VString (bstr "[Mutex]")
  | TObjReference => VString (bstr "[Obj Reference]")
  | TOpRegion => VString (bstr "[Operation Region]")
  | TPackage => VString (bstr "[Package]")
  | TProcessor => VString (bstr "[Processor]")
  | TPowerResource => VString (bstr "[Power Resource]")
  | TRawDataBuffer => VString (bstr "[Raw Data Buffer]")
  | TThermalZone => VString (bstr "[Thermal Zone]")
  end.

(** [StatusObject::default] *)
Definition default_status : StatusObject := MkStatus true true true true true.

(** [AmlValue::as_status] *)
Definition as_status {bf : BitField} (v : AmlValue) : result AmlError StatusObject :=
  match v with
  | VInteger z =>
      if negb (get_bits z 5 64 =? 0) then Err InvalidStatusObject
      else Ok (MkStatus (get_bit z 0) (get_bit z 1) (get_bit z 2) (get_bit z 3) (get_bit z 4))
  | _ => Err InvalidStatusObject
  end.

(** * Arguments and locals *)

(** [Args::EMPTY], and [Args::default] *)
Definition args_empty : Args := replicate 7 None.

(** [Args::from_list] *)
Definition args_from_list (list : list AmlValue) : result AmlError Args :=
  if (7 <? length list)%nat then Err TooManyArgs
  else Ok (map Some list ++ replicate (7 - length list) None).

(** [Args::arg] *)
Definition args_arg (a : Args) (arg : Z) : result AmlError AmlValue :=
  if 6 <? arg then Err (InvalidArgAccess arg)
  else let? slot := unwrap (a !! Z.to_nat arg) in ok_or (InvalidArgAccess arg) slot.

(** [Args::store_arg] *)
Definition args_store_arg (a : Args) (arg : Z) (value : AmlValue) : result AmlError Args :=
  if 6 <? arg then Err (InvalidArgAccess arg)
  else let? _ := unwrap (a !! Z.to_nat arg) in Ok (<[Z.to_nat arg := Some value]> a).

Section Value.
Context {env : AmlEnv}.
Abbreviation M := (SE AmlContext AmlError).

(** [AmlContext::current_arg] *)
Definition current_arg (arg : Z) : M AmlValue :=
  let! mc := se_gets method_context in
  se_lift (let? mc := ok_or NotExecutingControlMethod mc in args_arg (args mc) arg).

(** [AmlContext::local] *)
Definition local (l : Z) : M AmlValue :=
  let! mc := se_gets method_context in
  se_lift (
    let? mc := ok_or NotExecutingControlMethod mc in
    if 7 <? l then Err (InvalidLocalAccess l)
    else let? slot := unwrap (locals mc !! Z.to_nat l) in ok_or (InvalidLocalAccess l) slot).

(** [AmlContext::read_target] *)
Definition read_target (t : Target_) : M AmlValue :=
  match t with
  | TgtNull => se_fail Panic
  | TgtName name =>
      let! scope := se_gets current_scope in
      let! (_, handle) := in_namespace (fun ns => search ns name scope) in
      in_namespace (fun ns => ns_get ns handle)
  | TgtDebug => se_fail Panic
  | TgtArg arg => current_arg arg
  | TgtLocal l => local l
  end.


(** A name that the code writes as a literal: [AmlName::from_str(s).unwrap()]. *)
Definition name_lit {E} (s : bytes) : result E AmlName := unwrap_ok (name_from_str s).

(** [u64::next_power_of_two] *)
Definition next_power_of_two {E} (z : Z) : result E Z :=
  checked 64 (if z <=? 1 then 1 else 2 ^ Z.log2_up z).

(** [v.get_bits(lo..hi)] and [v.set_bits(lo..hi, x)] on a [u64], for a range
    that is not a literal. *)
Definition get_bits_dyn {E} (v lo hi : Z) : result E Z :=
  if range_panics 64 lo hi then Fail Panic else Ok (get_bits v lo hi).
Definition set_bits_dyn {E} (v lo hi x : Z) : result E Z :=
  if range_panics 64 lo hi || value_panics lo hi x then Fail Panic
  else Ok (set_bits v lo hi x).

Section Conversions.
(** [AmlValue::as_integer]: the function below is recursive through the reads
  of the objects that describe a PCI function. *)
Context (as_integer : AmlValue -> M Z).

(** An optional object of the parent of a region in the PCI configuration space:
  [match self.namespace.search(name, parent_device) { ... }]. *)
Definition pci_optional (name : bytes) (parent_device : AmlName) (width : Z) : M Z :=
  let! name := se_lift (name_lit name) in
  let! ns := se_gets namespace in
  match search ns name parent_device with
  | Ok (_, handle) =>
    let! v := se_lift (ns_get ns handle) in
    let! z := as_integer v in
    se_lift (try_into width FieldInvalidAddress z)
  | Err (ValueDoesNotExist _) => se_ret 0
  | Err e => se_err e
  | Fail r => se_fail r
  end.

(** The segment, bus, device and function that [_SEG], [_BBN] and [_ADR] give. *)
Definition pci_function (parent_device : option AmlName) : M (Z * Z * Z * Z) :=
  let! parent_device := se_lift (unwrap parent_device) in
  let! seg := pci_optional (bstr "_SEG") parent_device 16 in
  let! bbn := pci_optional (bstr "_BBN") parent_device 8 in
  let! adr_name := se_lift (name_lit (bstr "_ADR")) in
  let! (_, handle) := in_namespace (fun ns => search ns adr_name parent_device) in
  let! v := in_namespace (fun ns => ns_get ns handle) in
  let! adr := as_integer v in
  se_ret (seg, bbn, wrap 8 (get_bits adr 16 24), wrap 8 (get_bits adr 0 8)).

(** [let (region_space, region_base, _, parent_device) = ...] *)
Definition region_parts (region_handle : AmlHandle) : M (RegionSpace * Z * option AmlName) :=
  let! v := in_namespace (fun ns => ns_get ns region_handle) in
  match v with
  | VOpRegion region offset _ parent_device => se_ret (region, offset, parent_device)
  | _ => se_err FieldRegionIsNotOpRegion
  end.

(** [(region_base + offset).try_into()] *)
Definition region_address (width region_base offset : Z) : M Z :=
  se_lift (let? address := add_w 64 region_base offset in
         try_into width FieldInvalidAddress address).

(** A read of the handler whose result is a value of [length] bits. *)
Definition handler_read (length : Z) (f : hw -> option (Z * hw)) : M Z :=
  let! z := with_hardware f in se_ret (wrap length z).
Definition handler_write (f : hw -> option hw) : M unit := with_hardware (fun h => option_map (pair tt) (f h)).

(** [AmlContext::read_region] *)
Definition read_region (region_handle : AmlHandle) (offset length : Z) : M Z :=
  let! (region_space, region_base, parent_device) := region_parts region_handle in
  match region_space with
  | SystemMemory =>
    let! address := region_address usize_bits region_base offset in
    match length with
    | 8 => handler_read 8 (h_read 8 address)
    | 16 => handler_read 16 (h_read 16 address)
    | 32 => handler_read 32 (h_read 32 address)
    | 64 => handler_read 64 (h_read 64 address)
    | _ => se_err FieldInvalidAccessSize
    end
  | SystemIo =>
    let! port := region_address 16 region_base offset in
    match length with
    | 8 => handler_read 8 (h_read_io 8 port)
    | 16 => handler_read 16 (h_read_io 16 port)
    | 32 => handler_read 32 (h_read_io 32 port)
    | _ => se_err FieldInvalidAccessSize
    end
  | PciConfig =>
    let! (seg, bbn, device, function) := pci_function parent_device in
    let! offset := region_address 16 region_base offset in
    match length with
    | 8 => handler_read 8 (h_read_pci 8 seg bbn device function offset)
    | 16 => handler_read 16 (h_read_pci 16 seg bbn device function offset)
    | 32 => handler_read 32 (h_read_pci 32 seg bbn device function offset)
    | _ => se_err FieldInvalidAccessSize
    end
  | _ => se_fail Panic
  end.

(** [AmlContext::write_region] *)
Definition write_region (region_handle : AmlHandle) (offset length value : Z) : M unit :=
  let! (region_space, region_base, parent_device) := region_parts region_handle in
  match region_space with
  | SystemMemory =>
    let! address := region_address usize_bits region_base offset in
    match length with
    | 8 => handler_write (h_write 8 address (wrap 8 value))
    | 16 => handler_write (h_write 16 address (wrap 16 value))
    | 32 => handler_write (h_write 32 address (wrap 32 value))
    | 64 => handler_write (h_write 64 address value)
    | _ => se_err FieldInvalidAccessSize
    end
  | SystemIo =>
    let! port := region_address 16 region_base offset in
    match length with
    | 8 => handler_write (h_write_io 8 port (wrap 8 value))
    | 16 => handler_write (h_write_io 16 port (wrap 16 value))
    | 32 => handler_write (h_write_io 32 port (wrap 32 value))
    | _ => se_err FieldInvalidAccessSize
    end
  | PciConfig =>
    let! (seg, bbn, device, function) := pci_function parent_device in
    let! offset := region_address 16 region_base offset in
    match length with
    | 8 => handler_write (h_write_pci 8 seg bbn device function offset (wrap 8 value))
    | 16 => handler_write (h_write_pci 16 seg bbn device function offset (wrap 16 value))
    | 32 => handler_write (h_write_pci 32 seg bbn device function offset (wrap 32 value))
    | _ => se_err FieldInvalidAccessSize
    end
  | _ => se_fail Panic
  end.

(** The access size of a field: the checks of the region and of the flags, and
  the larger of the minimum access size and the rounded length. *)
Definition field_access_size (region : AmlHandle) (flags : FieldFlags) (length : Z) : M Z :=
  let! (region_space, _, _) := region_parts region in
  do! match region_space with
    | SystemMemory | SystemIo | PciConfig => se_ret tt
    | _ => se_fail Panic
    end in
  let! access := se_lift (access_type flags) in
  let minimum_access_size :=
  match access with
  | AccAny => 8
  | AccByte => 8
  | AccWord => 16
  | AccDWord => 32
  | AccQWord => 64
  | AccBuffer => 8
  end in
  let! rounded := se_lift (next_power_of_two length) in
  se_ret (Z.max minimum_access_size rounded).

(** [AmlValue::read_field] *)
Definition read_field (v : AmlValue) : M AmlValue :=
  match v with
  | VField region flags offset length =>
    let! access_size := field_access_size region flags length in
    let! z := read_region region offset access_size in
    let! z := se_lift (get_bits_dyn z 0 (as_usize length)) in
    se_ret (VInteger z)
  | _ => se_err (IncompatibleValueConversion (type_of v) TFieldUnit)
  end.

(** [AmlValue::write_field] *)
Definition write_field (v value : AmlValue) : M unit :=
  match v with
  | VField region flags offset length =>
    let! rule := se_lift (field_update_rule flags) in
    let! field_value :=
      match rule with
      | Preserve => let! old := read_field v in as_integer old
      | WriteAsOnes => se_ret 0xffffffffffffffff
      | WriteAsZeros => se_ret 0
      end in
    let! access_size := field_access_size region flags length in
    let! z := as_integer value in
    let! field_value := se_lift (set_bits_dyn field_value 0 (as_usize length) z) in
    write_region region offset access_size field_value
  | _ => se_err (IncompatibleValueConversion (type_of v) TFieldUnit)
  end.
End Conversions.

(** [AmlValue::read_buffer_field] *)
Definition read_buffer_field (v : AmlValue) : M AmlValue :=
  match v with
  | VBufferField buffer_data offset length_ =>
      let offset := as_usize offset in
      let len := as_usize length_ in
      with_lock buffer_data (fun inner_data =>
        let! end_ := se_lift (add_w usize_bits offset len) in
        let! data_bits := se_lift (mul_w usize_bits (Z.of_nat (length inner_data)) 8) in
        if data_bits <? end_ then se_err BufferFieldIndexesOutOfBounds
        else
          let! bits := se_lift (slice (view_bits inner_data) (Z.to_nat offset) (Z.to_nat end_)) in
          if 64 <? len then
            let! l := alloc_buffer (bits_to_vec inner_data (Z.to_nat offset) (Z.to_nat end_)) in
            se_ret (VBuffer l)
          else se_ret (VInteger (load_u64 bits)))
  | _ => se_err (IncompatibleValueConversion (type_of v) TBufferField)
  end.

(** The copy of the low bits of [source] into the bits [offset..offset + len] of a
    buffer, zero-extended. *)
Definition copy_bits {E} (bitslice source : list bool) (offset len source_len : Z)
    : result E (list bool) :=
  let bits_to_copy := Z.min len source_len in
  let? mid := add_w usize_bits offset bits_to_copy in
  let? src := slice source 0 (Z.to_nat bits_to_copy) in
  let? bitslice := slice_write bitslice (Z.to_nat offset) (Z.to_nat mid) src in
  let? end_ := add_w usize_bits offset len in
  slice_write bitslice (Z.to_nat mid) (Z.to_nat end_)
    (replicate (Z.to_nat end_ - Z.to_nat mid) false).

(** [AmlValue::write_buffer_field] *)
Definition write_buffer_field (v value : AmlValue) : M unit :=
  match v with
  | VBufferField buffer_data offset length_ =>
      let offset := as_usize offset in
      let len := as_usize length_ in
      let! written := with_lock buffer_data (fun inner_data =>
        let bitslice := view_bits inner_data in
        match value with
        | VInteger z => se_lift (copy_bits bitslice (u64_bits z) offset len 64)
        | VBoolean b =>
            if (Z.to_nat offset <? length bitslice)%nat
            then se_ret (<[Z.to_nat offset := b]> bitslice) else se_fail Panic
        | VBuffer l =>
            with_lock l (fun value_data =>
              let! value_bits := se_lift (mul_w usize_bits (Z.of_nat (length value_data)) 8) in
              se_lift (copy_bits bitslice (view_bits value_data) offset len value_bits))
        | _ => se_err (TypeCannotBeWrittenToBufferField (type_of value))
        end) in
      store_buffer buffer_data (write_bits written)
  | _ => se_err (IncompatibleValueConversion (type_of v) TBufferField)
  end.

(** The integer of the first eight bytes of a buffer. *)
Definition buffer_integer (data : bytes) : Z :=
  let data := if (8 <? length data)%nat then take 8 data else data in
  fold_left (fun i popped => wrap 64 (Z.shiftl i 8) + u8 popped) (rev data) 0.

(** [AmlValue::as_integer] *)
Fixpoint as_integer (fuel : nat) (v : AmlValue) : M Z :=
  match fuel with
  | O => se_fail OutOfFuel
  | S fuel =>
      match v with
      | VInteger z => se_ret z
      | VBoolean b => se_ret (if b then 2 ^ 64 - 1 else 0)
      | VBuffer l => let! data := load_buffer l in se_ret (buffer_integer data)
      | VField _ _ _ _ => let! r := read_field (as_integer fuel) v in as_integer fuel r
      | VBufferField _ _ _ => let! r := read_buffer_field v in as_integer fuel r
      | _ => se_err (IncompatibleValueConversion (type_of v) TInteger)
      end
  end.

(** [AmlValue::as_buffer] *)
Fixpoint as_buffer (fuel : nat) (v : AmlValue) : M BufRef :=
  match fuel with
  | O => se_fail OutOfFuel
  | S fuel =>
      match v with
      | VBuffer l => se_ret l
      | VField _ _ _ _ => let! r := read_field (as_integer fuel) v in as_buffer fuel r
      | VBufferField _ _ _ => let! r := read_buffer_field v in as_buffer fuel r
      | _ => se_err (IncompatibleValueConversion (type_of v) TBuffer)
      end
  end.

(** [AmlValue::as_string] *)
Fixpoint as_string (fuel : nat) (v : AmlValue) : M bytes :=
  match fuel with
  | O => se_fail OutOfFuel
  | S fuel =>
      match v with
      | VString s => se_ret s
      | VField _ _ _ _ => let! r := read_field (as_integer fuel) v in as_string fuel r
      | _ => se_err (IncompatibleValueConversion (type_of v) TString)
      end
  end.

(** [AmlValue::as_type] *)
Definition as_type (fuel : nat) (v : AmlValue) (desired_type : AmlType) : M AmlValue :=
  if bool_decide (type_of v = desired_type) then se_ret v
  else
    match desired_type with
    | TInteger => let! z := as_integer fuel v in se_ret (VInteger z)
    | TBuffer => let! l := as_buffer fuel v in se_ret (VBuffer l)
    | TFieldUnit => se_fail Panic
    | _ => se_err (IncompatibleValueConversion (type_of v) desired_type)
    end.

(** [AmlValue::cmp]. The guard of the left buffer lives to the end of the
    comparison, so it is held while the right operand is converted and locked. *)
Definition value_cmp (fuel : nat) (v other : AmlValue) : M comparison :=
  let! self_inner :=
    if bool_decide (type_of v = TFieldUnit) then read_field (as_integer fuel) v
    else se_ret v in
  match type_of self_inner with
  | TInteger =>
      let! a := as_integer fuel v in
      let! b := as_integer fuel other in
      se_ret (a ?= b)
  | TBuffer =>
      let! l := as_buffer fuel v in
      with_lock l (fun a =>
        let! l' := as_buffer fuel other in
        with_lock l' (fun b => se_ret (bytes_compare a b)))
  | TString =>
      let! a := as_string fuel v in
      let! b := as_string fuel other in
      se_ret (bytes_compare a b)
  | typ => se_err (TypeCannotBeCompared typ)
  end.

(** The method context behind [self.method_context.as_mut().unwrap()], after the
    check that a control method is executing. *)
Definition executing : M MethodContext :=
  let! mc := se_gets method_context in se_lift (ok_or NotExecutingControlMethod mc).

(** [AmlContext::store] *)
Definition store (fuel : nat) (target : Target_) (value : AmlValue) : M AmlValue :=
  match target with
  | TgtName path =>
      let! scope := se_gets current_scope in
      let! (_, handle) := in_namespace (fun ns => search ns path scope) in
      let! old := in_namespace (fun ns => ns_get ns handle) in
      match type_of old with
      | TFieldUnit =>
          do! write_field (as_integer fuel) old value in
          read_field (as_integer fuel) old
      | TBufferField =>
          do! write_buffer_field old value in
          se_ret value
      | typ =>
          let! converted := as_type fuel value typ in
          do! on_namespace (ns_set handle converted) in
          in_namespace (fun ns => ns_get ns handle)
      end
  | TgtDebug => se_fail Panic
  | TgtArg arg_num =>
      let! mc := executing in
      let! args := se_lift (args_store_arg (args mc) arg_num value) in
      do! se_modify (set_method_context (Some (MkMethodContext (locals mc) args))) in
      se_ret value
  | TgtLocal local_num =>
      let! mc := executing in
      let! _ := se_lift (unwrap (locals mc !! Z.to_nat local_num)) in
      do! se_modify (set_method_context (Some (MkMethodContext
            (<[Z.to_nat local_num := Some value]> (locals mc)) (args mc)))) in
      se_ret value
  | TgtNull => se_ret value
  end.

(** * Comparison *)

Lemma cmp_buffers_locks fuel l l' :
  value_cmp (S fuel) (VBuffer l) (VBuffer l') =
  with_lock l (fun a => with_lock l' (fun b => se_ret (bytes_compare a b))).
Proof. done. Qed.

(** C25: Comparing values of the same type: integers by their size, strings and buffers
    lexicographically, byte by byte and then by their lengths, without changing anything -
    except that a buffer is never compared with itself: the lock of the left operand is held
    while that of the right one is taken. *)
Theorem value_cmp_spec (fuel : nat) (c : AmlContext) (l l' : BufRef) (a b : bytes) :
  locked c = [] -> buffers c !! l = Some a -> buffers c !! l' = Some b ->
  (forall m n, value_cmp (S fuel) (VInteger m) (VInteger n) c = SOk (m ?= n) c) /\
  (forall s t, value_cmp (S fuel) (VString s) (VString t) c = SOk (bytes_compare s t) c) /\
  (l <> l' -> value_cmp (S fuel) (VBuffer l) (VBuffer l') c = SOk (bytes_compare a b) c) /\
  value_cmp (S fuel) (VBuffer l) (VBuffer l) c = SFail Deadlock /\
  (forall s t, match bytes_compare s t with
               | Eq => s = t
               | Lt => lex_less s t
               | Gt => lex_less t s
               end).
Proof.
  intros Hk Ha Hb. split; [done|]. split; [done|]. split; [|split; [|apply bytes_compare_spec]].
  - intros Hl. rewrite cmp_buffers_locks. unfold with_lock, load_buffer. rewrite Hk, Ha.
    rewrite bool_decide_eq_false_2 by set_solver. cbn. rewrite bool_decide_eq_false_2 by set_solver.
    rewrite Hb. destruct c. cbn in *. by subst.
  - rewrite cmp_buffers_locks. unfold with_lock, load_buffer. rewrite Hk, Ha.
    rewrite bool_decide_eq_false_2 by set_solver. cbn. by rewrite bool_decide_eq_true_2 by set_solver.
Qed.
End Value.

Lemma value_cmp_spec_witness :
  let c := MkContext env_debug ∅ new_namespace None root 0 VbNone [[x01; x02]; [x01]] [] in
  @value_cmp env_debug 1 (VBuffer 0) (VBuffer 1) c = SOk Gt c /\
  @value_cmp env_debug 1 (VBuffer 0) (VBuffer 0) c = SFail Deadlock.
Proof.
  intros c. destruct (@value_cmp_spec env_debug 0 c 0 1 [x01; x02] [x01] eq_refl eq_refl eq_refl)
    as (_ & _ & H & D & _).
  split; [exact (H ltac:(discriminate))|exact D].
Defined.
