(* ===== verification/Parser.v ===== *)
(** The parser combinators ([aml/src/parser.rs]). A parser is run on the rest of
    the input and the context, and returns both with its result or its error. *)
From S2P Require Import Prelude Types Names Namespace Env RustStd Context.
#[local] Open Scope Z_scope.

Definition INDENT_PER_SCOPE : Z := 2.

(** [Propagate] *)
Inductive Propagate :=
  | PErr (e : AmlError)
  | PReturn (v : AmlValue)
  | PBreak
  | PContinue.

(** [Propagate::Err(AmlError::WrongParser)] *)
Definition is_wrong_parser (e : Propagate) : bool :=
  match e with PErr WrongParser => true | _ => false end.

(** A [Result<_, AmlError>] where a [Result<_, Propagate>] is expected: the [From]
    instance, and the macro [try_with_context]. *)
Definition prop {A} (r : result AmlError A) : result Propagate A := result_map_err PErr r.

Section Parser.
Context {env : AmlEnv}.

(** [impl Parser<'a, 'c, R>] *)
Definition Parser (R : Type) : Type := SE (bytes * AmlContext) Propagate R.

(** A computation on the context alone. *)
Definition ctx {A} (m : SE AmlContext AmlError A) : SE AmlContext Propagate A :=
  se_map_err PErr m.

(** [Err((input, context, e))] from the state that a parser left. *)
Definition err_at {R} (input : bytes) (e : Propagate) (s : bytes * AmlContext)
    : sres (bytes * AmlContext) Propagate R := SErr e (input, snd s).

Definition p_id : Parser unit := se_ret tt.

(** [take] *)
Definition p_take : Parser byte := fun '(input, c) =>
  match input with
  | b :: rest => SOk b (rest, c)
  | [] => SErr (PErr UnexpectedEndOfStream) (input, c)
  end.

(** [take_u16], [take_u32], [take_u64] *)
Definition take_le (n : nat) : Parser Z := fun '(input, c) =>
  if (length input <? n)%nat then SErr (PErr UnexpectedEndOfStream) (input, c)
  else SOk (from_le_bytes (take n input)) (drop n input, c).
Definition take_u16 : Parser Z := take_le 2.
Definition take_u32 : Parser Z := take_le 4.
Definition take_u64 : Parser Z := take_le 8.

(** [input.len() as u32] *)
Definition len32 (input : bytes) : Z := wrap 32 (Z.of_nat (length input)).

Definition take_n (n : Z) : Parser bytes := fun '(input, c) =>
  if len32 input <? n then SErr (PErr UnexpectedEndOfStream) (input, c)
  else SOk (take (Z.to_nat n) input) (drop (Z.to_nat n) input, c).

Fixpoint n_of {R} (p : Parser R) (n : nat) : Parser (list R) :=
  match n with
  | O => se_ret []
  | S n => fun '(input, c) =>
      match p (input, c) with
      | SOk r s =>
          match n_of p n s with
          | SOk rs s => SOk (r :: rs) s
          | SErr e s => SErr e s
          | SFail f => SFail f
          end
      | SErr e s => err_at input e s
      | SFail f => SFail f
      end
  end.

(** [take_while]; every round but the last is counted in the fuel. *)
Fixpoint p_take_while {R} (fuel : nat) (p : Parser R) : Parser Z := fun '(input, c) =>
  match fuel with
  | O => SFail OutOfFuel
  | S fuel =>
      match p (input, c) with
      | SOk _ s =>
          match p_take_while fuel p s with
          | SOk n s => SOk (n + 1) s
          | SErr e s => SErr e s
          | SFail f => SFail f
          end
      | SErr e s => if is_wrong_parser e then SOk 0 (input, snd s) else err_at input e s
      | SFail f => SFail f
      end
  end.

Definition consume (condition : byte -> bool) : Parser byte := fun '(input, c) =>
  match input with
  | b :: rest =>
      if condition b then SOk b (rest, c) else SErr (PErr (UnexpectedByte b)) (input, c)
  | [] => SErr (PErr UnexpectedEndOfStream) (input, c)
  end.

(** An update of the context, and its use. *)
Definition on_context {A} (m : SE AmlContext Propagate A) : Parser A := fun '(input, c) =>
  match m c with
  | SOk a c => SOk a (input, c)
  | SErr e c => SErr e (input, c)
  | SFail f => SFail f
  end.

Definition indent (f : Z -> result Propagate Z) : SE AmlContext Propagate unit :=
  let! i := se_gets scope_indent in
  let! i := se_lift (f i) in
  se_modify (set_scope_indent i).

Definition comment_scope {R} (verbosity : DebugVerbosity) (p : Parser R) : Parser R :=
  do! on_context (
    let! v := se_gets debug_verbosity in
    if verbosity_le verbosity v then indent (fun i => add_w usize_bits i INDENT_PER_SCOPE)
    else se_ret tt) in
  let! r := p in
  do! on_context (
    let! v := se_gets debug_verbosity in
    if verbosity_le verbosity v then indent (fun i => sub_w usize_bits i INDENT_PER_SCOPE)
    else se_ret tt) in
  se_ret r.

Definition extract {R} (p : Parser R) : Parser (R * bytes) := fun '(before, c) =>
  match p (before, c) with
  | SOk r (after, c) =>
      match sub_w usize_bits (Z.of_nat (length before)) (Z.of_nat (length after)) with
      | Ok bytes_parsed =>
          match slice before 0 (Z.to_nat bytes_parsed) with
          | Ok parsed => SOk (r, parsed) (after, c)
          | Err e => SErr e (after, c)
          | Fail f => SFail f
          end
      | Err e => SErr e (after, c)
      | Fail f => SFail f
      end
  | SErr e s => SErr e s
  | SFail f => SFail f
  end.

(** [Or] *)
Definition p_or {R} (p1 p2 : Parser R) : Parser R := fun '(input, c) =>
  match p1 (input, c) with
  | SOk r s => SOk r s
  | SErr e s => if is_wrong_parser e then p2 (input, snd s) else err_at input e s
  | SFail f => SFail f
  end.

(** [MapWithContext] and [Map] *)
Definition map_with_context {R A} (p : Parser R) (map_fn : R -> SE AmlContext Propagate A)
    : Parser A := fun '(input, c) =>
  match p (input, c) with
  | SOk r (new_input, c) =>
      match map_fn r c with
      | SOk a c => SOk a (new_input, c)
      | SErr e c => SErr e (input, c)
      | SFail f => SFail f
      end
  | SErr e s => SErr e s
  | SFail f => SFail f
  end.
Definition p_map {R A} (p : Parser R) (map_fn : R -> result Propagate A) : Parser A :=
  map_with_context p (fun r => se_lift (map_fn r)).

(** [DiscardResult] *)
Definition discard_result {R} (p : Parser R) : Parser unit := let! _ := p in se_ret tt.

(** [Then] *)
Definition p_then {R1 R2} (p1 : Parser R1) (p2 : Parser R2) : Parser (R1 * R2) :=
  let! a := p1 in let! b := p2 in se_ret (a, b).

(** [Feed] *)
Definition p_feed {R1 R2} (p : Parser R1) (producer_fn : R1 -> Parser R2) : Parser R2 :=
  let! a := p in producer_fn a.

(** The macro [choice]: the alternatives are tried in order, each on the whole
    input, as long as they are the wrong parser. *)
Fixpoint choice {R} (ps : list (Parser R)) : Parser R := fun '(input, c) =>
  match ps with
  | [] => SErr (PErr WrongParser) (input, c)
  | p :: ps =>
      match p (input, c) with
      | SOk r s => SOk r s
      | SErr e s => if is_wrong_parser e then choice ps (input, snd s) else err_at input e s
      | SFail f => SFail f
      end
  end.
(** The output of the debugger is off, or its indentation leaves room for one more
    scope. *)
Definition indent_ok (c : AmlContext) : Prop :=
  debug_verbosity c = VbNone \/
  0 <= scope_indent c /\ scope_indent c + INDENT_PER_SCOPE < 2 ^ usize_bits.
End Parser.

(** * Lemmas *)

Section Lemmas.
Context {env : AmlEnv}.

Lemma set_scope_indent_same (c : AmlContext) : set_scope_indent (scope_indent c) c = c.
Proof. by destruct c. Qed.

(** A scope around a parser that does not change the context. *)
Lemma comment_scope_pure {R} v (p : Parser R) i r i' c :
  v <> VbNone -> indent_ok c -> (forall c', p (i, c') = SOk r (i', c')) ->
  comment_scope v p (i, c) = SOk r (i', c).
Proof.
  unfold indent_ok, INDENT_PER_SCOPE. intros Hv Hc Hp. unfold comment_scope, se_bind, on_context.
  unfold se_gets at 1. destruct (verbosity_le v (debug_verbosity c)) eqn:E.
  - destruct Hc as [Hc|Hc]; [rewrite Hc in E; by destruct v|]. unfold indent, se_bind, se_gets, se_lift, se_modify, add_w, sub_w, INDENT_PER_SCOPE.
    rewrite checked_exact by (unfold in_width; lia). rewrite Hp. cbn [debug_verbosity set_scope_indent].
    rewrite E. cbn [scope_indent set_scope_indent].
    rewrite checked_exact by (unfold in_width; lia).
    replace (scope_indent c + 2 - 2) with (scope_indent c) by lia. by destruct c.
  - cbn [se_ret]. rewrite Hp. unfold se_gets. by rewrite E.
Qed.

Lemma p_map_ok {R A} (p : Parser R) (f : R -> result Propagate A) i r i' c c' :
  p (i, c) = SOk r (i', c') ->
  p_map p f (i, c) =
  match f r with
  | Ok a => SOk a (i', c')
  | Err e => SErr e (i, c')
  | Fail r => SFail r
  end.
Proof.
  intros Hp. unfold p_map, map_with_context. rewrite Hp. unfold se_lift. by destruct (f r).
Qed.

Lemma p_then_ok {R A} (p : Parser R) (q : Parser A) s r s' a s'' :
  p s = SOk r s' -> q s' = SOk a s'' -> p_then p q s = SOk (r, a) s''.
Proof. intros Hp Hq. unfold p_then, se_bind. by rewrite Hp, Hq. Qed.

(** The alternatives that are the wrong parser are passed over. *)
Lemma choice_skip {R} (p : Parser R) ps i c s :
  p (i, c) = SErr (PErr WrongParser) s -> choice (p :: ps) (i, c) = choice ps (i, snd s).
Proof. intros Hp. cbn [choice]. by rewrite Hp. Qed.

Lemma choice_ok {R} (p : Parser R) ps i c r s :
  p (i, c) = SOk r s -> choice (p :: ps) (i, c) = SOk r s.
Proof. intros Hp. cbn [choice]. by rewrite Hp. Qed.

(** A choice that fails leaves its input. *)
Lemma choice_error_input {R} (ps : list (Parser R)) i c e s :
  choice ps (i, c) = SErr e s -> fst s = i.
Proof.
  revert c. induction ps as [|p ps IH]; intros c; cbn [choice]; [by intros [= _ <-]|].
  destruct (p (i, c)) as [r s'|e' s'|f]; [done| |done].
  destruct (is_wrong_parser e'); [apply IH|by intros [= _ <-]].
Qed.

(** The choice between parsers commits to the first alternative that is not
    the wrong parser: it returns what that alternative returns, and when it fails,
    it reports its error at the input of the whole choice, so that no input is
    consumed on failure; when all alternatives are wrong, so is the choice. *)
Theorem choice_spec {R} (ps : list (Parser R)) (input : bytes) (c : AmlContext) :
  match choice ps (input, c) with
  | SOk r s => exists pre p post c1,
      ps = pre ++ p :: post /\ p (input, c1) = SOk r s /\
      choice pre (input, c) = SErr (PErr WrongParser) (input, c1)
  | SErr e s => fst s = input /\
      (e = PErr WrongParser /\ Forall (fun p => exists c1 s1, p (input, c1) = SErr e s1) ps \/
       is_wrong_parser e = false /\ exists pre p post c1 s1,
         ps = pre ++ p :: post /\ p (input, c1) = SErr e s1 /\ snd s1 = snd s /\
         choice pre (input, c) = SErr (PErr WrongParser) (input, c1))
  | SFail f => exists pre p post c1,
      ps = pre ++ p :: post /\ p (input, c1) = SFail f /\
      choice pre (input, c) = SErr (PErr WrongParser) (input, c1)
  end.
Proof.
  revert c. induction ps as [|p ps IH]; intros c; cbn [choice].
  { split; [done|]. left. by split. }
  destruct (p (input, c)) as [r s|e s|f] eqn:E.
  - by exists [], p, ps, c.
  - destruct (is_wrong_parser e) eqn:Ew.
    + assert (e = PErr WrongParser) as -> by (destruct e as [[]| | |]; done).
      assert (forall pre c1, choice pre (input, snd s) = SErr (PErr WrongParser) (input, c1) ->
        choice (p :: pre) (input, c) = SErr (PErr WrongParser) (input, c1)) as Hskip.
      { intros pre c1 H. by rewrite (choice_skip _ _ _ _ _ E). }
      specialize (IH (snd s)). destruct (choice ps (input, snd s)) as [r s'|e' s'|f].
      * destruct IH as (pre & q & post & c1 & -> & Hq & H). exists (p :: pre), q, post, c1. auto.
      * destruct IH as [H1 [[-> H2]|(H2 & pre & q & post & c1 & s1 & -> & Hq & Hs & H)]].
        { split; [done|]. left. split; [done|]. constructor; eauto. }
        split; [done|]. right. split; [done|]. exists (p :: pre), q, post, c1, s1. auto.
      * destruct IH as (pre & q & post & c1 & -> & Hq & H). exists (p :: pre), q, post, c1. auto.
    + split; [done|]. right. split; [done|]. by exists [], p, ps, c, s.
  - by exists [], p, ps, c.
Qed.
End Lemmas.
