(* ===== verification/PkgLength.v ===== *)
(** Package lengths ([aml/src/pkg_length.rs]). *)
From S2P Require Import Prelude Types Names Namespace Env Context Parser.
#[local] Open Scope Z_scope.

Record PkgLength := MkPkgLength { raw_length : Z; end_offset : Z }.

(** [PkgLength::from_raw_length] *)
Definition from_raw_length (stream : bytes) (raw_length : Z) : result AmlError PkgLength :=
  let? end_offset := ok_or InvalidPkgLength
    (if len32 stream <? raw_length then None else Some (len32 stream - raw_length)) in
  Ok (MkPkgLength raw_length end_offset).

(** [PkgLength::still_parsing] *)
Definition still_parsing (p : PkgLength) (stream : bytes) : bool :=
  end_offset p <? len32 stream.

Section PkgLength.
Context {env : AmlEnv}.

(** [length + (u32::from(byte) << (4 + i * 8))], for every byte from the [i]th on *)
Fixpoint fold_length {E} (i : Z) (bs : bytes) (length : Z) : result E Z :=
  match bs with
  | [] => Ok length
  | b :: bs =>
      let? length := add_w 32 length (wrap 32 (Z.shiftl (u8 b) (4 + i * 8))) in
      fold_length (i + 1) bs length
  end.

Definition raw_pkg_length : Parser Z := fun '(input, c) =>
  (let! lead_byte := p_take in
   let byte_count := get_bits (u8 lead_byte) 6 8 in
   if byte_count =? 0 then se_ret (get_bits (u8 lead_byte) 0 6)
   else fun s =>
     match take_n byte_count s with
     | SOk bytes s =>
         se_lift (fold_length 0 bytes (get_bits (u8 lead_byte) 0 4)) s
     | SErr _ (_, c) => SErr (PErr UnexpectedEndOfStream) (input, c)
     | SFail f => SFail f
     end) (input, c).

Definition pkg_length : Parser PkgLength := fun '(input, c) =>
  match raw_pkg_length (input, c) with
  | SOk raw_length (new_input, c) =>
      match from_raw_length input raw_length with
      | Ok p => SOk p (new_input, c)
      | Err e => SErr (PErr e) (input, c)
      | Fail f => SFail f
      end
  | SErr e s => SErr e s
  | SFail f => SFail f
  end.

(** [take_to_end_of_pkglength] of [parser.rs] *)
Definition take_to_end_of_pkglength (length : PkgLength) : Parser bytes := fun '(input, c) =>
  if len32 input <? end_offset length then SErr (PErr InvalidPkgLength) (input, c)
  else take_n (len32 input - end_offset length) (input, c).
End PkgLength.

(** * Specification *)

(** The encoding of a length with [k] bytes after the lead byte, and the lengths
    that it can hold. *)
Definition pkg_bytes (k : nat) (n : Z) : bytes :=
  match k with
  | O => [to_u8 n]
  | _ => to_u8 (64 * Z.of_nat k + n mod 16) :: to_le_bytes k (n / 16)
  end.
Definition pkg_fits (k : nat) (n : Z) : bool :=
  match k with
  | O => (0 <=? n) && (n <? 64)
  | _ => (k <=? 3)%nat && (0 <=? n) && (n <? 2 ^ (4 + 8 * Z.of_nat k))
  end.

(** * Properties *)

Section Properties.
Context {env : AmlEnv}.

Lemma get_bits_byte (b : byte) lo hi : 0 <= lo < hi -> hi <= 8 ->
  get_bits (u8 b) lo hi = u8 b / 2 ^ lo mod 2 ^ (hi - lo).
Proof.
  intros H1 H2. rewrite get_bits_spec by (pose proof (u8_range b); lia).
  by rewrite Z.land_ones, Z.shiftr_div_pow2 by lia.
Qed.

Lemma fold_length_spec {E} bs i n : 0 <= i -> i + Z.of_nat (length bs) <= 3 ->
  0 <= n < 2 ^ (4 + 8 * i) ->
  fold_length i bs n = (Ok (n + 2 ^ (4 + 8 * i) * from_le_bytes bs) : result E Z).
Proof.
  revert i n. induction bs as [|b bs IH]; intros i n Hi Hl Hn; cbn [fold_length from_le_bytes].
  - f_equal. lia.
  - cbn [length] in Hl. pose proof (u8_range b) as Hb.
    assert (2 ^ (4 + 8 * (i + 1)) = 256 * 2 ^ (4 + 8 * i)) as E1.
    { replace (4 + 8 * (i + 1)) with (8 + (4 + 8 * i)) by lia. by rewrite Z.pow_add_r by lia. }
    assert (2 ^ (4 + 8 * (i + 1)) <= 2 ^ 28) by (apply Z.pow_le_mono_r; lia).
    rewrite Z.shiftl_mul_pow2, (Z.mul_comm i) by lia.
    assert (0 < 2 ^ (4 + 8 * i)) by (apply Z.pow_pos_nonneg; lia).
    rewrite wrap_id by (split; nia). unfold add_w. rewrite checked_exact by (split; nia).
    cbn [result_bind]. rewrite IH by nia. f_equal. rewrite E1. lia.
Qed.

(** What the decoder does, on every input. *)
Lemma raw_pkg_length_eq i c :
  raw_pkg_length (i, c) =
  match i with
  | [] => SErr (PErr UnexpectedEndOfStream) (i, c)
  | b :: r =>
      let k := u8 b / 64 in
      if k =? 0 then SOk (u8 b mod 64) (r, c)
      else if len32 r <? k then SErr (PErr UnexpectedEndOfStream) (i, c)
      else SOk (u8 b mod 16 + 16 * from_le_bytes (take (Z.to_nat k) r)) (drop (Z.to_nat k) r, c)
  end.
Proof.
  unfold raw_pkg_length, se_bind. destruct i as [|b r]; [done|]. cbn [p_take].
  pose proof (u8_range b) as Hb.
  rewrite !get_bits_byte by lia. change (2 ^ (8 - 6)) with 4. change (2 ^ 6) with 64.
  change (2 ^ 0) with 1. change (2 ^ (6 - 0)) with 64. change (2 ^ (4 - 0)) with 16.
  rewrite !Z.div_1_r, (Z.mod_small (u8 b / 64)) by (split; [apply Z.div_pos|apply Z.div_lt_upper_bound]; lia).
  destruct (Z.eqb_spec (u8 b / 64) 0) as [E|E]; [done|].
  assert (1 <= u8 b / 64 <= 3) as Hk by (pose proof (Z.div_lt_upper_bound (u8 b) 64 4);
    pose proof (Z.div_pos (u8 b) 64); lia).
  unfold take_n. destruct (Z.ltb_spec (len32 r) (u8 b / 64)) as [Hl|Hl]; [done|]. unfold se_lift.
  rewrite fold_length_spec; [done|lia| |].
  - rewrite length_take. lia.
  - apply Z.mod_pos_bound. lia.
Qed.

Lemma pkg_bytes_length k n : length (pkg_bytes k n) = S k.
Proof. destruct k; [done|]. cbn [pkg_bytes length]. by rewrite length_to_le_bytes. Qed.

Lemma len32_small l : Z.of_nat (length l) < 2 ^ 32 -> len32 l = Z.of_nat (length l).
Proof. intros H. apply wrap_id. split; lia. Qed.

Lemma raw_pkg_length_encode k n rest c :
  pkg_fits k n = true -> Z.of_nat (k + length rest) < 2 ^ 32 ->
  raw_pkg_length (pkg_bytes k n ++ rest, c) = SOk n (rest, c).
Proof.
  intros Hf Hl. rewrite raw_pkg_length_eq. destruct k as [|k]; cbn [pkg_bytes app].
  - cbn [pkg_fits] in Hf. rewrite to_u8_val, (Z.mod_small n 256) by lia.
    rewrite Z.div_small by lia. cbn. by rewrite Z.mod_small by lia.
  - cbn [pkg_fits] in Hf. apply andb_prop in Hf as [[H1 H2]%andb_prop H3].
    apply Nat.leb_le in H1. apply Z.leb_le in H2. apply Z.ltb_lt in H3.
    pose proof (Z.mod_pos_bound n 16 eq_refl) as Hm. rewrite to_u8_val.
    rewrite (Z.mod_small (_ + _)) by lia.
    replace ((64 * Z.of_nat (S k) + n mod 16) / 64) with (Z.of_nat (S k)).
    2: { rewrite Z.mul_comm, Z.div_add_l, (Z.div_small (n mod 16)) by lia. lia. }
    cbv zeta. rewrite (proj2 (Z.eqb_neq _ _)) by lia.
    change (to_le_bytes (S k) (n / 16) ++ rest) with (to_le_bytes (S k) (n / 16) ++ rest).
    assert (length (to_le_bytes (S k) (n / 16)) = S k) as Hk by apply length_to_le_bytes.
    rewrite len32_small by (rewrite length_app; lia). rewrite length_app, Hk.
    rewrite (proj2 (Z.ltb_ge _ _)) by lia. rewrite Nat2Z.id.
    rewrite take_app_length' by done. rewrite drop_app_length' by done.
    rewrite from_to_le_bytes.
    + f_equal. replace ((64 * Z.of_nat (S k) + n mod 16) mod 16) with (n mod 16).
      * pose proof (Z.div_mod n 16). lia.
      * replace (64 * Z.of_nat (S k) + n mod 16) with (n mod 16 + (4 * Z.of_nat (S k)) * 16) by lia.
        rewrite Z.mod_add, Z.mod_mod by lia. done.
    + split; [apply Z.div_pos; lia|]. apply Z.div_lt_upper_bound; [lia|].
      rewrite Z.pow_add_r in H3 by lia. lia.
Qed.

(** Decoding a package length never panics: it is an error exactly when the
    input has fewer bytes than the lead byte announces, and then nothing is
    consumed; otherwise the length is below [2^28], so that none of its
    arithmetic on 32 bits overflows, and between one and four bytes are consumed. *)
Theorem raw_pkg_length_total (i : bytes) (c : AmlContext) :
  match raw_pkg_length (i, c) with
  | SOk n (rest, c') =>
      c' = c /\ 0 <= n < 2 ^ 28 /\ exists k, (k <= 3)%nat /\ rest = drop (S k) i /\ i <> []
  | SErr e s => e = PErr UnexpectedEndOfStream /\ s = (i, c) /\
      match i with [] => True | b :: r => len32 r < u8 b / 64 end
  | SFail _ => False
  end.
Proof.
  rewrite raw_pkg_length_eq. destruct i as [|b r]; [done|]. pose proof (u8_range b) as Hb.
  assert (0 <= u8 b / 64 <= 3) as Hk by (pose proof (Z.div_lt_upper_bound (u8 b) 64 4);
    pose proof (Z.div_pos (u8 b) 64); lia).
  cbv zeta. destruct (Z.eqb_spec (u8 b / 64) 0) as [E|E].
  - split; [done|]. pose proof (Z.mod_pos_bound (u8 b) 64). split; [lia|].
    exists 0%nat. split; [lia|done].
  - destruct (Z.ltb_spec (len32 r) (u8 b / 64)); [done|]. split; [done|].
    pose proof (Z.mod_pos_bound (u8 b) 16).
    pose proof (from_le_bytes_in_width 24 (take (Z.to_nat (u8 b / 64)) r)) as [? ?].
    { rewrite length_take. lia. }
    split; [lia|]. exists (Z.to_nat (u8 b / 64)). split; [lia|done].
Qed.

Lemma pkg_length_ok k body rest c :
  let n := Z.of_nat (S k + length body) in
  pkg_fits k n = true -> Z.of_nat (S k + length body + length rest) < 2 ^ 32 ->
  pkg_length (pkg_bytes k n ++ body ++ rest, c) =
  SOk (MkPkgLength n (Z.of_nat (length rest))) (body ++ rest, c).
Proof.
  intros n Hf Hl. unfold pkg_length.
  rewrite raw_pkg_length_encode; [|done|rewrite length_app; lia].
  unfold from_raw_length. rewrite len32_small by (rewrite !length_app, pkg_bytes_length; lia).
  rewrite !length_app, pkg_bytes_length. unfold n at 1 2.
  rewrite (proj2 (Z.ltb_ge _ _)) by lia. cbn [ok_or result_bind]. do 2 f_equal. lia.
Qed.

Lemma take_to_end_ok n body rest c : Z.of_nat (length body + length rest) < 2 ^ 32 ->
  take_to_end_of_pkglength (MkPkgLength n (Z.of_nat (length rest))) (body ++ rest, c) =
  SOk body (rest, c).
Proof.
  intros Hl. unfold take_to_end_of_pkglength, end_offset.
  rewrite len32_small by (rewrite length_app; lia).
  rewrite length_app, (proj2 (Z.ltb_ge _ _)) by lia. unfold take_n.
  rewrite len32_small by (rewrite length_app; lia). rewrite length_app.
  rewrite (proj2 (Z.ltb_ge _ _)) by lia.
  match goal with |- context [take (Z.to_nat ?z) _] => replace (Z.to_nat z) with (length body) by lia end.
  by rewrite take_app_length, drop_app_length.
Qed.

(** C20: Packages: a body that is preceded by the encoding of its length, in any of
    the four sizes that hold it, is cut out exactly, and the parser goes on behind
    it. The length counts its own encoding. *)
Theorem package_roundtrip (k : nat) (body rest : bytes) (c : AmlContext) :
  let n := Z.of_nat (S k + length body) in
  pkg_fits k n = true -> Z.of_nat (S k + length body + length rest) < 2 ^ 32 ->
  p_feed pkg_length take_to_end_of_pkglength (pkg_bytes k n ++ body ++ rest, c) =
  SOk body (rest, c).
Proof.
  intros n Hf Hl. unfold p_feed, se_bind, n. rewrite pkg_length_ok by done.
  apply take_to_end_ok. lia.
Qed.
End Properties.

(** A package of three bytes, with a lead byte and one byte more of length. *)
Lemma package_roundtrip_witness :
  let c := MkContext env_debug ∅ new_namespace None root 0 VbNone [] [] in
  p_feed (env := env_debug) pkg_length take_to_end_of_pkglength ([x45; x00; x61; x62; x63; xff], c) =
  SOk [x61; x62; x63] ([xff], c).
Proof.
  exact (package_roundtrip (env := env_debug) 1 [x61; x62; x63] [xff]
    (MkContext env_debug ∅ new_namespace None root 0 VbNone [] []) eq_refl eq_refl).
Defined.
