(* ===== verification/Opcode.v ===== *)
(** The opcodes of AML and the parsers of a single opcode ([aml/src/opcode.rs]). *)
From S2P Require Import Prelude Types Names Namespace Env Context Parser.
#[local] Open Scope Z_scope.

Definition NULL_NAME : byte := x00.
Definition DUAL_NAME_PREFIX : byte := x2e.
Definition MULTI_NAME_PREFIX : byte := x2f.
Definition ROOT_CHAR : byte := x5c.
Definition PREFIX_CHAR : byte := x5e.
Definition RESERVED_FIELD : byte := x00.
Definition ACCESS_FIELD : byte := x01.
Definition CONNECT_FIELD : byte := x02.
Definition EXTENDED_ACCESS_FIELD : byte := x03.
Definition ZERO_OP : byte := x00.
Definition ONE_OP : byte := x01.
Definition ONES_OP : byte := xff.
Definition BYTE_CONST : byte := x0a.
Definition WORD_CONST : byte := x0b.
Definition DWORD_CONST : byte := x0c.
Definition STRING_PREFIX : byte := x0d.
Definition QWORD_CONST : byte := x0e.
Definition DEF_NAME_OP : byte := x08.
Definition DEF_SCOPE_OP : byte := x10.
Definition DEF_BUFFER_OP : byte := x11.
Definition DEF_PACKAGE_OP : byte := x12.
Definition DEF_METHOD_OP : byte := x14.
Definition DEF_EXTERNAL_OP : byte := x15.
Definition DEF_CREATE_DWORD_FIELD_OP : byte := x8a.
Definition DEF_CREATE_WORD_FIELD_OP : byte := x8b.
Definition DEF_CREATE_BYTE_FIELD_OP : byte := x8c.
Definition DEF_CREATE_BIT_FIELD_OP : byte := x8d.
Definition DEF_CREATE_QWORD_FIELD_OP : byte := x8f.
Definition EXT_DEF_MUTEX_OP : byte := x01.
Definition EXT_DEF_CREATE_FIELD_OP : byte := x13.
Definition EXT_REVISION_OP : byte := x30.
Definition EXT_DEF_FATAL_OP : byte := x32.
Definition EXT_DEF_OP_REGION_OP : byte := x80.
Definition EXT_DEF_FIELD_OP : byte := x81.
Definition EXT_DEF_DEVICE_OP : byte := x82.
Definition EXT_DEF_PROCESSOR_OP : byte := x83.
Definition EXT_DEF_POWER_RES_OP : byte := x84.
Definition EXT_DEF_THERMAL_ZONE_OP : byte := x85.
Definition DEF_CONTINUE_OP : byte := x9f.
Definition DEF_IF_ELSE_OP : byte := xa0.
Definition DEF_ELSE_OP : byte := xa1.
Definition DEF_WHILE_OP : byte := xa2.
Definition DEF_NOOP_OP : byte := xa3.
Definition DEF_RETURN_OP : byte := xa4.
Definition DEF_BREAK_OP : byte := xa5.
Definition DEF_BREAKPOINT_OP : byte := xcc.
Definition DEF_STORE_OP : byte := x70.
Definition DEF_ADD_OP : byte := x72.
Definition DEF_CONCAT_OP : byte := x73.
Definition DEF_INCREMENT_OP : byte := x75.
Definition DEF_DECREMENT_OP : byte := x76.
Definition DEF_SHIFT_LEFT : byte := x79.
Definition DEF_SHIFT_RIGHT : byte := x7a.
Definition DEF_AND_OP : byte := x7b.
Definition DEF_CONCAT_RES_OP : byte := x84.
Definition DEF_L_OR_OP : byte := x91.
Definition DEF_L_NOT_OP : byte := x92.
Definition DEF_L_EQUAL_OP : byte := x93.
Definition DEF_L_GREATER_OP : byte := x94.
Definition DEF_L_LESS_OP : byte := x95.
Definition DEF_TO_INTEGER_OP : byte := x99.
Definition DEF_MID_OP : byte := x9e.
Definition EXT_DEBUG_OP : byte := x31.
Definition LOCAL0_OP : byte := x60.
Definition LOCAL1_OP : byte := x61.
Definition LOCAL2_OP : byte := x62.
Definition LOCAL3_OP : byte := x63.
Definition LOCAL4_OP : byte := x64.
Definition LOCAL5_OP : byte := x65.
Definition LOCAL6_OP : byte := x66.
Definition LOCAL7_OP : byte := x67.
Definition ARG0_OP : byte := x68.
Definition ARG1_OP : byte := x69.
Definition ARG2_OP : byte := x6a.
Definition ARG3_OP : byte := x6b.
Definition ARG4_OP : byte := x6c.
Definition ARG5_OP : byte := x6d.
Definition ARG6_OP : byte := x6e.
Definition EXT_OPCODE_PREFIX : byte := x5b.

Section Opcode.
Context {env : AmlEnv}.

Definition opcode (op : byte) : Parser unit := fun '(input, c) =>
  match input with
  | [] => SErr (PErr UnexpectedEndOfStream) (input, c)
  | b :: rest =>
      if bool_decide (b = op) then SOk tt (rest, c) else SErr (PErr WrongParser) (input, c)
  end.

Definition ext_opcode (op : byte) : Parser unit :=
  discard_result (p_then (opcode EXT_OPCODE_PREFIX) (opcode op)).
End Opcode.
