(* ===== verification/NameObject.v ===== *)
(** The parsers of names and of the targets of stores
    ([aml/src/name_object.rs]), and of the local, argument and debug objects
    ([aml/src/misc.rs]). *)
From S2P Require Import Prelude Types Names Namespace Env Context Parser Opcode.
#[local] Open Scope Z_scope.

Section NameObject.
Context {env : AmlEnv}.

(** * [misc.rs] *)

Definition debug_obj : Parser unit := ext_opcode EXT_DEBUG_OP.

(** The closures [local_parser] and [arg_parser]. *)
Definition numbered_parser (i : Z) (op : byte) : Parser Z :=
  p_map (p_then (opcode op) (comment_scope VbAllScopes p_id)) (fun _ => Ok i).

Definition local_obj : Parser Z :=
  choice [numbered_parser 0 LOCAL0_OP; numbered_parser 1 LOCAL1_OP;
          numbered_parser 2 LOCAL2_OP; numbered_parser 3 LOCAL3_OP;
          numbered_parser 4 LOCAL4_OP; numbered_parser 5 LOCAL5_OP;
          numbered_parser 6 LOCAL6_OP; numbered_parser 7 LOCAL7_OP].

Definition arg_obj : Parser Z :=
  choice [numbered_parser 0 ARG0_OP; numbered_parser 1 ARG1_OP;
          numbered_parser 2 ARG2_OP; numbered_parser 3 ARG3_OP;
          numbered_parser 4 ARG4_OP; numbered_parser 5 ARG5_OP;
          numbered_parser 6 ARG6_OP].

(** * [name_object.rs] *)

Definition name_seg : Parser NameSeg :=
  let! char_1 := consume is_lead_name_char in
  let! char_2 := consume is_name_char in
  let! char_3 := consume is_name_char in
  let! char_4 := consume is_name_char in
  se_ret (MkSeg char_1 char_2 char_3 char_4).

Definition null_name : Parser (list NameComponent) :=
  p_map (opcode NULL_NAME) (fun _ => Ok []).

Definition dual_name_path : Parser (list NameComponent) :=
  p_map (p_then (p_then (opcode DUAL_NAME_PREFIX) name_seg) name_seg)
    (fun '((_, first), second) => Ok [Segment first; Segment second]).

Definition multi_name_path : Parser (list NameComponent) := fun '(input, c) =>
  (let! (_, seg_count) := p_then (opcode MULTI_NAME_PREFIX) p_take in
   fun s =>
     match n_of name_seg (Z.to_nat (u8 seg_count)) s with
     | SOk name_segs s => SOk (map Segment name_segs) s
     | SErr e s => err_at input e s
     | SFail f => SFail f
     end) (input, c).

Definition name_path : Parser (list NameComponent) :=
  choice [null_name; dual_name_path; multi_name_path;
          p_map name_seg (fun seg => Ok [Segment seg])].

(** [take_while(opcode(PREFIX_CHAR))] *)
Definition prefix_chars : Parser Z := fun s =>
  p_take_while (S (length (fst s))) (opcode PREFIX_CHAR) s.

Definition root_name_string : Parser AmlName :=
  p_map (p_then (opcode ROOT_CHAR) name_path)
    (fun '(_, name_path) => prop (from_components (Root :: name_path))).

Definition prefix_path : Parser AmlName :=
  p_map (p_then prefix_chars name_path)
    (fun '(num_prefix_chars, name_path) =>
       prop (from_components (replicate (Z.to_nat num_prefix_chars) Prefix ++ name_path))).

Definition name_string : Parser AmlName :=
  comment_scope VbAllScopes (fun '(input, c) =>
    match input with
    | [] => SErr (PErr UnexpectedEndOfStream) (input, c)
    | first_char :: _ =>
        if bool_decide (first_char = ROOT_CHAR) then root_name_string (input, c)
        else if bool_decide (first_char = PREFIX_CHAR) then prefix_path (input, c)
        else
          p_map name_path (fun path =>
            match path with
            | [] => Err (PErr EmptyNamesAreInvalid)
            | _ => prop (from_components path)
            end) (input, c)
    end).

Definition simple_name : Parser Target_ :=
  comment_scope VbAllScopes
    (choice [p_map arg_obj (fun arg_num => Ok (TgtArg arg_num));
             p_map local_obj (fun local_num => Ok (TgtLocal local_num));
             p_map name_string (fun name => Ok (TgtName name))]).

Definition super_name : Parser Target_ :=
  comment_scope VbAllScopes
    (choice [p_map debug_obj (fun _ => Ok TgtDebug); simple_name]).

Definition target : Parser Target_ :=
  comment_scope VbAllScopes
    (choice [p_map null_name (fun _ => Ok TgtNull); super_name]).
End NameObject.

(** * Specification *)

(** The encoding of a name: of its segments, and with its root or its [^]s. *)
Definition segs_bytes (segs : list NameSeg) : bytes := concat (map seg_as_str segs).
Definition name_path_bytes (segs : list NameSeg) : bytes :=
  match segs with
  | [] => [NULL_NAME]
  | [s] => seg_as_str s
  | [s1; s2] => DUAL_NAME_PREFIX :: seg_as_str s1 ++ seg_as_str s2
  | _ => MULTI_NAME_PREFIX :: to_u8 (Z.of_nat (length segs)) :: segs_bytes segs
  end.

(** What stands before the path: the root, or a number of [^]s. *)
Inductive anchor := AtRoot | Up (k : nat).
Definition anchor_name (a : anchor) : AmlName :=
  match a with AtRoot => [Root] | Up k => replicate k Prefix end.
Definition anchor_bytes (a : anchor) : bytes :=
  match a with AtRoot => [ROOT_CHAR] | Up k => replicate k PREFIX_CHAR end.

(** The names that have an encoding. *)
Definition encodable (a : anchor) (segs : list NameSeg) : bool :=
  forallb seg_ok segs && (length segs <=? 255)%nat &&
  match a, segs with Up O, [] => false | _, _ => true end.

(** * Properties *)

Section Properties.
Context {env : AmlEnv}.

Lemma opcode_ok op i c : opcode op (op :: i, c) = SOk tt (i, c).
Proof. cbn. by rewrite bool_decide_true. Qed.
Lemma opcode_wrong op b i c : b <> op -> opcode op (b :: i, c) = SErr (PErr WrongParser) (b :: i, c).
Proof. intros H. cbn. by rewrite bool_decide_false. Qed.

Lemma consume_ok f b i c : f b = true -> consume f (b :: i, c) = SOk b (i, c).
Proof. intros H. cbn. by rewrite H. Qed.

Lemma name_seg_ok s i c : seg_ok s = true -> name_seg (seg_as_str s ++ i, c) = SOk s (i, c).
Proof.
  intros H. unfold seg_ok in H. apply andb_prop in H as [[[H0 H1]%andb_prop H2]%andb_prop H3].
  unfold name_seg, se_bind. cbn [seg_as_str app].
  rewrite !consume_ok by done. by destruct s.
Qed.

Lemma n_of_segs segs i c : forallb seg_ok segs = true ->
  n_of name_seg (length segs) (segs_bytes segs ++ i, c) = SOk segs (i, c).
Proof.
  induction segs as [|s segs IH]; [done|]. cbn [forallb length n_of].
  intros [Hs Hsegs]%andb_prop. change (segs_bytes (s :: segs)) with (seg_as_str s ++ segs_bytes segs).
  by rewrite <-app_assoc, name_seg_ok, IH.
Qed.

Lemma seg_bytes_head s i : seg_ok s = true ->
  exists b j, seg_as_str s ++ i = b :: j /\ is_lead_name_char b = true.
Proof.
  intros H. unfold seg_ok in H. apply andb_prop in H as [[[H0 _]%andb_prop _]%andb_prop _].
  by eexists _, _.
Qed.

Lemma lead_char_not b : is_lead_name_char b = true ->
  b <> NULL_NAME /\ b <> DUAL_NAME_PREFIX /\ b <> MULTI_NAME_PREFIX /\
  b <> ROOT_CHAR /\ b <> PREFIX_CHAR.
Proof. intros H. split_and!; intros ->; discriminate H. Qed.

Lemma map_wrong {R A} (p : Parser R) (f : R -> result Propagate A) i c s :
  p (i, c) = SErr (PErr WrongParser) s -> p_map p f (i, c) = SErr (PErr WrongParser) s.
Proof. intros H. unfold p_map, map_with_context. by rewrite H. Qed.

Lemma then_wrong {R A} (p : Parser R) (q : Parser A) i c s :
  p (i, c) = SErr (PErr WrongParser) s -> p_then p q (i, c) = SErr (PErr WrongParser) s.
Proof. intros H. unfold p_then, se_bind. by rewrite H. Qed.

Lemma null_name_wrong b i c : b <> NULL_NAME ->
  null_name (b :: i, c) = SErr (PErr WrongParser) (b :: i, c).
Proof. intros H. by apply map_wrong, opcode_wrong. Qed.
Lemma dual_name_path_wrong b i c : b <> DUAL_NAME_PREFIX ->
  dual_name_path (b :: i, c) = SErr (PErr WrongParser) (b :: i, c).
Proof. intros H. by apply map_wrong, then_wrong, then_wrong, opcode_wrong. Qed.
Lemma multi_name_path_wrong b i c : b <> MULTI_NAME_PREFIX ->
  multi_name_path (b :: i, c) = SErr (PErr WrongParser) (b :: i, c).
Proof.
  intros H. unfold multi_name_path, se_bind.
  by rewrite (then_wrong _ _ _ _ _ (opcode_wrong _ _ _ _ H)).
Qed.

Lemma name_path_ok segs i c :
  forallb seg_ok segs = true -> (length segs <= 255)%nat ->
  name_path (name_path_bytes segs ++ i, c) = SOk (map Segment segs) (i, c).
Proof.
  intros Hs Hl. unfold name_path. destruct segs as [|s1 [|s2 [|s3 segs]]]; cbn [name_path_bytes].
  - apply choice_ok. unfold null_name. cbn [app]. by erewrite p_map_ok by apply opcode_ok.
  - cbn [forallb] in Hs. apply andb_prop in Hs as [Hs _].
    destruct (seg_bytes_head s1 i Hs) as (b & j & E & Hb). rewrite E.
    destruct (lead_char_not b Hb) as (H1 & H2 & H3 & _).
    rewrite (choice_skip _ _ _ _ _ (null_name_wrong _ _ _ H1)).
    rewrite (choice_skip _ _ _ _ _ (dual_name_path_wrong _ _ _ H2)).
    rewrite (choice_skip _ _ _ _ _ (multi_name_path_wrong _ _ _ H3)). rewrite <-E.
    apply choice_ok. by erewrite p_map_ok by by apply name_seg_ok.
  - cbn [forallb] in Hs. apply andb_prop in Hs as [Hs1 [Hs2 _]%andb_prop]. cbn [app].
    rewrite choice_skip with (s := (DUAL_NAME_PREFIX :: (seg_as_str s1 ++ seg_as_str s2) ++ i, c))
      by by apply null_name_wrong.
    apply choice_ok. unfold dual_name_path. rewrite <-app_assoc.
    erewrite p_map_ok; [|eapply p_then_ok; [eapply p_then_ok; [apply opcode_ok|]|];
      by apply name_seg_ok]. done.
  - set (l := s1 :: s2 :: s3 :: segs) in *. cbn [app].
    rewrite choice_skip with (s := (MULTI_NAME_PREFIX :: to_u8 (Z.of_nat (length l)) :: segs_bytes l ++ i, c))
      by by apply null_name_wrong. cbn [snd].
    rewrite choice_skip with (s := (MULTI_NAME_PREFIX :: to_u8 (Z.of_nat (length l)) :: segs_bytes l ++ i, c))
      by by apply dual_name_path_wrong. cbn [snd].
    apply choice_ok. unfold multi_name_path, se_bind.
    erewrite p_then_ok; [|apply opcode_ok|reflexivity]. cbn beta iota.
    rewrite to_u8_val, Z.mod_small, Nat2Z.id by lia. by rewrite n_of_segs.
Qed.

Lemma prefix_chars_ok k i c fuel :
  (k < fuel)%nat -> (exists b j, i = b :: j /\ b <> PREFIX_CHAR) ->
  p_take_while fuel (opcode PREFIX_CHAR) (replicate k PREFIX_CHAR ++ i, c) =
  SOk (Z.of_nat k) (i, c).
Proof.
  intros Hf (b & j & -> & Hb). revert fuel Hf. induction k as [|k IH]; intros [|fuel] Hf; try lia;
    cbn [replicate app p_take_while].
  - by rewrite opcode_wrong.
  - rewrite opcode_ok, IH by lia. do 2 f_equal. lia.
Qed.

Lemma name_path_bytes_head segs i : forallb seg_ok segs = true ->
  exists b j, name_path_bytes segs ++ i = b :: j /\ b <> ROOT_CHAR /\ b <> PREFIX_CHAR.
Proof.
  intros Hs. destruct segs as [|s1 [|s2 [|s3 segs]]]; cbn [name_path_bytes app].
  - by eexists _, _.
  - cbn [forallb] in Hs. apply andb_prop in Hs as [Hs _].
    destruct (seg_bytes_head s1 i Hs) as (b & j & E & Hb). exists b, j.
    destruct (lead_char_not b Hb) as (_ & _ & _ & H1 & H2). done.
  - by eexists _, _.
  - by eexists _, _.
Qed.

Lemma name_string_ok (a : anchor) (segs : list NameSeg) (rest : bytes) (c : AmlContext) :
  encodable a segs = true -> indent_ok c ->
  name_string (anchor_bytes a ++ name_path_bytes segs ++ rest, c) =
  SOk (anchor_name a ++ map Segment segs) (rest, c).
Proof.
  unfold encodable. intros [[Hs Hl]%andb_prop Ha]%andb_prop Hc. apply Nat.leb_le in Hl.
  apply comment_scope_pure; [done|done|]. intros c'.
  destruct a as [|[|k]]; cbn [anchor_bytes anchor_name replicate app].
  - rewrite bool_decide_true by done. unfold root_name_string.
    erewrite p_map_ok; [|eapply p_then_ok; [apply opcode_ok|by apply name_path_ok]]. done.
  - destruct (name_path_bytes_head segs rest Hs) as (b & j & E & Hb1 & Hb2).
    pose proof (name_path_ok segs rest c' Hs Hl) as H. rewrite E in *. 
    rewrite !bool_decide_false by done. erewrite p_map_ok by exact H. by destruct segs.
  - rewrite bool_decide_false, bool_decide_true by done. unfold prefix_path.
    erewrite p_map_ok; [|eapply p_then_ok; [|by apply name_path_ok]].
    2: { unfold prefix_chars. apply (prefix_chars_ok (S k)).
         - cbn [fst length]. rewrite length_app, length_replicate. lia.
         - destruct (name_path_bytes_head segs rest Hs) as (b & j & E & _ & Hb). eauto. }
    cbn beta iota. by rewrite Nat2Z.id.
Qed.
(** C14: Names: the encoding of a name, in whichever form its number of segments
    asks for, is parsed back to that name, nothing more is consumed and the
    context does not change. *)
Theorem name_string_decode (a : anchor) (segs : list NameSeg) (rest : bytes) (c : AmlContext) :
  encodable a segs = true -> indent_ok c ->
  name_string (anchor_bytes a ++ name_path_bytes segs ++ rest, c) =
  SOk (anchor_name a ++ map Segment segs) (rest, c).
Proof. apply name_string_ok. Qed.
End Properties.

(** [^^FOO_.BAR_] *)
Lemma name_string_decode_witness :
  let c := MkContext env_debug ∅ new_namespace None root 0 VbNone [] [] in
  name_string (env := env_debug)
    ([x5e; x5e; x2e; x46; x4f; x4f; x5f; x42; x41; x52; x5f; x00], c) =
  SOk [Prefix; Prefix; Segment (MkSeg x46 x4f x4f x5f); Segment (MkSeg x42 x41 x52 x5f)] ([x00], c).
Proof.
  apply (name_string_decode (env := env_debug) (Up 2)
    [MkSeg x46 x4f x4f x5f; MkSeg x42 x41 x52 x5f] [x00]
    (MkContext env_debug ∅ new_namespace None root 0 VbNone [] [])); [reflexivity|].
  left. reflexivity.
Defined.
