(* ===== verification/Flat.v ===== *)
(** The namespace as flat maps: the kind of level at every path, the handle of every
    name, and the objects. The tree of [Namespace.v] implements these maps: its
    operations end as the flat ones do and keep the two in step. *)
From S2P Require Import Prelude Types Names Namespace Ordered Env Context Parser NameObject.
#[local] Open Scope Z_scope.

#[export, program] Instance NameSeg_countable : Countable NameSeg :=
  inj_countable' (fun s => (u8 (seg0 s), u8 (seg1 s), u8 (seg2 s), u8 (seg3 s)))
    (fun '(a, b, c, d) => MkSeg (to_u8 a) (to_u8 b) (to_u8 c) (to_u8 d)) _.
Next Obligation. intros [a b c d]. cbn. by rewrite !to_u8_u8. Qed.

(** * Relative names *)

(** A name as a table writes it: where it starts, and the segments from there. *)
Record name_ref := MkRef { r_anchor : anchor; r_segs : list NameSeg }.

#[export] Instance anchor_eq_dec : EqDecision anchor.
Proof. solve_decision. Defined.
#[export] Instance name_ref_eq_dec : EqDecision name_ref.
Proof. solve_decision. Defined.

Definition ref_name (r : name_ref) : AmlName := anchor_name (r_anchor r) ++ map Segment (r_segs r).
Definition ref_bytes (r : name_ref) : bytes := anchor_bytes (r_anchor r) ++ name_path_bytes (r_segs r).
Definition ref_ok (r : name_ref) : bool := encodable (r_anchor r) (r_segs r).

(** The path it denotes in a scope. *)
Definition ref_path (r : name_ref) (scope : list NameSeg) : result AmlError (list NameSeg) :=
  match r_anchor r with
  | AtRoot => Ok (r_segs r)
  | Up k =>
      if (k <=? length scope)%nat then Ok (take (length scope - k) scope ++ r_segs r)
      else Err (InvalidNormalizedName (abs scope ++ replicate k Prefix ++ map Segment (r_segs r)))
  end.

Lemma resolve_ref r scope : resolve (ref_name r) (abs scope) = result_map abs (ref_path r scope).
Proof.
  destruct r as [[|k] segs]; [done|]. unfold ref_name, ref_path, abs. cbn [r_anchor r_segs anchor_name].
  rewrite resolve_prefixes. by destruct (_ <=? _)%nat.
Qed.

(** * The flat namespace *)

Record flat := MkFlat {
  f_levels : gmap (list NameSeg) LevelType;
  f_names : gmap (list NameSeg) AmlHandle;
  f_objects : gmap AmlHandle AmlValue;
  f_next : Z
}.

Definition flat_empty : flat := MkFlat {[ [] := LScope ]} ∅ ∅ 0.

Definition set_levels (l : gmap (list NameSeg) LevelType) (m : flat) : flat :=
  MkFlat l (f_names m) (f_objects m) (f_next m).
Definition set_names (n : gmap (list NameSeg) AmlHandle) (m : flat) : flat :=
  MkFlat (f_levels m) n (f_objects m) (f_next m).

(** The shortest prefix of [pre ++ p], longer than [pre], that is not a level. *)
Fixpoint first_missing (m : flat) (pre p : list NameSeg) : list NameSeg :=
  match p with
  | [] => pre
  | s :: p =>
      match f_levels m !! (pre ++ [s]) with
      | Some _ => first_missing m (pre ++ [s]) p
      | None => pre ++ [s]
      end
  end.

Section Operations.
Context {tgt : Target}.

(** The level above a path, which holds its name. The root has no name. *)
Definition in_parent {A} (p : list NameSeg) (m : flat) (a : A) : result AmlError A :=
  match p with
  | [] => Fail Panic
  | _ =>
      match f_levels m !! removelast p with
      | Some _ => Ok a
      | None => Err (LevelDoesNotExist (abs (first_missing m [] (removelast p))))
      end
  end.

Definition flat_add_object (v : AmlValue) : SE flat AmlError AmlHandle :=
  let! handle := se_gets f_next in
  let! next := se_lift (add_w 32 handle 1) in
  do! se_modify (fun m => MkFlat (f_levels m) (f_names m) (<[handle := v]> (f_objects m)) next) in
  se_ret handle.

Definition flat_add_value (p : list NameSeg) (v : AmlValue) : SE flat AmlError AmlHandle :=
  let! handle := flat_add_object v in
  let! m := se_get in
  let! old := se_lift (in_parent p m (f_names m !! p)) in
  do! se_modify (set_names (<[p := handle]> (f_names m))) in
  match old with
  | None => se_ret handle
  | Some _ => se_err (NameCollision (abs p))
  end.

Definition flat_add_level (p : list NameSeg) (typ : LevelType) : SE flat AmlError unit :=
  match p with
  | [] => se_ret tt
  | _ =>
      let! m := se_get in
      let! old := se_lift (in_parent p m (f_levels m !! p)) in
      se_modify (set_levels (<[p := default typ old]> (f_levels m)))
  end.

Definition flat_remove_level (p : list NameSeg) : SE flat AmlError unit :=
  match p with
  | [] => se_err TriedToRemoveRootNamespace
  | _ =>
      let! m := se_get in
      let! old := se_lift (in_parent p m (f_levels m !! p)) in
      match old with
      | None => se_err (LevelDoesNotExist (abs p))
      | Some _ =>
          se_modify (fun m =>
            MkFlat (filter (fun kv => ¬ p `prefix_of` kv.1) (f_levels m))
              (filter (fun kv => ¬ p `prefix_of` removelast kv.1) (f_names m))
              (f_objects m) (f_next m))
      end
  end.

Definition flat_set (h : AmlHandle) (v : AmlValue) : SE flat AmlError unit :=
  let! m := se_get in
  do! se_lift (unwrap (f_objects m !! h)) in
  se_modify (fun m => MkFlat (f_levels m) (f_names m) (<[h := v]> (f_objects m)) (f_next m)).

(** Looking up the object of a path. *)
Definition flat_get_handle (m : flat) (p : list NameSeg) : result AmlError AmlHandle :=
  let? h := in_parent p m (f_names m !! p) in
  ok_or (ValueDoesNotExist (abs p)) h.
Definition flat_get (m : flat) (p : list NameSeg) : result AmlError AmlValue :=
  let? h := flat_get_handle m p in unwrap (f_objects m !! h).

(** Searching for a name from a scope: a single segment in the scope and then in
    the scopes around it, any other name where it says. *)
Fixpoint flat_nearest (m : flat) (s : NameSeg) (scopes : list (list NameSeg))
    : option (list NameSeg * AmlHandle) :=
  match scopes with
  | [] => None
  | p :: ps =>
      match f_names m !! (p ++ [s]) with
      | Some h => Some (p ++ [s], h)
      | None => flat_nearest m s ps
      end
  end.

Definition flat_search (m : flat) (r : name_ref) (scope : list NameSeg)
    : result AmlError (list NameSeg * AmlHandle) :=
  match r with
  | MkRef (Up O) [s] => ok_or (ValueDoesNotExist (ref_name r)) (flat_nearest m s (ancestors scope))
  | _ =>
      let? p := ref_path r scope in
      let? h := in_parent p m (f_names m !! p) in
      let? h := ok_or (ValueDoesNotExist (ref_name r)) h in
      Ok (p, h)
  end.
End Operations.

(** * The correspondence *)

Definition models (ns : Namespace) (m : flat) : Prop :=
  (forall q, f_levels m !! q = ns_level ns q) /\
  (forall q s, f_names m !! (q ++ [s]) = ns_lookup ns q s) /\
  f_names m !! [] = None /\
  f_objects m = object_map ns /\
  f_next m = next_handle ns /\
  ns_ordered ns.

Lemma models_empty : models new_namespace flat_empty.
Proof.
  split_and!; try done.
  - intros [|s q]; [done|]. cbn. by rewrite lookup_singleton_ne.
  - intros q s. cbn. rewrite lookup_empty. unfold ns_lookup. by destruct q.
  - apply new_level_ordered.
Qed.

Section Refinement.
Context {tgt : Target}.

Lemma first_missing_tree ns m pre p l :
  models ns m -> level_at (root_level ns) pre = Some l -> level_at l p = None ->
  first_missing m pre p = pre ++ missing l p.
Proof.
  intros (Hl & _). revert pre l. induction p as [|s p IH]; intros pre l Hpre Hp; [done|].
  cbn [first_missing missing]. rewrite Hl, (ns_level_child ns pre s l Hpre). cbn in Hp.
  destruct (bt_get s (children l)) as [c|] eqn:Ec; cbn [fmap option_fmap option_map]; [|done].
  rewrite (IH _ c); [by rewrite <-app_assoc| |done].
  rewrite level_at_app, Hpre. cbn. by rewrite Ec.
Qed.

Lemma in_parent_tree {A} ns m p s (a : A) : models ns m ->
  in_parent (p ++ [s]) m a =
  match level_at (root_level ns) p with
  | Some _ => Ok a
  | None => Err (LevelDoesNotExist (abs (missing (root_level ns) p)))
  end.
Proof.
  intros Hm. unfold in_parent. rewrite removelast_snoc.
  destruct (p ++ [s]) eqn:E; [by destruct p|]. rewrite (proj1 Hm). unfold ns_level.
  destruct (level_at (root_level ns) p) eqn:Hp; [done|]. cbn.
  by rewrite (first_missing_tree ns m [] p (root_level ns)).
Qed.

Lemma names_insert_snoc (n : gmap (list NameSeg) AmlHandle) p s h q t :
  <[p ++ [s] := h]> n !! (q ++ [t]) =
  if decide (q = p /\ t = s) then Some h else n !! (q ++ [t]).
Proof.
  destruct (decide (q = p /\ t = s)) as [[-> ->]|H]; [apply lookup_insert_eq|].
  apply lookup_insert_ne. intros E%app_inj_tail. apply H. naive_solver.
Qed.

Lemma sim_add_object v : sim models (add_object v) (flat_add_object v).
Proof.
  intros ns m Hm. pose proof Hm as (_ & _ & _ & _ & Hn & _).
  unfold add_object, flat_add_object, se_bind, se_gets, se_lift. rewrite Hn.
  destruct (add_w 32 _ 1); [|by split..|done]. split; [done|].
  destruct Hm as (? & ? & ? & Ho & _ & Hd). by split_and!; cbn; rewrite ?Ho.
Qed.

Lemma refine_add_value p v : sim models (add_value (abs p) v) (flat_add_value p v).
Proof.
  unfold add_value, flat_add_value. rewrite normalize_abs.
  intros ns m Hm. unfold se_bind at 1, se_lift at 1. cbn [is_absolute abs assert_].
  unfold se_bind at 1, se_lift at 1. revert ns m Hm. apply sim_bind; [apply sim_add_object|].
  intros h ns m Hm. unfold get_level_for_path_mut, se_bind, se_get, se_lift.
  destruct p as [|s p _] using rev_ind; [done|].
  rewrite get_level_for_path_abs, (in_parent_tree ns m p s _ Hm).
  destruct (level_at (root_level ns) p) as [l|] eqn:Hp; [|by split].
  rewrite (write_level_eq _ _ _ _ _ (split_path_abs p s)).
  pose proof Hm as (Hl & Hk & H0 & Ho & Hx & Hd).
  destruct (ns_views_at ns p l Hp) as [_ Es]. rewrite Hk, Es.
  destruct (update_values_views ns p l (insert_handle s h) Hp eq_refl eq_refl) as [Hlev Hlk].
  match goal with |- context [se_modify _ m] => set (m' := set_names (<[p ++ [s] := h]> (f_names m)) m) end.
  assert (models (set_root_level (update_level (root_level ns) (map Segment p) (insert_handle s h)) ns) m').
  { split_and!; try done.
    - intros q. by rewrite Hlev.
    - intros q t. cbn [f_names set_names m']. rewrite names_insert_snoc, Hlk, Hk. cbn.
      destruct (decide (q = p)) as [->|Hq]; [|by rewrite decide_False by naive_solver].
      rewrite bt_get_insert, Es. by destruct (decide (t = s)), (decide (p = p /\ t = s)); naive_solver.
    - cbn. rewrite lookup_insert_ne; [done|]. by destruct p.
    - eapply update_ordered; [done..|]. apply insert_handle_ordered. by eapply level_ordered. }
  unfold se_modify. by destruct (bt_get s (values l)).
Qed.

Lemma refine_add_level p typ : sim models (add_level (abs p) typ) (flat_add_level p typ).
Proof.
  intros ns m Hm. destruct p as [|s p _] using rev_ind; [done|].
  unfold flat_add_level. destruct (p ++ [s]) eqn:E; [by destruct p|]. rewrite <-E. clear E.
  unfold se_bind, se_get, se_lift. rewrite (in_parent_tree ns m p s _ Hm).
  pose proof Hm as (Hl & Hk & H0 & Ho & Hx & Hd). rewrite Hl.
  destruct (level_at (root_level ns) p) as [lv|] eqn:Hp.
  - destruct (add_level_ok ns p s typ) as (ns' & E & Ho' & Hx' & Hlev & Hlk).
    { unfold ns_level. rewrite Hp. by eexists. }
    rewrite E. split; [done|]. split_and!; cbn; try congruence; [|by eapply add_level_ordered].
    intros q. rewrite Hlev. destruct (decide (q = p ++ [s])) as [->|Hq]; [by rewrite lookup_insert_eq|].
    by rewrite lookup_insert_ne.
  - rewrite add_level_abs, Hp. by split.
Qed.

Lemma refine_remove_level p : sim models (remove_level (abs p)) (flat_remove_level p).
Proof.
  intros ns m Hm. destruct p as [|s p _] using rev_ind; [by split|].
  unfold flat_remove_level. destruct (p ++ [s]) eqn:E; [by destruct p|]. rewrite <-E. clear E.
  unfold se_bind, se_get, se_lift. rewrite (in_parent_tree ns m p s _ Hm).
  pose proof Hm as (Hl & Hk & H0 & Ho & Hx & Hd). rewrite Hl.
  destruct (level_at (root_level ns) p) as [lv|] eqn:Hp.
  - destruct (ns_level ns (p ++ [s])) as [ty|] eqn:Hps.
    + destruct (remove_level_ok ns p s) as (ns' & E & Ho' & Hx' & Hin & Hoff); [by eexists|].
      rewrite E. split; [done|]. split_and!; cbn; try congruence; [..|by eapply remove_level_ordered].
      * intros q. rewrite map_lookup_filter, Hl.
        destruct (decide ((p ++ [s]) `prefix_of` q)) as [Hq|Hq].
        -- rewrite (proj1 (Hin q Hq)). destruct (ns_level ns q); cbn; [|done]. by case_guard.
        -- rewrite (proj1 (Hoff q Hq)). destruct (ns_level ns q); cbn; [|done]. by case_guard.
      * intros q t. rewrite map_lookup_filter, Hk.
        destruct (decide ((p ++ [s]) `prefix_of` q)) as [Hq|Hq].
        -- rewrite (proj2 (Hin q Hq)). destruct (ns_lookup ns q t); cbn; [|done].
           rewrite removelast_snoc. by case_guard.
        -- rewrite (proj2 (Hoff q Hq)). destruct (ns_lookup ns q t); cbn; [|done].
           rewrite removelast_snoc. by case_guard.
      * rewrite map_lookup_filter, H0. done.
    + rewrite remove_level_missing; [by split|done|]. unfold ns_level. rewrite Hp. by eexists.
  - unfold remove_level, se_bind, se_lift. cbn [is_absolute abs assert_].
    change (Root :: map Segment (p ++ [s])) with (abs (p ++ [s])).
    rewrite normalize_abs, bool_decide_false by apply abs_not_root.
    unfold get_level_for_path_mut, se_bind, se_get, se_lift. rewrite get_level_for_path_abs, Hp. by split.
Qed.

Lemma refine_set h v : sim models (ns_set h v) (flat_set h v).
Proof.
  intros ns m Hm. pose proof Hm as (Hl & Hk & H0 & Ho & Hx & Hd).
  unfold ns_set, flat_set, ns_get, se_bind, se_get, se_lift. rewrite Ho.
  destruct (object_map ns !! h); [|done]. split; [done|]. by split_and!; cbn; rewrite ?Ho.
Qed.

(** The level of a path and the name in it, on both sides. *)
Lemma refine_level {A} ns m p (f : NamespaceLevel * NameSeg -> result AmlError A) (k : option AmlHandle -> result AmlError A) :
  models ns m ->
  (forall l s, f (l, s) = k (bt_get s (values l))) ->
  result_bind (get_level_for_path ns (abs p)) f = result_bind (in_parent p m (f_names m !! p)) k.
Proof.
  intros Hm Hf. destruct p as [|s p _] using rev_ind; [done|].
  rewrite get_level_for_path_abs, (in_parent_tree ns m p s _ Hm).
  destruct (level_at (root_level ns) p) as [l|] eqn:Hp; [|done]. cbn [result_bind].
  rewrite Hf, (proj1 (proj2 Hm)). by destruct (ns_views_at ns p l Hp) as [_ ->].
Qed.

Lemma refine_get_handle ns m p : models ns m -> get_handle ns (abs p) = flat_get_handle m p.
Proof. intros Hm. by apply refine_level. Qed.

Lemma refine_get ns m p : models ns m -> get_by_path ns (abs p) = flat_get m p.
Proof.
  intros Hm. unfold get_by_path, flat_get. rewrite (refine_get_handle ns m p Hm).
  unfold ns_get. by destruct Hm as (_ & _ & _ & -> & _).
Qed.

Lemma flat_nearest_tree ns m s scopes : models ns m ->
  flat_nearest m s scopes = (fun '(p, h) => (p ++ [s], h)) <$> nearest ns s scopes.
Proof.
  intros Hm. induction scopes as [|p scopes IH]; [done|]. cbn [flat_nearest nearest].
  rewrite (proj1 (proj2 Hm)). by destruct (ns_lookup ns p s).
Qed.

(** A search that does not follow the search rules. *)
Lemma search_direct ns m r scope : models ns m -> search_rules_apply (ref_name r) = false ->
  search ns (ref_name r) (abs scope) =
  result_map (fun '(p, h) => (abs p, h))
    (let? p := ref_path r scope in
     let? h := in_parent p m (f_names m !! p) in
     let? h := ok_or (ValueDoesNotExist (ref_name r)) h in
     Ok (p, h)).
Proof.
  intros Hm Hr. unfold search. rewrite Hr, resolve_ref.
  destruct (ref_path r scope) as [p| |]; [|done..]. cbn [result_map result_bind].
  rewrite (refine_level ns m p _ (fun h => match h with
    | Some h => Ok (abs p, h) | None => Err (ValueDoesNotExist (ref_name r)) end)) by done.
  by destruct (in_parent p m _) as [[h|]| |].
Qed.

Lemma refine_search ns m r scope : models ns m ->
  search ns (ref_name r) (abs scope) =
  result_map (fun '(p, h) => (abs p, h)) (flat_search m r scope).
Proof.
  intros Hm. destruct (search_rules_apply (ref_name r)) eqn:E.
  - destruct r as [[|[|k]] [|s [|s' segs]]]; try done. unfold ref_name, flat_search, search.
    cbn [r_anchor r_segs anchor_name replicate app map search_rules_apply is_absolute abs assert_ result_bind].
    change (Root :: map Segment scope) with (abs scope).
    rewrite (search_loop_spec ns s scope) by (unfold abs; cbn; rewrite length_map; lia).
    rewrite (flat_nearest_tree ns m s _ Hm). by destruct (nearest ns s _) as [[q h]|].
  - rewrite (search_direct ns m r scope Hm E). f_equal.
    destruct r as [[|[|k]] [|s [|s' segs]]]; done.
Qed.

(** C7: The tree of levels implements the flat maps: [add_value], [add_level],
    [remove_level] and [get_mut] end as the operations on the maps do, with the same
    handle, error or panic, in namespaces that correspond again, also after an error
    and when the handles run out; looking up paths and searching for names gives the
    same; and the new namespace is the map with the root level only. *)
Theorem namespace_refines (p scope : list NameSeg) (typ : LevelType) (v : AmlValue) (h : AmlHandle)
    (r : name_ref) :
  models new_namespace flat_empty /\
  sim models (add_value (abs p) v) (flat_add_value p v) /\
  sim models (add_level (abs p) typ) (flat_add_level p typ) /\
  sim models (remove_level (abs p)) (flat_remove_level p) /\
  sim models (ns_set h v) (flat_set h v) /\
  forall ns m, models ns m ->
    get_by_path ns (abs p) = flat_get m p /\
    search ns (ref_name r) (abs scope) = result_map (fun '(p, h) => (abs p, h)) (flat_search m r scope).
Proof.
  split_and!; [apply models_empty|apply refine_add_value|apply refine_add_level
    |apply refine_remove_level|apply refine_set|].
  intros ns m Hm. split; [by apply refine_get|by apply refine_search].
Qed.
End Refinement.

Definition flat_sample : NameSeg := MkSeg x46 x4f x4f x5f.

(** In the new namespace, adding [\FOO_] gives its first handle, and a second time
    collides, on both sides. *)
Lemma namespace_refines_witness :
  match @add_value target_debug (abs [flat_sample]) (VInteger 5) new_namespace,
    @flat_add_value target_debug [flat_sample] (VInteger 5) flat_empty with
  | SOk h ns, SOk h' m => h = h' /\ models ns m /\ get_by_path ns (abs [flat_sample]) = flat_get m [flat_sample]
  | _, _ => False
  end.
Proof.
  destruct (@namespace_refines target_debug [flat_sample] [] LScope (VInteger 5) 0 (MkRef AtRoot [flat_sample]))
    as (Hnew & Hadd & _ & _ & _ & Hread).
  specialize (Hadd _ _ Hnew).
  assert (match @flat_add_value target_debug [flat_sample] (VInteger 5) flat_empty with SOk _ _ => true | _ => false end = true)
    as H by (vm_compute; reflexivity).
  destruct (@flat_add_value target_debug [flat_sample] (VInteger 5) flat_empty) as [h' m| |]; [|discriminate..].
  destruct (@add_value target_debug (abs [flat_sample]) (VInteger 5) new_namespace) as [h ns| |]; [|contradiction..].
  destruct Hadd as [Hh Hm]. split; [exact Hh|]. split; [exact Hm|]. exact (proj1 (Hread ns m Hm)).
Defined.
