(* ===== verification/Preorder.v ===== *)
(** The order in which the levels of the namespace are traversed: that of their paths,
    in which a path comes before those below it and the segments decide otherwise. *)
From stdpp Require Import sorting.
From S2P Require Import Prelude Types Names Namespace Ordered Flat.
#[local] Open Scope Z_scope.

(** * The order of paths *)

Fixpoint path_leb (p q : list NameSeg) : bool :=
  match p, q with
  | [], _ => true
  | _, [] => false
  | s :: p, t :: q =>
      match seg_compare s t with Lt => true | Eq => path_leb p q | Gt => false end
  end.
Definition path_le (p q : list NameSeg) : Prop := path_leb p q = true.

#[export] Instance path_le_dec p q : Decision (path_le p q).
Proof. unfold path_le. apply _. Defined.

Lemma path_le_cons s t p q :
  path_le (s :: p) (t :: q) <-> seg_key s < seg_key t \/ s = t /\ path_le p q.
Proof.
  unfold path_le. cbn. destruct (seg_compare s t) eqn:E.
  - apply seg_compare_eq in E as ->. split; [by right|]. by intros [?%Z.lt_irrefl|[_ ?]].
  - rewrite seg_compare_key in E. apply Z.compare_lt_iff in E. tauto.
  - rewrite seg_compare_key in E. apply Z.compare_gt_iff in E. split; [done|].
    intros [?|[-> _]]; lia.
Qed.

Lemma seg_key_inj s t : seg_key s = seg_key t -> s = t.
Proof. intros E. apply seg_compare_eq. by rewrite seg_compare_key, E, Z.compare_refl. Qed.

#[export] Instance path_le_trans : Transitive path_le.
Proof.
  intros p. induction p as [|s p IH]; intros [|t q] [|u r]; try done.
  rewrite !path_le_cons. intros [H1|[-> H1]] [H2|[-> H2]]; [left; lia|by left|by left|].
  right. split; [done|]. by apply (IH q).
Qed.

#[export] Instance path_le_antisymm : AntiSymm (=) path_le.
Proof.
  intros p. induction p as [|s p IH]; intros [|t q]; try done.
  rewrite !path_le_cons. intros [H1|[-> H1]] [H2|[E H2]]; [lia|subst; lia|lia|]. f_equal. by apply IH.
Qed.

#[export] Instance path_le_total : Total path_le.
Proof.
  intros p. induction p as [|s p IH]; intros [|t q]; [by left|by left|by right|].
  rewrite !path_le_cons. destruct (Z.lt_trichotomy (seg_key s) (seg_key t)) as [H|[H%seg_key_inj|H]];
    [by left; left| |by right; left]. subst. destruct (IH q); [left|right]; by right.
Qed.

(** The levels of the maps, in the order of their paths. *)
Definition level_order (m : flat) : list (list NameSeg) :=
  merge_sort path_le (map fst (map_to_list (f_levels m))).

(** * The levels of a tree *)

(** The paths of a level and those below it, each before those below it. *)
Fixpoint paths (l : NamespaceLevel) : list (list NameSeg) :=
  let '(MkLevel _ cs _) := l in
  [] :: flat_map (fun sc => map (cons sc.1) (paths sc.2)) cs.
Definition paths_below (cs : list (NameSeg * NamespaceLevel)) : list (list NameSeg) :=
  flat_map (fun sc => map (cons sc.1) (paths sc.2)) cs.

Lemma paths_eq l : paths l = [] :: paths_below (children l).
Proof. by destruct l. Qed.

(** Induction on the levels of a tree. *)
Lemma level_nested_ind (P : NamespaceLevel -> Prop) :
  (forall t cs vs, Forall (fun sc => P sc.2) cs -> P (MkLevel t cs vs)) -> forall l, P l.
Proof.
  intros H. fix IH 1. intros [t cs vs]. apply H. induction cs as [|[s c] cs IHcs]; constructor; [apply IH|done].
Qed.

Lemma bt_get_elem {V} k (m : list (NameSeg * V)) v : bt_ordered m -> (k, v) ∈ m <-> bt_get k m = Some v.
Proof.
  induction 1 as [|[k' v'] m Hm IH Hk]; [by split; [intros H; inversion H|]|]. cbn.
  rewrite elem_of_cons. case_decide as E; subst.
  - split; [|intros [= ->]; by left]. intros [[= ->]|H]; [done|]. rewrite Forall_forall in Hk.
    specialize (Hk _ H). cbn in Hk. lia.
  - rewrite <-IH. split; [by intros [[= -> ->]|]|by right].
Qed.

(** The paths of a tree are those at which there are levels. *)
Lemma paths_elem l q : tree_ordered l -> q ∈ paths l <-> is_Some (level_at l q).
Proof.
  revert q. induction l as [t cs vs IH] using level_nested_ind. intros q.
  intros [Ho Hc]%tree_ordered_children. rewrite paths_eq, elem_of_cons. cbn [children] in *.
  unfold paths_below. rewrite list_elem_of_In, in_flat_map. rewrite Forall_forall in IH.
  destruct q as [|s q]; cbn; [split; [by eexists|by left]|]. split.
  - intros [?|([s' c] & Hin & Hq)]; [done|]. apply list_elem_of_In in Hin.
    apply in_map_iff in Hq as (q' & [= -> ->] & Hq). apply list_elem_of_In in Hq.
    pose proof (proj1 (bt_get_elem _ _ _ Ho) Hin) as Hg. rewrite Hg. cbn.
    apply (IH (s, c) Hin); [|done]. by apply (Hc s).
  - destruct (bt_get s cs) as [c|] eqn:Hg; [|by intros []]. cbn. intros Hq. right.
    exists (s, c). pose proof (proj2 (bt_get_elem _ _ _ Ho) Hg) as Hin.
    split; [by apply list_elem_of_In|]. cbn. apply in_map, list_elem_of_In.
    apply (IH (s, c) Hin); [|done]. by apply (Hc s).
Qed.

Lemma StronglySorted_map_cons s ps : StronglySorted path_le ps -> StronglySorted path_le (map (cons s) ps).
Proof.
  induction 1 as [|p ps Hps IH Hp]; constructor; [done|]. apply Forall_map.
  eapply Forall_impl; [exact Hp|]. intros q Hq. apply path_le_cons. by right.
Qed.

Lemma paths_below_above x cs : Forall (fun sc => x < seg_key sc.1) cs ->
  forall p q, q ∈ paths_below cs -> forall s, seg_key s = x -> path_le (s :: p) q /\ s :: p <> q.
Proof.
  intros H p q Hq s <-. apply list_elem_of_In, in_flat_map in Hq as ([t c] & Hin & Hq).
  apply in_map_iff in Hq as (r & <- & _). apply list_elem_of_In in Hin.
  rewrite Forall_forall in H. specialize (H _ Hin). cbn in *. split; [apply path_le_cons; by left|].
  intros [= -> _]. lia.
Qed.

(** They are in order, and none is there twice. *)
Lemma paths_sorted l : tree_ordered l -> StronglySorted path_le (paths l) /\ NoDup (paths l).
Proof.
  induction l as [t cs vs IH] using level_nested_ind. intros [Ho Hc]%tree_ordered_children.
  rewrite paths_eq. cbn [children] in *.
  assert (StronglySorted path_le (paths_below cs) /\ NoDup (paths_below cs)) as [Hs Hn].
  { assert (Forall (fun sc => tree_ordered sc.2) cs) as Hall.
    { apply Forall_forall. intros [s c] Hin. apply (Hc s). by apply bt_get_elem. }
    clear Hc. induction Ho as [|[s c] cs Hcs IHcs Hs]; [by repeat constructor|].
    apply Forall_cons in IH as [IHc IH]. apply Forall_cons in Hall as [Hc Hall].
    destruct (IHc Hc) as [S1 N1]. destruct (IHcs IH Hall) as [S2 N2]. cbn [paths_below flat_map fst snd].
    assert (forall p q, p ∈ map (cons s) (paths c) -> q ∈ paths_below cs -> path_le p q /\ p <> q) as Hlt.
    { intros p q (p' & <- & _)%list_elem_of_In%in_map_iff Hq. by apply (paths_below_above (seg_key s) cs). }
    split.
    - apply StronglySorted_app_2; [|by apply StronglySorted_map_cons|done]. intros p q Hp Hq. by apply Hlt.
    - apply NoDup_app. split; [|split; [|done]].
      + by apply NoDup_fmap_2; [intros ?? [=]|].
      + intros p Hp Hq. by destruct (Hlt p p Hp Hq). }
  split; constructor; [done|by apply Forall_forall| |done].
  intros ([s c] & _ & Hq)%list_elem_of_In%in_flat_map. by apply in_map_iff in Hq as (? & ? & _).
Qed.

(** The levels of the maps in order are those of the tree that implements them. *)
Lemma level_order_paths ns m : models ns m -> level_order m = paths (root_level ns).
Proof.
  intros (Hl & _ & _ & _ & _ & Ho). destruct (paths_sorted _ Ho) as [Hs Hn]. unfold level_order.
  apply (StronglySorted_unique path_le); [by apply StronglySorted_merge_sort; apply _|done|].
  rewrite merge_sort_Permutation. apply NoDup_Permutation; [apply NoDup_fst_map_to_list|done|].
  intros q. rewrite paths_elem by done. rewrite list_elem_of_fmap. specialize (Hl q). unfold ns_level in Hl. split.
  - intros ([p t] & -> & Hin). apply elem_of_map_to_list in Hin. cbn in *. rewrite Hin in Hl.
    destruct (level_at (root_level ns) p); [by eexists|done].
  - intros [l Hq]. rewrite Hq in Hl. exists (q, level_typ l). split; [done|]. by apply elem_of_map_to_list.
Qed.
