(* ===== verification/Grammar.v ===== *)
(** The interface between the mutually recursive parsers of AML: what the parsers
    of expressions, statements and named objects call of each other. [Interp.v]
    closes the recursion, with the fuel that remains as [g_fuel]. *)
From S2P Require Import Prelude Types Names Namespace Env Context Parser PkgLength.
#[local] Open Scope Z_scope.

Class Grammar {env : AmlEnv} := {
  g_fuel : nat;
  g_term_arg : Parser AmlValue;
  g_data_ref_object : Parser AmlValue;
  g_term_object : Parser (option AmlValue);
  g_invoke_method : AmlName -> Args -> SE AmlContext AmlError AmlValue
}.

Section Loops.
Context {env : AmlEnv}.

(** [while length.still_parsing(input) { body }], carrying [a]; every round takes
    a unit of fuel. *)
Fixpoint parse_while {A} (fuel : nat) (length : PkgLength) (body : A -> Parser A) (a : A)
    : Parser A := fun '(input, c) =>
  if still_parsing length input then
    match fuel with
    | O => SFail OutOfFuel
    | S fuel =>
        match body a (input, c) with
        | SOk a s => parse_while fuel length body a s
        | SErr e s => SErr e s
        | SFail f => SFail f
        end
    end
  else SOk a (input, c).

(** The loop with fuel for one round per byte of the input. *)
Definition parse_list {A} (length_ : PkgLength) (body : A -> Parser A) (a : A) : Parser A :=
  fun s => parse_while (length (fst s)) length_ body a s.

(** [opcode(op).then(comment_scope(verbosity, _, p))], keeping the result of [p]. *)
Definition second {A B} (p : Parser (A * B)) : Parser B := p_map p (fun '(_, b) => Ok b).

(** [PkgLength::from_raw_length(code, code.len() as u32).unwrap()] *)
Definition whole_length {E} (code : bytes) : result E PkgLength :=
  unwrap_ok (from_raw_length code (len32 code)).

(** [parser.parse(code, context)] inside of another parser or of the context. *)
Definition run_on {R} (p : Parser R) (code : bytes) : SE AmlContext Propagate R := fun c =>
  match p (code, c) with
  | SOk r (_, c) => SOk r c
  | SErr e (_, c) => SErr e c
  | SFail f => SFail f
  end.

Context {g : Grammar}.

(** [term_list] of [term_object.rs] *)
Definition term_list (list_length : PkgLength) : Parser unit :=
  parse_list list_length (fun _ => discard_result g_term_object) tt.

(** Running the whole of [code] as a term list. *)
Definition run_term_list (code : bytes) : SE AmlContext Propagate unit :=
  let! len := se_lift (whole_length code) in
  run_on (term_list len) code.
End Loops.
