(* ===== verification/Expression.v ===== *)
(** The parsers and the evaluation of expressions ([aml/src/expression.rs]). *)
From S2P Require Import Prelude Types Names Namespace Env RustStd Context Value Parser.
From S2P Require Import PkgLength Opcode NameObject Grammar.
#[local] Open Scope Z_scope.

Section Expression.
Context {env : AmlEnv} {g : Grammar}.
Abbreviation M := (SE AmlContext AmlError).

(** [context.store(target, result.clone())], and the result *)
Definition store_result (target : Target_) (result : AmlValue) : M AmlValue :=
  do! store g_fuel target result in se_ret result.

(** [opcode(op).then(comment_scope(AllScopes, _, p)).map(|((), result)| Ok(result))] *)
Definition op_scope {A} (op : byte) (p : Parser A) : Parser A :=
  second (p_then (opcode op) (comment_scope VbAllScopes p)).

Definition def_add : Parser AmlValue :=
  op_scope DEF_ADD_OP
    (map_with_context (p_then (p_then g_term_arg g_term_arg) target)
       (fun '((left_arg, right_arg), target) => ctx (
          let! left_ := as_integer g_fuel left_arg in
          let! right_ := as_integer g_fuel right_arg in
          store_result target (VInteger (wrap 64 (left_ + right_)))))).

Definition def_and : Parser AmlValue :=
  op_scope DEF_AND_OP
    (map_with_context (p_then (p_then g_term_arg g_term_arg) target)
       (fun '((left_arg, right_arg), target) => ctx (
          let! left_ := as_integer g_fuel left_arg in
          let! right_ := as_integer g_fuel right_arg in
          store_result target (VInteger (Z.land left_ right_))))).

(** The contents of a [DefBuffer]: the bytes, zero-extended to the size. *)
Definition buffer_contents (data : bytes) (buffer_size : AmlValue) : SE AmlContext Propagate bytes :=
  let! size := ctx (as_integer g_fuel buffer_size) in
  let size := as_usize size in
  if size <? Z.of_nat (length data) then se_err (PErr MalformedBuffer)
  else se_ret (data ++ replicate (Z.to_nat size - length data) x00).

Definition def_buffer : Parser AmlValue :=
  map_with_context
    (op_scope DEF_BUFFER_OP
       (p_feed (p_then pkg_length g_term_arg) (fun '(pkg_length, buffer_size) =>
          map_with_context (take_to_end_of_pkglength pkg_length)
            (fun data => buffer_contents data buffer_size))))
    (fun buffer => ctx (let! l := alloc_buffer buffer in se_ret (VBuffer l))).

(** The value of a [DefConcat]. *)
Definition concat_values (left_ right_ : AmlValue) : M AmlValue :=
  match as_concat_type left_ with
  | VInteger left_ =>
      let! right_ := as_integer g_fuel right_ in
      let! l := alloc_buffer (to_le_bytes 8 left_ ++ to_le_bytes 8 right_) in
      se_ret (VBuffer l)
  | VBuffer left_ =>
      let! new := load_buffer left_ in
      let! right_ := as_buffer g_fuel right_ in
      let! rest := load_buffer right_ in
      let! l := alloc_buffer (new ++ rest) in
      se_ret (VBuffer l)
  | VString left_ =>
      let! right_ :=
        match as_concat_type right_ with
        | VString right_ => se_ret right_
        | VInteger _ => as_string g_fuel right_
        | VBuffer _ => as_string g_fuel right_
        | _ => se_fail Panic
        end in
      se_ret (VString (left_ ++ right_))
  | _ => se_fail Panic
  end.

Definition def_concat : Parser AmlValue :=
  op_scope DEF_CONCAT_OP
    (map_with_context (p_then (p_then g_term_arg g_term_arg) target)
       (fun '((left_, right_), target) => ctx (
          let! result := concat_values left_ right_ in
          store_result target result))).

(** The descriptors of a resource buffer, without the end tag. *)
Definition strip_end_tag (contents : bytes) (len : nat) : M bytes :=
  if (len =? 0)%nat then se_ret [] else se_lift (slice contents 0 (len - 2)).

Definition checksum (data : bytes) : Z :=
  fold_left (fun checksum b => wrap 8 (checksum + u8 b)) data 0.

(** The descriptors with the tag of the end and its checksum. *)
Definition with_end_tag (descriptors : bytes) : bytes :=
  let result := descriptors ++ [x79] in
  result ++ [to_u8 (wrap 8 (- checksum result))].

(** The value of a [DefConcatRes]. *)
Definition concat_resources (left_ right_ : BufRef) : M AmlValue :=
  let! left_data := load_buffer left_ in
  let! right_data := load_buffer right_ in
  let left_len := length left_data in
  let right_len := length right_data in
  if (left_len =? 1)%nat || (right_len =? 1)%nat then se_err ResourceDescriptorTooShort
  else
    with_lock left_ (fun left_contents =>
      with_lock right_ (fun right_contents =>
        let! a := strip_end_tag left_contents left_len in
        let! b := strip_end_tag right_contents right_len in
        let! l := alloc_buffer (with_end_tag (a ++ b)) in
        se_ret (VBuffer l))).

Definition def_concat_res : Parser AmlValue :=
  op_scope DEF_CONCAT_RES_OP
    (map_with_context (p_then (p_then g_term_arg g_term_arg) target)
       (fun '((left_, right_), target) => ctx (
          let! left_ := as_buffer g_fuel left_ in
          let! right_ := as_buffer g_fuel right_ in
          let! result := concat_resources left_ right_ in
          store_result target result))).

Definition def_increment : Parser AmlValue :=
  op_scope DEF_INCREMENT_OP
    (map_with_context super_name (fun addend => ctx (
       let! value := read_target addend in
       let! value := as_integer g_fuel value in
       let! new_value := se_lift (add_w 64 value 1) in
       store_result addend (VInteger new_value)))).

Definition def_decrement : Parser AmlValue :=
  op_scope DEF_DECREMENT_OP
    (map_with_context super_name (fun minuend => ctx (
       let! value := read_target minuend in
       let! value := as_integer g_fuel value in
       let! new_value := se_lift (sub_w 64 value 1) in
       store_result minuend (VInteger new_value)))).

Definition def_l_or : Parser AmlValue :=
  op_scope DEF_L_OR_OP
    (map_with_context (p_then g_term_arg g_term_arg) (fun '(left_arg, right_arg) => ctx (
       let! left_ := se_lift (as_bool left_arg) in
       let! right_ := se_lift (as_bool right_arg) in
       se_ret (VBoolean (left_ || right_))))).

(** The operands of a comparison, and the test of their order. *)
Definition compare_operands (test : comparison -> bool) : Parser AmlValue :=
  map_with_context (p_then g_term_arg g_term_arg) (fun '(left_arg, right_arg) => ctx (
    let! ord := value_cmp g_fuel left_arg right_arg in
    se_ret (VBoolean (test ord)))).

(** [opcode(LNot).then(opcode(op)).then(comment_scope(AllScopes, _, p))] *)
Definition negated_scope (op : byte) (p : Parser AmlValue) : Parser AmlValue :=
  second (p_then (p_then (opcode DEF_L_NOT_OP) (opcode op)) (comment_scope VbAllScopes p)).

Definition is_eq (c : comparison) : bool := match c with Eq => true | _ => false end.
Definition is_lt (c : comparison) : bool := match c with Lt => true | _ => false end.
Definition is_gt (c : comparison) : bool := match c with Gt => true | _ => false end.

Definition def_l_equal : Parser AmlValue :=
  op_scope DEF_L_EQUAL_OP (compare_operands is_eq).
Definition def_l_greater : Parser AmlValue :=
  op_scope DEF_L_GREATER_OP (compare_operands is_gt).
Definition def_l_greater_equal : Parser AmlValue :=
  negated_scope DEF_L_LESS_OP (compare_operands (fun ord => negb (is_lt ord))).
Definition def_l_less : Parser AmlValue :=
  op_scope DEF_L_LESS_OP (compare_operands is_lt).
Definition def_l_less_equal : Parser AmlValue :=
  negated_scope DEF_L_GREATER_OP (compare_operands (fun ord => negb (is_gt ord))).
Definition def_l_not_equal : Parser AmlValue :=
  negated_scope DEF_L_EQUAL_OP (compare_operands (fun ord => negb (is_eq ord))).


(** The part of a buffer that [DefMid] takes, with its lock held. *)
Definition mid_buffer (contents : bytes) (index length_ : Z) : M AmlValue :=
  let len := Z.of_nat (length contents) in
  if len <=? index then
    let! l := alloc_buffer [] in se_ret (VBuffer l)
  else
    let! end_ := se_lift (add_w usize_bits index length_) in
    let! part :=
      if len <=? end_ then se_lift (slice contents (Z.to_nat index) (length contents))
      else se_lift (slice contents (Z.to_nat index) (Z.to_nat end_)) in
    let! l := alloc_buffer part in se_ret (VBuffer l).

(** The part of a string that [DefMid] takes. *)
Definition mid_string {E} (string : bytes) (index length_ : Z) : result E bytes :=
  let len := Z.of_nat (length string) in
  if len <=? index then Ok []
  else
    let? end_ := add_w usize_bits index length_ in
    if len <=? end_ then str_slice string (Z.to_nat index) (length string)
    else str_slice string (Z.to_nat index) (Z.to_nat end_).

(** The value of a [DefMid]. *)
Definition mid_value (source : AmlValue) (index length_ : Z) : M AmlValue :=
  match source with
  | VBuffer l => with_lock l (fun contents => mid_buffer contents index length_)
  | VString string =>
      let! part := se_lift (mid_string string index length_) in se_ret (VString part)
  | _ => se_err (TypeCannotBeSliced (type_of source))
  end.

Definition def_mid : Parser AmlValue :=
  op_scope DEF_MID_OP
    (map_with_context (p_then (p_then (p_then g_term_arg g_term_arg) g_term_arg) target)
       (fun '(((source, index), length_), target) => ctx (
          let! index := as_integer g_fuel index in
          let! length_ := as_integer g_fuel length_ in
          let! result := mid_value source (as_usize index) (as_usize length_) in
          store_result target result))).

Definition package_element : Parser AmlValue :=
  choice [g_data_ref_object;
          p_map name_string (fun string => Ok (VString (Names.as_string string)))].

Definition def_package : Parser AmlValue :=
  op_scope DEF_PACKAGE_OP
    (p_feed (p_then pkg_length p_take) (fun '(pkg_length, num_elements) =>
       let! package_contents := parse_list pkg_length (fun package_contents =>
           let! value := package_element in se_ret (package_contents ++ [value])) [] in
       if Z.of_nat (length package_contents) =? u8 num_elements
       then se_ret (VPackage package_contents)
       else se_err (PErr MalformedPackage))).

(** [u64::checked_shl] and [u64::checked_shr]. *)
Definition checked_shl (z n : Z) : option Z :=
  if n <? 64 then Some (wrap 64 (Z.shiftl z n)) else None.
Definition checked_shr (z n : Z) : option Z :=
  if n <? 64 then Some (Z.shiftr z n) else None.

(** The two shifts, whose evaluation is outside of the scope of the comments. *)
Definition shift_op (op : byte) (shift : Z -> Z -> option Z) (e : AmlError) : Parser AmlValue :=
  map_with_context
    (p_then (opcode op) (comment_scope VbScopes (p_then (p_then g_term_arg g_term_arg) target)))
    (fun '(_, ((operand, shift_count), target)) => ctx (
       let! operand := as_integer g_fuel operand in
       let! shift_count := as_integer g_fuel shift_count in
       let! shift_count := se_lift (try_into 32 e shift_count) in
       let! result := se_lift (ok_or e (shift operand shift_count)) in
       store_result target (VInteger result))).

Definition def_shift_left : Parser AmlValue :=
  shift_op DEF_SHIFT_LEFT checked_shl InvalidShiftLeft.
Definition def_shift_right : Parser AmlValue :=
  shift_op DEF_SHIFT_RIGHT checked_shr InvalidShiftRight.

Definition def_store : Parser AmlValue :=
  map_with_context
    (p_then (opcode DEF_STORE_OP) (comment_scope VbScopes (p_then g_term_arg super_name)))
    (fun '(_, (value, target)) => ctx (store g_fuel target value)).

(** The value of a [DefToInteger]. *)
Definition to_integer (operand : AmlValue) : M Z :=
  match operand with
  | VInteger z => se_ret z
  | VBuffer data => as_integer g_fuel (VBuffer data)
  | VString string =>
      let parsed :=
        if starts_with (bstr "0x") string then parse_u64 16 (trim_0x string)
        else parse_u64 10 string in
      se_lift (ok_or (IncompatibleValueConversion TString TInteger) parsed)
  | _ => se_err (IncompatibleValueConversion (type_of operand) TInteger)
  end.

Definition def_to_integer : Parser AmlValue :=
  map_with_context
    (p_then (opcode DEF_TO_INTEGER_OP) (comment_scope VbAllScopes (p_then g_term_arg target)))
    (fun '(_, (operand, target)) => ctx (
       let! result := to_integer operand in
       store_result target (VInteger result))).

(** The path of the invoked object, and the number of arguments if it is a method. *)
Definition invocation_target (name : AmlName) : M (AmlName * option Z) :=
  let! scope := se_gets current_scope in
  let! (full_path, handle) := in_namespace (fun ns => search ns name scope) in
  let! value := in_namespace (fun ns => ns_get ns handle) in
  se_ret (full_path,
          match value with
          | VMethod flags _ => Some (arg_count flags)
          | _ => None
          end).

Definition method_invocation : Parser AmlValue :=
  comment_scope VbScopes
    (p_feed (map_with_context name_string (fun name => ctx (invocation_target name)))
       (fun '(path, num_args) =>
          map_with_context (n_of g_term_arg (Z.to_nat (default 0 num_args)))
            (fun arg_list => ctx (
               match num_args with
               | Some _ =>
                   let! args := se_lift (args_from_list arg_list) in
                   g_invoke_method path args
               | None => in_namespace (fun ns => get_by_path ns path)
               end)))).

Definition expression_opcode : Parser AmlValue :=
  comment_scope VbAllScopes
    (choice [def_add; def_and; def_buffer; def_concat; def_concat_res; def_increment;
             def_decrement; def_l_equal; def_l_greater; def_l_greater_equal; def_l_less;
             def_l_less_equal; def_l_not_equal; def_l_or; def_mid; def_package;
             def_shift_left; def_shift_right; def_store; def_to_integer;
             method_invocation]).
End Expression.
