(* ===== verification/Statement.v ===== *)
(** The parsers and the execution of statements ([aml/src/statement.rs]). *)
From S2P Require Import Prelude Types Names Namespace Env RustStd Context Value Parser.
From S2P Require Import PkgLength Opcode NameObject Grammar.
#[local] Open Scope Z_scope.

Section Statement.
Context {env : AmlEnv} {g : Grammar}.

Definition def_break : Parser unit :=
  discard_result (p_then (opcode DEF_BREAK_OP)
    (comment_scope VbAllScopes (p_map p_id (fun _ => @Err Propagate unit PBreak)))).

Definition def_breakpoint : Parser unit :=
  discard_result (p_then (opcode DEF_BREAKPOINT_OP) (comment_scope VbAllScopes p_id)).

Definition def_continue : Parser unit :=
  discard_result (p_then (opcode DEF_CONTINUE_OP)
    (comment_scope VbAllScopes (p_map p_id (fun _ => @Err Propagate unit PContinue)))).

(** [context.handler.handle_fatal_error(...)] *)
Definition fatal_error (fatal_type fatal_code fatal_arg : Z) : SE AmlContext AmlError unit := fun c =>
  match handle_fatal_error fatal_type fatal_code fatal_arg (hardware c) with
  | Some h => SOk tt (set_hardware h c)
  | None => SFail Panic
  end.

Definition def_fatal : Parser unit :=
  discard_result (p_then (ext_opcode EXT_DEF_FATAL_OP) (comment_scope VbScopes
    (map_with_context (p_then (p_then p_take take_u32) g_term_arg)
       (fun '((fatal_type, fatal_code), fatal_arg) => ctx (
          let! fatal_arg := as_integer g_fuel fatal_arg in
          do! fatal_error (u8 fatal_type) fatal_code fatal_arg in
          se_err (A := unit) FatalError))))).

(** [DefElse], or nothing *)
Definition else_branch : Parser bytes :=
  choice [second (p_then (opcode DEF_ELSE_OP)
            (comment_scope VbAllScopes (p_feed pkg_length take_to_end_of_pkglength)));
          se_ret []].

Definition def_if_else : Parser unit :=
  discard_result (p_then (opcode DEF_IF_ELSE_OP) (comment_scope VbScopes
    (map_with_context
       (p_then
          (p_feed (p_then pkg_length g_term_arg) (fun '(length, predicate_arg) =>
             p_map (take_to_end_of_pkglength length) (fun then_branch =>
               let? predicate := prop (as_bool predicate_arg) in
               Ok (predicate, then_branch))))
          else_branch)
       (fun '((predicate, then_branch), else_branch) =>
          run_term_list (if predicate : bool then then_branch else else_branch))))).

Definition def_noop : Parser unit :=
  discard_result (p_then (opcode DEF_NOOP_OP) (comment_scope VbAllScopes p_id)).

Definition def_return : Parser unit :=
  discard_result (p_then (opcode DEF_RETURN_OP) (comment_scope VbScopes
    (p_map g_term_arg (fun return_arg => @Err Propagate unit (PReturn return_arg))))).

(** The [loop] of [DefWhile]: the body, then the predicate again. *)
Fixpoint while_loop (fuel : nat) (predicate_stream body : bytes)
    : SE AmlContext Propagate unit :=
  match fuel with
  | O => se_fail OutOfFuel
  | S fuel =>
      let! result := se_try (run_term_list body) in
      let again :=
        let! result := run_on (comment_scope VbAllScopes g_term_arg) predicate_stream in
        let! predicate := ctx (se_lift (as_bool result)) in
        if predicate : bool then while_loop fuel predicate_stream body else se_ret tt in
      match result with
      | Ok _ => again
      | Err PBreak => se_ret tt
      | Err PContinue => again
      | Err e => se_err e
      | Fail r => se_fail r
      end
  end.

Definition def_while : Parser unit :=
  discard_result (p_then (opcode DEF_WHILE_OP) (comment_scope VbScopes
    (map_with_context
       (p_feed (p_then pkg_length (extract g_term_arg))
          (fun '(length, (first_predicate, predicate_stream)) =>
             p_map (take_to_end_of_pkglength length)
               (fun body => Ok (first_predicate, predicate_stream, body))))
       (fun '(first_predicate, predicate_stream, body) =>
          let! predicate := ctx (se_lift (as_bool first_predicate)) in
          if predicate : bool then while_loop g_fuel predicate_stream body
          else se_ret tt)))).

Definition statement_opcode : Parser unit :=
  comment_scope VbAllScopes
    (choice [def_break; def_breakpoint; def_continue; def_fatal; def_if_else; def_noop;
             def_return; def_while]).
End Statement.
