(* ===== verification/TermObject.v ===== *)
(** The parsers of terms: named objects, namespace modifiers and data
    ([aml/src/term_object.rs]). *)
From S2P Require Import Prelude Types Names Namespace Env RustStd Context Value Parser.
From S2P Require Import PkgLength Opcode NameObject Grammar Expression Statement.
#[local] Open Scope Z_scope.

Section TermObject.
Context {env : AmlEnv} {g : Grammar}.
Abbreviation M := (SE AmlContext AmlError).

(** [context.namespace.add_value_at_resolved_path(name, &context.current_scope, value)] *)
Definition add_at_current_scope (name : AmlName) (value : AmlValue) : M unit :=
  let! scope := se_gets current_scope in
  do! on_namespace (add_value_at_resolved_path name scope value) in
  se_ret tt.

Definition def_name : Parser unit :=
  discard_result (p_then (opcode DEF_NAME_OP) (comment_scope VbScopes
    (map_with_context (p_then name_string g_data_ref_object)
       (fun '(name, data_ref_object) => ctx (add_at_current_scope name data_ref_object))))).

(** [.feed(|(length, previous_scope)| term_list(length).map(...))] followed by the
    restoration of the scope. *)
Definition in_scope (p : Parser (PkgLength * AmlName)) : Parser unit :=
  map_with_context
    (p_feed p (fun '(length, previous_scope) =>
       p_map (term_list length) (fun _ => Ok previous_scope)))
    (fun previous_scope => se_modify (set_current_scope previous_scope)).

(** Moving into the scope [resolved_name]. *)
Definition enter_scope (resolved_name : AmlName) : M AmlName :=
  let! previous_scope := se_gets current_scope in
  do! se_modify (set_current_scope resolved_name) in
  se_ret previous_scope.

Definition resolve_here (name : AmlName) : M AmlName :=
  let! scope := se_gets current_scope in se_lift (resolve name scope).

Definition def_scope : Parser unit :=
  discard_result (p_then (opcode DEF_SCOPE_OP) (comment_scope VbScopes
    (in_scope
       (map_with_context (p_then pkg_length name_string) (fun '(length, name) => ctx (
          let! scope := resolve_here name in
          let! previous_scope := enter_scope scope in
          do! on_namespace (add_level scope LScope) in
          se_ret (length, previous_scope))))))).

(** A field of a buffer, of [length] bits at [index * scale] bits. The index is
    multiplied only where the source multiplies it. *)
Definition create_field (source index : AmlValue) (scale : option Z) (length : Z) (name : AmlName)
    : M unit :=
  let! source_data := as_buffer g_fuel source in
  let! index := as_integer g_fuel index in
  let! offset :=
    match scale with
    | Some scale => se_lift (mul_w 64 index scale)
    | None => se_ret index
    end in
  add_at_current_scope name (VBufferField source_data offset length).

(** The parsers of the [DefCreate...Field]s of a fixed length. *)
Definition create_fixed_field (op : byte) (scale : option Z) (length : Z) : Parser unit :=
  discard_result (p_then (opcode op) (comment_scope VbAllScopes
    (map_with_context (p_then (p_then g_term_arg g_term_arg) name_string)
       (fun '((source, index), name) => ctx (create_field source index scale length name))))).

Definition def_create_bit_field : Parser unit :=
  create_fixed_field DEF_CREATE_BIT_FIELD_OP None 1.
Definition def_create_byte_field : Parser unit :=
  create_fixed_field DEF_CREATE_BYTE_FIELD_OP (Some 8) 8.
Definition def_create_word_field : Parser unit :=
  create_fixed_field DEF_CREATE_WORD_FIELD_OP (Some 8) 16.
Definition def_create_dword_field : Parser unit :=
  create_fixed_field DEF_CREATE_DWORD_FIELD_OP (Some 8) 32.
Definition def_create_qword_field : Parser unit :=
  create_fixed_field DEF_CREATE_QWORD_FIELD_OP (Some 8) 64.

Definition def_create_field : Parser unit :=
  discard_result (p_then (ext_opcode EXT_DEF_CREATE_FIELD_OP) (comment_scope VbScopes
    (map_with_context (p_then (p_then (p_then g_term_arg g_term_arg) g_term_arg) name_string)
       (fun '(((source, index), num_bits), name) => ctx (
          let! source_data := as_buffer g_fuel source in
          let! index := as_integer g_fuel index in
          let! num_bits := as_integer g_fuel num_bits in
          add_at_current_scope name (VBufferField source_data index num_bits)))))).

(** The space of a [DefOpRegion]. *)
Definition region_space (space : byte) : result AmlError RegionSpace :=
  match u8 space with
  | 0x00 => Ok SystemMemory
  | 0x01 => Ok SystemIo
  | 0x02 => Ok PciConfig
  | 0x03 => Ok EmbeddedControl
  | 0x04 => Ok SMBus
  | 0x05 => Ok SystemCmos
  | 0x06 => Ok PciBarTarget
  | 0x07 => Ok IPMI
  | 0x08 => Ok GeneralPurposeIo
  | 0x09 => Ok GenericSerialBus
  | s => if 0x80 <=? s then Ok (OemDefined space) else Err (InvalidRegionSpace space)
  end.

(** The device that holds the objects that describe a region. *)
Definition region_parent (region : RegionSpace) (name : AmlName) : M (option AmlName) :=
  match region with
  | PciConfig | IPMI | GenericSerialBus =>
      let! resolved_path := resolve_here name in
      let! parent := se_lift (parent resolved_path) in
      se_ret (Some parent)
  | _ => se_ret None
  end.

Definition def_op_region : Parser unit :=
  discard_result (p_then (ext_opcode EXT_DEF_OP_REGION_OP) (comment_scope VbScopes
    (map_with_context (p_then (p_then (p_then name_string p_take) g_term_arg) g_term_arg)
       (fun '(((name, space), offset), length) => ctx (
          let! region := se_lift (region_space space) in
          let! offset := as_integer g_fuel offset in
          let! length := as_integer g_fuel length in
          let! parent_device := region_parent region name in
          add_at_current_scope name (VOpRegion region offset length parent_device)))))).

(** The closures of [field_element]. *)
Definition reserved_field : Parser Z :=
  p_map (p_then (opcode RESERVED_FIELD) pkg_length) (fun '(_, length) => Ok (raw_length length)).

Definition named_field (region_handle : AmlHandle) (flags : FieldFlags) (current_offset : Z)
    : Parser Z :=
  map_with_context (p_then name_seg pkg_length) (fun '(name_seg, length) => ctx (
    do! add_at_current_scope (from_name_seg name_seg)
          (VField region_handle flags current_offset (raw_length length)) in
    se_ret (raw_length length))).

Definition field_element (region_handle : AmlHandle) (flags : FieldFlags) (current_offset : Z)
    : Parser Z :=
  choice [reserved_field; named_field region_handle flags current_offset].

(** [opregion_as_handle] of [def_field] *)
Definition opregion_as_handle : Parser AmlHandle :=
  map_with_context name_string (fun region_name => ctx (
    let! scope := se_gets current_scope in
    let! (_, handle) := in_namespace (fun ns => search ns region_name scope) in
    se_ret handle)).

(** The field list of [def_field]. *)
Definition field_list (list_length : PkgLength) (region_handle : AmlHandle) (flags : byte)
    : Parser unit :=
  discard_result (parse_list list_length (fun current_offset =>
    let! field_length := field_element region_handle (MkFieldFlags flags) current_offset in
    on_context (se_lift (add_w 64 current_offset field_length))) 0).

Definition def_field : Parser unit :=
  discard_result (p_then (ext_opcode EXT_DEF_FIELD_OP) (comment_scope VbScopes
    (p_feed (p_then (p_then pkg_length opregion_as_handle) p_take)
       (fun '((list_length, region_handle), flags) =>
          field_list list_length region_handle flags)))).

Definition def_method : Parser unit :=
  discard_result (p_then (opcode DEF_METHOD_OP) (comment_scope VbScopes
    (map_with_context
       (p_feed (p_then (p_then pkg_length name_string) p_take) (fun '((length, name), flags) =>
          p_map (take_to_end_of_pkglength length) (fun code => Ok (name, flags, code))))
       (fun '(name, flags, code) => ctx (
          add_at_current_scope name (VMethod (MkMethodFlags flags) (Aml code))))))).

Definition def_external : Parser unit :=
  discard_result (p_then (opcode DEF_EXTERNAL_OP) (comment_scope VbScopes
    (p_then (p_then name_string p_take) p_take))).

(** Declaring an object that has a value and a level of its own, in the order of
    the source, and moving into its scope. *)
Definition value_then_level (name : AmlName) (value : AmlValue) (typ : LevelType) : M AmlName :=
  let! resolved_name := resolve_here name in
  do! on_namespace (add_value resolved_name value) in
  do! on_namespace (add_level resolved_name typ) in
  enter_scope resolved_name.
Definition level_then_value (name : AmlName) (value : AmlValue) (typ : LevelType) : M AmlName :=
  let! resolved_name := resolve_here name in
  do! on_namespace (add_level resolved_name typ) in
  do! on_namespace (add_value resolved_name value) in
  enter_scope resolved_name.

Definition def_device : Parser unit :=
  discard_result (p_then (ext_opcode EXT_DEF_DEVICE_OP) (comment_scope VbScopes
    (in_scope
       (map_with_context (p_then pkg_length name_string) (fun '(length, name) => ctx (
          let! previous_scope := value_then_level name VDevice LDevice in
          se_ret (length, previous_scope))))))).

Definition def_processor : Parser unit :=
  discard_result (p_then (ext_opcode EXT_DEF_PROCESSOR_OP) (comment_scope VbScopes
    (in_scope
       (map_with_context
          (p_then (p_then (p_then (p_then pkg_length name_string) p_take) take_u32) p_take)
          (fun '((((pkg_length, name), proc_id), pblk_address), pblk_len) => ctx (
             let! previous_scope :=
               level_then_value name (VProcessor proc_id pblk_address pblk_len) LProcessor in
             se_ret (pkg_length, previous_scope))))))).

Definition def_power_res : Parser unit :=
  discard_result (p_then (ext_opcode EXT_DEF_POWER_RES_OP) (comment_scope VbScopes
    (in_scope
       (map_with_context
          (p_then (p_then (p_then pkg_length name_string) p_take) take_u16)
          (fun '(((pkg_length, name), system_level), resource_order) => ctx (
             let! previous_scope :=
               level_then_value name (VPowerResource system_level resource_order) LPowerResource in
             se_ret (pkg_length, previous_scope))))))).

Definition def_thermal_zone : Parser unit :=
  discard_result (p_then (ext_opcode EXT_DEF_THERMAL_ZONE_OP) (comment_scope VbScopes
    (in_scope
       (map_with_context (p_then pkg_length name_string) (fun '(pkg_length, name) => ctx (
          let! previous_scope := value_then_level name VThermalZone LThermalZone in
          se_ret (pkg_length, previous_scope))))))).

Definition def_mutex : Parser unit :=
  discard_result (p_then (ext_opcode EXT_DEF_MUTEX_OP) (comment_scope VbScopes
    (map_with_context (p_then name_string p_take)
       (fun '(name, sync_level) => ctx (add_at_current_scope name (VMutex sync_level)))))).

Definition namespace_modifier : Parser unit := choice [def_name; def_scope].

Definition named_obj : Parser unit :=
  comment_scope VbAllScopes
    (choice [def_create_bit_field; def_create_byte_field; def_create_word_field;
             def_create_dword_field; def_create_qword_field; def_create_field; def_op_region;
             def_field; def_method; def_external; def_device; def_processor; def_power_res;
             def_thermal_zone; def_mutex]).

Definition term_object : Parser (option AmlValue) :=
  comment_scope VbAllScopes
    (choice [p_map namespace_modifier (fun _ => Ok None);
             p_map named_obj (fun _ => Ok None);
             p_map statement_opcode (fun _ => Ok None);
             p_map expression_opcode (fun value => Ok (Some value))]).

(** * Data *)

Definition AML_INTERPRETER_REVISION : Z := 0.

(** [input.iter().position(|&c| c == 0)] *)
Fixpoint nul_position (input : bytes) : option nat :=
  match input with
  | [] => None
  | b :: input => if bool_decide (b = x00) then Some O else S <$> nul_position input
  end.

Definition string_parser : Parser AmlValue := fun '(input, c) =>
  match nul_position input with
  | None => SErr (PErr UnterminatedStringConstant) (input, c)
  | Some nul_position =>
      let string := take nul_position input in
      if utf8_valid string then SOk (VString string) (drop (nul_position + 1) input, c)
      else SErr (PErr InvalidStringConstant) (input, c)
  end.

Definition const_parser : Parser AmlValue := fun '(input, c) =>
  (let! op := p_take in
   if bool_decide (op = BYTE_CONST) then p_map p_take (fun value => Ok (VInteger (u8 value)))
   else if bool_decide (op = WORD_CONST) then p_map take_u16 (fun value => Ok (VInteger value))
   else if bool_decide (op = DWORD_CONST) then p_map take_u32 (fun value => Ok (VInteger value))
   else if bool_decide (op = QWORD_CONST) then p_map take_u64 (fun value => Ok (VInteger value))
   else if bool_decide (op = STRING_PREFIX) then string_parser
   else if bool_decide (op = ZERO_OP) then se_ret value_zero
   else if bool_decide (op = ONE_OP) then se_ret value_one
   else if bool_decide (op = ONES_OP) then se_ret value_ones
   else err_at input (PErr WrongParser)) (input, c).

Definition computational_data : Parser AmlValue :=
  comment_scope VbAllScopes
    (choice [p_map (ext_opcode EXT_REVISION_OP) (fun _ => Ok (VInteger AML_INTERPRETER_REVISION));
             const_parser; def_buffer]).

Definition data_object : Parser AmlValue :=
  comment_scope VbAllScopes (choice [def_package; computational_data]).

Definition data_ref_object : Parser AmlValue :=
  comment_scope VbAllScopes (choice [data_object]).

Definition term_arg : Parser AmlValue :=
  comment_scope VbAllScopes
    (choice [data_object;
             map_with_context arg_obj (fun arg_num => ctx (current_arg arg_num));
             map_with_context local_obj (fun local_num => ctx (local local_num));
             expression_opcode]).
End TermObject.
