(* ===== verification/Interp.v ===== *)
(** The interpreter ([aml/src/lib.rs]): the recursion of the parsers, the
    invocation of methods, the parsing of tables, the initialization of devices
    and the objects that are defined by every context. *)
From S2P Require Import Prelude Types Names Namespace Env RustStd Context Value Parser.
From S2P Require Import PkgLength Opcode NameObject Grammar Expression Statement TermObject.
#[local] Open Scope Z_scope.

Section Interp.
Context {env : AmlEnv} {natives : UserNatives}.
Abbreviation M := (SE AmlContext AmlError).

(** * Native methods *)

(** The strings to which [\_OSI] answers yes. *)
Definition osi_supported : list bytes :=
  [bstr "Windows 2000"; bstr "Windows 2001"; bstr "Windows 2001 SP1";
   bstr "Windows 2001 SP2"; bstr "Windows 2001.1"; bstr "Windows 2001.1 SP1";
   bstr "Windows 2006"; bstr "Windows 2006 SP1"; bstr "Windows 2006 SP2";
   bstr "Windows 2006.1"; bstr "Windows 2009"; bstr "Windows 2012"; bstr "Windows 2013";
   bstr "Windows 2015"; bstr "Windows 2016"; bstr "Windows 2017"; bstr "Windows 2017.2";
   bstr "Windows 2018"; bstr "Windows 2018.2"; bstr "Windows 2019"; bstr "Darwin";
   bstr "Extended Address Space Descriptor"; bstr "3.0 Thermal Model";
   bstr "3.0 _SCP Extensions"].

(** The closure of [\_OSI]. *)
Definition osi_method (fuel : nat) : M AmlValue :=
  let! arg := current_arg 0 in
  let! s := as_string fuel arg in
  se_ret (if bool_decide (s ∈ osi_supported) then value_ones else value_zero).

Definition run_native (fuel : nat) (m : NativeMethod) : M AmlValue :=
  match m with
  | OsiMethod => osi_method fuel
  | UserMethod n => user_native n
  end.

(** * Methods *)

(** What the run of the body of a method gives. *)
Definition method_result (m : SE AmlContext Propagate unit) : M AmlValue := fun c =>
  match m c with
  | SOk _ c => SOk (VInteger 0) c
  | SErr (PReturn result) c => SOk result c
  | SErr PBreak c => SErr BreakInInvalidPosition c
  | SErr PContinue c => SErr ContinueInInvalidPosition c
  | SErr (PErr e) c => SErr e c
  | SFail r => SFail r
  end.

Definition run_code {g : Grammar} (code : MethodCode) : M AmlValue :=
  match code with
  | Aml code => method_result (run_term_list code)
  | Native m => run_native g_fuel m
  end.

(** [AmlContext::invoke_method] *)
Definition invoke_method {g : Grammar} (path : AmlName) (args : Args) : M AmlValue :=
  let! value := in_namespace (fun ns => get_by_path ns path) in
  match value with
  | VMethod _ code =>
      let! old_context := se_gets method_context in
      do! se_modify (set_method_context (Some (new_method_context args))) in
      let! old_scope := se_gets current_scope in
      do! se_modify (set_current_scope path) in
      do! on_namespace (add_level path LMethodLocals) in
      let! return_value := se_try (run_code code) in
      do! on_namespace (remove_level path) in
      do! se_modify (set_method_context old_context) in
      do! se_modify (set_current_scope old_scope) in
      se_lift return_value
  | value => se_ret value
  end.

(** * The recursion of the grammar *)

Definition no_grammar : Grammar := {|
  g_fuel := 0;
  g_term_arg := se_fail OutOfFuel;
  g_data_ref_object := se_fail OutOfFuel;
  g_term_object := se_fail OutOfFuel;
  g_invoke_method _ _ := se_fail OutOfFuel |}.

Definition grammar_step (g : Grammar) : Grammar := {|
  g_fuel := S (@g_fuel env g);
  g_term_arg := @term_arg env g;
  g_data_ref_object := @data_ref_object env g;
  g_term_object := @term_object env g;
  g_invoke_method := @invoke_method g |}.

(** The parsers in which calls nest to a depth of at most [fuel]. *)
Fixpoint grammar (fuel : nat) : Grammar :=
  match fuel with
  | O => no_grammar
  | S fuel => grammar_step (grammar fuel)
  end.

(** [AmlContext::parse_table] *)
Definition parse_table (fuel : nat) (stream : bytes) : M unit :=
  match stream with
  | [] => se_err UnexpectedEndOfStream
  | _ => fun c =>
      match @run_term_list env (grammar fuel) stream c with
      | SOk _ c => SOk tt c
      | SErr (PErr e) c => SErr e c
      | SErr _ c => SErr MalformedStream c
      | SFail r => SFail r
      end
  end.

(** * [AmlContext::initialize_objects] *)

Definition invoke (fuel : nat) : AmlName -> Args -> M AmlValue := @invoke_method (grammar fuel).

(** [level.values.contains_key(&NameSeg::from_str(name).unwrap())] *)
Definition has_value (level : NamespaceLevel) (name : bytes) : M bool :=
  let! seg := se_lift (unwrap_ok (seg_from_str name)) in
  se_ret (match bt_get seg (values level) with Some _ => true | None => false end).

(** Invoking a method of a device without arguments. *)
Definition invoke_device_method (fuel : nat) (name : bytes) (path : AmlName) : M AmlValue :=
  let! name := se_lift (name_lit name) in
  let! name := se_lift (resolve name path) in
  invoke fuel name args_empty.

(** The closure given to [traverse]. *)
Definition initialize_level (fuel : nat) (path : AmlName) (level : NamespaceLevel) : M bool :=
  match level_typ level with
  | LDevice =>
      let! has_sta := has_value level (bstr "_STA") in
      let! status :=
        if has_sta : bool then
          let! sta := invoke_device_method fuel (bstr "_STA") path in se_lift (as_status sta)
        else se_ret default_status in
      let! has_ini := has_value level (bstr "_INI") in
      do! (if present status && has_ini then
             let! _ := invoke_device_method fuel (bstr "_INI") path in se_ret tt
           else se_ret tt) in
      se_ret (present status || functional status)
  | LScope => se_ret true
  | LProcessor => se_ret false
  | LPowerResource => se_ret false
  | LThermalZone => se_ret false
  | LMethodLocals => se_ret false
  end.

Definition initialize_objects (fuel : nat) : M unit :=
  let! sb_ini := se_lift (name_lit (bstr "\_SB._INI")) in
  let! result := se_try (invoke fuel sb_ini args_empty) in
  do! match result with
      | Ok _ => se_ret tt
      | Err (ValueDoesNotExist _) => se_ret tt
      | Err e => se_err e
      | Fail r => se_fail r
      end in
  let! ns := se_gets namespace in
  traverse (initialize_level fuel) ns.

(** * Predefined objects *)

(** [m.unwrap()] *)
Definition unwrap_se {A} (m : M A) : M A := fun c =>
  match m c with
  | SErr _ _ => SFail Panic
  | r => r
  end.

Definition add_predefined_level (name : bytes) : M unit :=
  let! name := se_lift (name_lit name) in
  unwrap_se (on_namespace (add_level name LScope)).

Definition add_predefined_value (name : bytes) (value : result AmlError AmlValue) : M unit :=
  let! name := se_lift (name_lit name) in
  let! value := se_lift value in
  do! unwrap_se (on_namespace (add_value name value)) in
  se_ret tt.

(** [AmlContext::add_predefined_objects] *)
Definition add_predefined_objects : M unit :=
  do! add_predefined_level (bstr "\_GPE") in
  do! add_predefined_level (bstr "\_SB") in
  do! add_predefined_level (bstr "\_SI") in
  do! add_predefined_level (bstr "\_PR") in
  do! add_predefined_level (bstr "\_TZ") in
  do! add_predefined_value (bstr "\_OS") (Ok (VString (bstr "Microsoft Windows NT"))) in
  do! add_predefined_value (bstr "\_OSI") (native_method 1 false 0 OsiMethod) in
  add_predefined_value (bstr "\_REV") (Ok (VInteger 2)).

(** [AmlContext::new] *)
Definition new_context (h : hw) (verbosity : DebugVerbosity) : result AmlError AmlContext :=
  match add_predefined_objects
          (MkContext _ h new_namespace None root 0 verbosity [] []) with
  | SOk _ c => Ok c
  | SErr e _ => Err e
  | SFail r => Fail r
  end.
End Interp.
