(* ===== verification/Sample.v ===== *)
(** A concrete context and a small table, on which the theorems about the
    interpreter are instantiated. *)
From S2P Require Import Prelude Types Names Namespace Env RustStd Context Value Parser.
From S2P Require Import PkgLength Opcode NameObject Grammar Expression Statement TermObject.
From S2P Require Import Interp.
#[local] Open Scope Z_scope.

(** No native methods but [\_OSI]. *)
Definition sample_natives : @UserNatives env_debug := {| user_native _ := se_err WrongParser |}.

(** The context of [AmlContext::new], over an empty memory. *)
Definition sample_context : @AmlContext env_debug :=
  match @new_context env_debug ∅ VbNone with
  | Ok c => c
  | _ => MkContext env_debug ∅ new_namespace None root 0 VbNone [] []
  end.

(** [Name(FOO_, 5)  Method(BAR_, 1) { Return(Add(Arg0, 2)) }  Store(BAR_(40), FOO_)] *)
Definition sample_table : bytes :=
  [x08; x46; x4f; x4f; x5f; x0a; x05;
   x14; x0c; x42; x41; x52; x5f; x01; xa4; x72; x68; x0a; x02; x00;
   x70; x42; x41; x52; x5f; x0a; x28; x46; x4f; x4f; x5f].

Definition sample_foo : AmlName := [Root; Segment (MkSeg x46 x4f x4f x5f)].

Definition sample_run (fuel : nat) : option AmlValue :=
  match @parse_table env_debug sample_natives fuel sample_table sample_context with
  | SOk _ c => match get_by_path (namespace c) sample_foo with Ok v => Some v | _ => None end
  | _ => None
  end.

Example sample_run_42 : sample_run 20 = Some (VInteger 42).
Proof. vm_compute. reflexivity. Qed.

(** The context is a new one. *)
Lemma sample_context_new : @new_context env_debug ∅ VbNone = Ok sample_context.
Proof.
  assert (match @new_context env_debug ∅ VbNone with Ok _ => true | _ => false end = true) as H
    by (vm_compute; reflexivity).
  unfold sample_context. destruct (new_context ∅ VbNone); done.
Qed.

(** The run of the table ends. *)
Lemma sample_run_ends :
  @parse_table env_debug sample_natives 20 sample_table sample_context <> SFail OutOfFuel.
Proof.
  assert (forall r : sres (@AmlContext env_debug) AmlError unit,
    match r with SFail OutOfFuel => false | _ => true end = true -> r <> SFail OutOfFuel) as H
    by (intros r Hr ->; done).
  apply H. vm_compute. reflexivity.
Qed.

(** [If (One) { Noop }] at the end of a table is refused, although it is complete: the
    parser of the branch for [Else] takes the end of the input for an error. With a
    statement behind it the table is accepted. *)
Definition if_outcome (rest : bytes) : result AmlError unit :=
  match @parse_table env_debug sample_natives 20 ([xa0; x03; x01; xa3] ++ rest) sample_context with
  | SOk _ _ => Ok tt
  | SErr e _ => Err e
  | SFail r => Fail r
  end.

Example if_at_end_fails : if_outcome [] = Err UnexpectedEndOfStream /\ if_outcome [xa3] = Ok tt.
Proof. vm_compute. by split. Qed.
