(* ===== verification/TestUtils.v ===== *)
(** The scaffolding of the unit tests ([aml/src/test_utils.rs]) and of the fuzzer
    ([aml/fuzz/fuzz_targets/fuzz_target_1.rs]): their handlers, the checks on the outcome
    of a parser, and the comparison of values, with what it decides. *)
From S2P Require Import Prelude Types Names Namespace Env RustStd Context Value Parser Interp.
#[local] Open Scope Z_scope.

(** * Handlers *)

(** The handler that implements nothing. Its state is that of a unit struct. *)
Definition TestHandler : Handler := {|
  hw := unit;
  h_read _ _ _ := None;
  h_write _ _ _ _ := None;
  h_read_io _ _ _ := None;
  h_write_io _ _ _ _ := None;
  h_read_pci _ _ _ _ _ _ _ := None;
  h_write_pci _ _ _ _ _ _ _ _ := None;
  handle_fatal_error _ _ _ _ := None
|}.

(** The handler of the fuzzer: everything reads as zero. *)
Definition fuzz_handler : Handler := {|
  hw := unit;
  h_read _ _ h := Some (0, h);
  h_write _ _ _ h := Some h;
  h_read_io _ _ h := Some (0, h);
  h_write_io _ _ _ h := Some h;
  h_read_pci _ _ _ _ _ _ h := Some (0, h);
  h_write_pci _ _ _ _ _ _ _ h := Some h;
  handle_fatal_error _ _ _ _ := None
|}.

(** An environment with another handler. *)
Definition with_handler (env : AmlEnv) (handler : Handler) : AmlEnv := {|
  env_target := env_target; env_bitfield := env_bitfield; env_byteorder := env_byteorder;
  env_bitvec := env_bitvec; env_handler := handler
|}.

Definition make_test_context {env : AmlEnv} : result AmlError (@AmlContext (with_handler env TestHandler)) :=
  @new_context (with_handler env TestHandler) tt VbNone.

Section TestUtils.
Context {env : AmlEnv}.
Abbreviation M := (SE AmlContext AmlError).

(** * Comparing values *)

(** The loop over two packages, [a.iter().zip(b)]. *)
Definition cmp_zip (cmp : AmlValue -> AmlValue -> M bool) : list AmlValue -> list AmlValue -> M bool :=
  fix loop xs ys :=
    match xs, ys with
    | x :: xs, y :: ys =>
        let! same := cmp x y in
        if same then loop xs ys else se_ret false
    | _, _ => se_ret true
    end.

(** The locks of both buffers are held while their contents are compared. *)
Fixpoint crudely_cmp_values (a b : AmlValue) : M bool :=
  match a with
  | VBoolean a => match b with VBoolean b => se_ret (Bool.eqb a b) | _ => se_ret false end
  | VInteger a => match b with VInteger b => se_ret (a =? b) | _ => se_ret false end
  | VString a => match b with VString b => se_ret (bool_decide (a = b)) | _ => se_ret false end
  | VOpRegion region offset length parent_device =>
      match b with
      | VOpRegion b_region b_offset b_length b_parent_device =>
          se_ret (bool_decide (region = b_region) && (offset =? b_offset) && (length =? b_length) &&
                  bool_decide (parent_device = b_parent_device))
      | _ => se_ret false
      end
  | VField region flags offset length =>
      match b with
      | VField b_region b_flags b_offset b_length =>
          se_ret ((region =? b_region) && bool_decide (flags = b_flags) && (offset =? b_offset) &&
                  (length =? b_length))
      | _ => se_ret false
      end
  | VDevice => match b with VDevice => se_ret true | _ => se_ret false end
  | VMethod flags code =>
      match b with
      | VMethod b_flags b_code =>
          if negb (bool_decide (flags = b_flags)) then se_ret false
          else
            match code, b_code with
            | Aml a, Aml b => se_ret (bool_decide (a = b))
            | Aml _, Native _ => se_ret false
            | Native _, Aml _ => se_ret false
            | Native _, Native _ => se_fail Panic
            end
      | _ => se_ret false
      end
  | VBuffer a =>
      match b with
      | VBuffer b => with_lock a (fun x => with_lock b (fun y => se_ret (bool_decide (x = y))))
      | _ => se_ret false
      end
  | VBufferField buffer_data offset length =>
      match b with
      | VBufferField b_buffer_data b_offset b_length =>
          se_ret ((buffer_data =? b_buffer_data)%nat && (offset =? b_offset) && (length =? b_length))
      | _ => se_ret false
      end
  | VProcessor id pblk_address pblk_len =>
      match b with
      | VProcessor b_id b_pblk_address b_pblk_len =>
          se_ret (bool_decide (id = b_id) && (pblk_address =? b_pblk_address) && bool_decide (pblk_len = b_pblk_len))
      | _ => se_ret false
      end
  | VMutex sync_level =>
      match b with VMutex b_sync_level => se_ret (bool_decide (sync_level = b_sync_level)) | _ => se_ret false end
  | VPackage a =>
      match b with VPackage b => cmp_zip crudely_cmp_values a b | _ => se_ret false end
  | VPowerResource system_level resource_order =>
      match b with
      | VPowerResource b_system_level b_resource_order =>
          se_ret (bool_decide (system_level = b_system_level) && (resource_order =? b_resource_order))
      | _ => se_ret false
      end
  | VThermalZone => match b with VThermalZone => se_ret true | _ => se_ret false end
  end.

(** * Checks *)

(** A test is a computation on its context; it fails by a panic. Each check runs a
    parser on a stream. *)
Definition check_err {A} (p : Parser A) (stream : bytes) (error : AmlError) (remains : bytes) : M unit := fun c =>
  match p (stream, c) with
  | SOk _ _ => SFail Panic
  | SErr (PErr e) (rest, c) =>
      if bool_decide (e = error) && bool_decide (rest = remains) then SOk tt c else SFail Panic
  | SErr _ _ => SFail Panic
  | SFail r => SFail r
  end.

Definition check_ok {A} `{EqDecision A} (p : Parser A) (stream : bytes) (expected : A) (remains : bytes) : M unit :=
  fun c =>
  match p (stream, c) with
  | SOk r (rest, c) =>
      if bool_decide (rest = remains) && bool_decide (r = expected) then SOk tt c else SFail Panic
  | SErr _ _ => SFail Panic
  | SFail r => SFail r
  end.

Definition check_ok_value (p : Parser AmlValue) (stream : bytes) (expected : AmlValue) (remains : bytes) : M unit :=
  fun c =>
  match p (stream, c) with
  | SOk v (rest, c) =>
      (let! correct := if bool_decide (rest = remains) then crudely_cmp_values v expected else se_ret false in
       if correct then se_ret tt
       else let! _ := crudely_cmp_values v expected in se_fail Panic) c
  | SErr _ _ => SFail Panic
  | SFail r => SFail r
  end.

(** * What the comparison decides *)

(** Values that do not hold other values, buffers or closures. *)
Definition plain (v : AmlValue) : bool :=
  match v with VPackage _ | VBuffer _ | VMethod _ (Native _) => false | _ => true end.

(** Equal values; different buffers with the same contents; packages one of which
    continues the other, up to such values. *)
Inductive alike (store : list bytes) : AmlValue -> AmlValue -> Prop :=
  | alike_plain v : plain v = true -> alike store v v
  | alike_buffer l l' data :
      l <> l' -> store !! l = Some data -> store !! l' = Some data -> alike store (VBuffer l) (VBuffer l')
  | alike_package vs ws vs' ws' :
      Forall2 (alike store) vs ws -> vs' = [] \/ ws' = [] ->
      alike store (VPackage (vs ++ vs')) (VPackage (ws ++ ws')).

(** Evaluates the comparison of values of different kinds. *)
Ltac mismatch H :=
  cbn [crudely_cmp_values] in H; try case_bool_decide; unfold se_ret, se_fail in H; cbn in H; congruence.

(** The comparison of two buffers, when no lock is held. *)
Lemma cmp_buffers l l' c : locked c = [] ->
  crudely_cmp_values (VBuffer l) (VBuffer l') c =
  match buffers c !! l with
  | Some x =>
      if bool_decide (l = l') then SFail Deadlock
      else match buffers c !! l' with
           | Some y => SOk (bool_decide (x = y)) c
           | None => SFail UB
           end
  | None => SFail UB
  end.
Proof.
  intros Hl. cbn [crudely_cmp_values]. unfold with_lock, load_buffer. rewrite Hl.
  rewrite bool_decide_eq_false_2 by set_solver. destruct (buffers c !! l) as [x|] eqn:E; [|done].
  cbn. destruct (decide (l = l')) as [->|Hne].
  - rewrite bool_decide_eq_true_2 by set_solver. by rewrite bool_decide_eq_true_2.
  - rewrite bool_decide_eq_false_2 by set_solver. rewrite bool_decide_eq_false_2 by done.
    destruct (buffers c !! l') as [y|]; [|done]. destruct c. cbn in *. by subst.
Qed.

(** Leaves are compared by equality, and a comparison leaves the context alone. *)
Lemma cmp_leaf a b c : plain a = true ->
  crudely_cmp_values a b c = SOk true c /\ a = b \/ crudely_cmp_values a b c = SOk false c /\ a <> b.
Proof.
  intros Ha. destruct a as [| | | | | |flags [code|]| | | | | | |]; try discriminate;
    destruct b as [| | | | | |b_flags [b_code|]| | | | | | |]; cbn [crudely_cmp_values];
    repeat match goal with
    | |- context [bool_decide ?P] => destruct (bool_decide_reflect P)
    | |- context [Bool.eqb ?x ?y] => destruct (Bool.eqb_spec x y)
    | |- context [(?x =? ?y)%nat] => destruct (Nat.eqb_spec x y)
    | |- context [?x =? ?y] => destruct (Z.eqb_spec x y)
    end; cbn; try (left; split; [done|congruence]); right; (split; [done|congruence]).
Qed.

Lemma cmp_keeps a b c r c' : locked c = [] -> crudely_cmp_values a b c = SOk r c' -> c' = c.
Proof.
  intros Hl. revert b r c'. induction a as [v Hv|vs IH] using AmlValue_nested_ind; intros b r c' H.
  - destruct (plain v) eqn:Hp; [destruct (cmp_leaf v b c Hp) as [[E _]|[E _]]; congruence|].
    destruct v as [| | | | | |flags []|l| | | |vs| |]; try discriminate.
    + destruct b as [| | | | | |b_flags []|l'| | | |vs| |]; mismatch H.
    + destruct b as [| | | | | | |l'| | | | | |]; try mismatch H.
      rewrite cmp_buffers in H by done. by repeat case_match; congruence.
    + by edestruct Hv.
  - destruct b as [| | | | | | | | | | |ws| |]; try mismatch H.
    cbn [crudely_cmp_values] in H. revert ws H.
    induction IH as [|v vs Hv _ IH]; intros ws H; [destruct ws; by injection H|].
    destruct ws as [|w ws]; [by injection H|]. cbn [cmp_zip] in H. unfold se_bind in H.
    destruct (crudely_cmp_values v w c) as [[] c1| |] eqn:E; try discriminate.
    + apply Hv in E as ->. by apply (IH ws).
    + injection H as _ <-. by eapply Hv.
Qed.

Lemma zip_alike vs c : locked c = [] ->
  Forall (fun v => forall w, crudely_cmp_values v w c = SOk true c <-> alike (buffers c) v w) vs ->
  forall ws, cmp_zip crudely_cmp_values vs ws c = SOk true c <->
    alike (buffers c) (VPackage vs) (VPackage ws).
Proof.
  intros Hl Hvs. induction Hvs as [|v vs Hv _ IH]; intros ws.
  - split; [|by destruct ws]. intros _. apply (alike_package _ [] [] [] ws); [constructor|by left].
  - destruct ws as [|w ws].
    { split; [|done]. intros _. apply (alike_package _ [] [] (v :: vs) []); [constructor|by right]. }
    cbn [cmp_zip]. unfold se_bind at 1. split.
    + destruct (crudely_cmp_values v w c) as [[] c1| |] eqn:E; try discriminate.
      pose proof (cmp_keeps _ _ _ _ _ Hl E) as ->. intros H%IH. apply Hv in E.
      inversion H as [? Hp|?|vs1 ws1 vs2 ws2 Hall Hend]; subst; [discriminate|].
      exact (alike_package _ (v :: vs1) (w :: ws1) vs2 ws2 ltac:(by constructor) Hend).
    + intros H. inversion H as [? Hp|?|vs1 ws1 vs2 ws2 Hall Hend E1 E2]; [discriminate|].
      destruct Hall as [|v1 w1 vs1 ws1 Hvw Hall]; [by destruct Hend; subst|].
      cbn in E1, E2. injection E1 as <- <-. injection E2 as <- <-.
      rewrite (proj2 (Hv _) Hvw). apply IH. by constructor.
Qed.

(** C26: Comparing values in tests: when no lock is held, [crudely_cmp_values] answers that
    two values are the same exactly if they are alike - equal, buffers of their own with
    equal contents, or packages that agree as far as the shorter one goes, which are not
    told apart - and it leaves the context as it was. *)
Theorem crudely_cmp_spec (a b : AmlValue) (c : AmlContext) : locked c = [] ->
  (crudely_cmp_values a b c = SOk true c <-> alike (buffers c) a b) /\
  forall r c', crudely_cmp_values a b c = SOk r c' -> c' = c.
Proof.
  intros Hl. split; [|by intros r c'; apply cmp_keeps].
  revert b. induction a as [v Hv|vs IH] using AmlValue_nested_ind; intros b.
  - destruct (plain v) eqn:Hp.
    + destruct (cmp_leaf v b c Hp) as [[E <-]|[E Hne]]; rewrite E; (split; [intros H|intros H]); try done.
      * by constructor.
      * inversion H; subst; done.
    + destruct v as [| | | | | |flags []|l| | | |vs| |]; try discriminate; [| |by edestruct Hv].
      * split; intros H; [|inversion H; subst; discriminate].
        destruct b as [| | | | | |b_flags []|l'| | | |vs| |]; mismatch H.
      * destruct b as [| | | | | | |l'| | | | | |]; try (split; intros H; [discriminate H|inversion H; discriminate]).
        rewrite cmp_buffers by done. split.
        -- destruct (buffers c !! l) as [x|] eqn:E1; [|done]. case_bool_decide as Hne; [done|].
           destruct (buffers c !! l') as [y|] eqn:E2; [|done]. case_bool_decide; [|done]. subst y.
           intros _. by apply (alike_buffer _ l l' x).
        -- intros H. inversion H as [? Hp'|? ? data Hne E1 E2|]; subst; [discriminate|].
           rewrite E1, E2. rewrite bool_decide_eq_false_2 by done. by rewrite bool_decide_eq_true_2.
  - destruct b as [| | | | | | | | | | |ws| |]; try (split; intros H; [discriminate H|inversion H; discriminate]).
    by apply zip_alike.
Qed.
End TestUtils.

(** The fuzz target: a table in a new context, whatever comes of it. *)
Definition fuzz_target {env : AmlEnv} {natives : @UserNatives (with_handler env fuzz_handler)} (fuel : nat)
    (data : bytes) : sres (@AmlContext (with_handler env fuzz_handler)) AmlError unit :=
  match @new_context (with_handler env fuzz_handler) tt VbNone with
  | Ok c => @parse_table (with_handler env fuzz_handler) natives fuel data c
  | Err _ => SFail Panic
  | Fail r => SFail r
  end.

(** A package and a longer one that continues it are not told apart; a buffer is never
    compared with itself. *)
Definition cmp_context : @AmlContext env_debug :=
  MkContext env_debug ∅ new_namespace None root 0 VbNone [[x01]; [x01]] [].

Lemma crudely_cmp_spec_witness :
  @crudely_cmp_values env_debug (VPackage [VBuffer 0]) (VPackage [VBuffer 1; VInteger 2]) cmp_context =
  SOk true cmp_context.
Proof.
  apply (@crudely_cmp_spec env_debug (VPackage [VBuffer 0]) (VPackage [VBuffer 1; VInteger 2]) cmp_context eq_refl).
  apply (alike_package _ [VBuffer 0] [VBuffer 1] [] [VInteger 2]); [|left; reflexivity].
  constructor; [|constructor]. apply (alike_buffer _ 0 1 [x01]); [discriminate|reflexivity|reflexivity].
Defined.

Example cmp_buffer_with_itself :
  @crudely_cmp_values env_debug (VBuffer 0) (VBuffer 0) cmp_context = SFail Deadlock.
Proof. reflexivity. Qed.
