(* ===== verification/Program.v ===== *)
(** A small structured language of control methods, its AML encodings and its
    meaning: what the interpreter promises for the bodies of methods that compute
    with integers in their locals and arguments and in the objects of the namespace.
    [EvalCorrect.v], [ExecCorrect.v] and [Method.v] prove that the interpreter keeps
    the promise. *)
From S2P Require Import Prelude Types Names Namespace Env RustStd Context Value Parser.
From S2P Require Import PkgLength Opcode NameObject Flat Expression.
#[local] Open Scope Z_scope.

(** * Values and frames *)

Inductive num := NInt (z : Z) | NBool (b : bool).

#[export] Instance num_eq_dec : EqDecision num.
Proof. solve_decision. Defined.

Definition val (v : num) : AmlValue :=
  match v with NInt z => VInteger z | NBool b => VBoolean b end.

(** The numeric reading of a value: true is all ones. *)
Definition int (v : num) : Z :=
  match v with NInt z => z | NBool b => if b then 2 ^ 64 - 1 else 0 end.
Definition truth (v : num) : bool :=
  match v with NInt z => negb (z =? 0) | NBool b => b end.

(** What the names in the code of a method denote: objects of the namespace, by their
    handles, and methods, by their paths. *)
Class Bindings := {
  bindings : list (name_ref * AmlHandle);
  callees : list (name_ref * list NameSeg)
}.

Definition denoted {A} (r : name_ref) (l : list (name_ref * A)) : option A :=
  snd <$> find (fun kv => bool_decide (kv.1 = r)) l.

Definition binding {bound : Bindings} (r : name_ref) : option AmlHandle := denoted r bindings.

(** What the objects hold; an object that is not mentioned holds 0. *)
Abbreviation memory := (gmap AmlHandle num).
Definition recall (m : memory) (h : AmlHandle) : num := default (NInt 0) (m !! h).

(** The locals and the arguments of the executing method, and the memory. *)
Record frame := MkFrame {
  f_locals : list (option num);
  f_args : list (option num);
  f_memory : memory
}.

(** The frame of a call: no locals, and the arguments in the first slots. *)
Definition call_frame (actuals : list num) (m : memory) : frame :=
  MkFrame (replicate 8 None) (map Some actuals ++ replicate (7 - length actuals) None) m.

Inductive slot := SlotLocal (n : nat) | SlotArg (n : nat) | SlotName (r : name_ref).

Section Slots.
Context {bound : Bindings}.

Definition slot_valid (s : slot) : bool :=
  match s with
  | SlotLocal n => (n <? 8)%nat
  | SlotArg n => (n <? 7)%nat
  | SlotName r => ref_ok r && bool_decide (is_Some (binding r))
  end.

(** A slot beyond the frame does not occur in frames of eight locals and seven
    arguments; the arrays of the source would panic. *)
Definition slot_get (s : slot) : SE frame AmlError num := fun f =>
  match s with
  | SlotLocal n =>
      match f_locals f !! n with
      | Some (Some v) => SOk v f
      | Some None => SErr (InvalidLocalAccess (Z.of_nat n)) f
      | None => SFail Panic
      end
  | SlotArg n =>
      match f_args f !! n with
      | Some (Some v) => SOk v f
      | Some None => SErr (InvalidArgAccess (Z.of_nat n)) f
      | None => SFail Panic
      end
  | SlotName r =>
      match binding r with
      | Some h => SOk (recall (f_memory f) h) f
      | None => SFail Panic
      end
  end.

Definition slot_put (s : slot) (v : num) : SE frame AmlError unit := fun f =>
  match s with
  | SlotLocal n =>
      match f_locals f !! n with
      | Some _ => SOk tt (MkFrame (<[n := Some v]> (f_locals f)) (f_args f) (f_memory f))
      | None => SFail Panic
      end
  | SlotArg n =>
      match f_args f !! n with
      | Some _ => SOk tt (MkFrame (f_locals f) (<[n := Some v]> (f_args f)) (f_memory f))
      | None => SFail Panic
      end
  | SlotName r =>
      match binding r with
      | Some h => SOk tt (MkFrame (f_locals f) (f_args f) (<[h := v]> (f_memory f)))
      | None => SFail Panic
      end
  end.

Definition put_target (t : option slot) (v : num) : SE frame AmlError unit :=
  match t with Some s => slot_put s v | None => se_ret tt end.
End Slots.

(** * Expressions *)

Inductive arith := OpAdd | OpAnd | OpShl | OpShr.
Inductive order := OpEq | OpNe | OpLt | OpLe | OpGt | OpGe.

Inductive expr :=
  | EConst (z : Z)
  | ESlot (s : slot)
  | EArith (op : arith) (a b : expr) (target : option slot)
  | EIncrement (s : slot)
  | EDecrement (s : slot)
  | ECompare (op : order) (a b : expr)
  | EOr (a b : expr)
  | EStore (a : expr) (s : slot)
  | EToInteger (a : expr) (target : option slot)
  | ECall (r : name_ref) (args : list expr).

(** Arithmetic on 64 bits: sums wrap, shifts by 64 or more are refused. *)
Definition arith_op (op : arith) (x y : Z) : result AmlError Z :=
  match op with
  | OpAdd => Ok ((x + y) mod 2 ^ 64)
  | OpAnd => Ok (Z.land x y)
  | OpShl => if (0 <=? y) && (y <? 64) then Ok (Z.shiftl x y mod 2 ^ 64) else Err InvalidShiftLeft
  | OpShr => if (0 <=? y) && (y <? 64) then Ok (Z.shiftr x y) else Err InvalidShiftRight
  end.

(** The conversion that [DefToInteger] makes: it does not take truth values. *)
Definition to_int (x : num) : result AmlError Z :=
  match x with NInt z => Ok z | NBool _ => Err (IncompatibleValueConversion TInteger TInteger) end.

Definition order_op (op : order) (x y : Z) : bool :=
  match op with
  | OpEq => x =? y
  | OpNe => negb (x =? y)
  | OpLt => x <? y
  | OpLe => x <=? y
  | OpGt => y <? x
  | OpGe => y <=? x
  end.

(** * Statements *)

Inductive stmt :=
  | SExpr (e : expr)
  | SIf (e : expr) (then_ : list stmt) (else_ : option (list stmt))
  | SWhile (e : expr) (body : list stmt)
  | SReturn (e : expr)
  | SBreak
  | SContinue
  | SNoop.

(** How a list of statements ends. *)
Inductive outcome := Normal | Returned (v : num) | Broke | Continued | Failed (e : AmlError).

(** What a call of a method with that body gives. *)
Definition call_value (o : outcome) : result AmlError num :=
  match o with
  | Normal => Ok (NInt 0)
  | Returned v => Ok v
  | Broke => Err BreakInInvalidPosition
  | Continued => Err ContinueInInvalidPosition
  | Failed e => Err e
  end.

(** * Programs *)

(** A method: where it is, its code, the statements that the code encodes, what their
    names denote, and how many arguments it takes. *)
Record method := MkMethod {
  m_path : list NameSeg;
  m_flags : MethodFlags;
  m_arity : nat;
  m_code : bytes;
  m_body : list stmt;
  m_bound : Bindings
}.

(** The methods of a program, and the objects that they work on. *)
Class Program := {
  p_handles : list AmlHandle;
  p_methods : list method
}.

(** The method that is executed, and the paths of all methods that are. *)
Class Executing := {
  current : method;
  active : list (list NameSeg)
}.
#[export] Instance current_bound {ex : Executing} : Bindings := m_bound current.

Definition method_at {prog : Program} (q : list NameSeg) : option method :=
  find (fun m => bool_decide (m_path m = q)) p_methods.
Definition callee {prog : Program} {bound : Bindings} (r : name_ref) : option method :=
  q ← denoted r callees; method_at q.

Definition set_memory (m : memory) (f : frame) : frame := MkFrame (f_locals f) (f_args f) m.

(** What a call of a method with some arguments gave, from a memory, and the memory that
    it left. *)
Record call_made := MkCallMade {
  k_path : list NameSeg;
  k_args : list num;
  k_before : memory;
  k_result : result AmlError num;
  k_after : memory
}.

Section Eval.
Context {tgt : Target} {prog : Program} {bound : Bindings} (ks : list call_made).

(** A call, as one of those that are known. *)
Definition perform (path : list NameSeg) (vs : list num) : SE frame AmlError num := fun f =>
  match find (fun k => bool_decide ((k_path k, k_args k, k_before k) = (path, vs, f_memory f))) ks with
  | Some k => se_lift (k_result k) (set_memory (k_after k) f)
  | None => SFail OutOfFuel
  end.

(** The value of an expression, the stores and the calls it makes. The operands of
    [DefAdd] wrap around, those of [DefIncrement] and [DefDecrement] only in a build that
    does not check arithmetic. *)
Fixpoint eval (e : expr) : SE frame AmlError num :=
  match e with
  | EConst z => se_ret (NInt z)
  | ESlot s => slot_get s
  | EArith op a b t =>
      let! x := eval a in
      let! y := eval b in
      let! z := se_lift (arith_op op (int x) (int y)) in
      do! put_target t (NInt z) in
      se_ret (NInt z)
  | EIncrement s =>
      let! x := slot_get s in
      let! z := se_lift (add_w 64 (int x) 1) in
      do! slot_put s (NInt z) in
      se_ret (NInt z)
  | EDecrement s =>
      let! x := slot_get s in
      let! z := se_lift (sub_w 64 (int x) 1) in
      do! slot_put s (NInt z) in
      se_ret (NInt z)
  | ECompare op a b =>
      let! x := eval a in
      let! y := eval b in
      se_ret (NBool (order_op op (int x) (int y)))
  | EOr a b =>
      let! x := eval a in
      let! y := eval b in
      se_ret (NBool (truth x || truth y))
  | EStore a s =>
      let! x := eval a in
      do! slot_put s x in
      se_ret x
  | EToInteger a t =>
      let! x := eval a in
      let! z := se_lift (to_int x) in
      do! put_target t (NInt z) in
      se_ret (NInt z)
  | ECall r args =>
      let! vs := se_map eval args in
      match callee r with
      | Some m => perform (m_path m) vs
      | None => se_fail Panic
      end
  end.
End Eval.

Section Exec.
Context {tgt : Target} {prog : Program}.

(** Big-step execution of statements and of lists of them. The calls that are made in
    the evaluation of an expression were executed before: a method that is called has a
    frame of its own, and the memory of its caller. *)
Inductive exec : Executing -> stmt -> frame -> outcome -> frame -> Prop :=
  | exec_expr ex ks e f v f' : performed ex ks -> eval ks e f = SOk v f' -> exec ex (SExpr e) f Normal f'
  | exec_expr_fails ex ks e f err f' : performed ex ks -> eval ks e f = SErr err f' ->
      exec ex (SExpr e) f (Failed err) f'
  | exec_if ex ks e s1 s2 f v f' o f'' : performed ex ks ->
      eval ks e f = SOk v f' ->
      exec_list ex (if truth v then s1 else default [] s2) f' o f'' ->
      exec ex (SIf e s1 s2) f o f''
  | exec_if_fails ex ks e s1 s2 f err f' : performed ex ks ->
      eval ks e f = SErr err f' -> exec ex (SIf e s1 s2) f (Failed err) f'
  | exec_while_end ex ks e body f v f' : performed ex ks ->
      eval ks e f = SOk v f' -> truth v = false -> exec ex (SWhile e body) f Normal f'
  | exec_while_fails ex ks e body f err f' : performed ex ks ->
      eval ks e f = SErr err f' -> exec ex (SWhile e body) f (Failed err) f'
  | exec_while_break ex ks e body f v f1 f2 : performed ex ks ->
      eval ks e f = SOk v f1 -> truth v = true ->
      exec_list ex body f1 Broke f2 -> exec ex (SWhile e body) f Normal f2
  | exec_while_stop ex ks e body f v f1 o f2 : performed ex ks ->
      eval ks e f = SOk v f1 -> truth v = true ->
      exec_list ex body f1 o f2 -> match o with Returned _ | Failed _ => True | _ => False end ->
      exec ex (SWhile e body) f o f2
  | exec_while_again ex ks e body f v f1 o f2 o' f3 : performed ex ks ->
      eval ks e f = SOk v f1 -> truth v = true ->
      exec_list ex body f1 o f2 -> o = Normal \/ o = Continued ->
      exec ex (SWhile e body) f2 o' f3 -> exec ex (SWhile e body) f o' f3
  | exec_return ex ks e f v f' : performed ex ks ->
      eval ks e f = SOk v f' -> exec ex (SReturn e) f (Returned v) f'
  | exec_return_fails ex ks e f err f' : performed ex ks ->
      eval ks e f = SErr err f' -> exec ex (SReturn e) f (Failed err) f'
  | exec_break ex f : exec ex SBreak f Broke f
  | exec_continue ex f : exec ex SContinue f Continued f
  | exec_noop ex f : exec ex SNoop f Normal f
with exec_list : Executing -> list stmt -> frame -> outcome -> frame -> Prop :=
  | exec_nil ex f : exec_list ex [] f Normal f
  | exec_cons ex s ss f f' o f'' :
      exec ex s f Normal f' -> exec_list ex ss f' o f'' -> exec_list ex (s :: ss) f o f''
  | exec_stop ex s ss f o f' :
      exec ex s f o f' -> o <> Normal -> exec_list ex (s :: ss) f o f'
with performed : Executing -> list call_made -> Prop :=
  | performed_nil ex : performed ex []
  | performed_cons ex m vs mem o f ks :
      method_at (m_path m) = Some m -> m_path m ∉ active -> (length vs <= 7)%nat ->
      exec_list {| current := m; active := m_path m :: active |} (m_body m) (call_frame vs mem) o f ->
      performed ex ks ->
      performed ex (MkCallMade (m_path m) vs mem (call_value o) (f_memory f) :: ks).
End Exec.

(** * Encodings *)

Definition slot_bytes (s : slot) : bytes :=
  match s with
  | SlotLocal n => [to_u8 (u8 LOCAL0_OP + Z.of_nat n)]
  | SlotArg n => [to_u8 (u8 ARG0_OP + Z.of_nat n)]
  | SlotName r => ref_bytes r
  end.

Definition target_bytes (t : option slot) : bytes :=
  match t with Some s => slot_bytes s | None => [NULL_NAME] end.

Definition arith_byte (op : arith) : byte :=
  match op with
  | OpAdd => DEF_ADD_OP
  | OpAnd => DEF_AND_OP
  | OpShl => DEF_SHIFT_LEFT
  | OpShr => DEF_SHIFT_RIGHT
  end.

Definition order_bytes (op : order) : bytes :=
  match op with
  | OpEq => [DEF_L_EQUAL_OP]
  | OpNe => [DEF_L_NOT_OP; DEF_L_EQUAL_OP]
  | OpLt => [DEF_L_LESS_OP]
  | OpLe => [DEF_L_NOT_OP; DEF_L_GREATER_OP]
  | OpGt => [DEF_L_GREATER_OP]
  | OpGe => [DEF_L_NOT_OP; DEF_L_LESS_OP]
  end.

(** The encodings of a constant. *)
Inductive enc_const : Z -> bytes -> Prop :=
  | enc_zero : enc_const 0 [ZERO_OP]
  | enc_one : enc_const 1 [ONE_OP]
  | enc_ones : enc_const (2 ^ 64 - 1) [ONES_OP]
  | enc_byte z : is_u8 z -> enc_const z (BYTE_CONST :: to_le_bytes 1 z)
  | enc_word z : is_u16 z -> enc_const z (WORD_CONST :: to_le_bytes 2 z)
  | enc_dword z : is_u32 z -> enc_const z (DWORD_CONST :: to_le_bytes 4 z)
  | enc_qword z : is_u64 z -> enc_const z (QWORD_CONST :: to_le_bytes 8 z).

Section Encodings.
Context {prog : Program} {bound : Bindings}.

Inductive enc_expr : expr -> bytes -> Prop :=
  | enc_EConst z bs : enc_const z bs -> enc_expr (EConst z) bs
  | enc_ESlot s : slot_valid s = true -> enc_expr (ESlot s) (slot_bytes s)
  | enc_EArith op a b t ba bb :
      enc_expr a ba -> enc_expr b bb ->
      match t with Some s => slot_valid s = true | None => True end ->
      enc_expr (EArith op a b t) (arith_byte op :: ba ++ bb ++ target_bytes t)
  | enc_EIncrement s : slot_valid s = true ->
      enc_expr (EIncrement s) (DEF_INCREMENT_OP :: slot_bytes s)
  | enc_EDecrement s : slot_valid s = true ->
      enc_expr (EDecrement s) (DEF_DECREMENT_OP :: slot_bytes s)
  | enc_ECompare op a b ba bb :
      enc_expr a ba -> enc_expr b bb ->
      enc_expr (ECompare op a b) (order_bytes op ++ ba ++ bb)
  | enc_EOr a b ba bb :
      enc_expr a ba -> enc_expr b bb ->
      enc_expr (EOr a b) (DEF_L_OR_OP :: ba ++ bb)
  | enc_EStore a s ba :
      enc_expr a ba -> slot_valid s = true ->
      enc_expr (EStore a s) (DEF_STORE_OP :: ba ++ slot_bytes s)
  | enc_EToInteger a t ba :
      enc_expr a ba -> match t with Some s => slot_valid s = true | None => True end ->
      enc_expr (EToInteger a t) (DEF_TO_INTEGER_OP :: ba ++ target_bytes t)
  | enc_ECall r args m bs :
      ref_ok r = true -> callee r = Some m -> length args = m_arity m -> (m_arity m <= 7)%nat ->
      enc_exprs args bs -> enc_expr (ECall r args) (ref_bytes r ++ bs)
with enc_exprs : list expr -> bytes -> Prop :=
  | enc_exprs_nil : enc_exprs [] []
  | enc_exprs_cons e es b bs : enc_expr e b -> enc_exprs es bs -> enc_exprs (e :: es) (b ++ bs).

(** A package: the encoding of its length in any size that holds it, and a body. *)
Inductive enc_package : bytes -> bytes -> Prop :=
  | enc_pkg k body :
      pkg_fits k (Z.of_nat (S k + length body)) = true ->
      enc_package body (pkg_bytes k (Z.of_nat (S k + length body)) ++ body).

(** Data and slots alone are not statements. *)
Definition is_operation (e : expr) : bool :=
  match e with EConst _ | ESlot _ => false | _ => true end.

(** The encodings of statements. A [DefIfElse] without a [DefElse] is told from one
    with it by what follows, and needs something to follow. *)
Inductive enc_stmt : stmt -> bytes -> Prop :=
  | enc_SExpr e bs : enc_expr e bs -> is_operation e = true -> enc_stmt (SExpr e) bs
  | enc_SIf e s1 be b1 bs :
      enc_expr e be -> enc_list s1 b1 -> enc_package (be ++ b1) bs ->
      enc_stmt (SIf e s1 None) (DEF_IF_ELSE_OP :: bs)
  | enc_SIfElse e s1 s2 be b1 b2 bs bs' :
      enc_expr e be -> enc_list s1 b1 -> enc_list s2 b2 ->
      enc_package (be ++ b1) bs -> enc_package b2 bs' ->
      enc_stmt (SIf e s1 (Some s2)) (DEF_IF_ELSE_OP :: bs ++ DEF_ELSE_OP :: bs')
  | enc_SWhile e s be b bs :
      enc_expr e be -> enc_list s b -> enc_package (be ++ b) bs ->
      enc_stmt (SWhile e s) (DEF_WHILE_OP :: bs)
  | enc_SReturn e be : enc_expr e be -> enc_stmt (SReturn e) (DEF_RETURN_OP :: be)
  | enc_SBreak : enc_stmt SBreak [DEF_BREAK_OP]
  | enc_SContinue : enc_stmt SContinue [DEF_CONTINUE_OP]
  | enc_SNoop : enc_stmt SNoop [DEF_NOOP_OP]
with enc_list : list stmt -> bytes -> Prop :=
  | enc_nil : enc_list [] []
  | enc_cons s ss b bs :
      enc_stmt s b -> enc_list ss bs ->
      match s with SIf _ _ None => bs <> [] | _ => True end ->
      enc_list (s :: ss) (b ++ bs).

End Encodings.

(** * A concrete program *)

(** The names of the methods, and of the object that they work on. *)
Definition foo : NameSeg := MkSeg x46 x4f x4f x5f.
Definition val_ : NameSeg := MkSeg x56 x41 x4c x5f.
Definition tick : NameSeg := MkSeg x54 x49 x43 x4b.
Definition tock : NameSeg := MkSeg x54 x4f x43 x4b.
Definition here (s : NameSeg) : name_ref := MkRef (Up 0) [s].

(** [Method(FOO_, 1) { Return(Add(Arg0, 2)) }] *)
Definition foo_body : bytes := [xa4; x72; x68; x0a; x02; x00].
Definition foo_stmts : list stmt := [SReturn (EArith OpAdd (ESlot (SlotArg 0)) (EConst 2) None)].

(** [Method(TICK, 1) { Add(Arg0, VAL_, VAL_)  Return(VAL_) }] *)
Definition tick_body : bytes :=
  [x72; x68; x56; x41; x4c; x5f; x56; x41; x4c; x5f; xa4; x56; x41; x4c; x5f].
Definition tick_add : expr :=
  EArith OpAdd (ESlot (SlotArg 0)) (ESlot (SlotName (here val_))) (Some (SlotName (here val_))).
Definition tick_stmts : list stmt := [SExpr tick_add; SReturn (ESlot (SlotName (here val_)))].

(** [Method(TOCK, 1) { TICK(Zero)  Return(Add(TICK(Arg0), TICK(One))) }] *)
Definition tock_body : bytes :=
  [x54; x49; x43; x4b; x00; xa4; x72; x54; x49; x43; x4b; x68; x54; x49; x43; x4b; x01; x00].
Definition tick_of (e : expr) : expr := ECall (here tick) [e].
Definition tock_sum : expr := EArith OpAdd (tick_of (ESlot (SlotArg 0))) (tick_of (EConst 1)) None.
Definition tock_stmts : list stmt := [SExpr (tick_of (EConst 0)); SReturn tock_sum].

(** The methods at a path [d], where [VAL_] is the object [h]. *)
Definition sample_flags : MethodFlags := MkMethodFlags x01.
Definition sample_bindings (d : list NameSeg) (h : AmlHandle) : Bindings :=
  {| bindings := [(here val_, h)]; callees := [(here tick, d ++ [tick])] |}.
Definition sample_method (d : list NameSeg) (h : AmlHandle) (s : NameSeg) (code : bytes) (ss : list stmt) : method :=
  MkMethod (d ++ [s]) sample_flags 1 code ss (sample_bindings d h).
Definition foo_method d h : method := sample_method d h foo foo_body foo_stmts.
Definition tick_method d h : method := sample_method d h tick tick_body tick_stmts.
Definition tock_method d h : method := sample_method d h tock tock_body tock_stmts.
Definition sample_program (d : list NameSeg) (h : AmlHandle) : Program :=
  {| p_handles := [h]; p_methods := [foo_method d h; tick_method d h; tock_method d h] |}.
Definition calling (m : method) : Executing := {| current := m; active := [m_path m] |}.

Lemma foo_enc {prog : Program} {bound : Bindings} : enc_list foo_stmts foo_body.
Proof.
  apply (enc_cons _ [] foo_body []); [|apply enc_nil|done]. apply enc_SReturn.
  apply (enc_EArith OpAdd _ _ None [x68] [x0a; x02]); [by apply (enc_ESlot (SlotArg 0))| |done].
  apply enc_EConst, (enc_byte 2). vm_compute. split; congruence.
Qed.

Section SampleEncodings.
Context (d : list NameSeg) (h : AmlHandle).
#[local] Instance sample_prog : Program := sample_program d h.
#[local] Instance sample_bound : Bindings := sample_bindings d h.

Lemma val_enc : enc_expr (ESlot (SlotName (here val_))) [x56; x41; x4c; x5f].
Proof. by apply (enc_ESlot (SlotName (here val_))). Qed.

Lemma tick_add_enc : enc_expr tick_add [x72; x68; x56; x41; x4c; x5f; x56; x41; x4c; x5f].
Proof.
  apply (enc_EArith OpAdd _ _ (Some (SlotName (here val_))) [x68] [x56; x41; x4c; x5f]);
    [by apply (enc_ESlot (SlotArg 0))|apply val_enc|done].
Qed.

Lemma tick_enc : enc_list tick_stmts tick_body.
Proof.
  apply (enc_cons _ [SReturn (ESlot (SlotName (here val_)))]
    [x72; x68; x56; x41; x4c; x5f; x56; x41; x4c; x5f] [xa4; x56; x41; x4c; x5f]); [| |done].
  - apply enc_SExpr; [apply tick_add_enc|done].
  - apply (enc_cons _ [] [xa4; x56; x41; x4c; x5f] []); [|apply enc_nil|done].
    apply enc_SReturn, val_enc.
Qed.

Lemma sample_method_at : method_at (d ++ [tick]) = Some (tick_method d h).
Proof.
  unfold method_at, sample_prog. cbn.
  rewrite bool_decide_false; [by rewrite bool_decide_true|].
  by intros [_ [=]]%app_inj_tail.
Qed.

Lemma sample_callee : callee (here tick) = Some (tick_method d h).
Proof. unfold callee, denoted. cbn. rewrite bool_decide_true by done. apply sample_method_at. Qed.

Lemma tick_of_enc e b : enc_expr e b -> enc_expr (tick_of e) ([x54; x49; x43; x4b] ++ b ++ []).
Proof.
  intros He. apply (enc_ECall (here tick) [e] (tick_method d h)); try done; [apply sample_callee|cbn; lia|].
  by apply enc_exprs_cons; [|constructor].
Qed.

Lemma tock_sum_enc : enc_expr tock_sum [x72; x54; x49; x43; x4b; x68; x54; x49; x43; x4b; x01; x00].
Proof.
  apply (enc_EArith OpAdd _ _ None [x54; x49; x43; x4b; x68] [x54; x49; x43; x4b; x01]); [..|done].
  - apply (tick_of_enc _ [x68]). by apply (enc_ESlot (SlotArg 0)).
  - apply (tick_of_enc _ [x01]), enc_EConst, enc_one.
Qed.

Lemma tock_enc : enc_list tock_stmts tock_body.
Proof.
  apply (enc_cons _ _ [x54; x49; x43; x4b; x00] [xa4; x72; x54; x49; x43; x4b; x68; x54; x49; x43; x4b; x01; x00]);
    [| |done].
  { apply enc_SExpr; [|done]. apply (tick_of_enc _ [x00]), enc_EConst, enc_zero. }
  apply (enc_cons _ [] [xa4; x72; x54; x49; x43; x4b; x68; x54; x49; x43; x4b; x01; x00] []);
    [|apply enc_nil|done].
  apply enc_SReturn, tock_sum_enc.
Qed.
End SampleEncodings.

Section SampleRuns.
Context (d : list NameSeg) (h : AmlHandle) (others : list (list NameSeg)).
#[local] Instance debug : Target := target_debug.
#[local] Instance sample_run_prog : Program := sample_program d h.
#[local] Instance running (m : method) : Executing :=
  {| current := m; active := m_path m :: others |}.

Lemma recall_singleton v : recall {[ h := v ]} h = v.
Proof. unfold recall. by rewrite lookup_singleton_eq. Qed.

Lemma foo_exec m :
  exec_list (running (foo_method d h)) foo_stmts (call_frame [NInt 40] m) (Returned (NInt 42))
    (call_frame [NInt 40] m).
Proof. apply exec_stop; [|done]. apply (exec_return _ []); [constructor|reflexivity]. Qed.

(** The sum of the argument and [VAL_] is stored and returned. *)
Lemma tick_exec x y : 0 <= x + y < 2 ^ 64 ->
  exec_list (running (tick_method d h)) tick_stmts (call_frame [NInt x] {[ h := NInt y ]})
    (Returned (NInt (x + y))) (call_frame [NInt x] {[ h := NInt (x + y) ]}).
Proof.
  intros Hz. set (ex := running _).
  assert (@binding (@current_bound ex) (here val_) = Some h) as E by reflexivity.
  eapply exec_cons; [apply (exec_expr _ [] _ _ (NInt (x + y)) (call_frame [NInt x] {[ h := NInt (x + y) ]}));
    [constructor|]|apply exec_stop; [apply (exec_return _ []); [constructor|]|done]].
  - cbn [eval tick_add]. unfold se_bind, se_ret, slot_get, put_target, slot_put. rewrite E.
    change (f_args (call_frame [NInt x] {[ h := NInt y ]}) !! 0%nat) with (Some (Some (NInt x))).
    cbn [f_memory call_frame]. rewrite recall_singleton. cbn -[insert Z.modulo Z.pow].
    by rewrite Z.mod_small, insert_singleton_eq.
  - cbn [eval]. unfold slot_get. rewrite E. cbn [f_memory call_frame]. by rewrite recall_singleton.
Qed.

Lemma sample_callee_run (m : method) : m_bound m = sample_bindings d h ->
  @callee sample_run_prog (@current_bound (running m)) (here tick) = Some (tick_method d h).
Proof. intros E. unfold current_bound. cbn. rewrite E. apply sample_callee. Qed.

Lemma tick_not_active m : m_path m = d ++ [tock] -> d ++ [tick] ∉ others ->
  m_path (tick_method d h) ∉ @active (running m).
Proof.
  intros Hm Ho. cbn [active running]. rewrite Hm. apply not_elem_of_cons. split; [|done].
  by intros [_ [=]]%app_inj_tail.
Qed.

(** The calls of [TICK] with the integers of a list, from memories that hold integers. *)
Definition ticked (xy : Z * Z) : call_made :=
  MkCallMade (d ++ [tick]) [NInt xy.1] {[ h := NInt xy.2 ]} (Ok (NInt (xy.1 + xy.2))) {[ h := NInt (xy.1 + xy.2) ]}.

Lemma perform_tick l x y f : (x, y) ∈ l -> f_memory f = {[ h := NInt y ]} ->
  perform (map ticked l) (d ++ [tick]) [NInt x] f = SOk (NInt (x + y)) (set_memory {[ h := NInt (x + y) ]} f).
Proof.
  intros Hin Hf. unfold perform. rewrite Hf.
  induction l as [|[x' y'] l IH]; [by apply not_elem_of_nil in Hin|]. cbn.
  apply elem_of_cons in Hin as [[= -> ->]|Hin]; [by rewrite bool_decide_true|]. specialize (IH Hin).
  case_bool_decide as E; [|exact IH]. pose proof (f_equal (fun k => k.1.2) E) as E1.
  apply (f_equal (fun k => k.2 !! h)) in E. cbn in E1. cbn [snd ticked k_before] in E. rewrite !lookup_singleton_eq in E.
  injection E1 as ->. by injection E as ->.
Qed.

Lemma tick_of_eval m l e x y f f' : m_bound m = sample_bindings d h ->
  @eval _ _ (@current_bound (running m)) (map ticked l) e f = SOk (NInt x) f' ->
  (x, y) ∈ l -> f_memory f' = {[ h := NInt y ]} ->
  @eval _ _ (@current_bound (running m)) (map ticked l) (tick_of e) f =
  SOk (NInt (x + y)) (set_memory {[ h := NInt (x + y) ]} f').
Proof.
  intros Hm He Hin Hf. cbn [eval tick_of se_map]. unfold se_bind. rewrite He. cbn [se_ret].
  rewrite (sample_callee_run m Hm). by apply perform_tick.
Qed.
End SampleRuns.

Lemma ticks_performed d h others l : d ++ [tick] ∉ others ->
  Forall (fun xy => 0 <= xy.1 + xy.2 < 2 ^ 64) l ->
  @performed target_debug (sample_program d h) (running others (tock_method d h)) (map (ticked d h) l).
Proof.
  intros Ho. induction 1 as [|[x y] l Hxy _ IH]; [apply performed_nil|].
  set (f' := call_frame [NInt x] {[ h := NInt (x + y) ]}).
  assert (ticked d h (x, y) = MkCallMade (m_path (tick_method d h)) [NInt x] {[ h := NInt y ]}
    (call_value (Returned (NInt (x + y)))) (f_memory f')) as E by reflexivity.
  cbn [map]. rewrite E. apply performed_cons.
  - apply sample_method_at.
  - by apply tick_not_active.
  - cbn. lia.
  - by apply tick_exec.
  - exact IH.
Qed.

(** A sum of two calls of [TICK]. *)
Lemma tock_sum_eval d h others l x y : 0 <= x -> 0 <= y -> 2 * (x + y) + 1 < 2 ^ 64 ->
  (x, y) ∈ l -> (1, x + y) ∈ l ->
  @eval target_debug (sample_program d h) (@current_bound (running others (tock_method d h))) (map (ticked d h) l) tock_sum
    (call_frame [NInt x] {[ h := NInt y ]}) =
  SOk (NInt (x + y + (1 + (x + y)))) (call_frame [NInt x] {[ h := NInt (1 + (x + y)) ]}).
Proof.
  intros Hx Hy Hz H1 H2. unfold tock_sum. cbn [eval]. unfold se_bind at 1.
  rewrite (tick_of_eval d h others (tock_method d h) l _ x y _ (call_frame [NInt x] {[ h := NInt y ]})) by done.
  unfold se_bind at 1.
  rewrite (tick_of_eval d h others (tock_method d h) l _ 1 (x + y) _
    (call_frame [NInt x] {[ h := NInt (x + y) ]})) by done.
  cbn -[insert Z.modulo Z.pow]. unfold se_bind, se_lift. by rewrite Z.mod_small by lia.
Qed.

(** The calls that [TOCK] makes. *)
Definition tock_calls (d : list NameSeg) (h : AmlHandle) (x y : Z) : list call_made :=
  map (ticked d h) [(0, y); (x, y); (1, x + y)].

Lemma tock_calls_performed d h others x y : 0 <= x -> 0 <= y -> 2 * (x + y) + 1 < 2 ^ 64 -> d ++ [tick] ∉ others ->
  @performed target_debug (sample_program d h) (running others (tock_method d h)) (tock_calls d h x y).
Proof. intros Hx Hy Hz Ho. apply ticks_performed; [done|]. repeat constructor; cbn; lia. Qed.

Lemma tock_exec d h others x y : 0 <= x -> 0 <= y -> 2 * (x + y) + 1 < 2 ^ 64 -> d ++ [tick] ∉ others ->
  @exec_list target_debug (sample_program d h) (running others (tock_method d h)) tock_stmts
    (call_frame [NInt x] {[ h := NInt y ]}) (Returned (NInt (x + y + (1 + (x + y)))))
    (call_frame [NInt x] {[ h := NInt (1 + (x + y)) ]}).
Proof.
  intros Hx Hy Hz Ho. pose proof (tock_calls_performed d h others x y Hx Hy Hz Ho) as Hl.
  eapply exec_cons; [apply (exec_expr _ (tock_calls d h x y) _ _ (NInt (0 + y)) (call_frame [NInt x] {[ h := NInt y ]}))
    |apply exec_stop; [apply (exec_return _ (tock_calls d h x y))|done]]; [done| |done|].
  - unfold tock_calls.
    by rewrite (tick_of_eval d h others (tock_method d h) _ _ 0 y _ (call_frame [NInt x] {[ h := NInt y ]}))
      by (done || left).
  - apply tock_sum_eval; [done..|right; left|right; right; left].
Qed.
