(* ===== verification/Declarations.v ===== *)
(** The objects that an AML table declares, as trees: their AML encodings, and what
    they mean for a namespace. The meaning is stated against an interface to the
    namespace, which the tree of levels and the flat maps both implement;
    [TableCorrect.v] proves that the interpreter gives tables this meaning. *)
From S2P Require Import Prelude Types Names Namespace Env RustStd Context Value Parser.
From S2P Require Import PkgLength Opcode NameObject Grammar Expression Statement TermObject.
From S2P Require Import Program Flat.
#[local] Open Scope Z_scope.

(** * Data and declarations *)

(** Data objects. A reference only occurs as an element of a package. *)
Inductive data :=
  | DInt (z : Z)
  | DString (s : bytes)
  | DRevision
  | DBuffer (size : Z) (contents : bytes)
  | DPackage (count : byte) (elements : list data)
  | DRef (r : name_ref).

(** The objects with a level of their own. *)
Inductive block :=
  | BScope
  | BDevice
  | BThermalZone
  | BProcessor (id : byte) (address : Z) (len : byte)
  | BPowerResource (system_level : byte) (resource_order : Z).

(** The elements of a list of fields, with their lengths in bits. *)
Inductive field_decl :=
  | FReserved (bits : Z)
  | FNamed (s : NameSeg) (bits : Z).

Inductive decl :=
  | DefName (r : name_ref) (d : data)
  | DefBlock (k : block) (r : name_ref) (body : list decl)
  | DefMethod (r : name_ref) (flags : byte) (code : bytes)
  | DefMutex (r : name_ref) (sync_level : byte)
  | DefExternal (r : name_ref) (type count : byte)
  | DefOpRegion (r : name_ref) (space : byte) (offset length : Z)
  | DefField (region : name_ref) (flags : byte) (fields : list field_decl).

(** Induction with the hypothesis for every element of a package, and for every
    declaration of a body. *)
Section NestedInduction.
Context (P : data -> Prop) (Q : decl -> Prop).
Context (Hleaf : forall d, (forall c l, d <> DPackage c l) -> P d).
Context (Hpackage : forall c l, Forall P l -> P (DPackage c l)).
Context (Hdecl : forall d, (forall k r l, d <> DefBlock k r l) -> Q d).
Context (Hblock : forall k r l, Forall Q l -> Q (DefBlock k r l)).

Fixpoint data_nested_ind (d : data) : P d.
Proof.
  destruct d as [| | | |c l|]; try (apply Hleaf; intros c' l' H; discriminate H).
  apply Hpackage. induction l as [|d l IH]; constructor; [apply data_nested_ind|exact IH].
Defined.

Fixpoint decl_nested_ind (d : decl) : Q d.
Proof.
  destruct d as [|k r l| | | | |]; try (apply Hdecl; intros k' r' l' H; discriminate H).
  apply Hblock. induction l as [|d l IH]; constructor; [apply decl_nested_ind|exact IH].
Defined.
End NestedInduction.

(** * Meaning *)

(** What the declarations use of a namespace. *)
Class NamespaceOps (N : Type) := {
  op_add_value : list NameSeg -> AmlValue -> SE N AmlError AmlHandle;
  op_add_level : list NameSeg -> LevelType -> SE N AmlError unit;
  op_search : name_ref -> list NameSeg -> N -> result AmlError AmlHandle
}.

#[export] Instance tree_ops {tgt : Target} : NamespaceOps Namespace := {
  op_add_value p := add_value (abs p);
  op_add_level p := add_level (abs p);
  op_search r scope ns := result_map snd (search ns (ref_name r) (abs scope))
}.

#[export] Instance flat_ops {tgt : Target} : NamespaceOps flat := {
  op_add_value := flat_add_value;
  op_add_level := flat_add_level;
  op_search r scope m := result_map snd (flat_search m r scope)
}.

(** The state that declarations change: the namespace, the current scope and the
    buffers. *)
Record world (N : Type) := MkWorld { w_names : N; w_scope : list NameSeg; w_buffers : list bytes }.
Arguments MkWorld {N}.
Arguments w_names {N}.
Arguments w_scope {N}.
Arguments w_buffers {N}.

Section Meaning.
Context {tgt : Target} {bf : BitField} {N : Type} {ops : NamespaceOps N}.
Abbreviation W := (SE (world N) AmlError).

Definition set_scope (p : list NameSeg) (w : world N) : world N :=
  MkWorld (w_names w) p (w_buffers w).

Definition on_names {A} (m : SE N AmlError A) : W A := fun w =>
  match m (w_names w) with
  | SOk a n => SOk a (MkWorld n (w_scope w) (w_buffers w))
  | SErr e n => SErr e (MkWorld n (w_scope w) (w_buffers w))
  | SFail r => SFail r
  end.

Definition new_buffer (contents : bytes) : W AmlValue := fun w =>
  SOk (VBuffer (length (w_buffers w))) (MkWorld (w_names w) (w_scope w) (w_buffers w ++ [contents])).

(** The value of data: strings are checked, buffers are made, a package has as many
    elements as it announces. *)
Fixpoint build (d : data) : W AmlValue :=
  match d with
  | DInt z => se_ret (VInteger z)
  | DString s => if utf8_valid s then se_ret (VString s) else se_err InvalidStringConstant
  | DRevision => se_ret (VInteger AML_INTERPRETER_REVISION)
  | DBuffer size contents =>
      let size := as_usize size in
      if size <? Z.of_nat (length contents) then se_err MalformedBuffer
      else new_buffer (contents ++ replicate (Z.to_nat size - length contents) x00)
  | DPackage count elements =>
      let! vs := se_map build elements in
      if Z.of_nat (length vs) =? u8 count then se_ret (VPackage vs) else se_err MalformedPackage
  | DRef r => se_ret (VString (Names.as_string (ref_name r)))
  end.

(** The path that a name denotes in the current scope. *)
Definition at_ref (r : name_ref) : W (list NameSeg) :=
  let! scope := se_gets w_scope in se_lift (ref_path r scope).

Definition declare_value (r : name_ref) (v : AmlValue) : W unit :=
  let! p := at_ref r in
  do! on_names (op_add_value p v) in
  se_ret tt.

(** An object with a level: value and level are made in the order of the code, and
    the scope is entered. *)
Definition open_block (k : block) (r : name_ref) : W unit :=
  let! p := at_ref r in
  match k with
  | BScope => do! se_modify (set_scope p) in on_names (op_add_level p LScope)
  | BDevice =>
      do! on_names (op_add_value p VDevice) in
      do! on_names (op_add_level p LDevice) in
      se_modify (set_scope p)
  | BThermalZone =>
      do! on_names (op_add_value p VThermalZone) in
      do! on_names (op_add_level p LThermalZone) in
      se_modify (set_scope p)
  | BProcessor id address len =>
      do! on_names (op_add_level p LProcessor) in
      do! on_names (op_add_value p (VProcessor id address len)) in
      se_modify (set_scope p)
  | BPowerResource system_level resource_order =>
      do! on_names (op_add_level p LPowerResource) in
      do! on_names (op_add_value p (VPowerResource system_level resource_order)) in
      se_modify (set_scope p)
  end.

(** The object above a region whose address is described there. *)
Definition region_owner (region : RegionSpace) (r : name_ref) : W (option AmlName) :=
  match region with
  | PciConfig | IPMI | GenericSerialBus =>
      let! p := at_ref r in
      match p with
      | [] => se_err RootHasNoParent
      | _ => se_ret (Some (abs (removelast p)))
      end
  | _ => se_ret None
  end.

(** The fields of a region, from the bit [offset] on. *)
Fixpoint declare_fields (region : AmlHandle) (flags : FieldFlags) (offset : Z)
    (fields : list field_decl) : W unit :=
  match fields with
  | [] => se_ret tt
  | FReserved bits :: fields =>
      let! offset := se_lift (add_w 64 offset bits) in
      declare_fields region flags offset fields
  | FNamed s bits :: fields =>
      do! declare_value (MkRef (Up 0) [s]) (VField region flags offset bits) in
      let! offset := se_lift (add_w 64 offset bits) in
      declare_fields region flags offset fields
  end.

Fixpoint declare (d : decl) : W unit :=
  match d with
  | DefName r d =>
      let! v := build d in declare_value r v
  | DefBlock k r body =>
      let! previous_scope := se_gets w_scope in
      do! open_block k r in
      do! se_each declare body in
      se_modify (set_scope previous_scope)
  | DefMethod r flags code => declare_value r (VMethod (MkMethodFlags flags) (Aml code))
  | DefMutex r sync_level => declare_value r (VMutex sync_level)
  | DefExternal _ _ _ => se_ret tt
  | DefOpRegion r space offset length =>
      let! region := se_lift (region_space space) in
      let! owner := region_owner region r in
      declare_value r (VOpRegion region offset length owner)
  | DefField region flags fields =>
      let! scope := se_gets w_scope in
      let! names := se_gets w_names in
      let! handle := se_lift (op_search region scope names) in
      declare_fields handle (MkFieldFlags flags) 0 fields
  end.

Definition declare_all : list decl -> W unit := se_each declare.
End Meaning.

(** * The scope *)

(** Declarations that succeed come back to the scope they started in. *)
Section Scope.
Context {tgt : Target} {bf : BitField} {N : Type} {ops : NamespaceOps N}.

Definition keeps_scope {A} (m : SE (world N) AmlError A) : Prop := forall w,
  match m w with SOk _ w' => w_scope w' = w_scope w | _ => True end.

Lemma scope_ret {A} (a : A) : keeps_scope (se_ret a).
Proof. by intros w. Qed.
Lemma scope_gets {A} (f : world N -> A) : keeps_scope (se_gets f).
Proof. by intros w. Qed.
Lemma scope_err {A} (e : AmlError) : keeps_scope (A := A) (se_err e).
Proof. by intros w. Qed.
Lemma scope_lift {A} (r : result AmlError A) : keeps_scope (se_lift r).
Proof. intros w. by destruct r. Qed.
Lemma scope_names {A} (m : SE N AmlError A) : keeps_scope (on_names m).
Proof. intros w. unfold on_names. by destruct (m _). Qed.
Lemma scope_buffer contents : keeps_scope (new_buffer contents).
Proof. by intros w. Qed.

Lemma scope_bind {A B} (m : SE (world N) AmlError A) (k : A -> SE (world N) AmlError B) :
  keeps_scope m -> (forall a, keeps_scope (k a)) -> keeps_scope (se_bind m k).
Proof.
  intros Hm Hk w. unfold se_bind. specialize (Hm w). destruct (m w) as [a w'| |]; [|done..].
  rewrite <-Hm. apply Hk.
Qed.

Lemma scope_each {A} (f : A -> SE (world N) AmlError unit) (l : list A) :
  Forall (fun a => keeps_scope (f a)) l -> keeps_scope (se_each f l).
Proof. induction 1 as [|a l Ha _ IH]; [apply scope_ret|]. by apply scope_bind; [|intros _]. Qed.

Lemma scope_map {A B} (f : A -> SE (world N) AmlError B) (l : list A) :
  Forall (fun a => keeps_scope (f a)) l -> keeps_scope (se_map f l).
Proof.
  induction 1 as [|a l Ha _ IH]; [apply scope_ret|]. apply scope_bind; [done|intros b].
  apply scope_bind; [done|intros bs]. apply scope_ret.
Qed.

#[local] Hint Resolve scope_ret scope_gets scope_err scope_lift scope_names scope_buffer scope_bind : aml.
#[local] Hint Extern 2 (keeps_scope (if ?b then _ else _)) => destruct b : aml.
#[local] Hint Extern 2 (keeps_scope (match ?x with _ => _ end)) => destruct x : aml.

Lemma scope_build d : keeps_scope (build d).
Proof.
  induction d as [d Hd|count l IH] using data_nested_ind; cbn [build].
  - destruct d; cbn [build]; eauto with aml. by edestruct Hd.
  - apply scope_bind; [by apply scope_map|]. eauto with aml.
Qed.

Lemma scope_declare_value r v : keeps_scope (declare_value r v).
Proof. unfold declare_value, at_ref. eauto 8 with aml. Qed.

Lemma scope_fields region flags fields offset : keeps_scope (declare_fields region flags offset fields).
Proof.
  revert offset. induction fields as [|[bits|s bits] fields IH]; intros offset; cbn [declare_fields];
    eauto 6 using scope_declare_value with aml.
Qed.

Lemma scope_declare d : keeps_scope (declare d).
Proof.
  induction d as [d Hd|k r body IH] using decl_nested_ind.
  - destruct d as [r d|k r body| | | |r space offset length|region flags fields]; cbn [declare];
      eauto using scope_build, scope_declare_value with aml.
    + by edestruct Hd.
    + apply scope_bind; [apply scope_lift|intros region]. apply scope_bind; [|eauto using scope_declare_value].
      destruct region; cbn [region_owner]; unfold at_ref; eauto 6 with aml.
    + eauto 8 using scope_fields with aml.
  - intros w. cbn [declare]. unfold se_bind at 1, se_gets. unfold se_bind.
    destruct (open_block k r w) as [u w1| |]; [|done..].
    by destruct (se_each declare body w1) as [u' w2| |].
Qed.

Lemma scope_declare_all ds : keeps_scope (declare_all ds).
Proof. apply scope_each. induction ds; constructor; [apply scope_declare|done]. Qed.
End Scope.

(** * Encodings *)

Inductive enc_data : data -> bytes -> Prop :=
  | enc_DInt z b : enc_const z b -> enc_data (DInt z) b
  | enc_DString s : (x00 ∉ s) -> enc_data (DString s) (STRING_PREFIX :: s ++ [x00])
  | enc_DRevision : enc_data DRevision [EXT_OPCODE_PREFIX; EXT_REVISION_OP]
  | enc_DBuffer size contents bs b :
      enc_const size bs -> enc_package (bs ++ contents) b ->
      enc_data (DBuffer size contents) (DEF_BUFFER_OP :: b)
  | enc_DPackage count l bs b :
      enc_elements l bs -> enc_package (count :: bs) b ->
      enc_data (DPackage count l) (DEF_PACKAGE_OP :: b)
with enc_element : data -> bytes -> Prop :=
  | enc_element_data d b : enc_data d b -> enc_element d b
  | enc_element_ref r : ref_ok r = true -> enc_element (DRef r) (ref_bytes r)
with enc_elements : list data -> bytes -> Prop :=
  | enc_elements_nil : enc_elements [] []
  | enc_elements_cons d l b bs :
      enc_element d b -> enc_elements l bs -> enc_elements (d :: l) (b ++ bs).

(** The fields of a region. The parser takes the length of a field for that of a
    package, and refuses it when it is more than the number of bytes from there to
    the end of the table; [after] bytes follow the list. *)
Definition field_fits (k : nat) (bits : Z) (following : nat) : bool :=
  pkg_fits k bits && (bits <=? Z.of_nat (S k + following)).

Inductive enc_fields (after : nat) : list field_decl -> bytes -> Prop :=
  | enc_fields_nil : enc_fields after [] []
  | enc_FReserved k bits l b :
      field_fits k bits (length b + after) = true -> enc_fields after l b ->
      enc_fields after (FReserved bits :: l) (RESERVED_FIELD :: pkg_bytes k bits ++ b)
  | enc_FNamed k s bits l b :
      seg_ok s = true -> field_fits k bits (length b + after) = true -> enc_fields after l b ->
      enc_fields after (FNamed s bits :: l) (seg_as_str s ++ pkg_bytes k bits ++ b).

Definition block_op (k : block) : bytes :=
  match k with
  | BScope => [DEF_SCOPE_OP]
  | BDevice => [EXT_OPCODE_PREFIX; EXT_DEF_DEVICE_OP]
  | BThermalZone => [EXT_OPCODE_PREFIX; EXT_DEF_THERMAL_ZONE_OP]
  | BProcessor _ _ _ => [EXT_OPCODE_PREFIX; EXT_DEF_PROCESSOR_OP]
  | BPowerResource _ _ => [EXT_OPCODE_PREFIX; EXT_DEF_POWER_RES_OP]
  end.

(** What stands between the name of a block and its body. *)
Definition block_fields (k : block) : bytes :=
  match k with
  | BScope | BDevice | BThermalZone => []
  | BProcessor id address len => id :: to_le_bytes 4 address ++ [len]
  | BPowerResource system_level resource_order => system_level :: to_le_bytes 2 resource_order
  end.
Definition block_ok (k : block) : Prop :=
  match k with
  | BProcessor _ address _ => is_u32 address
  | BPowerResource _ resource_order => is_u16 resource_order
  | _ => True
  end.

(** The encodings of declarations, when [after] bytes follow them in the table. *)
Inductive enc_decl : nat -> decl -> bytes -> Prop :=
  | enc_DefName after r d b :
      ref_ok r = true -> enc_data d b -> enc_decl after (DefName r d) (DEF_NAME_OP :: ref_bytes r ++ b)
  | enc_DefBlock after k r body bs b :
      ref_ok r = true -> block_ok k -> enc_decls after body bs ->
      enc_package (ref_bytes r ++ block_fields k ++ bs) b ->
      enc_decl after (DefBlock k r body) (block_op k ++ b)
  | enc_DefMethod after r flags code b :
      ref_ok r = true -> enc_package (ref_bytes r ++ flags :: code) b ->
      enc_decl after (DefMethod r flags code) (DEF_METHOD_OP :: b)
  | enc_DefMutex after r sync_level :
      ref_ok r = true ->
      enc_decl after (DefMutex r sync_level)
        (EXT_OPCODE_PREFIX :: EXT_DEF_MUTEX_OP :: ref_bytes r ++ [sync_level])
  | enc_DefExternal after r type count :
      ref_ok r = true ->
      enc_decl after (DefExternal r type count) (DEF_EXTERNAL_OP :: ref_bytes r ++ [type; count])
  | enc_DefOpRegion after r space offset length bo bl :
      ref_ok r = true -> enc_const offset bo -> enc_const length bl ->
      enc_decl after (DefOpRegion r space offset length)
        (EXT_OPCODE_PREFIX :: EXT_DEF_OP_REGION_OP :: ref_bytes r ++ space :: bo ++ bl)
  | enc_DefField after region flags fields bs b :
      ref_ok region = true -> enc_fields after fields bs ->
      enc_package (ref_bytes region ++ flags :: bs) b ->
      enc_decl after (DefField region flags fields) (EXT_OPCODE_PREFIX :: EXT_DEF_FIELD_OP :: b)
with enc_decls : nat -> list decl -> bytes -> Prop :=
  | enc_decls_nil after : enc_decls after [] []
  | enc_decls_cons after d ds b bs :
      enc_decl (length bs + after) d b -> enc_decls after ds bs ->
      enc_decls after (d :: ds) (b ++ bs).

(** How deeply the parsers of data and of terms call themselves. *)
Fixpoint data_depth (d : data) : nat :=
  match d with
  | DBuffer _ _ => 1
  | DPackage _ l => S (list_max (map data_depth l))
  | _ => 0
  end.
Fixpoint decl_depth (d : decl) : nat :=
  match d with
  | DefName _ d => S (data_depth d)
  | DefBlock _ _ body => S (list_max (map decl_depth body))
  | DefOpRegion _ _ _ _ => 1
  | _ => 0
  end.

(** * The meaning does not depend on the representation of the namespace *)

(** Two namespaces whose operations end alike from corresponding states. *)
Class OpsSim {N1 N2 : Type} (R : N1 -> N2 -> Prop) {ops1 : NamespaceOps N1}
    {ops2 : NamespaceOps N2} : Prop := {
  sim_op_add_value p v : sim R (op_add_value p v) (op_add_value p v);
  sim_op_add_level p typ : sim R (op_add_level p typ) (op_add_level p typ);
  sim_op_search r scope n1 n2 : R n1 n2 -> op_search r scope n1 = op_search r scope n2
}.

#[export] Instance tree_flat {tgt : Target} : OpsSim models.
Proof.
  split.
  - apply refine_add_value.
  - apply refine_add_level.
  - intros r scope ns m Hm. cbn. rewrite (refine_search ns m r scope Hm).
    by destruct (flat_search m r scope) as [[]| |].
Qed.

Definition world_sim {N1 N2 : Type} (R : N1 -> N2 -> Prop) (w1 : world N1) (w2 : world N2) : Prop :=
  R (w_names w1) (w_names w2) /\ w_scope w1 = w_scope w2 /\ w_buffers w1 = w_buffers w2.

Section Independence.
Context {tgt : Target} {bf : BitField} {N1 N2 : Type} {R : N1 -> N2 -> Prop}.
Context {ops1 : NamespaceOps N1} {ops2 : NamespaceOps N2} {HR : OpsSim R}.

Lemma sim_on_names {A} (m1 : SE N1 AmlError A) (m2 : SE N2 AmlError A) :
  sim R m1 m2 -> sim (world_sim R) (on_names m1) (on_names m2).
Proof.
  intros H w1 w2 (Hn & Hs & Hb). unfold on_names. specialize (H _ _ Hn).
  destruct (m1 (w_names w1)), (m2 (w_names w2)); try done; destruct H; done.
Qed.

Lemma sim_scope {E} : sim (E := E) (world_sim R) (se_gets w_scope) (se_gets w_scope).
Proof. apply sim_gets. by intros w1 w2 (_ & H & _). Qed.

Lemma sim_set_scope {E} p : sim (E := E) (world_sim R) (se_modify (set_scope p)) (se_modify (set_scope p)).
Proof. apply sim_modify. by intros w1 w2 (H & _ & Hb). Qed.

Lemma sim_at_ref r : sim (world_sim R) (at_ref r) (at_ref r).
Proof. apply sim_bind; [apply sim_scope|intros p]. apply sim_lift. Qed.

Lemma sim_new_buffer contents : sim (world_sim R) (new_buffer contents) (new_buffer contents).
Proof. intros w1 w2 (Hn & Hs & Hb). unfold new_buffer. by rewrite Hb, Hs. Qed.

#[local] Hint Resolve sim_on_names sim_scope sim_set_scope sim_at_ref sim_new_buffer
  sim_op_add_value sim_op_add_level : aml.
#[local] Hint Extern 2 (sim _ (if ?b then _ else _) _) => destruct b : aml.
#[local] Hint Extern 2 (sim _ (match ?x with _ => _ end) _) => destruct x : aml.

Lemma sim_build d : sim (world_sim R) (build d) (build d).
Proof.
  induction d as [d Hd|count l IH] using data_nested_ind.
  - destruct d; cbn [build]; eauto with aml. by edestruct Hd.
  - cbn [build]. apply sim_bind; [by apply sim_map|]. eauto with aml.
Qed.

Lemma sim_declare_value r v : sim (world_sim R) (declare_value r v) (declare_value r v).
Proof. unfold declare_value. eauto 6 with aml. Qed.

Lemma sim_open_block k r : sim (world_sim R) (open_block k r) (open_block k r).
Proof. apply sim_bind; [apply sim_at_ref|intros p]. destruct k; eauto 10 with aml. Qed.

Lemma sim_declare_fields region flags fields offset :
  sim (world_sim R) (declare_fields region flags offset fields) (declare_fields region flags offset fields).
Proof.
  revert offset. induction fields as [|[bits|s bits] fields IH]; intros offset; cbn [declare_fields];
    eauto 6 using sim_declare_value with aml.
Qed.

Lemma sim_declare d : sim (world_sim R) (declare d) (declare d).
Proof.
  induction d as [d Hd|k r body IH] using decl_nested_ind.
  - destruct d as [r d|k r body| | | |r space offset length|region flags fields]; cbn [declare];
      eauto using sim_build, sim_declare_value with aml.
    + by edestruct Hd.
    + apply sim_bind; [apply sim_lift|intros region]. apply sim_bind; [|eauto using sim_declare_value].
      destruct region; cbn [region_owner]; eauto with aml.
    + apply sim_bind; [apply sim_scope|intros scope]. intros w1 w2 Hw.
      unfold se_bind, se_gets. pose proof Hw as (Hn & _).
      rewrite (sim_op_search region scope _ _ Hn).
      apply (sim_bind (R := world_sim R)); [apply sim_lift|intros h; apply sim_declare_fields|done].
  - cbn [declare]. apply sim_bind; [apply sim_scope|intros p].
    apply sim_bind; [apply sim_open_block|intros _].
    apply sim_bind; [by apply sim_each|eauto with aml].
Qed.

Lemma sim_declare_all ds : sim (world_sim R) (declare_all ds) (declare_all ds).
Proof. apply sim_each. induction ds; constructor; [apply sim_declare|done]. Qed.
End Independence.
