(* ===== verification/Denotation.v ===== *)
(** A calculus of parsers: what a parser does with an input, as a computation on
    the context that returns the rest of the input; the first bytes of the parsers;
    and the refinement between such computations and computations on an abstract
    state. *)
From S2P Require Import Prelude Types Names Namespace Env RustStd Context Value Parser.
From S2P Require Import PkgLength Opcode NameObject Grammar Expression Statement TermObject.
#[local] Open Scope Z_scope.

Section Denotation.
Context {env : AmlEnv}.

(** What a parser does with an input. The input that is left on an error is
    forgotten: the callers of the parsers of terms restore it. *)
Definition den {A} (p : Parser A) (i : bytes) : SE AmlContext Propagate (A * bytes) := fun c =>
  match p (i, c) with
  | SOk a (rest, c) => SOk (a, rest) c
  | SErr e (_, c) => SErr e c
  | SFail r => SFail r
  end.

(** The output of the debugger is off. *)
Definition quiet (c : AmlContext) : Prop := debug_verbosity c = VbNone.

(** [p] is the wrong parser for an input that starts with none of [bs]. *)
Definition heads {A} (p : Parser A) (bs : list byte) : Prop := forall b i c,
  quiet c -> b ∉ bs -> p (b :: i, c) = SErr (PErr WrongParser) (b :: i, c).

(** Computations on the context that stay quiet. *)
Definition keeps_quiet {A} (r : sres AmlContext Propagate A) : Prop :=
  match r with SOk _ c | SErr _ c => quiet c | SFail _ => True end.

(** * Denotations of the combinators *)

Lemma den_bind {A B} (p : Parser A) (q : A -> Parser B) i c :
  den (se_bind p q) i c = se_bind (den p i) (fun '(a, i) => den (q a) i) c.
Proof. unfold den, se_bind. by destruct (p (i, c)) as [a [i' c']|e [i' c']|]. Qed.

Lemma den_then {A B} (p : Parser A) (q : Parser B) i c :
  den (p_then p q) i c =
  se_bind (den p i) (fun '(a, i) => se_bind (den q i) (fun '(b, i) => se_ret ((a, b), i))) c.
Proof.
  unfold p_then. rewrite den_bind. unfold se_bind.
  destruct (den p i c) as [[a i'] c'|e c'|]; [|done|done].
  etransitivity; [apply (den_bind q (fun b => se_ret (a, b)))|]. done.
Qed.

Lemma den_feed {A B} (p : Parser A) (q : A -> Parser B) i c :
  den (p_feed p q) i c = se_bind (den p i) (fun '(a, i) => den (q a) i) c.
Proof. apply den_bind. Qed.

Lemma den_discard {A} (p : Parser A) i c :
  den (discard_result p) i c = se_bind (den p i) (fun '(_, i) => se_ret (tt, i)) c.
Proof. etransitivity; [apply (den_bind p (fun _ => se_ret tt))|]. done. Qed.

Lemma den_map_ctx {A B} (p : Parser A) (f : A -> SE AmlContext Propagate B) i c :
  den (map_with_context p f) i c =
  se_bind (den p i) (fun '(a, i) => se_bind (f a) (fun b => se_ret (b, i))) c.
Proof.
  unfold den, map_with_context, se_bind. destruct (p (i, c)) as [a [i' c']|e [i' c']|]; [|done|done].
  by destruct (f a c').
Qed.

Lemma den_map {A B} (p : Parser A) (f : A -> result Propagate B) i c :
  den (p_map p f) i c =
  se_bind (den p i) (fun '(a, i) => se_bind (se_lift (f a)) (fun b => se_ret (b, i))) c.
Proof. apply den_map_ctx. Qed.

Lemma den_second {A B} (p : Parser (A * B)) i c :
  den (second p) i c = se_bind (den p i) (fun '((_, b), i) => se_ret (b, i)) c.
Proof.
  unfold second. rewrite den_map. unfold se_bind. by destruct (den p i c) as [[[a b] i'] c'|e c'|].
Qed.

Lemma verbosity_quiet v c : quiet c -> v <> VbNone -> verbosity_le v (debug_verbosity c) = false.
Proof. intros -> Hv. by destruct v. Qed.

(** A scope does nothing while the output is off. *)
Lemma comment_scope_quiet {A} v (p : Parser A) i c :
  quiet c -> v <> VbNone -> keeps_quiet (den p i c) -> comment_scope v p (i, c) = p (i, c).
Proof.
  intros Hc Hv. unfold keeps_quiet, den, comment_scope, se_bind, on_context.
  unfold se_gets at 1. rewrite verbosity_quiet by done. cbn [se_ret].
  destruct (p (i, c)) as [a [i' c']|e s|]; [|done|done]. intros Hq.
  unfold se_gets. by rewrite verbosity_quiet.
Qed.

Lemma den_scope {A} v (p : Parser A) i c :
  quiet c -> v <> VbNone -> keeps_quiet (den p i c) -> den (comment_scope v p) i c = den p i c.
Proof. intros. unfold den at 1. by rewrite comment_scope_quiet. Qed.

(** A scope that fails, fails as the parser inside does. *)
Lemma comment_scope_error {A} v (p : Parser A) i c e s :
  quiet c -> v <> VbNone -> comment_scope v p (i, c) = SErr e s -> p (i, c) = SErr e s.
Proof.
  intros Hc Hv. unfold comment_scope, se_bind, on_context.
  unfold se_gets at 1. rewrite verbosity_quiet by done. cbn [se_ret].
  destruct (p (i, c)) as [a [i' c']|e' s'|]; [|done|done].
  unfold se_gets at 1. destruct (verbosity_le v (debug_verbosity c')); [|done].
  unfold indent, se_bind, se_gets, se_lift, sub_w.
  destruct (checked _ _) as [z|e'|] eqn:E; [done| |done]. by apply checked_not_err in E.
Qed.

Lemma ctx_bind {A B} (m : SE AmlContext AmlError A) (k : A -> SE AmlContext AmlError B) c :
  ctx (se_bind m k) c = se_bind (ctx m) (fun a => ctx (k a)) c.
Proof. unfold ctx, se_map_err, se_bind. by destruct (m c). Qed.

Lemma den_opcode op i c : den (opcode op) (op :: i) c = SOk (tt, i) c.
Proof. unfold den. by rewrite opcode_ok. Qed.

(** * The first bytes of the parsers *)

Lemma heads_opcode op : heads (opcode op) [op].
Proof. intros b i c _ Hb. apply opcode_wrong. set_solver. Qed.

Lemma heads_bind {A B} (p : Parser A) (q : A -> Parser B) bs : heads p bs -> heads (se_bind p q) bs.
Proof. intros Hp b i c Hc Hb. unfold se_bind. by rewrite Hp. Qed.

Lemma heads_then {A B} (p : Parser A) (q : Parser B) bs : heads p bs -> heads (p_then p q) bs.
Proof. apply heads_bind. Qed.
Lemma heads_discard {A} (p : Parser A) bs : heads p bs -> heads (discard_result p) bs.
Proof. apply heads_bind. Qed.
Lemma heads_map_ctx {A B} (p : Parser A) (f : A -> SE AmlContext Propagate B) bs :
  heads p bs -> heads (map_with_context p f) bs.
Proof. intros Hp b i c Hc Hb. unfold map_with_context. by rewrite Hp. Qed.
Lemma heads_map {A B} (p : Parser A) (f : A -> result Propagate B) bs :
  heads p bs -> heads (p_map p f) bs.
Proof. apply heads_map_ctx. Qed.
Lemma heads_second {A B} (p : Parser (A * B)) bs : heads p bs -> heads (second p) bs.
Proof. apply heads_map. Qed.
Lemma heads_scope {A} v (p : Parser A) bs : v <> VbNone -> heads p bs -> heads (comment_scope v p) bs.
Proof.
  intros Hv Hp b i c Hc Hb. rewrite comment_scope_quiet; [by apply Hp|done|done|].
  unfold keeps_quiet, den. by rewrite Hp.
Qed.

Lemma heads_choice {A} (ps : list (Parser A)) bss :
  Forall2 heads ps bss -> heads (choice ps) (concat bss).
Proof.
  intros H b i c Hc. induction H as [|p bs ps bss Hp _ IH]; [done|]. cbn [concat].
  intros [H1 H2]%not_elem_of_app. rewrite (choice_skip _ _ _ _ _ (Hp b i c Hc H1)). by apply IH.
Qed.

(** An alternative that cannot start with the byte is passed over. *)
Lemma choice_pass {A} (p : Parser A) bs ps b i c :
  heads p bs -> quiet c -> bool_decide (b ∈ bs) = false ->
  choice (p :: ps) (b :: i, c) = choice ps (b :: i, c).
Proof.
  intros Hp Hc Hb%bool_decide_eq_false. by rewrite (choice_skip _ _ _ _ _ (Hp b i c Hc Hb)).
Qed.

Lemma den_pass {A} (p : Parser A) bs ps b i c :
  heads p bs -> quiet c -> bool_decide (b ∈ bs) = false ->
  den (choice (p :: ps)) (b :: i) c = den (choice ps) (b :: i) c.
Proof. intros. unfold den. by erewrite choice_pass. Qed.

(** A choice commits to an alternative that is not the wrong parser. *)
Lemma den_take {A} (p : Parser A) ps i c :
  match den p i c with SErr e _ => is_wrong_parser e = false | _ => True end ->
  den (choice (p :: ps)) i c = den p i c.
Proof.
  unfold den. cbn [choice]. destruct (p (i, c)) as [a s|e [i' c']|]; [done| |done].
  by intros ->.
Qed.
End Denotation.

#[global] Typeclasses Opaque quiet.

(** * Refinement *)

(** The abstract state [T] is represented in the contexts that are [ready] for it by
    [put]. A specification that ends with what it [forgives] says nothing. *)
Class Represents {env : AmlEnv} (T : Type) := {
  put : T -> AmlContext -> AmlContext;
  ready : AmlContext -> Prop;
  forgives : abort -> Prop;
  ready_quiet c : ready c -> quiet c;
  put_ready t c : ready c -> ready (put t c)
}.

Section Refinement.
Context {env : AmlEnv} {T : Type} {rep : Represents T}.

Lemma put_quiet t c : ready c -> quiet (put t c).
Proof. intros Hc. by apply ready_quiet, put_ready. Qed.

(** The specification [s] says something of the state [t]. *)
Definition given {B} (s : SE T AmlError B) (t : T) : Prop :=
  match s t with SFail r => ~ forgives r | _ => True end.

Lemma given_bind_l {A B} (s : SE T AmlError A) (k : A -> SE T AmlError B) t :
  given (se_bind s k) t -> given s t.
Proof. unfold given, se_bind. by destruct (s t). Qed.

Lemma given_bind_r {A B} (s : SE T AmlError A) (k : A -> SE T AmlError B) t a t' :
  s t = SOk a t' -> given (se_bind s k) t -> given (k a) t'.
Proof. unfold given, se_bind. by intros ->. Qed.

Lemma given_eq {B} (s s' : SE T AmlError B) t : s t = s' t -> given s t -> given s' t.
Proof. unfold given. by intros ->. Qed.

(** [m] implements [s]: from a context that holds an abstract state, it gives the
    result of [s] and leaves the context that holds the new state, changing
    nothing else. *)
Definition implements {A B} (emb : B -> A) (m : SE AmlContext Propagate A) (s : SE T AmlError B)
    : Prop := forall c t, ready c -> given s t ->
  m (put t c) =
  match s t with
  | SOk b t' => SOk (emb b) (put t' c)
  | SErr e t' => SErr (PErr e) (put t' c)
  | SFail r => SFail r
  end.

(** A specification does not fail with the error that asks for another parser. *)
Definition never_wrong {B} (s : SE T AmlError B) : Prop := forall t,
  match s t with SErr e _ => e <> WrongParser | _ => True end.

(** [p] reads [i] up to [rest] and implements [s]. *)
Definition parses {A B} (emb : B -> A) (p : Parser A) (i rest : bytes) (s : SE T AmlError B) : Prop :=
  implements (fun b => (emb b, rest)) (den p i) s.

Lemma implements_quiet {A B} (emb : B -> A) m s c t :
  implements emb m s -> ready c -> given s t -> keeps_quiet (m (put t c)).
Proof. intros H Hc Hg. rewrite H by done. destruct (s t); cbn; auto using put_quiet. Qed.

Lemma implements_ret {A B} (emb : B -> A) (b : B) : implements emb (se_ret (emb b)) (se_ret b).
Proof. by intros c t Hc _. Qed.

Lemma implements_bind {A B A' B'} (emb : B -> A) (emb' : B' -> A') m s k ks :
  implements emb m s -> (forall b, implements emb' (k (emb b)) (ks b)) ->
  implements emb' (se_bind m k) (se_bind s ks).
Proof.
  intros Hm Hk c t Hc Hg. unfold se_bind. rewrite Hm by (done || by eapply given_bind_l).
  destruct (s t) as [b t'|e t'|r] eqn:E; [|done|done]. apply Hk; [done|]. by eapply given_bind_r.
Qed.

(** The same with an implementation that is only pointwise a sequence. *)
Lemma implements_eq {A B} (emb : B -> A) m m' s :
  (forall c, m c = m' c) -> implements emb m' s -> implements emb m s.
Proof. intros E H c t Hc Hg. rewrite E. by apply H. Qed.

(** A computation without effect on the right. *)
Lemma implements_ctx {A B} (emb : B -> A) (m : SE AmlContext AmlError A) (s : SE T AmlError B) :
  (forall c t, ready c -> given s t -> m (put t c) =
     match s t with
     | SOk b t' => SOk (emb b) (put t' c)
     | SErr e t' => SErr e (put t' c)
     | SFail r => SFail r
     end) ->
  implements emb (ctx m) s.
Proof. intros H c t Hc Hg. unfold ctx, se_map_err. rewrite H by done. by destruct (s t). Qed.

Lemma parses_then {A B A' B'} (emb : B -> A) (emb' : B' -> A') p q i i' rest s s' :
  parses emb p i i' s -> parses emb' q i' rest s' ->
  parses (prod_map emb emb') (p_then p q) i rest
    (let! a := s in let! b := s' in se_ret (a, b)).
Proof.
  intros Hp Hq. eapply implements_eq; [intros; apply den_then|].
  eapply implements_bind; [exact Hp|]. intros a.
  eapply implements_bind; [exact Hq|]. intros b.
  apply (implements_ret (fun p => (prod_map emb emb' p, rest)) (a, b)).
Qed.

Lemma parses_map_ctx {A B A' B'} (emb : B -> A) (emb' : B' -> A') p f i rest s s' :
  parses emb p i rest s -> (forall b, implements emb' (f (emb b)) (s' b)) ->
  parses emb' (map_with_context p f) i rest (let! b := s in s' b).
Proof.
  intros Hp Hf. eapply implements_eq; [intros; apply den_map_ctx|].
  eapply implements_bind; [exact Hp|]. intros b c t Hc Hg. unfold se_bind. rewrite Hf by done.
  by destruct (s' b t).
Qed.

Lemma parses_scope {A B} (emb : B -> A) v p i rest s :
  v <> VbNone -> parses emb p i rest s -> parses emb (comment_scope v p) i rest s.
Proof.
  intros Hv Hp c t Hc Hg. rewrite den_scope; [by apply Hp|by apply put_quiet|done|].
  by eapply implements_quiet.
Qed.

Lemma parses_pass {A B} (emb : B -> A) (p : Parser A) bs ps b i rest s :
  heads p bs -> bool_decide (b ∈ bs) = false ->
  parses emb (choice ps) (b :: i) rest s -> parses emb (choice (p :: ps)) (b :: i) rest s.
Proof.
  intros Hh Hb Hp c t Hc Hg. erewrite den_pass; [by apply Hp|done|by apply put_quiet|done].
Qed.

Lemma parses_take {A B} (emb : B -> A) (p : Parser A) ps i rest s :
  never_wrong s -> parses emb p i rest s -> parses emb (choice (p :: ps)) i rest s.
Proof.
  intros Hs Hp c t Hc Hg. rewrite den_take; [by apply Hp|]. rewrite Hp by done.
  specialize (Hs t). destruct (s t) as [|e|]; [done| |done]. by destruct e.
Qed.

(** Specifications up to pointwise equality, and the rules of the calculus that the
    parsers of operations and of objects use. *)
Lemma implements_spec {A B} (emb : B -> A) m (s s' : SE T AmlError B) :
  (forall f, s f = s' f) -> implements emb m s -> implements emb m s'.
Proof. intros E H c f Hc Hg. rewrite <-E. apply H; [done|]. by apply (given_eq s' s). Qed.

Lemma parses_spec {A B} (emb : B -> A) p i rest (s s' : SE T AmlError B) :
  (forall f, s f = s' f) -> parses emb p i rest s -> parses emb p i rest s'.
Proof. apply implements_spec. Qed.

Lemma never_wrong_bind {A B} (m : SE T AmlError A) (k : A -> SE T AmlError B) :
  never_wrong m -> (forall a, never_wrong (k a)) -> never_wrong (se_bind m k).
Proof.
  intros Hm Hk f. specialize (Hm f). unfold se_bind. destruct (m f) as [a f'|e f'|]; [|done|done].
  apply Hk.
Qed.

Lemma never_wrong_map {A B} (h : A -> SE T AmlError B) (l : list A) :
  Forall (fun a => never_wrong (h a)) l -> never_wrong (se_map h l).
Proof.
  induction 1 as [|a l Ha _ IH]; [done|]. apply never_wrong_bind; [done|intros b].
  by apply never_wrong_bind; [|intros bs].
Qed.

Lemma never_wrong_lift {A} (r : result AmlError A) :
  match r with Err e => e <> WrongParser | _ => True end -> never_wrong (se_lift r).
Proof. intros H f. by destruct r. Qed.

(** A conversion that has no effect. *)
Lemma implements_pure {A A' B'} (emb : B' -> A') (m : SE AmlContext AmlError A) a k
    (s : SE T AmlError B') :
  (forall c, m c = SOk a c) -> implements emb (ctx (k a)) s -> implements emb (ctx (se_bind m k)) s.
Proof.
  intros Hm Hk c f Hc Hg. specialize (Hk c f Hc Hg). revert Hk.
  unfold ctx, se_map_err, se_bind. by rewrite Hm.
Qed.

Lemma implements_ctx_bind {A B A' B'} (emb : B -> A) (emb' : B' -> A')
    (m : SE AmlContext AmlError A) (s : SE T AmlError B) k ks :
  implements emb (ctx m) s -> (forall b, implements emb' (ctx (k (emb b))) (ks b)) ->
  implements emb' (ctx (se_bind m k)) (se_bind s ks).
Proof.
  intros Hm Hk. eapply implements_eq; [intros; apply ctx_bind|]. by eapply implements_bind.
Qed.

Lemma parses_opcode op rest : parses id (opcode op) (op :: rest) rest (se_ret tt).
Proof. intros c f Hc _. by rewrite den_opcode. Qed.

Lemma parses_second {A B C D} (emb : D -> B) (p : Parser (A * B)) (x : C -> A) i rest
    (s : SE T AmlError (C * D)) :
  parses (prod_map x emb) p i rest s ->
  parses emb (second p) i rest (let! (_, d) := s in se_ret d).
Proof.
  intros Hp c f Hc Hg. rewrite den_second. unfold se_bind. rewrite Hp by (done || by eapply given_bind_l).
  by destruct (s f) as [[a b] f'|e f'|].
Qed.

Lemma parses_op_scope {A B} (emb : B -> A) op p i rest (s : SE T AmlError B) :
  parses emb p i rest s -> parses emb (op_scope op p) (op :: i) rest s.
Proof.
  intros Hp. eapply parses_spec; [|eapply (parses_second emb _ (id : unit -> unit))].
  2: { eapply (parses_then id emb); [apply parses_opcode|]. apply parses_scope; [done|exact Hp]. }
  intros f. unfold se_bind. cbn. by destruct (s f).
Qed.
End Refinement.

(** Specifications that forgive nothing always say something. *)
Class Strict {env : AmlEnv} {T : Type} (rep : Represents T) := strict r : ~ forgives (T := T) r.

Lemma given_strict {env : AmlEnv} {T B} {rep : Represents T} {st : Strict rep} (s : SE T AmlError B) t : given s t.
Proof. unfold given. destruct (s t); [done|done|apply strict]. Qed.
