(* ===== verification/First.v ===== *)
(** The first bytes of the parsers of terms: with them a choice is decided by the
    first byte of its input. *)
From S2P Require Import Prelude Types Names Namespace Env RustStd Context Value Parser.
From S2P Require Import PkgLength Opcode NameObject Grammar Expression Statement TermObject Denotation.
#[local] Open Scope Z_scope.

(** The first bytes of constants, of data, of named objects and of statements. *)
Definition const_heads : list byte := [x0a; x0b; x0c; x0e; x0d; x00; x01; xff].
Definition data_heads : list byte := [x12; x5b; x0a; x0b; x0c; x0e; x0d; x00; x01; xff; x11].
Definition named_heads : list byte :=
  [x8d; x8c; x8b; x8a; x8f; x5b; x5b; x5b; x14; x15; x5b; x5b; x5b; x5b; x5b].
Definition statement_heads : list byte := [xa5; xcc; x9f; x5b; xa0; xa3; xa4; xa2].

(** The first bytes of names: their root, [^]s, prefixes and lead characters. *)
Definition name_heads : list byte :=
  [x5c; x5e; x2e; x2f; x5f; x41; x42; x43; x44; x45; x46; x47; x48; x49; x4a; x4b; x4c; x4d; x4e;
   x4f; x50; x51; x52; x53; x54; x55; x56; x57; x58; x59; x5a].

(** A byte of one list is not in other lists. *)
Lemma heads_apart b (hs bs : list byte) : b ∈ hs ->
  forallb (fun b => negb (bool_decide (b ∈ bs))) hs = true -> bool_decide (b ∈ bs) = false.
Proof. intros Hb H. rewrite forallb_forall in H. apply negb_true_iff, H. by apply list_elem_of_In. Qed.

Section First.
Context {env : AmlEnv} {g : Grammar}.

Lemma heads_ext_opcode op : heads (ext_opcode op) [EXT_OPCODE_PREFIX].
Proof. apply heads_discard, heads_then, heads_opcode. Qed.

Lemma heads_op_scope {A} op (p : Parser A) : heads (op_scope op p) [op].
Proof. apply heads_second, heads_then, heads_opcode. Qed.

Lemma heads_negated_scope op p : heads (negated_scope op p) [DEF_L_NOT_OP].
Proof. apply heads_second, heads_then, heads_then, heads_opcode. Qed.

(** [LNot] forms are told apart by their second byte. *)
Lemma negated_scope_wrong op p b i c : b <> op ->
  negated_scope op p (DEF_L_NOT_OP :: b :: i, c) = SErr (PErr WrongParser) (b :: i, c).
Proof.
  intros Hb. unfold negated_scope, second. apply map_wrong, then_wrong.
  unfold p_then, se_bind. by rewrite opcode_ok, opcode_wrong.
Qed.

Lemma heads_op_stmt {A B} op (p : Parser A) (f : unit * A -> SE AmlContext Propagate B) :
  heads (map_with_context (p_then (opcode op) p) f) [op].
Proof. apply heads_map_ctx, heads_then, heads_opcode. Qed.

Lemma heads_unit_op {A} op (p : Parser A) : heads (discard_result (p_then (opcode op) p)) [op].
Proof. apply heads_discard, heads_then, heads_opcode. Qed.

Lemma heads_unit_ext {A} op (p : Parser A) :
  heads (discard_result (p_then (ext_opcode op) p)) [EXT_OPCODE_PREFIX].
Proof. apply heads_discard, heads_then, heads_ext_opcode. Qed.

Lemma heads_numbered i op : heads (numbered_parser i op) [op].
Proof. apply heads_map, heads_then, heads_opcode. Qed.

Lemma heads_arg_obj : heads arg_obj [x68; x69; x6a; x6b; x6c; x6d; x6e].
Proof.
  apply (heads_choice _ [[x68]; [x69]; [x6a]; [x6b]; [x6c]; [x6d]; [x6e]]).
  repeat constructor; apply heads_numbered.
Qed.

Lemma heads_local_obj : heads local_obj [x60; x61; x62; x63; x64; x65; x66; x67].
Proof.
  apply (heads_choice _ [[x60]; [x61]; [x62]; [x63]; [x64]; [x65]; [x66]; [x67]]).
  repeat constructor; apply heads_numbered.
Qed.

Lemma heads_def_buffer : heads def_buffer [DEF_BUFFER_OP].
Proof. apply heads_map_ctx, heads_op_scope. Qed.

Lemma heads_const_parser : heads const_parser const_heads.
Proof.
  intros b i c Hc Hb. unfold const_heads in Hb. unfold const_parser, se_bind. cbn [p_take].
  rewrite !bool_decide_false; [done|..]; intros ->; apply Hb; set_solver.
Qed.

Lemma heads_data_object : heads data_object data_heads.
Proof.
  apply heads_scope; [done|]. apply (heads_choice _ [[x12]; [x5b] ++ const_heads ++ [x11]]).
  constructor; [apply heads_op_scope|]. constructor; [|constructor].
  apply heads_scope; [done|]. apply (heads_choice _ [[x5b]; const_heads; [x11]]).
  repeat constructor; [apply heads_map, heads_ext_opcode|apply heads_const_parser|apply heads_def_buffer].
Qed.

Lemma heads_namespace_modifier : heads namespace_modifier [x08; x10].
Proof. apply (heads_choice _ [[x08]; [x10]]). repeat constructor; apply heads_unit_op. Qed.

Lemma heads_named_obj : heads named_obj named_heads.
Proof.
  apply heads_scope; [done|].
  apply (heads_choice _ (map (fun b => [b]) named_heads)).
  repeat constructor; first [apply heads_unit_op | apply heads_unit_ext].
Qed.

Lemma heads_statement_opcode : heads statement_opcode statement_heads.
Proof.
  apply heads_scope; [done|].
  apply (heads_choice _ (map (fun b => [b]) statement_heads)).
  repeat constructor; first [apply heads_unit_op | apply heads_unit_ext].
Qed.
End First.
