(* ===== verification/Calculus.v ===== *)
(** The rules of the calculus of [Denotation.v] for parsers that only read: bytes,
    names and package lengths; and for loops over a list of elements. *)
From S2P Require Import Prelude Types Names Namespace Env RustStd Context Value Parser.
From S2P Require Import PkgLength Opcode NameObject Flat Grammar Expression Statement TermObject.
From S2P Require Import Denotation First.
#[local] Open Scope Z_scope.

(** Inputs whose length is a [u32]. *)
Definition short (i : bytes) : Prop := Z.of_nat (length i) < 2 ^ 32.

Lemma short_app i j : short (i ++ j) -> short i /\ short j.
Proof. unfold short. rewrite length_app. lia. Qed.

(** * Rules *)

Section Gives.
Context {env : AmlEnv}.

(** [p] gives [a], leaves [rest] and does not touch the context. *)
Definition gives {A} (p : Parser A) (i : bytes) (a : A) (rest : bytes) : Prop :=
  forall c, quiet c -> den p i c = SOk (a, rest) c.

Lemma den_take_le n z rest c : in_width (8 * Z.of_nat n) z ->
  den (take_le n) (to_le_bytes n z ++ rest) c = SOk (z, rest) c.
Proof.
  intros Hz. unfold den, take_le.
  rewrite length_app, length_to_le_bytes, (proj2 (Nat.ltb_ge _ _)) by lia.
  rewrite take_app_length', drop_app_length' by (symmetry; apply length_to_le_bytes).
  by rewrite from_to_le_bytes.
Qed.

Lemma gives_byte b rest : gives p_take (b :: rest) b rest.
Proof. by intros c Hc. Qed.

Lemma gives_opcode op rest : gives (opcode op) (op :: rest) tt rest.
Proof. intros c Hc. apply den_opcode. Qed.

Lemma gives_le n z rest : in_width (8 * Z.of_nat n) z ->
  gives (take_le n) (to_le_bytes n z ++ rest) z rest.
Proof. intros Hz c Hc. by apply den_take_le. Qed.

Lemma gives_then {A B} (p : Parser A) (q : Parser B) i a j b rest :
  gives p i a j -> gives q j b rest -> gives (p_then p q) i (a, b) rest.
Proof.
  intros Hp Hq c Hc. rewrite den_then. unfold se_bind. rewrite Hp by done. by rewrite Hq.
Qed.

Lemma gives_map {A B} (p : Parser A) (f : A -> result Propagate B) i a b rest :
  gives p i a rest -> f a = Ok b -> gives (p_map p f) i b rest.
Proof. intros Hp Hf c Hc. rewrite den_map. unfold se_bind. rewrite Hp by done. by rewrite Hf. Qed.

Lemma gives_feed {A B} (p : Parser A) (q : A -> Parser B) i a j b rest :
  gives p i a j -> gives (q a) j b rest -> gives (p_feed p q) i b rest.
Proof. intros Hp Hq c Hc. rewrite den_feed. unfold se_bind. rewrite Hp by done. by apply Hq. Qed.

Lemma gives_discard {A} (p : Parser A) i a rest : gives p i a rest -> gives (discard_result p) i tt rest.
Proof. intros Hp c Hc. rewrite den_discard. unfold se_bind. by rewrite Hp. Qed.

Lemma gives_ext_opcode op rest : gives (ext_opcode op) (EXT_OPCODE_PREFIX :: op :: rest) tt rest.
Proof. eapply gives_discard, gives_then; apply gives_opcode. Qed.

Lemma gives_scope {A} v (p : Parser A) i a rest : v <> VbNone ->
  gives p i a rest -> gives (comment_scope v p) i a rest.
Proof. intros Hv Hp c Hc. rewrite den_scope; [by apply Hp|done|done|]. by rewrite Hp. Qed.

Lemma gives_take {A} (p : Parser A) ps i a rest : gives p i a rest -> gives (choice (p :: ps)) i a rest.
Proof. intros Hp c Hc. rewrite den_take; [by apply Hp|]. by rewrite Hp. Qed.

Lemma gives_pass {A} (p : Parser A) bs ps b i a rest :
  heads p bs -> bool_decide (b ∈ bs) = false -> gives (choice ps) (b :: i) a rest ->
  gives (choice (p :: ps)) (b :: i) a rest.
Proof. intros Hh Hb Hp c Hc. erewrite den_pass; [by apply Hp|done..]. Qed.

Lemma gives_name r rest : ref_ok r = true -> gives name_string (ref_bytes r ++ rest) (ref_name r) rest.
Proof.
  intros Hr c Hc. unfold den, ref_bytes. rewrite <-app_assoc.
  rewrite name_string_ok; [done|done|by left].
Qed.

Lemma gives_pkg_length k body rest :
  let n := Z.of_nat (Datatypes.S k + length body) in
  pkg_fits k n = true -> short (pkg_bytes k n ++ body ++ rest) ->
  gives pkg_length (pkg_bytes k n ++ body ++ rest) (MkPkgLength n (Z.of_nat (length rest))) (body ++ rest).
Proof.
  intros n Hf Hs c Hc. unfold den, n. rewrite pkg_length_ok; [done|done|].
  unfold short in Hs. rewrite !length_app, pkg_bytes_length in Hs. lia.
Qed.

Lemma gives_to_end n body rest : short (body ++ rest) ->
  gives (take_to_end_of_pkglength (MkPkgLength n (Z.of_nat (length rest)))) (body ++ rest) body rest.
Proof.
  intros Hs c Hc. unfold den. rewrite take_to_end_ok; [done|].
  unfold short in Hs. rewrite length_app in Hs. lia.
Qed.
End Gives.

Section Rules.
Context {env : AmlEnv} {T : Type} {rep : Represents T}.

Lemma gives_parses {A B} (emb : B -> A) p i b rest :
  gives p i (emb b) rest -> parses (T := T) emb p i rest (se_ret b).
Proof. intros Hp c t Hc _. rewrite Hp; [done|by apply put_quiet]. Qed.

Lemma gives_map_ctx {A A' B'} (emb : B' -> A') (p : Parser A) a f i rest (s : SE T AmlError B') :
  gives p i a rest -> implements emb (f a) s -> parses emb (map_with_context p f) i rest s.
Proof.
  intros Hp Hf c t Hc Hg. rewrite den_map_ctx. unfold se_bind. rewrite Hp by by apply put_quiet.
  rewrite Hf by done. by destruct (s t).
Qed.

Lemma feed_gives {A A' B'} (emb : B' -> A') (p : Parser A) a q i j rest (s : SE T AmlError B') :
  gives p i a j -> parses emb (q a) j rest s -> parses emb (p_feed p q) i rest s.
Proof.
  intros Hp Hq c t Hc Hg. rewrite den_feed. unfold se_bind. rewrite Hp by by apply put_quiet. by apply Hq.
Qed.

Lemma parses_feed {A B A' B'} (emb : B -> A) (emb' : B' -> A') p q i i' rest
    (s : SE T AmlError B) (k : B -> SE T AmlError B') :
  parses emb p i i' s -> (forall b, parses emb' (q (emb b)) i' rest (k b)) ->
  parses emb' (p_feed p q) i rest (se_bind s k).
Proof.
  intros Hp Hq. eapply implements_eq; [intros; apply den_feed|].
  eapply implements_bind; [exact Hp|]. intros b. apply Hq.
Qed.

(** Results that are known are passed on. *)
Lemma parses_map {A B A' B'} (emb : B -> A) (emb' : B' -> A') p (f : A -> result Propagate A') i rest
    (s : SE T AmlError B) (h : B -> B') :
  parses emb p i rest s -> (forall b, f (emb b) = Ok (emb' (h b))) ->
  parses emb' (p_map p f) i rest (let! b := s in se_ret (h b)).
Proof.
  intros Hp Hf. eapply parses_map_ctx; [exact Hp|]. intros b c t Hc _. by rewrite Hf.
Qed.

(** An opcode and a scope, whose result is not used. *)
Lemma parses_object {A} (emb : unit -> A) v (o : Parser unit) (p : Parser A) i j rest
    (s : SE T AmlError unit) :
  v <> VbNone -> gives o j tt i -> parses emb p i rest s ->
  parses id (discard_result (p_then o (comment_scope v p))) j rest s.
Proof.
  intros Hv Ho Hp c t Hc Hg. rewrite den_discard. unfold se_bind at 1. rewrite den_then.
  unfold se_bind at 1. rewrite Ho by by apply put_quiet. unfold se_bind at 1.
  rewrite (parses_scope emb v p i rest s Hv Hp c t Hc Hg). by destruct (s t) as [[] t'|e t'|r].
Qed.

(** ** Loops over a list of elements *)

Lemma still_parsing_rest x (rest i : bytes) : short i -> (length rest <= length i)%nat ->
  still_parsing (MkPkgLength x (Z.of_nat (length rest))) i = bool_decide (length rest < length i)%nat.
Proof.
  intros Hi Hr. unfold still_parsing. cbn [end_offset]. rewrite len32_small by done.
  case_bool_decide; [apply Z.ltb_lt|apply Z.ltb_ge]; lia.
Qed.

Lemma parses_while_done {A B} (emb : B -> A) m x body b (rest : bytes) : short rest ->
  parses (T := T) emb (parse_while m (MkPkgLength x (Z.of_nat (length rest))) body (emb b)) rest rest (se_ret b).
Proof.
  intros Hs c t Hc _. unfold den. destruct m; cbn [parse_while];
    by rewrite still_parsing_rest, bool_decide_false by (done || lia).
Qed.

Lemma parses_while_step {A B C} (emb : B -> A) (emb' : C -> A) m x body a (i i' rest : bytes)
    (s : SE T AmlError B) (k : B -> SE T AmlError C) :
  short i -> (length rest < length i)%nat -> (0 < m)%nat ->
  parses emb (body a) i i' s ->
  (forall b, parses emb' (parse_while (pred m) (MkPkgLength x (Z.of_nat (length rest))) body (emb b)) i' rest (k b)) ->
  parses emb' (parse_while m (MkPkgLength x (Z.of_nat (length rest))) body a) i rest (se_bind s k).
Proof.
  intros Hs Hr Hm Hp Hk c t Hc Hg. destruct m as [|m]; [lia|]. unfold den at 1. cbn [parse_while].
  rewrite still_parsing_rest, bool_decide_true by (done || lia). specialize (Hp c t Hc (given_bind_l _ _ _ Hg)). unfold den in Hp.
  unfold se_bind. destruct (s t) as [b t'|e' t'|r'] eqn:E, (body a (i, put t c)) as [r [j c']|e [j c']|r];
    try done; injection Hp; intros; subst; [|done..]. apply (Hk b c t' Hc). by eapply given_bind_r.
Qed.

Lemma parses_list {A B} (emb : B -> A) len (body : A -> Parser A) a i rest (s : SE T AmlError B) :
  parses emb (parse_while (length i) len body a) i rest s -> parses emb (parse_list len body a) i rest s.
Proof. intros H. exact H. Qed.
End Rules.

(** The first byte of a name. *)
Lemma ref_bytes_head r rest : ref_ok r = true -> exists b i, ref_bytes r ++ rest = b :: i /\ b ∈ name_heads.
Proof.
  destruct r as [a segs]. unfold ref_ok, ref_bytes, encodable. cbn [r_anchor r_segs].
  intros [[Hs _]%andb_prop Ha]%andb_prop.
  assert (forall b, is_lead_name_char b = true -> b ∈ name_heads) as Hl.
  { intros b Hb. apply (bool_decide_unpack _). by destruct b. }
  assert (forall b, bool_decide (b ∈ [x5c; x5e; x2e; x2f]) = true -> b ∈ name_heads) as Hp.
  { intros b Hb. apply (bool_decide_unpack _). by destruct b. }
  destruct a as [|[|k]]; [by eexists _, _; split; [|apply Hp]| |by eexists _, _; split; [|apply Hp]].
  cbn [anchor_bytes replicate app]. destruct segs as [|s1 [|s2 [|s3 segs]]];
    cbn [name_path_bytes app]; [done| |by eexists _, _; split; [|apply Hp]..].
  cbn [forallb] in Hs. apply andb_prop in Hs as [Hs _].
  destruct (seg_bytes_head s1 rest Hs) as (b & j & E & Hb). exists b, j. auto.
Qed.
