(* ===== verification/Memory.v ===== *)
(** The memory of a program as a part of the namespace: the integer objects that its
    methods work on; namespaces in which a program is linked; and the frames of
    [Program.v] as parts of contexts. *)
From S2P Require Import Prelude Types Names Namespace Ordered Env RustStd Context Value Parser.
From S2P Require Import PkgLength Opcode NameObject Flat Program Denotation.
#[local] Open Scope Z_scope.

(** Searching looks at the tree only. *)
Lemma search_tree ns o name scope : search (set_object_map o ns) name scope = search ns name scope.
Proof.
  unfold search. destruct (search_rules_apply name); [|done].
  destruct (assert_ (is_absolute scope)); [|done..]. cbn [result_bind].
  generalize (S (length scope)) as fuel. intros fuel. revert scope.
  induction fuel as [|fuel IH]; intros scope; [done|]. cbn [search_loop].
  destruct (resolve name scope) as [q| |]; [|done..]. cbn [result_bind].
  change (get_level_for_path (set_object_map o ns) q) with (get_level_for_path ns q).
  by destruct (parent scope) as [p|e|r]; [rewrite IH|..].
Qed.

Lemma add_level_objects {tgt : Target} path typ ns o :
  add_level path typ (set_object_map o ns) =
  match add_level path typ ns with
  | SOk u ns' => SOk u (set_object_map o ns')
  | SErr e ns' => SErr e (set_object_map o ns')
  | SFail r => SFail r
  end.
Proof.
  unfold add_level, se_bind, se_lift. destruct (assert_ _); [|done..].
  destruct (normalize path) as [q| |]; [|done..]. case_bool_decide; [done|].
  unfold get_level_for_path_mut, se_bind, se_get, se_lift.
  change (get_level_for_path (set_object_map o ns) q) with (get_level_for_path ns q).
  destruct (get_level_for_path ns q) as [[l t]| |]; [|done..].
  destruct (bt_get t (children l)); [done|]. unfold write_level, se_bind, se_lift, se_modify.
  by destruct (split_path q) as [[]| |].
Qed.

Lemma remove_level_objects {tgt : Target} path ns o :
  remove_level path (set_object_map o ns) =
  match remove_level path ns with
  | SOk u ns' => SOk u (set_object_map o ns')
  | SErr e ns' => SErr e (set_object_map o ns')
  | SFail r => SFail r
  end.
Proof.
  unfold remove_level, se_bind, se_lift. destruct (assert_ _); [|done..].
  destruct (normalize path) as [q| |]; [|done..]. case_bool_decide; [done|].
  unfold get_level_for_path_mut, se_bind, se_get, se_lift.
  change (get_level_for_path (set_object_map o ns) q) with (get_level_for_path ns q).
  destruct (get_level_for_path ns q) as [[l t]| |]; [|done..].
  destruct (bt_get t (children l)); [|done]. unfold write_level, se_bind, se_lift, se_modify.
  by destruct (split_path q) as [[]| |].
Qed.

(** What is found in a namespace is found where the levels hold the same names. *)
Section SameNames.
Context (ns ns' : Namespace) (same : forall q t, ns_lookup ns' q t = ns_lookup ns q t).

Lemma same_level {A} q (f : NamespaceLevel * NameSeg -> result AmlError A) g a :
  (forall l s, f (l, s) = g (bt_get s (values l))) -> g None <> Ok a ->
  result_bind (get_level_for_path ns (abs q)) f = Ok a ->
  result_bind (get_level_for_path ns' (abs q)) f = Ok a.
Proof.
  intros Hf Hg. destruct q as [|s q _] using rev_ind; [done|]. rewrite !get_level_for_path_abs.
  destruct (level_at (root_level ns) q) as [l|] eqn:Hl; [|done]. cbn [result_bind]. rewrite Hf.
  destruct (ns_views_at ns q l Hl) as [_ E]. rewrite <-E. intros H.
  destruct (ns_lookup ns q s) as [h|] eqn:Hk; [|done]. rewrite <-same in Hk.
  destruct (level_at (root_level ns') q) as [l'|] eqn:Hl'.
  - cbn [result_bind]. destruct (ns_views_at ns' q l' Hl') as [_ E']. by rewrite Hf, <-E', Hk.
  - unfold ns_lookup in Hk. by rewrite Hl' in Hk.
Qed.

Lemma same_nearest s scopes : nearest ns' s scopes = nearest ns s scopes.
Proof. induction scopes as [|q scopes IH]; [done|]. cbn. by rewrite same, IH. Qed.

Lemma same_search r scope x : search ns (ref_name r) (abs scope) = Ok x ->
  search ns' (ref_name r) (abs scope) = Ok x.
Proof.
  destruct (search_rules_apply (ref_name r)) eqn:E.
  - destruct r as [[|[|k]] [|s [|s' segs]]]; try done.
    change (ref_name (MkRef (Up 0) [s])) with [Segment s]. by rewrite !search_spec, same_nearest.
  - unfold search. rewrite E, resolve_ref. destruct (ref_path r scope) as [q| |]; [|done..].
    cbn [result_map result_bind].
    by apply (same_level q _ (fun h => match h with
      | Some h => Ok (abs q, h) | None => Err (ValueDoesNotExist (ref_name r)) end)).
Qed.

Lemma same_get_handle q h : get_handle ns (abs q) = Ok h -> get_handle ns' (abs q) = Ok h.
Proof. by apply (same_level q _ (ok_or (ValueDoesNotExist (abs q)))). Qed.

Lemma search_get_handle r scope path h : search ns (ref_name r) (abs scope) = Ok (path, h) ->
  get_handle ns path = Ok h.
Proof.
  destruct (search_rules_apply (ref_name r)) eqn:E.
  - destruct r as [[|[|k]] [|s [|s' segs]]]; try done.
    change (ref_name (MkRef (Up 0) [s])) with [Segment s]. rewrite search_spec.
    destruct (nearest ns s _) as [[q k]|] eqn:En; [|done]. intros [= <- <-].
    unfold get_handle. rewrite get_level_for_path_abs.
    assert (ns_lookup ns q s = Some k) as Hk.
    { revert En. induction (ancestors scope) as [|p ps IH]; [done|]. cbn [nearest].
      destruct (ns_lookup ns p s) eqn:El; [|done]. intros [= <- <-]. done. }
    unfold ns_lookup in Hk. destruct (level_at (root_level ns) q) as [l|]; [|done].
    cbn in *. by rewrite Hk.
  - unfold search. rewrite E. destruct (resolve _ _) as [q| |]; [|done..].
    cbn [result_bind]. unfold get_handle.
    destruct (get_level_for_path ns q) as [[l t]| |] eqn:El; [|done..].
    cbn [result_bind]. destruct (bt_get t (values l)) eqn:Et; [|done]. intros [= <- <-].
    rewrite El. cbn. by rewrite Et.
Qed.

End SameNames.

Lemma get_handle_parent ns q h : get_handle ns (abs q) = Ok h ->
  exists p s, q = p ++ [s] /\ is_Some (ns_level ns p).
Proof.
  destruct q as [|s p _] using rev_ind; [done|]. unfold get_handle. rewrite get_level_for_path_abs.
  destruct (level_at (root_level ns) p) as [l|] eqn:Hp; [|done]. intros _. exists p, s. split; [done|].
  unfold ns_level. rewrite Hp. by eexists.
Qed.

Section Memory.
Context {prog : Program}.

(** The namespace whose objects hold a memory. *)
Definition with_memory (m : memory) (ns : Namespace) : Namespace :=
  set_object_map (map_imap (fun h v =>
    Some (if bool_decide (h ∈ p_handles) then val (recall m h) else v)) (object_map ns)) ns.

(** The objects of a program hold a memory. *)
Definition holds (m : memory) (objects : gmap AmlHandle AmlValue) : Prop :=
  Forall (fun h => objects !! h = Some (val (recall m h))) p_handles.

Lemma with_memory_lookup m ns h :
  object_map (with_memory m ns) !! h =
  (fun v => if bool_decide (h ∈ p_handles) then val (recall m h) else v) <$> object_map ns !! h.
Proof. unfold with_memory. cbn. rewrite map_lookup_imap. by destruct (object_map ns !! h). Qed.

Lemma namespace_ext ns ns' : next_handle ns = next_handle ns' -> root_level ns = root_level ns' ->
  object_map ns = object_map ns' -> ns = ns'.
Proof. destruct ns, ns'. by intros ? ? ?; cbn in *; subst. Qed.

Lemma with_memory_holds m ns : holds m (object_map ns) -> with_memory m ns = ns.
Proof.
  intros Hm. apply namespace_ext; [done..|]. apply map_eq. intros h. rewrite with_memory_lookup.
  case_bool_decide as Hh; [|by destruct (object_map ns !! h)].
  unfold holds in Hm. rewrite Forall_forall in Hm. by rewrite (Hm h Hh).
Qed.

Lemma with_memory_get m ns h : h ∈ p_handles -> is_Some (object_map ns !! h) ->
  ns_get (with_memory m ns) h = Ok (val (recall m h)).
Proof.
  intros Hh [v Hv]. unfold ns_get. by rewrite with_memory_lookup, Hv, bool_decide_true by done.
Qed.

Lemma with_memory_set m ns h v : h ∈ p_handles -> is_Some (object_map ns !! h) ->
  ns_set h (val v) (with_memory m ns) = SOk tt (with_memory (<[h := v]> m) ns).
Proof.
  intros Hh Hs. unfold ns_set, se_bind, se_get, se_lift, se_modify.
  rewrite with_memory_get by done. f_equal. apply namespace_ext; [done..|]. apply map_eq. intros k.
  cbn [object_map set_object_map]. rewrite with_memory_lookup. unfold recall.
  destruct (decide (h = k)) as [<-|Hk].
  - destruct Hs as [o ->]. by rewrite !lookup_insert_eq, bool_decide_true.
  - by rewrite !lookup_insert_ne, with_memory_lookup.
Qed.

Lemma search_memory m ns name scope : search (with_memory m ns) name scope = search ns name scope.
Proof. apply search_tree. Qed.

Lemma add_level_memory {tgt : Target} m path typ ns ns' : add_level path typ ns = SOk tt ns' ->
  object_map ns' = object_map ns ->
  add_level path typ (with_memory m ns) = SOk tt (with_memory m ns').
Proof. intros E Ho. unfold with_memory. by rewrite add_level_objects, E, Ho. Qed.

Lemma remove_level_memory {tgt : Target} m path ns ns' : remove_level path ns = SOk tt ns' ->
  object_map ns' = object_map ns ->
  remove_level path (with_memory m ns) = SOk tt (with_memory m ns').
Proof. intros E Ho. unfold with_memory. by rewrite remove_level_objects, E, Ho. Qed.

(** * Linked programs *)

(** A method of the program is where it says, and its names denote what it says; the
    methods that are not executing have no levels. *)
Definition method_linked (executing : list (list NameSeg)) (ns : Namespace) (m : method) : Prop :=
  (exists h, get_handle ns (abs (m_path m)) = Ok h /\ h ∉ p_handles /\
     object_map ns !! h = Some (VMethod (m_flags m) (Aml (m_code m)))) /\
  (m_path m ∉ executing -> ns_level ns (m_path m) = None) /\
  Forall (fun '(r, h) => h ∈ p_handles /\
     exists q, search ns (ref_name r) (abs (m_path m)) = Ok (abs q, h)) (@bindings (m_bound m)) /\
  Forall (fun '(r, q) =>
     exists h, search ns (ref_name r) (abs (m_path m)) = Ok (abs q, h)) (@callees (m_bound m)).

Definition linked (executing : list (list NameSeg)) (ns : Namespace) : Prop :=
  ns_ordered ns /\ Forall (fun h => is_Some (object_map ns !! h)) p_handles /\
  Forall (method_linked executing ns) p_methods.

Lemma method_linked_memory executing m ns mt : method_linked executing ns mt ->
  method_linked executing (with_memory m ns) mt.
Proof.
  intros ((h & Hg & Hh & Ho) & Hl & Hb & Hc). split_and!; [|done| |].
  - exists h. split; [done|]. split; [done|]. by rewrite with_memory_lookup, Ho, bool_decide_false.
  - eapply Forall_impl; [exact Hb|]. intros [r k] (Hk & q & Hq). split; [done|]. exists q.
    by rewrite search_memory.
  - eapply Forall_impl; [exact Hc|]. intros [r q] (k & Hk). exists k. by rewrite search_memory.
Qed.

Lemma linked_memory executing m ns : linked executing ns -> linked executing (with_memory m ns).
Proof.
  intros (Hd & Ho & Hm). split; [done|]. split.
  - eapply Forall_impl; [exact Ho|]. intros h Hh. rewrite with_memory_lookup. by rewrite fmap_is_Some.
  - eapply Forall_impl; [exact Hm|]. intros mt. apply method_linked_memory.
Qed.

(** The level of a method that is called changes nothing for the other methods. *)
Lemma linked_level executing ns ns' q : linked executing ns -> ns_ordered ns' ->
  object_map ns' = object_map ns ->
  (forall p, p <> q -> ns_level ns' p = ns_level ns p) ->
  (forall p t, ns_lookup ns' p t = ns_lookup ns p t) ->
  linked (q :: executing) ns'.
Proof.
  intros (_ & Ho & Hm) Hd' Ho' Hl' Hk. split; [done|]. rewrite Ho'. split; [done|].
  eapply Forall_impl; [exact Hm|]. intros mt ((h & Hg & Hh & Hv) & Hl & Hb & Hc). split_and!.
  - exists h. rewrite Ho'. split; [by apply (same_get_handle ns)|done].
  - intros [Hq Hp]%not_elem_of_cons. rewrite Hl' by done. by apply Hl.
  - eapply Forall_impl; [exact Hb|]. intros [r k] (Hk' & p & Hp). split; [done|]. exists p.
    by apply (same_search ns).
  - eapply Forall_impl; [exact Hc|]. intros [r p] (k & Hk'). exists k. by apply (same_search ns).
Qed.

Lemma denoted_elem {A} r (l : list (name_ref * A)) a : denoted r l = Some a -> (r, a) ∈ l.
Proof.
  unfold denoted. destruct (find _ l) as [[r' a']|] eqn:E; [|done].
  intros [= ->]. apply find_some in E as [Hin Hr%bool_decide_eq_true]. cbn in Hr. subst r'.
  by apply list_elem_of_In.
Qed.

(** The objects of a method are found by their names. *)
Lemma linked_binding executing ns mt r h : linked executing ns -> mt ∈ p_methods ->
  @binding (m_bound mt) r = Some h ->
  h ∈ p_handles /\ is_Some (object_map ns !! h) /\
  exists q, search ns (ref_name r) (abs (m_path mt)) = Ok (abs q, h) /\ get_handle ns (abs q) = Ok h.
Proof.
  intros (_ & Ho & Hm) Hmt Hr. rewrite Forall_forall in Hm. rewrite Forall_forall in Ho. destruct (Hm mt Hmt) as (_ & _ & Hb & _).
  rewrite Forall_forall in Hb. apply denoted_elem in Hr. destruct (Hb _ Hr) as (Hh & q & Hq).
  split; [done|]. split; [by apply Ho|]. exists q. split; [done|]. by apply (search_get_handle ns r (m_path mt)).
Qed.

(** The methods that a method calls are found by their names. *)
Lemma linked_callee executing ns mt r m : linked executing ns -> mt ∈ p_methods ->
  @callee prog (m_bound mt) r = Some m ->
  m ∈ p_methods /\ exists h, search ns (ref_name r) (abs (m_path mt)) = Ok (abs (m_path m), h) /\
  get_handle ns (abs (m_path m)) = Ok h /\ h ∉ p_handles /\
  object_map ns !! h = Some (VMethod (m_flags m) (Aml (m_code m))).
Proof.
  intros (_ & _ & Hm) Hmt. unfold callee. destruct (denoted r callees) as [q|] eqn:Hr; [|done]. cbn.
  unfold method_at. intros [Hin%list_elem_of_In Hq%bool_decide_eq_true]%find_some. subst q.
  rewrite Forall_forall in Hm. destruct (Hm mt Hmt) as (_ & _ & _ & Hc).
  rewrite Forall_forall in Hc. apply denoted_elem in Hr. destruct (Hc _ Hr) as (h & Hh).
  split; [done|]. exists h. split; [done|].
  pose proof (search_get_handle ns r (m_path mt) _ _ Hh) as Hg. split; [done|].
  destruct (Hm m Hin) as ((h' & Hg' & Hn & Ho) & _). rewrite Hg in Hg'. by injection Hg' as <-.
Qed.
End Memory.

(** The method context that holds the slots of a frame. *)
Definition to_mc (f : frame) : MethodContext :=
  MkMethodContext (map (fmap val) (f_locals f)) (map (fmap val) (f_args f)).

#[export] #[program] Instance represents_frame {env : AmlEnv} {prog : Program} {ex : Executing}
    : Represents frame := {
  put f c :=
    set_method_context (Some (to_mc f)) (set_namespace (with_memory (f_memory f) (namespace c)) c);
  forgives r := r = OutOfFuel;
  ready c := quiet c /\ linked active (namespace c) /\ current_scope c = abs (m_path current) /\
    current ∈ p_methods
}.
Next Obligation. by intros env prog ex c [Hc _]. Qed.
Next Obligation. intros env prog ex f c (Hc & Hl & Hs & Hm). split; [done|]. split; [by apply linked_memory|done]. Qed.

(** A context that is ready for frames. *)
Abbreviation prepared := (ready (T := frame)).

(** A context that holds a frame. *)
Lemma put_holds {env : AmlEnv} {prog : Program} {ex : Executing} f c : method_context c = Some (to_mc f) ->
  holds (f_memory f) (object_map (namespace c)) -> put f c = c.
Proof.
  intros Hm Hh. cbn [put represents_frame]. rewrite with_memory_holds by done.
  destruct c; cbn in *. by rewrite Hm.
Qed.
