(* ===== verification/Input.v ===== *)
(** What the parsers read: every parser leaves a suffix of its input, also when it
    fails, and the parsers of terms consume at least one byte, so that the loops
    over a package end. *)
From S2P Require Import Prelude Types Names Namespace Env RustStd Context Value Parser.
From S2P Require Import PkgLength Opcode NameObject Grammar Expression Statement TermObject.
From S2P Require Import Interp Sample.
#[local] Open Scope Z_scope.

(** [reads k p]: what [p] leaves is a suffix of its input, which is at least [k]
    bytes shorter when [p] succeeds. *)
Definition reads {env : AmlEnv} {R} (k : nat) (p : Parser R) : Prop := forall s,
  match p s with
  | SOk _ s' => suffix (fst s') (fst s) /\ (length (fst s') + k <= length (fst s))%nat
  | SErr _ s' => suffix (fst s') (fst s)
  | SFail _ => True
  end.

(** What the grammar below a parser reads. *)
Class GrammarReads {env : AmlEnv} (g : Grammar) : Prop := {
  g_term_arg_reads : reads 1 g_term_arg;
  g_data_ref_object_reads : reads 1 g_data_ref_object;
  g_term_object_reads : reads 1 g_term_object
}.

Create HintDb reads discriminated.

#[local] Hint Extern 0 (suffix _ _) => reflexivity : core.
#[local] Ltac fin := try done; cbn; solve [auto | split; [auto | lia]].

Section Rules.
Context {env : AmlEnv}.

Lemma reads_le {R} j k (p : Parser R) : (j <= k)%nat -> reads k p -> reads j p.
Proof. intros Hle H s. specialize (H s). destruct (p s); [|fin..]. split; [apply H|lia]. Qed.

Lemma reads_0 {R} k (p : Parser R) : reads k p -> reads 0 p.
Proof. apply reads_le. lia. Qed.

Lemma reads_ret {R} (r : R) : reads 0 (se_ret r : Parser R).
Proof. intros s. split; [fin|cbn; lia]. Qed.

Lemma reads_err {R} k e : reads k (se_err e : Parser R).
Proof. intros s. cbn. auto. Qed.

Lemma reads_fail {R} k r : reads k (se_fail r : Parser R).
Proof. done. Qed.

Lemma reads_bind {R A} j k (p : Parser R) (f : R -> Parser A) :
  reads j p -> (forall r, reads k (f r)) -> reads (j + k) (se_bind p f).
Proof.
  intros Hp Hf s. unfold se_bind. specialize (Hp s). destruct (p s) as [r s'|e s'|]; [|fin..].
  specialize (Hf r s'). destruct Hp as [Hs Hl]. destruct (f r s').
  - destruct Hf. split; [by etrans|lia].
  - by etrans.
  - done.
Qed.

Lemma reads_bind_l {R A} k (p : Parser R) (f : R -> Parser A) :
  reads k p -> (forall r, reads 0 (f r)) -> reads k (se_bind p f).
Proof. intros. rewrite <-(Nat.add_0_r k). by apply reads_bind. Qed.

Lemma reads_bind_r {R A} k (p : Parser R) (f : R -> Parser A) :
  reads 0 p -> (forall r, reads k (f r)) -> reads k (se_bind p f).
Proof. intros. rewrite <-(Nat.add_0_l k). by apply reads_bind. Qed.

Lemma reads_map_with_context {R A} k (p : Parser R) (f : R -> SE AmlContext Propagate A) :
  reads k p -> reads k (map_with_context p f).
Proof.
  intros Hp [i c]. unfold map_with_context. specialize (Hp (i, c)).
  destruct (p (i, c)) as [r [i' c']| |]; [|fin..]. by destruct (f r c').
Qed.

Lemma reads_map {R A} k (p : Parser R) (f : R -> result Propagate A) :
  reads k p -> reads k (p_map p f).
Proof. apply reads_map_with_context. Qed.

Lemma reads_on_context {A} (m : SE AmlContext Propagate A) : reads 0 (on_context m).
Proof. intros [i c]. unfold on_context. destruct (m c); cbn; [|fin..]. split; [fin|lia]. Qed.

Lemma reads_comment_scope {R} k v (p : Parser R) : reads k p -> reads k (comment_scope v p).
Proof.
  intros Hp. unfold comment_scope. apply reads_bind_r; [apply reads_on_context|intros _].
  apply reads_bind_l; [fin|intros r].
  apply reads_bind_l; [apply reads_on_context|intros _]. apply reads_ret.
Qed.

Lemma reads_then_l {R1 R2} k (p1 : Parser R1) (p2 : Parser R2) :
  reads k p1 -> reads 0 p2 -> reads k (p_then p1 p2).
Proof.
  intros H1 H2. unfold p_then. apply reads_bind_l; [fin|intros a].
  apply reads_bind_l; [fin|intros b]. apply reads_ret.
Qed.

Lemma reads_then_r {R1 R2} k (p1 : Parser R1) (p2 : Parser R2) :
  reads 0 p1 -> reads k p2 -> reads k (p_then p1 p2).
Proof.
  intros H1 H2. unfold p_then. apply reads_bind_r; [fin|intros a].
  apply reads_bind_l; [fin|intros b]. apply reads_ret.
Qed.

Lemma reads_discard_result {R} k (p : Parser R) : reads k p -> reads k (discard_result p).
Proof. intros Hp. apply reads_bind_l; [fin|intros r; apply reads_ret]. Qed.

Lemma reads_choice {R} k (ps : list (Parser R)) : Forall (reads k) ps -> reads k (choice ps).
Proof.
  intros Hps [i c]. revert c. induction Hps as [|p ps Hp Hps IH]; intros c; cbn; [fin|].
  specialize (Hp (i, c)). destruct (p (i, c)) as [|e s'|]; [fin| |fin].
  destruct (is_wrong_parser e); [apply IH|fin].
Qed.

Lemma reads_n_of {R} (p : Parser R) n : reads 0 p -> reads 0 (n_of p n).
Proof.
  intros Hp. induction n as [|n IH]; [apply reads_ret|]. intros [i c]. cbn [n_of].
  specialize (Hp (i, c)). destruct (p (i, c)) as [r s| |]; [|fin..].
  specialize (IH s). destruct Hp as [Hs Hl]. destruct (n_of p n s) as [rs s'|e s'|].
  - destruct IH. split; [by etrans|lia].
  - by etrans.
  - done.
Qed.

Lemma reads_take_while {R} (p : Parser R) fuel : reads 0 p -> reads 0 (p_take_while fuel p).
Proof.
  intros Hp. induction fuel as [|n IH]; intros [i c]; cbn [p_take_while]; [fin|].
  specialize (Hp (i, c)). destruct (p (i, c)) as [r s|e s|]; [| |fin].
  - specialize (IH s). destruct Hp as [Hs Hl]. destruct (p_take_while n p s) as [rs s'|e s'|].
    + destruct IH. split; [by etrans|lia].
    + by etrans.
    + done.
  - destruct (is_wrong_parser e); cbn; [split; [fin|lia]|fin].
Qed.

Lemma reads_extract {R} k (p : Parser R) : reads k p -> reads k (extract p).
Proof.
  intros Hp [i c]. unfold extract. specialize (Hp (i, c)).
  destruct (p (i, c)) as [r [i' c']| |]; [|fin..]. cbn in *.
  destruct (sub_w _ _ _) as [z|e|]; [destruct (slice _ _ _)|..]; cbn; tauto.
Qed.

Lemma reads_take : reads 1 p_take.
Proof. intros [[|b i] c]; cbn; [fin|]. split; [by apply suffix_cons_r|lia]. Qed.

Lemma reads_consume f : reads 1 (consume f).
Proof.
  intros [[|b i] c]; cbn; [fin|]. destruct (f b); cbn; [|fin].
  split; [by apply suffix_cons_r|lia].
Qed.

Lemma reads_opcode op : reads 1 (opcode op).
Proof.
  intros [[|b i] c]; cbn; [fin|]. destruct (bool_decide _); cbn; [|fin].
  split; [by apply suffix_cons_r|lia].
Qed.

Lemma suffix_drop {A} n (l : list A) : suffix (drop n l) l.
Proof. exists (take n l). symmetry. apply take_drop. Qed.

Lemma reads_take_le n : reads n (take_le n).
Proof.
  intros [i c]. unfold take_le. destruct (Nat.ltb_spec (length i) n); cbn; [fin|].
  split; [apply suffix_drop|rewrite length_drop; lia].
Qed.

Lemma reads_take_n n : reads 0 (take_n n).
Proof.
  intros [i c]. unfold take_n. destruct (_ <? _); cbn; [fin|].
  split; [apply suffix_drop|rewrite length_drop; lia].
Qed.

Lemma reads_raw_pkg_length : reads 1 raw_pkg_length.
Proof.
  intros [i c]. unfold raw_pkg_length, se_bind. pose proof (reads_take (i, c)) as H.
  destruct (p_take (i, c)) as [b s|e s|]; [|fin..]. destruct (_ =? 0); [fin|].
  pose proof (reads_take_n (get_bits (u8 b) 6 8) s) as Hn. cbn [fst] in H.
  destruct (take_n _ s) as [bs [i' c']|e [i' c']|]; [|fin..].
  cbn [fst] in Hn. unfold se_lift. destruct (fold_length _ _ _) as [z|e|]; cbn [fst];
    [|by etrans; [apply Hn|apply H]|fin].
  split; [etrans; [apply Hn|apply H]|lia].
Qed.

Lemma reads_pkg_length : reads 1 pkg_length.
Proof.
  intros [i c]. unfold pkg_length. pose proof (reads_raw_pkg_length (i, c)) as H.
  destruct (raw_pkg_length (i, c)) as [z [i' c']| |]; [|fin..].
  by destruct (from_raw_length i z).
Qed.

Lemma reads_take_to_end p : reads 0 (take_to_end_of_pkglength p).
Proof.
  intros [i c]. unfold take_to_end_of_pkglength. destruct (_ <? _); [fin|].
  apply (reads_take_n _ (i, c)).
Qed.

Lemma reads_parse_while {A} fuel len (body : A -> Parser A) a :
  (forall a, reads 0 (body a)) -> reads 0 (parse_while fuel len body a).
Proof.
  intros Hb. revert a. induction fuel as [|n IH]; intros a [i c]; cbn [parse_while].
  - destruct (still_parsing len i); [fin|]. split; [fin|cbn; lia].
  - destruct (still_parsing len i); [|split; [fin|cbn; lia]].
    specialize (Hb a (i, c)). destruct (body a (i, c)) as [a' s| |]; [|fin..].
    specialize (IH a' s). destruct Hb as [Hs Hl]. destruct (parse_while n len body a' s).
    + destruct IH. split; [by etrans|lia].
    + by etrans.
    + done.
Qed.

Lemma reads_parse_list {A} len (body : A -> Parser A) a :
  (forall a, reads 0 (body a)) -> reads 0 (parse_list len body a).
Proof. intros Hb s. by apply reads_parse_while. Qed.
End Rules.

#[export] Hint Resolve reads_ret reads_err reads_fail reads_on_context reads_take reads_consume
  reads_opcode reads_take_n reads_pkg_length reads_take_to_end : reads.

(** Applies the rules of the combinators as long as one fits. *)
Ltac reads_step :=
  match goal with
  | |- forall _, _ => intros ?
  | |- reads _ (match ?x with _ => _ end) => destruct x
  | |- reads _ (se_bind _ _) => apply reads_bind_l
  | |- reads _ (p_feed _ _) => apply reads_bind_l
  | |- reads _ (map_with_context _ _) => apply reads_map_with_context
  | |- reads _ (p_map _ _) => apply reads_map
  | |- reads _ (second _) => apply reads_map
  | |- reads _ (comment_scope _ _) => apply reads_comment_scope
  | |- reads _ (discard_result _) => apply reads_discard_result
  | |- reads _ (p_then _ _) => apply reads_then_l
  | |- reads _ (choice _) => apply reads_choice
  | |- reads _ (extract _) => apply reads_extract
  | |- reads _ (n_of _ _) => apply reads_n_of
  | |- reads _ (parse_list _ _ _) => apply reads_parse_list
  | |- Forall _ (_ :: _) => constructor
  | |- Forall _ [] => constructor
  | |- reads _ _ => solve [eauto 2 with reads]
  | |- reads 0 _ => apply (reads_0 1)
  end.
Ltac reads := repeat reads_step.

Section Parsers.
Context {env : AmlEnv}.

Lemma reads_take_u16 : reads 1 take_u16.
Proof. eapply reads_le; [|apply reads_take_le]. lia. Qed.
Lemma reads_take_u32 : reads 1 take_u32.
Proof. eapply reads_le; [|apply reads_take_le]. lia. Qed.
Lemma reads_take_u64 : reads 1 take_u64.
Proof. eapply reads_le; [|apply reads_take_le]. lia. Qed.
Hint Resolve reads_take_u16 reads_take_u32 reads_take_u64 : reads.

Lemma reads_ext_opcode op : reads 1 (ext_opcode op).
Proof. unfold ext_opcode. reads. Qed.
Hint Resolve reads_ext_opcode : reads.

Lemma reads_numbered_parser i op : reads 1 (numbered_parser i op).
Proof. unfold numbered_parser, p_id. reads. Qed.
Hint Resolve reads_numbered_parser : reads.
Lemma reads_local_obj : reads 1 local_obj.
Proof. unfold local_obj. reads. Qed.
Lemma reads_arg_obj : reads 1 arg_obj.
Proof. unfold arg_obj. reads. Qed.

Lemma reads_name_seg : reads 1 name_seg.
Proof. unfold name_seg. reads. Qed.
Hint Resolve reads_name_seg reads_local_obj reads_arg_obj : reads.

Lemma reads_multi_name_path : reads 1 multi_name_path.
Proof.
  intros [i c]. unfold multi_name_path, se_bind.
  assert (reads 1 (p_then (opcode MULTI_NAME_PREFIX) p_take)) as H by reads.
  specialize (H (i, c)). destruct (p_then _ _ (i, c)) as [[[] n] s| |]; [|fin..].
  assert (reads 0 (n_of name_seg (Z.to_nat (u8 n)))) as Hn by reads.
  specialize (Hn s). destruct (n_of _ _ s) as [segs s'|e s'|]; [|fin..].
  destruct H, Hn. split; [by etrans|lia].
Qed.
Hint Resolve reads_multi_name_path : reads.

Lemma reads_name_path : reads 1 name_path.
Proof. unfold name_path, null_name, dual_name_path. reads. Qed.
Hint Resolve reads_name_path : reads.

Lemma reads_prefix_path : reads 1 prefix_path.
Proof.
  unfold prefix_path. apply reads_map. apply reads_then_r; [|reads].
  intros s. unfold prefix_chars. apply reads_take_while. reads.
Qed.

Lemma reads_name_string : reads 1 name_string.
Proof.
  apply reads_comment_scope. intros [[|b i] c]; [done|].
  destruct (bool_decide (b = ROOT_CHAR)).
  { assert (reads 1 root_name_string) as H by (unfold root_name_string; reads). apply H. }
  destruct (bool_decide _); [apply reads_prefix_path|].
  assert (forall f, reads 1 (p_map name_path f : Parser AmlName)) as H by (intros f; reads).
  apply H.
Qed.
Hint Resolve reads_name_string : reads.

Lemma reads_super_name : reads 1 super_name.
Proof. unfold super_name, simple_name, debug_obj. reads. Qed.
Hint Resolve reads_super_name : reads.
Lemma reads_target : reads 1 target.
Proof. unfold target, null_name. reads. Qed.
End Parsers.
#[export] Hint Resolve reads_take_u16 reads_take_u32 reads_take_u64 reads_ext_opcode
  reads_local_obj reads_arg_obj reads_name_seg reads_name_string reads_super_name
  reads_target : reads.
#[export] Hint Resolve g_term_arg_reads g_data_ref_object_reads g_term_object_reads : reads.

Section Grammar.
Context {env : AmlEnv} {g : Grammar} {Hg : GrammarReads g}.

Lemma reads_op_scope {A} op (p : Parser A) : reads 0 p -> reads 1 (op_scope op p).
Proof. intros Hp. unfold op_scope. reads. Qed.
Lemma reads_negated_scope op p : reads 0 p -> reads 1 (negated_scope op p).
Proof. intros Hp. unfold negated_scope. reads. Qed.
Lemma reads_compare_operands test : reads 0 (compare_operands test).
Proof. unfold compare_operands. reads. Qed.
Hint Resolve reads_op_scope reads_negated_scope reads_compare_operands : reads.

Lemma reads_term_list len : reads 0 (term_list len).
Proof. unfold term_list. reads. Qed.
Hint Resolve reads_term_list : reads.

Lemma reads_def_buffer : reads 1 def_buffer.
Proof. unfold def_buffer. reads. apply reads_op_scope. reads. Qed.
Lemma reads_package_element : reads 1 package_element.
Proof. unfold package_element. reads. Qed.
Hint Resolve reads_def_buffer reads_package_element : reads.
Lemma reads_def_package : reads 1 def_package.
Proof. apply reads_op_scope. reads. Qed.
Hint Resolve reads_def_package : reads.

Lemma reads_expression_opcode : reads 1 expression_opcode.
Proof.
  unfold expression_opcode, def_add, def_and, def_concat, def_concat_res, def_increment,
    def_decrement, def_l_equal, def_l_greater, def_l_greater_equal, def_l_less,
    def_l_less_equal, def_l_not_equal, def_l_or, def_mid, def_shift_left, def_shift_right,
    shift_op, def_store, def_to_integer, method_invocation.
  reads; apply reads_op_scope; reads.
Qed.
Hint Resolve reads_expression_opcode : reads.

Lemma reads_else_branch : reads 0 else_branch.
Proof. unfold else_branch. reads. Qed.
Hint Resolve reads_else_branch : reads.

Lemma reads_statement_opcode : reads 1 statement_opcode.
Proof.
  unfold statement_opcode, def_break, def_breakpoint, def_continue, def_fatal, def_if_else,
    def_noop, def_return, def_while, p_id.
  reads.
Qed.
Hint Resolve reads_statement_opcode : reads.

Lemma reads_in_scope k p : reads k p -> reads k (in_scope p).
Proof. intros Hp. unfold in_scope. reads. Qed.

Lemma reads_field_element h f o : reads 1 (field_element h f o).
Proof. unfold field_element, reserved_field, named_field. reads. Qed.
Hint Resolve reads_field_element : reads.
Lemma reads_field_list len h f : reads 0 (field_list len h f).
Proof. unfold field_list. reads. Qed.
Hint Resolve reads_field_list reads_in_scope : reads.

Lemma reads_namespace_modifier : reads 1 namespace_modifier.
Proof.
  unfold namespace_modifier, def_name, def_scope. reads. apply reads_in_scope. reads.
Qed.

Lemma reads_named_obj : reads 1 named_obj.
Proof.
  unfold named_obj, def_create_bit_field, def_create_byte_field, def_create_word_field,
    def_create_dword_field, def_create_qword_field, create_fixed_field, def_create_field,
    def_op_region, def_field, opregion_as_handle, def_method, def_external, def_device,
    def_processor, def_power_res, def_thermal_zone, def_mutex.
  reads; apply reads_in_scope; reads.
Qed.
Hint Resolve reads_namespace_modifier reads_named_obj : reads.

Lemma reads_term_object : reads 1 term_object.
Proof. unfold term_object. reads. Qed.

Lemma reads_string_parser : reads 0 string_parser.
Proof.
  intros [i c]. unfold string_parser. destruct (nul_position i); [|fin].
  destruct (utf8_valid _); cbn; [|auto]. split; [apply suffix_drop|rewrite length_drop; lia].
Qed.
Hint Resolve reads_string_parser : reads.

Lemma reads_const_parser : reads 1 const_parser.
Proof.
  intros [i c]. unfold const_parser, se_bind. pose proof (reads_take (i, c)) as Ht.
  destruct (p_take (i, c)) as [op s| |]; [|fin..].
  assert (forall p : Parser AmlValue, reads 0 p ->
    match p s with
    | SOk _ s' => suffix s'.1 i /\ (length s'.1 + 1 <= length i)%nat
    | SErr _ s' => suffix s'.1 i
    | SFail _ => True
    end) as H.
  { intros p Hp. specialize (Hp s). cbn [fst] in Ht. destruct Ht as [H1 H2]. destruct (p s).
    - destruct Hp. split; [by etrans|lia].
    - by etrans.
    - done. }
  repeat case_bool_decide; try (apply H; solve [reads]). cbn. auto.
Qed.
Hint Resolve reads_const_parser : reads.

Lemma reads_data_object : reads 1 data_object.
Proof. unfold data_object, computational_data. reads. Qed.
Hint Resolve reads_data_object : reads.
Lemma reads_data_ref_object : reads 1 data_ref_object.
Proof. unfold data_ref_object. reads. Qed.
Lemma reads_term_arg : reads 1 term_arg.
Proof. unfold term_arg. reads. Qed.
End Grammar.

Section Interp.
Context {env : AmlEnv} {natives : UserNatives}.

#[export] Instance grammar_reads n : GrammarReads (grammar n).
Proof.
  induction n as [|n IH]; [split; intros s; exact I|]. cbn [grammar].
  split; [apply reads_term_arg|apply reads_data_ref_object|apply reads_term_object].
Qed.

(** Once the body of a loop consumes a byte in every round, a unit of fuel for
    every byte of the input is enough: more of it changes nothing. *)
Lemma parse_while_enough {A} m n len (body : A -> Parser A) a i c :
  0 <= end_offset len -> (forall a, reads 1 (body a)) ->
  (length i <= m)%nat -> (length i <= n)%nat ->
  parse_while n len body a (i, c) = parse_while m len body a (i, c).
Proof.
  intros Hlen Hb. revert n a i c.
  assert (still_parsing len [] = false) as E0 by (apply Z.ltb_ge; done).
  induction m as [|m IH]; intros n a i c Hm Hn; cbn [parse_while].
  - destruct i; [|cbn in Hm; lia]. destruct n; [done|]. cbn [parse_while]. by rewrite E0.
  - destruct n as [|n]; cbn [parse_while].
    { destruct i; [|cbn in Hn; lia]. by rewrite E0. }
    destruct (still_parsing len i); [|done].
    specialize (Hb a (i, c)). destruct (body a (i, c)) as [a' [i' c']|e s|r]; [|done..].
    cbn in Hb. apply IH; lia.
Qed.

(** A loop never runs out of the fuel that [parse_list] gives it. *)
Lemma parse_list_fuel {A} len (body : A -> Parser A) a i c :
  0 <= end_offset len -> (forall a, reads 1 (body a)) ->
  (forall a s, body a s <> SFail OutOfFuel) ->
  parse_list len body a (i, c) <> SFail OutOfFuel.
Proof.
  intros Hlen Hb Hf. unfold parse_list. cbn [fst].
  assert (still_parsing len [] = false) as E0 by (apply Z.ltb_ge; done).
  cut (forall n a i c, (length i <= n)%nat -> parse_while n len body a (i, c) <> SFail OutOfFuel).
  { intros H. by apply H. }
  clear a i c. induction n as [|n IH]; intros a i c Hn; cbn [parse_while].
  - destruct i; [|cbn in Hn; lia]. by rewrite E0.
  - destruct (still_parsing len i); [|done]. specialize (Hb a (i, c)). specialize (Hf a (i, c)).
    destruct (body a (i, c)) as [a' [i' c']|e s|r]; [|done|congruence].
    apply IH. cbn in Hb. lia.
Qed.

(** C13: Whatever the fuel, the parsers of terms leave a suffix of their input,
    whether they succeed or fail, and one that is at least a byte shorter when they
    succeed; so every loop over a term list ends, within a round per byte. *)
Theorem terms_consume_input n :
  reads 1 (@g_term_arg env (grammar n)) /\
  reads 1 (@g_data_ref_object env (grammar n)) /\
  reads 1 (@g_term_object env (grammar n)) /\
  forall len m i c, 0 <= end_offset len -> (length i <= m)%nat ->
    parse_while m len (fun _ => discard_result (@g_term_object env (grammar n))) tt (i, c)
    = @term_list env (grammar n) len (i, c).
Proof.
  split; [apply g_term_arg_reads|]. split; [apply g_data_ref_object_reads|].
  split; [apply g_term_object_reads|]. intros len m i c Hlen Hm. unfold term_list, parse_list.
  apply parse_while_enough; [done| |done|done]. intros _.
  apply reads_discard_result, g_term_object_reads.
Qed.
End Interp.

Lemma terms_consume_input_witness :
  @parse_while env_debug unit 40 (MkPkgLength 31 0)
    (fun _ => discard_result (@g_term_object env_debug (@grammar env_debug sample_natives 20))) tt
    (sample_table, sample_context) =
  @term_list env_debug (@grammar env_debug sample_natives 20) (MkPkgLength 31 0)
    (sample_table, sample_context).
Proof.
  destruct (@terms_consume_input env_debug sample_natives 20) as (_ & _ & _ & H).
  apply H; cbn; lia.
Defined.
