(* ===== verification/Fuel.v ===== *)
(** Fuel: more of it does not change a run that did not run out of it. The
    approximation order of the prelude is lifted through the combinators to the
    whole interpreter. *)
From S2P Require Import Prelude Types Names Namespace Env RustStd Context Value Parser.
From S2P Require Import PkgLength Opcode NameObject Grammar Expression Statement TermObject.
From S2P Require Import Interp Sample.
#[local] Open Scope Z_scope.

(** What the interpreter does with less fuel approximates what it does with more. *)
Record grammar_le {env : AmlEnv} (g h : Grammar) : Prop := {
  le_fuel : (@g_fuel env g <= @g_fuel env h)%nat;
  le_term_arg : se_le (@g_term_arg env g) (@g_term_arg env h);
  le_data_ref_object : se_le (@g_data_ref_object env g) (@g_data_ref_object env h);
  le_term_object : se_le (@g_term_object env g) (@g_term_object env h);
  le_invoke_method p a : se_le (@g_invoke_method env g p a) (@g_invoke_method env h p a)
}.

Create HintDb mono discriminated.

(** [n] continues the runs of [m] that do not run out of fuel. *)
Definition extends {env : AmlEnv} {A} (m n : SE AmlContext AmlError A) (c : AmlContext) : Prop :=
  m c <> SFail OutOfFuel -> n c = m c.

Section Rules.
Context {env : AmlEnv}.

(** Decides a goal [sres_le (match m s with ...) (match m' s with ...)] from
    the comparison of [m s] and [m' s], up to the continuation. *)
Ltac le_case H := destruct H as [->| ->]; [by left|].

Lemma le_map_with_context {R A} (p q : Parser R) (f h : R -> SE AmlContext Propagate A) :
  se_le p q -> (forall r, se_le (f r) (h r)) ->
  se_le (map_with_context p f) (map_with_context q h).
Proof.
  intros Hp Hf [i c]. unfold map_with_context. le_case (Hp (i, c)).
  destruct (q (i, c)) as [r [i' c']| |]; [|reflexivity..]. le_case (Hf r c'). reflexivity.
Qed.

Lemma le_choice {R} (ps qs : list (Parser R)) : Forall2 se_le ps qs -> se_le (choice ps) (choice qs).
Proof.
  intros H [i c]. revert c. induction H as [|p q ps qs Hp Hps IH]; intros c; cbn; [reflexivity|].
  le_case (Hp (i, c)). destruct (q (i, c)) as [|e s|]; [reflexivity| |reflexivity].
  destruct (is_wrong_parser e); [apply IH|reflexivity].
Qed.

Lemma le_n_of {R} (p q : Parser R) n : se_le p q -> se_le (n_of p n) (n_of q n).
Proof.
  intros Hp. induction n as [|n IH]; [reflexivity|]. intros [i c]. cbn [n_of].
  le_case (Hp (i, c)). destruct (q (i, c)) as [r s| |]; [|reflexivity..].
  le_case (IH s). reflexivity.
Qed.

Lemma le_extract {R} (p q : Parser R) : se_le p q -> se_le (extract p) (extract q).
Proof. intros Hp [i c]. unfold extract. le_case (Hp (i, c)). reflexivity. Qed.

Lemma le_on_context {A} (m n : SE AmlContext Propagate A) :
  se_le m n -> se_le (on_context m) (on_context n).
Proof. intros H [i c]. unfold on_context. le_case (H c). reflexivity. Qed.

Lemma le_map_err {S E F A} (f : E -> F) (m n : SE S E A) :
  se_le m n -> se_le (se_map_err f m) (se_map_err f n).
Proof. intros H s. unfold se_map_err. le_case (H s). reflexivity. Qed.

Lemma le_run_on {R} (p q : Parser R) code : se_le p q -> se_le (run_on p code) (run_on q code).
Proof. intros H c. unfold run_on. le_case (H (code, c)). reflexivity. Qed.

Lemma le_with_lock {A} l (f h : bytes -> SE AmlContext AmlError A) :
  (forall d, se_le (f d) (h d)) -> se_le (with_lock l f) (with_lock l h).
Proof.
  intros Hf c. unfold with_lock. destruct (load_buffer l c) as [d s| |]; [|reflexivity..].
  le_case (Hf d (set_locked (l :: locked c) c)). reflexivity.
Qed.

Lemma le_parse_while {A} n len (f h : A -> Parser A) a :
  (forall a, se_le (f a) (h a)) -> se_le (parse_while n len f a) (parse_while n len h a).
Proof.
  intros Hf. revert a. induction n as [|n IH]; intros a [i c]; cbn [parse_while]; [reflexivity|].
  destruct (still_parsing len i); [|reflexivity]. le_case (Hf a (i, c)).
  destruct (h a (i, c)) as [a' s| |]; [apply IH|reflexivity..].
Qed.

Lemma le_parse_list {A} len (f h : A -> Parser A) a :
  (forall a, se_le (f a) (h a)) -> se_le (parse_list len f a) (parse_list len h a).
Proof. intros Hf s. by apply le_parse_while. Qed.
End Rules.

Ltac mono_step :=
  match goal with
  | |- forall _, _ => intros ?
  | |- se_le ?m ?m => reflexivity
  | |- se_le (match ?x with _ => _ end) _ => destruct x
  | |- se_le (se_bind _ _) _ => apply se_le_bind
  | |- se_le (se_try _) _ => apply se_le_try
  | |- se_le (p_feed _ _) _ => apply se_le_bind
  | |- se_le (p_then _ _) _ => apply se_le_bind
  | |- se_le (discard_result _) _ => apply se_le_bind
  | |- se_le (map_with_context _ _) _ => apply le_map_with_context
  | |- se_le (p_map _ _) _ => apply le_map_with_context
  | |- se_le (second _) _ => apply le_map_with_context
  | |- se_le (comment_scope _ _) _ => unfold comment_scope
  | |- se_le (on_context _) _ => apply le_on_context
  | |- se_le (ctx _) _ => apply le_map_err
  | |- se_le (choice _) _ => apply le_choice
  | |- se_le (n_of _ _) _ => apply le_n_of
  | |- se_le (extract _) _ => apply le_extract
  | |- se_le (run_on _ _) _ => apply le_run_on
  | |- se_le (with_lock _ _) _ => apply le_with_lock
  | |- se_le (parse_list _ _ _) _ => apply le_parse_list
  | |- Forall2 _ (_ :: _) _ => constructor
  | |- Forall2 _ [] _ => constructor
  | |- se_le _ _ => solve [eauto 3 with mono]
  end.
Ltac mono := repeat mono_step.

#[export] Hint Resolve le_fuel le_term_arg le_data_ref_object le_term_object le_invoke_method : mono.

(** * Conversions *)

Section Value.
Context {env : AmlEnv}.

Section Conversions.
Context (f h : AmlValue -> SE AmlContext AmlError Z) (Hf : forall v, se_le (f v) (h v)).
Hint Resolve Hf : mono.

Lemma le_pci_optional name p w : se_le (pci_optional f name p w) (pci_optional h name p w).
Proof. unfold pci_optional. mono. Qed.
Hint Resolve le_pci_optional : mono.
Lemma le_pci_function p : se_le (pci_function f p) (pci_function h p).
Proof. unfold pci_function. mono. Qed.
Hint Resolve le_pci_function : mono.
Lemma le_read_region r o l : se_le (read_region f r o l) (read_region h r o l).
Proof. unfold read_region. mono. Qed.
Lemma le_write_region r o l v : se_le (write_region f r o l v) (write_region h r o l v).
Proof. unfold write_region. mono. Qed.
Hint Resolve le_read_region le_write_region : mono.
Lemma le_read_field v : se_le (read_field f v) (read_field h v).
Proof. unfold read_field. mono. Qed.
Hint Resolve le_read_field : mono.
Lemma le_write_field v x : se_le (write_field f v x) (write_field h v x).
Proof. unfold write_field. mono. Qed.
End Conversions.
Hint Resolve le_read_field le_write_field : mono.

Lemma le_as_integer m n v : (m <= n)%nat -> se_le (as_integer m v) (as_integer n v).
Proof.
  revert n v. induction m as [|m IH]; intros n v Hle; [by left|].
  destruct n as [|n]; [lia|]. cbn [as_integer].
  assert (forall v, se_le (as_integer m v) (as_integer n v)) as H by (intros; apply IH; lia).
  mono.
Qed.
Hint Resolve le_as_integer : mono.

Lemma le_as_buffer m n v : (m <= n)%nat -> se_le (as_buffer m v) (as_buffer n v).
Proof.
  revert n v. induction m as [|m IH]; intros n v Hle; [by left|].
  destruct n as [|n]; [lia|]. cbn [as_buffer].
  assert ((m <= n)%nat) as Hmn by lia. mono.
Qed.
Lemma le_as_string m n v : (m <= n)%nat -> se_le (as_string m v) (as_string n v).
Proof.
  revert n v. induction m as [|m IH]; intros n v Hle; [by left|].
  destruct n as [|n]; [lia|]. cbn [as_string].
  assert ((m <= n)%nat) as Hmn by lia. mono.
Qed.
Hint Resolve le_as_buffer le_as_string : mono.

Lemma le_as_type m n v t : (m <= n)%nat -> se_le (as_type m v t) (as_type n v t).
Proof. intros Hle. unfold as_type. mono. Qed.
Hint Resolve le_as_type : mono.
Lemma le_value_cmp m n v w : (m <= n)%nat -> se_le (value_cmp m v w) (value_cmp n v w).
Proof. intros Hle. unfold value_cmp. mono. Qed.
Lemma le_store m n t v : (m <= n)%nat -> se_le (store m t v) (store n t v).
Proof. intros Hle. unfold store. mono. Qed.
End Value.
#[export] Hint Resolve le_as_integer le_as_buffer le_as_string le_as_type le_value_cmp
  le_store : mono.

(** * The grammar *)

Section Grammar.
Context {env : AmlEnv} (g h : Grammar) (Hle : grammar_le g h).
Let fuel_le : (@g_fuel env g <= @g_fuel env h)%nat := le_fuel _ _ Hle.
Hint Resolve Hle fuel_le : mono.


Lemma le_term_list len : se_le (@term_list env g len) (@term_list env h len).
Proof. unfold term_list. mono. Qed.
Hint Resolve le_term_list : mono.
Lemma le_run_term_list code : se_le (@run_term_list env g code) (@run_term_list env h code).
Proof. unfold run_term_list. mono. Qed.
Hint Resolve le_run_term_list : mono.

Lemma le_store_result t v : se_le (@store_result env g t v) (@store_result env h t v).
Proof. unfold store_result. mono. Qed.
Hint Resolve le_store_result : mono.

Lemma le_def_buffer : se_le (@def_buffer env g) (@def_buffer env h).
Proof. unfold def_buffer, op_scope, buffer_contents. mono. Qed.
Lemma le_package_element : se_le (@package_element env g) (@package_element env h).
Proof. unfold package_element. mono. Qed.
Hint Resolve le_def_buffer le_package_element : mono.
Lemma le_def_package : se_le (@def_package env g) (@def_package env h).
Proof. unfold def_package, op_scope. mono. Qed.
Hint Resolve le_def_package : mono.

Lemma le_expression_opcode : se_le (@expression_opcode env g) (@expression_opcode env h).
Proof.
  unfold expression_opcode, def_add, def_and, def_concat, def_concat_res, def_increment,
    def_decrement, def_l_equal, def_l_greater, def_l_greater_equal, def_l_less,
    def_l_less_equal, def_l_not_equal, def_l_or, def_mid, def_shift_left, def_shift_right,
    shift_op, def_store, def_to_integer, method_invocation, op_scope, negated_scope,
    compare_operands, concat_values, to_integer.
  mono.
Qed.
Hint Resolve le_expression_opcode : mono.

Lemma le_while_loop m n s b : (m <= n)%nat ->
  se_le (@while_loop env g m s b) (@while_loop env h n s b).
Proof.
  revert n. induction m as [|m IH]; intros n Hn; [by left|].
  destruct n as [|n]; [lia|]. cbn [while_loop].
  assert (se_le (@while_loop env g m s b) (@while_loop env h n s b)) as H by (apply IH; lia).
  mono.
Qed.
Hint Resolve le_while_loop : mono.

Lemma le_statement_opcode : se_le (@statement_opcode env g) (@statement_opcode env h).
Proof.
  unfold statement_opcode, def_break, def_breakpoint, def_continue, def_fatal, def_if_else,
    def_noop, def_return, def_while.
  mono.
Qed.
Hint Resolve le_statement_opcode : mono.

Lemma le_in_scope p q : se_le p q -> se_le (@in_scope env g p) (@in_scope env h q).
Proof. intros Hp. unfold in_scope. mono. Qed.

Lemma le_namespace_modifier : se_le (@namespace_modifier env g) (@namespace_modifier env h).
Proof. unfold namespace_modifier, def_name, def_scope. mono. apply le_in_scope. mono. Qed.

Lemma le_named_obj : se_le (@named_obj env g) (@named_obj env h).
Proof.
  unfold named_obj, def_create_bit_field, def_create_byte_field, def_create_word_field,
    def_create_dword_field, def_create_qword_field, create_fixed_field, create_field,
    def_create_field, def_op_region, def_field, def_device, def_processor, def_power_res,
    def_thermal_zone.
  mono; apply le_in_scope; mono.
Qed.
Hint Resolve le_namespace_modifier le_named_obj : mono.

Lemma le_data_object : se_le (@data_object env g) (@data_object env h).
Proof. unfold data_object, computational_data. mono. Qed.
Hint Resolve le_data_object : mono.

Context {natives : UserNatives}.

Lemma le_method_result (m n : SE AmlContext Propagate unit) :
  se_le m n -> se_le (method_result m) (method_result n).
Proof. intros H c. unfold method_result. destruct (H c) as [->| ->]; [by left|reflexivity]. Qed.

Lemma le_run_code code : se_le (@run_code _ _ g code) (@run_code _ _ h code).
Proof.
  destruct code as [code|[|n]]; cbn [run_code run_native].
  - apply le_method_result. mono.
  - unfold osi_method. mono.
  - mono.
Qed.
Hint Resolve le_run_code : mono.

Lemma grammar_step_le : grammar_le (grammar_step g) (grammar_step h).
Proof.
  split; cbn [grammar_step g_fuel g_term_arg g_data_ref_object g_term_object g_invoke_method].
  - apply le_n_S, fuel_le.
  - unfold term_arg. mono.
  - unfold data_ref_object. mono.
  - unfold term_object. mono.
  - intros p a. unfold invoke_method. mono.
Qed.
End Grammar.

Section Interp.
Context {env : AmlEnv} {natives : UserNatives}.

Lemma no_grammar_le (g : Grammar) : grammar_le no_grammar g.
Proof. split; cbn; [lia|intros ?; by left..]. Qed.

Lemma grammar_mono m n : (m <= n)%nat -> grammar_le (grammar m) (grammar n).
Proof.
  revert n. induction m as [|m IH]; intros n Hle; [apply no_grammar_le|].
  destruct n as [|n]; [lia|]. apply grammar_step_le, IH. lia.
Qed.

Lemma le_parse_table m n stream : (m <= n)%nat ->
  se_le (parse_table m stream) (parse_table n stream).
Proof.
  intros Hle. destruct stream as [|b s]; [reflexivity|]. intros c. unfold parse_table.
  destruct (le_run_term_list _ _ (grammar_mono m n Hle) (b :: s) c) as [->| ->]; [by left|reflexivity].
Qed.

Lemma le_invoke m n path args : (m <= n)%nat ->
  se_le (invoke m path args) (invoke n path args).
Proof.
  intros Hle. apply (le_invoke_method _ _ (grammar_step_le _ _ (grammar_mono m n Hle))).
Qed.
Hint Resolve le_invoke : mono.

Lemma le_initialize_level m n path level : (m <= n)%nat ->
  se_le (initialize_level m path level) (initialize_level n path level).
Proof. intros Hle. unfold initialize_level, invoke_device_method. mono. Qed.

Lemma le_traverse_level f h level path :
  (forall p l, se_le (f p l) (h p l)) ->
  se_le (traverse_level f level path) (traverse_level (S := AmlContext) h level path).
Proof.
  intros Hf. revert level path. fix IH 1. intros [t cs vs] path.
  cbn [traverse_level]. induction cs as [|[s l] cs IHcs]; [reflexivity|].
  apply se_le_bind; [reflexivity|intros p]. apply se_le_bind; [apply Hf|intros b].
  apply se_le_bind; [destruct b; [apply IH|reflexivity]|intros _]. apply IHcs.
Qed.

Lemma le_initialize_objects m n : (m <= n)%nat ->
  se_le (initialize_objects m) (initialize_objects n).
Proof.
  intros Hle. unfold initialize_objects. mono. unfold traverse. 
  apply se_le_bind; [by apply le_initialize_level|intros b].
  destruct b; [|reflexivity]. apply le_traverse_level. intros. by apply le_initialize_level.
Qed.

(** Fuel only bounds the depth of the recursion: a run of the interpreter that
    did not run out of fuel gives the same result and the same context with any
    larger amount, for the parsing of tables, the invocation of methods and the
    initialization of devices. *)
Theorem fuel_monotone m n c : (m <= n)%nat ->
  (forall stream, extends (parse_table m stream) (parse_table n stream) c) /\
  (forall path args, extends (invoke m path args) (invoke n path args) c) /\
  extends (initialize_objects m) (initialize_objects n) c.
Proof.
  intros Hle. split; [|split]; intros; unfold extends; intros; apply sres_le_ok; try done.
  - by apply le_parse_table.
  - by apply le_invoke.
  - by apply le_initialize_objects.
Qed.
End Interp.

Lemma fuel_monotone_witness :
  @parse_table env_debug sample_natives 20 sample_table sample_context <> SFail OutOfFuel /\
  @parse_table env_debug sample_natives 30 sample_table sample_context =
    @parse_table env_debug sample_natives 20 sample_table sample_context.
Proof.
  destruct (@fuel_monotone env_debug sample_natives 20 30 sample_context ltac:(lia)) as [H _].
  split; [exact sample_run_ends|]. exact (H sample_table sample_run_ends).
Defined.
