(* ===== verification/Safety.v ===== *)
(** The invariant of the context, and the judgement with which it is proved: every
    value that the context holds is of its type, every handle and every buffer it
    refers to exists, the current scope is absolute and normal. The judgement is
    indexed by a world, the part of the context that only grows. *)
From S2P Require Import Prelude Types Names Namespace Env RustStd Context Value Parser.
From S2P Require Import PkgLength Opcode NameObject Grammar.
#[local] Open Scope Z_scope.

(** * The invariant *)

(** The number of buffers, the types of the objects by their handles, and whether
    arithmetic is checked: when it is not, the handles wrap around in the end and objects
    are replaced. *)
Record world := World { w_bufs : nat; w_types : gmap Z AmlType; w_checked : bool }.
Definition w_objs (w : world) : gset Z := dom (w_types w).

(** Buffers and objects are not lost, and objects keep their types. *)
Definition wle (w w' : world) : Prop :=
  (w_bufs w <= w_bufs w')%nat /\ w_objs w ⊆ w_objs w' /\ w_checked w = w_checked w' /\
  (w_checked w = true -> w_types w ⊆ w_types w').

Definition buf_ok (w : world) (l : BufRef) : Prop := (l < w_bufs w)%nat.
Definition handle_ok (w : world) (h : AmlHandle) : Prop := h ∈ w_objs w.
Definition has_type (w : world) (h : AmlHandle) (t : AmlType) : Prop :=
  w_checked w = true -> w_types w !! h = Some t.
Definition scope_ok (n : AmlName) : Prop := is_absolute n = true /\ is_normal n = true.

(** A name as the parsers read them: an absolute name has no [^]s. *)
Definition name_fine (n : AmlName) : Prop := is_absolute n = true -> is_normal n = true.

Fixpoint value_ok (w : world) (v : AmlValue) : Prop :=
  match v with
  | VInteger z => is_u64 z
  | VOpRegion _ offset length parent =>
      is_u64 offset /\ is_u64 length /\ match parent with Some p => scope_ok p | None => True end
  | VField h _ offset length => handle_ok w h /\ is_u64 offset /\ is_u64 length
  | VBuffer l => buf_ok w l
  | VBufferField l offset length => buf_ok w l /\ is_u64 offset /\ is_u64 length
  | VProcessor _ address _ => is_u32 address
  | VPowerResource _ order => is_u16 order
  | VPackage vs => foldr (fun v P => value_ok w v /\ P) True vs
  | _ => True
  end.

Definition slot_ok (w : world) (o : option AmlValue) : Prop :=
  match o with Some v => value_ok w v | None => True end.
Definition args_ok (w : world) (a : Args) : Prop := length a = 7%nat /\ Forall (slot_ok w) a.
Definition method_ok (w : world) (m : MethodContext) : Prop :=
  length (locals m) = 8%nat /\ Forall (slot_ok w) (locals m) /\ args_ok w (args m).

Section Invariant.
Context {env : AmlEnv}.

Definition world_of (c : AmlContext) : world :=
  World (length (buffers c)) (type_of <$> object_map (namespace c)) overflow_checks.

Record wf (c : AmlContext) : Prop := {
  wf_handles : handles_valid (namespace c);
  wf_objects : map_Forall (fun _ v => value_ok (world_of c) v) (object_map (namespace c));
  wf_method : match method_context c with
              | Some m => method_ok (world_of c) m
              | None => True
              end;
  wf_scope : scope_ok (current_scope c);
  wf_indent : in_width usize_bits (scope_indent c);
  wf_fresh : overflow_checks = true -> handles_fresh (namespace c)
  }.

(** What every run keeps: the invariant, the world, and the held locks. *)
Definition good (c c' : AmlContext) : Prop :=
  wf c' /\ wle (world_of c) (world_of c') /\ locked c' = locked c.
End Invariant.

(** The states that hold a context, and the errors that hold a value. *)
Class HasContext {env : AmlEnv} (S : Type) := context_of : S -> AmlContext.
Class ErrorOk (E : Type) := error_ok : world -> E -> Prop.
#[export] Instance context_context {env : AmlEnv} : HasContext AmlContext := fun c => c.
#[export] Instance parser_context {env : AmlEnv} : HasContext (bytes * AmlContext) := snd.
#[export] Instance aml_error_ok : ErrorOk AmlError := fun _ _ => True.
#[export] Instance propagate_ok : ErrorOk Propagate := fun w e =>
  match e with PReturn v => value_ok w v | _ => True end.

(** [safe w m Q]: in every context that satisfies the invariant and is above the
    world [w], [m] keeps the invariant, whether it succeeds or fails; its result
    satisfies [Q] of the world it leaves, a value that it propagates is of its
    type; and it does not follow a dangling reference. *)
Definition safe {env : AmlEnv} {S E A} {HS : HasContext S} {HE : ErrorOk E}
    (w : world) (m : SE S E A) (Q : world -> A -> Prop) : Prop := forall s,
  wle w (world_of (context_of s)) -> wf (context_of s) ->
  match m s with
  | SOk a s' =>
      good (context_of s) (context_of s') /\ Q (world_of (context_of s')) a
  | SErr e s' =>
      good (context_of s) (context_of s') /\ error_ok (world_of (context_of s')) e
  | SFail r => r <> UB
  end.

(** Predicates on results. *)
Definition any {A} (_ : world) (_ : A) : Prop := True.
Definition pure {A} (P : A -> Prop) (_ : world) (a : A) : Prop := P a.
Definition both {A B} (Q1 : world -> A -> Prop) (Q2 : world -> B -> Prop)
  (w : world) (r : A * B) : Prop := Q1 w r.1 /\ Q2 w r.2.
Definition values_ok (w : world) (vs : list AmlValue) : Prop := Forall (value_ok w) vs.
Definition method_opt_ok (w : world) (m : option MethodContext) : Prop :=
  match m with Some m => method_ok w m | None => True end.

Definition namespace_ok (w : world) (ns : Namespace) : Prop :=
  forall h v, ns_get ns h = Ok v -> value_ok w v.

Class Mono {A} (Q : world -> A -> Prop) := mono w w' a : wle w w' -> Q w a -> Q w' a.

(** * Monotonicity *)

#[export] Instance wle_refl : Reflexive wle.
Proof. intros w. by split_and!. Qed.
#[export] Instance wle_trans : Transitive wle.
Proof.
  intros w1 w2 w3 (H1 & H2 & H3 & H4) (H5 & H6 & H7 & H8).
  split_and!; [lia|set_solver|congruence|]. intros H. etrans; [by apply H4|apply H8; congruence].
Qed.

Lemma buf_ok_mono w w' l : wle w w' -> buf_ok w l -> buf_ok w' l.
Proof. unfold buf_ok. intros []. lia. Qed.
Lemma handle_ok_mono w w' h : wle w w' -> handle_ok w h -> handle_ok w' h.
Proof. unfold handle_ok. intros (_ & H & _). set_solver. Qed.
Lemma has_type_mono w w' h t : wle w w' -> has_type w h t -> has_type w' h t.
Proof.
  unfold has_type. intros (_ & _ & E & H) Ht Hc. rewrite <-E in Hc.
  eapply lookup_weaken; [by apply Ht|by apply H].
Qed.

Lemma value_ok_package w vs : value_ok w (VPackage vs) <-> Forall (value_ok w) vs.
Proof.
  cbn. induction vs as [|v vs IH]; cbn; [by split|]. rewrite IH, Forall_cons. done.
Qed.

Lemma value_ok_mono w w' v : wle w w' -> value_ok w v -> value_ok w' v.
Proof.
  intros Hw. induction v as [v Hv|vs IH] using AmlValue_nested_ind.
  - destruct v; cbn; try done; [intros (? & ? & ?)| |intros (? & ? & ?)|by destruct (Hv elements)];
      split_and?; eauto using buf_ok_mono, handle_ok_mono.
  - rewrite !value_ok_package. intros H. rewrite Forall_forall in *. auto.
Qed.

Lemma values_ok_mono w w' vs : wle w w' -> Forall (value_ok w) vs -> Forall (value_ok w') vs.
Proof. intros Hw H. eapply Forall_impl; [exact H|]. intros v. by apply value_ok_mono. Qed.
Lemma slot_ok_mono w w' o : wle w w' -> slot_ok w o -> slot_ok w' o.
Proof. destruct o; [apply value_ok_mono|done]. Qed.
Lemma slots_ok_mono w w' l : wle w w' -> Forall (slot_ok w) l -> Forall (slot_ok w') l.
Proof. intros Hw H. eapply Forall_impl; [exact H|]. intros o. by apply slot_ok_mono. Qed.
Lemma args_ok_mono w w' a : wle w w' -> args_ok w a -> args_ok w' a.
Proof. intros Hw [H1 H2]. split; eauto using slots_ok_mono. Qed.
Lemma method_ok_mono w w' m : wle w w' -> method_ok w m -> method_ok w' m.
Proof. intros Hw (H1 & H2 & H3). split_and!; eauto using slots_ok_mono, args_ok_mono. Qed.
Lemma error_ok_mono w w' (e : Propagate) : wle w w' -> error_ok w e -> error_ok w' e.
Proof. destruct e; cbn; eauto using value_ok_mono. Qed.

#[export] Instance any_mono {A} : Mono (A := A) any.
Proof. done. Qed.
#[export] Instance pure_mono {A} (P : A -> Prop) : Mono (pure P).
Proof. intros w w' a _ H. exact H. Qed.
#[export] Instance both_mono {A B} (Q1 : world -> A -> Prop) (Q2 : world -> B -> Prop) :
  Mono Q1 -> Mono Q2 -> Mono (both Q1 Q2).
Proof. intros M1 M2 w w' a Hw [H1 H2]. split; [by eapply M1|by eapply M2]. Qed.
#[export] Instance value_ok_Mono : Mono value_ok := value_ok_mono.
#[export] Instance values_ok_Mono : Mono values_ok := values_ok_mono.
#[export] Instance buf_ok_Mono : Mono buf_ok := buf_ok_mono.
#[export] Instance handle_ok_Mono : Mono handle_ok := handle_ok_mono.
#[export] Instance method_opt_ok_Mono : Mono method_opt_ok.
Proof. intros w w' [m|] Hw; [by apply method_ok_mono|done]. Qed.

(** Moves what is known in the world [w] to the world [w']. *)
Ltac upgrade Hw :=
  match type of Hw with
  | wle ?w ?w' =>
      repeat match goal with
             | H : value_ok w _ |- _ => apply (value_ok_mono _ _ _ Hw) in H
             | H : values_ok w _ |- _ => apply (values_ok_mono _ _ _ Hw) in H
             | H : Forall (value_ok w) _ |- _ => apply (values_ok_mono _ _ _ Hw) in H
             | H : method_opt_ok w _ |- _ => apply (method_opt_ok_Mono _ _ _ Hw) in H
             | H : Forall (slot_ok w) _ |- _ => apply (slots_ok_mono _ _ _ Hw) in H
             | H : slot_ok w _ |- _ => apply (slot_ok_mono _ _ _ Hw) in H
             | H : args_ok w _ |- _ => apply (args_ok_mono _ _ _ Hw) in H
             | H : method_ok w _ |- _ => apply (method_ok_mono _ _ _ Hw) in H
             | H : buf_ok w _ |- _ => apply (buf_ok_mono _ _ _ Hw) in H
             | H : handle_ok w _ |- _ => apply (handle_ok_mono _ _ _ Hw) in H
             | H : has_type w _ _ |- _ => apply (has_type_mono _ _ _ _ Hw) in H
             end
  end.

(** * Rules *)

Section Rules.
Context {env : AmlEnv}.

Lemma good_refl c : wf c -> good c c.
Proof. intros H. by split_and!. Qed.
Lemma good_trans c1 c2 c3 : good c1 c2 -> good c2 c3 -> good c1 c3.
Proof. intros (H1 & H2 & H3) (H4 & H5 & H6). split_and!; [done|by etrans|congruence]. Qed.

Section Generic.
Context {S E : Type} {HS : HasContext S} {HE : ErrorOk E}.

Lemma safe_weaken {A} w w' (m : SE S E A) (Q Q' : world -> A -> Prop) :
  safe w m Q' -> wle w w' ->
  (forall v a, wle w' v -> Q' v a -> Q v a) -> safe w' m Q.
Proof.
  intros Hm Hle HQ s Hw Hs. specialize (Hm s (transitivity Hle Hw) Hs).
  destruct (m s) as [a s'|e s'|r]; [|done|done]. destruct Hm as [Hg Ha].
  split; [done|]. apply HQ; [|done]. etrans; [exact Hw|apply Hg].
Qed.

Lemma safe_ret {A} w (a : A) (Q : world -> A -> Prop) `{!Mono Q} :
  Q w a -> safe w (se_ret a : SE S E A) Q.
Proof. intros HQ s Hw Hs. split; [by apply good_refl|by eapply mono]. Qed.

Lemma safe_err {A} w e (Q : world -> A -> Prop) :
  (forall w', wle w w' -> error_ok w' e) -> safe w (se_err e : SE S E A) Q.
Proof. intros HQ s Hw Hs. split; [by apply good_refl|by apply HQ]. Qed.

Lemma safe_fail {A} w r (Q : world -> A -> Prop) : r <> UB -> safe w (se_fail r : SE S E A) Q.
Proof. intros Hr s Hw Hs. done. Qed.

Lemma safe_lift {A} w r (Q : world -> A -> Prop) :
  (forall a w', r = Ok a -> wle w w' -> Q w' a) ->
  (forall e w', r = Err e -> wle w w' -> error_ok w' e) -> r <> Fail UB ->
  safe w (se_lift r : SE S E A) Q.
Proof.
  intros Ha He Hr s Hw Hs. unfold se_lift. destruct r as [a|e|f].
  - split; [by apply good_refl|by apply Ha].
  - split; [by apply good_refl|by apply He].
  - congruence.
Qed.

Lemma safe_bind {A B} w (m : SE S E A) (k : A -> SE S E B) (Q : world -> A -> Prop) Q' :
  safe w m Q -> (forall w' a, wle w w' -> Q w' a -> safe w' (k a) Q') ->
  safe w (se_bind m k) Q'.
Proof.
  intros Hm Hk s Hw Hs. unfold se_bind. specialize (Hm s Hw Hs).
  destruct (m s) as [a s'|e s'|r]; [|done|done]. destruct Hm as [Hg Ha].
  specialize (Hk _ a (transitivity Hw (proj1 (proj2 Hg))) Ha s' (reflexivity _) (proj1 Hg)).
  destruct (k a s') as [b s''|e s''|r]; [| |done]; destruct Hk as [Hg' Hb];
  (split; [by eapply good_trans|done]).
Qed.

Lemma safe_any {A} w (m : SE S E A) (Q : world -> A -> Prop) : safe w m Q -> safe w m any.
Proof. intros Hm. eapply safe_weaken; [exact Hm|reflexivity|done]. Qed.

Lemma safe_lift_ok {A} w (a : A) (Q : world -> A -> Prop) `{!Mono Q} :
  Q w a -> safe w (se_lift (Ok a) : SE S E A) Q.
Proof. apply (safe_ret w a Q). Qed.

Lemma safe_lift_err {A} w e (Q : world -> A -> Prop) :
  (forall w', wle w w' -> error_ok w' e) -> safe w (se_lift (Err e) : SE S E A) Q.
Proof. apply safe_err. Qed.

Lemma safe_bind_lift {A B} w (r : result E A) (k : A -> SE S E B) Q :
  (forall e w', r = Err e -> wle w w' -> error_ok w' e) -> r <> Fail UB ->
  (forall a, r = Ok a -> safe w (k a) Q) -> safe w (se_bind (se_lift r) k) Q.
Proof.
  intros He Hr Hk. eapply (safe_bind _ _ _ (fun _ a => r = Ok a)).
  - apply safe_lift; [done|done|done].
  - intros w' a Hw Ha. eapply safe_weaken; [by apply Hk|done|done].
Qed.

Lemma safe_try {A} w (m : SE S E A) (Q : world -> A -> Prop) :
  safe w m Q ->
  safe w (se_try m) (fun w r =>
  match r with Ok a => Q w a | Err e => error_ok w e | Fail r => False end).
Proof.
  intros Hm s Hw Hs. unfold se_try. specialize (Hm s Hw Hs). by destruct (m s).
Qed.
End Generic.
End Rules.

(** * Results that are not undefined *)

Create HintDb noub discriminated.

Lemma bind_no_ub {E A B} (m : result E A) (k : A -> result E B) :
  m <> Fail UB -> (forall a, m = Ok a -> k a <> Fail UB) -> result_bind m k <> Fail UB.
Proof. intros Hm Hk. destruct m; cbn; [by apply Hk|done|congruence]. Qed.
Lemma map_err_no_ub {E F A} (f : E -> F) (m : result E A) :
  m <> Fail UB -> result_map_err f m <> Fail UB.
Proof. intros Hm. destruct m; cbn; [done|done|congruence]. Qed.
Lemma unwrap_no_ub {E A} (o : option A) : unwrap o <> (Fail UB : result E A).
Proof. by destruct o. Qed.
Lemma unwrap_ok_no_ub {E F A} (m : result E A) : m <> Fail UB -> unwrap_ok m <> (Fail UB : result F A).
Proof. intros Hm. destruct m; cbn; [done|done|congruence]. Qed.
Lemma ok_or_no_ub {E A} (e : E) (o : option A) : ok_or e o <> Fail UB.
Proof. by destruct o. Qed.
Lemma assert_no_ub {E} b : assert_ b <> (Fail UB : result E unit).
Proof. by destruct b. Qed.
Lemma checked_no_ub {tgt : Target} {E} w z : checked w z <> (Fail UB : result E Z).
Proof. unfold checked. by repeat case_match. Qed.
Lemma resolve_no_ub n s : resolve n s <> Fail UB.
Proof.
  unfold resolve, assert_. destruct (is_absolute s); cbn; [|done].
  destruct (is_absolute n); [done|]. apply normalize_not_fail.
Qed.
Lemma parent_no_ub n : parent n <> Fail UB.
Proof. apply parent_not_fail. Qed.
Lemma normalize_no_ub n : normalize n <> Fail UB.
Proof. apply normalize_not_fail. Qed.
Lemma slice_no_ub {A E} (l : list A) a b : slice l a b <> (Fail UB : result E _).
Proof. unfold slice. by case_match. Qed.
Lemma slice_write_no_ub {A E} (l : list A) a b x : slice_write l a b x <> (Fail UB : result E _).
Proof. unfold slice_write. by case_match. Qed.
Lemma str_slice_no_ub {E} s a b : str_slice s a b <> (Fail UB : result E _).
Proof. unfold str_slice. by case_match. Qed.
#[export] Hint Resolve unwrap_no_ub ok_or_no_ub assert_no_ub checked_no_ub resolve_no_ub
  parent_no_ub normalize_no_ub slice_no_ub slice_write_no_ub str_slice_no_ub : noub.

Ltac noub_step :=
  match goal with
  | |- forall _, _ => intros ?
  | |- _ -> _ => intros ?
  | |- Ok _ <> _ => discriminate
  | |- Err _ <> _ => discriminate
  | |- Fail Panic <> _ => discriminate
  | |- Fail OutOfFuel <> _ => discriminate
  | |- Fail _ <> _ => congruence
  | |- result_bind _ _ <> _ => apply bind_no_ub
  | |- result_map_err _ _ <> _ => apply map_err_no_ub
  | |- prop _ <> _ => apply map_err_no_ub
  | |- unwrap_ok _ <> _ => apply unwrap_ok_no_ub
  | |- add_w _ _ _ <> _ => apply checked_no_ub
  | |- sub_w _ _ _ <> _ => apply checked_no_ub
  | |- mul_w _ _ _ <> _ => apply checked_no_ub
  | |- _ => solve [eauto 2 with noub]
  | |- (match ?x with _ => _ end) <> _ => destruct x eqn:?
  end.
Ltac noub := repeat noub_step.

Lemma split_path_no_ub p : split_path p <> Fail UB.
Proof. unfold split_path. noub. Qed.
Lemma descend_no_ub t l ls : descend t l ls <> Fail UB.
Proof.
  revert t l. induction ls as [|c ls IH]; intros t l; cbn; [done|]. destruct c; noub.
Qed.
#[export] Hint Resolve split_path_no_ub descend_no_ub : noub.
Lemma get_level_for_path_no_ub ns p : get_level_for_path ns p <> Fail UB.
Proof. unfold get_level_for_path. noub. Qed.
#[export] Hint Resolve get_level_for_path_no_ub : noub.

Lemma search_loop_no_ub fuel ns n s : search_loop fuel ns n s <> Fail UB.
Proof.
  revert s. induction fuel as [|fuel IH]; intros s; cbn [search_loop]; [done|]. noub.
  all: try (pose proof (get_level_for_path_no_ub ns a); pose proof (parent_no_ub s); congruence).
Qed.
Lemma search_no_ub ns n s : search ns n s <> Fail UB.
Proof. unfold search. noub. apply search_loop_no_ub. Qed.
Lemma ns_get_no_ub ns h : ns_get ns h <> Fail UB.
Proof. apply unwrap_no_ub. Qed.
#[export] Hint Resolve search_no_ub ns_get_no_ub : noub.
Lemma get_by_path_no_ub ns p : get_by_path ns p <> Fail UB.
Proof. unfold get_by_path, get_handle. noub. Qed.
#[export] Hint Resolve get_by_path_no_ub : noub.

(** A computation on a state that is never undefined. *)
Definition defined {S E A} (m : SE S E A) : Prop := forall s, m s <> SFail UB.

Lemma defined_bind {S E A B} (m : SE S E A) (k : A -> SE S E B) :
  defined m -> (forall a, defined (k a)) -> defined (se_bind m k).
Proof.
  intros Hm Hk s. unfold se_bind. specialize (Hm s). destruct (m s); [apply Hk|done|congruence].
Qed.
Lemma defined_lift {S E A} (r : result E A) : r <> Fail UB -> defined (se_lift r : SE S E A).
Proof. intros Hr s. unfold se_lift. destruct r; congruence. Qed.

Ltac defined_step :=
  match goal with
  | |- forall _, _ => intros ?
  | |- defined (se_bind _ _) => apply defined_bind
  | |- defined (se_lift _) => apply defined_lift
  | |- defined (match ?x with _ => _ end) => destruct x
  | |- defined _ => intros ?; discriminate
  | |- _ => noub_step
  end.

Section StateNoUb.
Context {tgt : Target}.

Lemma write_level_defined p f : defined (write_level p f).
Proof. unfold write_level. repeat defined_step. Qed.
Lemma get_level_for_path_mut_defined p : defined (get_level_for_path_mut p).
Proof. unfold get_level_for_path_mut. repeat defined_step. Qed.
Lemma add_level_defined p t : defined (add_level p t).
Proof.
  unfold add_level. repeat defined_step.
  all: first [apply write_level_defined | apply get_level_for_path_mut_defined].
Qed.
Lemma remove_level_defined p : defined (remove_level p).
Proof.
  unfold remove_level. repeat defined_step.
  all: first [apply write_level_defined | apply get_level_for_path_mut_defined].
Qed.
Lemma add_value_defined p v : defined (add_value p v).
Proof.
  unfold add_value, add_object. repeat defined_step.
  all: first [apply write_level_defined | apply get_level_for_path_mut_defined].
Qed.
End StateNoUb.

(** * What a search finds *)

Lemma get_level_scope ns n l s :
  is_absolute n = true -> get_level_for_path ns n = Ok (l, s) -> scope_ok n.
Proof.
  intros Ha H. apply get_level_for_path_inv in H as (c & p & -> & _ & _).
  destruct c; [|done|done]. split; [done|]. cbn. apply is_normal_segments.
Qed.

Lemma get_level_handle ns n l s h :
  get_level_for_path ns n = Ok (l, s) -> bt_get s (values l) = Some h ->
  exists p, ns_lookup ns p s = Some h.
Proof.
  intros H Hs. apply get_level_for_path_inv in H as (c & p & -> & Hp & _).
  exists p. unfold ns_lookup. by rewrite Hp.
Qed.

Lemma search_loop_found fuel ns n s nm h :
  search_loop fuel ns n s = Ok (nm, h) -> scope_ok nm /\ exists p t, ns_lookup ns p t = Some h.
Proof.
  revert s. induction fuel as [|fuel IH]; intros s; cbn [search_loop]; [done|].
  destruct (resolve n s) as [m| |] eqn:Er; cbn; [|done|done].
  apply resolve_absolute in Er.
  destruct (get_level_for_path ns m) as [[l t]|e|] eqn:El.
  - destruct (bt_get t (values l)) as [h'|] eqn:Et.
    + intros [= <- <-]. split; [by eapply get_level_scope|].
      destruct (get_level_handle _ _ _ _ _ El Et). eauto.
    + destruct (parent s) as [p|[]|]; try done. apply IH.
  - destruct e; try done. destruct (parent s) as [p|[]|]; try done. apply IH.
  - done.
Qed.

Lemma search_found ns n s nm h :
  search ns n s = Ok (nm, h) -> scope_ok nm /\ exists p t, ns_lookup ns p t = Some h.
Proof.
  unfold search. destruct (search_rules_apply n).
  - destruct (assert_ _); [apply search_loop_found|done|done].
  - destruct (resolve n s) as [m| |] eqn:Er; cbn; [|done|done]. apply resolve_absolute in Er.
    destruct (get_level_for_path ns m) as [[l t]| |] eqn:El; cbn; [|done|done].
    destruct (bt_get t (values l)) as [h'|] eqn:Et; [|done]. intros [= <- <-].
    split; [by eapply get_level_scope|]. destruct (get_level_handle _ _ _ _ _ El Et). eauto.
Qed.

Lemma resolve_scope n s m : name_fine n -> resolve n s = Ok m -> scope_ok m.
Proof.
  intros Hn H. split; [by eapply resolve_absolute|]. revert H. unfold resolve.
  destruct (assert_ _); cbn; [|done|done]. destruct (is_absolute n) eqn:E.
  - intros [= <-]. by apply Hn.
  - apply normalize_normal.
Qed.

Lemma parent_scope n m : scope_ok n -> parent n = Ok m -> scope_ok m.
Proof.
  intros [Ha Hn] H. split; [by eapply parent_absolute|]. revert H. unfold parent.
  rewrite normalize_id by done. cbn [result_bind].
  destruct (last n) as [[| |s]|]; try done. intros [= <-]. by apply is_normal_removelast.
Qed.

(** * The operations on the context *)

Ltac enter c Hw Hc := intros c Hw Hc; cbv [context_of context_context] in *.

Section Primitives.
Context {env : AmlEnv}.
Abbreviation M := (SE AmlContext AmlError).

(** A state that has the same objects and at least the buffers. *)
Lemma safe_modify w (f : AmlContext -> AmlContext) :
  (forall c, wle w (world_of c) -> wf c -> good c (f c)) ->
  safe w (se_modify f : M unit) any.
Proof. intros Hf c Hw Hc. split; [by apply Hf|done]. Qed.

Lemma wf_same_world c c' :
  wf c -> namespace c' = namespace c -> (length (buffers c) <= length (buffers c'))%nat ->
  locked c' = locked c ->
  match method_context c' with Some m => method_ok (world_of c') m | None => True end ->
  scope_ok (current_scope c') -> in_width usize_bits (scope_indent c') -> good c c'.
Proof.
  intros [H1 H2 H3 H4 H5 Hfresh] Hn Hb Hl Hm Hs Hi.
  assert (wle (world_of c) (world_of c')) as Hle.
  { unfold world_of. rewrite Hn. by split_and!. }
  split_and!; [|done|done]. split; rewrite ?Hn; [done| |done..].
  eapply map_Forall_impl; [exact H2|]. intros h v. cbn. by apply value_ok_mono.
Qed.

Lemma method_same c c' : wle (world_of c) (world_of c') -> wf c ->
  match method_context c with Some m => method_ok (world_of c') m | None => True end.
Proof. intros Hw [_ _ Hm _ _]. destruct (method_context c); [by eapply method_ok_mono|done]. Qed.

Lemma safe_set_scope w n : scope_ok n -> safe w (se_modify (set_current_scope n) : M unit) any.
Proof.
  intros Hn. apply safe_modify. enter c Hw Hc. pose proof Hc as [H1 H2 H3 H4 H5 Hfresh].
  apply wf_same_world; cbn; try done.
Qed.

Lemma safe_set_method w mc : method_opt_ok w mc ->
  safe w (se_modify (set_method_context mc) : M unit) any.
Proof.
  intros Hn. apply safe_modify. enter c Hw Hc. pose proof Hc as [H1 H2 H3 H4 H5 Hfresh].
  apply wf_same_world; cbn; try done. by apply (method_opt_ok_Mono w).
Qed.

Lemma safe_gets_scope w : safe w (se_gets current_scope : M _) (pure scope_ok).
Proof. enter c Hw Hc. split; [by apply good_refl|apply Hc]. Qed.

Lemma safe_gets_method w : safe w (se_gets method_context : M _) method_opt_ok.
Proof. enter c Hw Hc. split; [by apply good_refl|apply Hc]. Qed.

Lemma safe_gets_namespace w : safe w (se_gets namespace : M _) namespace_ok.
Proof.
  enter c Hw Hc. split; [by apply good_refl|]. intros h v. unfold ns_get, unwrap.
  destruct (object_map (namespace c) !! h) as [v'|] eqn:E; [|done]. intros [= <-].
  by eapply (wf_objects c Hc).
Qed.

Lemma safe_with_hardware {A} w (f : hw -> option (A * hw)) :
  safe w (with_hardware f : M A) (fun _ a => exists h h', f h = Some (a, h')).
Proof.
  enter c Hw Hc. unfold with_hardware. pose proof Hc as [H1 H2 H3 H4 H5 Hfresh].
  destruct (f (hardware c)) as [[a h]|] eqn:E; [|done]. split.
  - apply wf_same_world; cbn; try done.
  - by exists (hardware c), h.
Qed.

Lemma safe_alloc w d : safe w (alloc_buffer d : M BufRef) buf_ok.
Proof.
  enter c Hw Hc. pose proof Hc as [H1 H2 H3 H4 H5 Hfresh]. split.
  - apply wf_same_world; cbn; rewrite ?length_app; try done; [lia|].
    eapply (method_same c (set_buffers (buffers c ++ [d]) c)); [|done].
    split_and!; cbn; [rewrite length_app; lia|done..].
  - unfold buf_ok. cbn. rewrite length_app. cbn. lia.
Qed.

Lemma load_buffer_cases l c :
  buf_ok (world_of c) l ->
  (exists d, load_buffer l c = SOk d c) \/ load_buffer l c = SFail Deadlock.
Proof.
  intros Hl. unfold load_buffer. case_bool_decide; [by right|]. left.
  destruct (lookup_lt_is_Some_2 (buffers c) l Hl) as [d ->]. eauto.
Qed.

Lemma safe_load w l : buf_ok w l -> safe w (load_buffer l : M bytes) any.
Proof.
  intros Hl c Hw Hc. destruct (load_buffer_cases l c) as [[d ->]| ->]; [by eapply buf_ok_mono| |done].
  split; [by apply good_refl|done].
Qed.

Lemma safe_store_buffer w l d : buf_ok w l -> safe w (store_buffer l d : M unit) any.
Proof.
  intros Hl. unfold store_buffer. eapply safe_bind; [by apply safe_load|].
  intros w' _ Hw _. apply safe_modify. intros c Hw' Hc. pose proof Hc as [H1 H2 H3 H4 H5 Hfresh].
  apply wf_same_world; cbn; rewrite ?length_insert; try done.
  eapply (method_same c (set_buffers (<[l:=d]> (buffers c)) c)); [|done].
  split_and!; cbn; [rewrite length_insert; lia|done..].
Qed.

Lemma good_set_locked c c' k l :
  good (set_locked l c) c' -> k = locked c -> good c (set_locked k c').
Proof.
  intros ([H1 H2 H3 H4 H5 Hfresh] & H6 & H7) ->. split_and!; [|done|done]. by split.
Qed.

Lemma safe_with_lock {A} w l (m : bytes -> M A) Q :
  buf_ok w l -> (forall w' d, wle w w' -> safe w' (m d) Q) -> safe w (with_lock l m) Q.
Proof.
  intros Hl Hm c Hw Hc. unfold with_lock.
  destruct (load_buffer_cases l c) as [[d ->]| ->]; [by eapply buf_ok_mono| |done].
  specialize (Hm _ d Hw (set_locked (l :: locked c) c) (reflexivity _)).
  destruct Hc as [H1 H2 H3 H4 H5 Hfresh].
  destruct (m d _) as [a c'|e c'|r].
  - destruct Hm as [Hg Ha]; [by split|]. split; [|done]. by eapply good_set_locked.
  - destruct Hm as [Hg Ha]; [by split|]. split; [|done]. by eapply good_set_locked.
  - apply Hm. by split.
Qed.

Lemma safe_in_namespace {A} w (f : Namespace -> result AmlError A) (Q : world -> A -> Prop) :
  (forall ns, f ns <> Fail UB) ->
  (forall c a, wle w (world_of c) -> wf c -> f (namespace c) = Ok a -> Q (world_of c) a) ->
  safe w (in_namespace f) Q.
Proof.
  intros Hub HQ. enter c Hw Hc. unfold in_namespace, se_bind, se_gets, se_lift.
  specialize (Hub (namespace c)). destruct (f (namespace c)) as [a|e|r] eqn:E.
  - split; [by apply good_refl|]. by apply HQ.
  - split; [by apply good_refl|done].
  - congruence.
Qed.

Lemma lookup_handle_ok c p s h : wf c -> ns_lookup (namespace c) p s = Some h ->
  handle_ok (world_of c) h.
Proof.
  intros Hc H. unfold handle_ok, w_objs, world_of. cbn. rewrite dom_fmap_L. apply elem_of_dom.
  by eapply wf_handles.
Qed.

Lemma object_value_ok c h v : wf c -> object_map (namespace c) !! h = Some v ->
  value_ok (world_of c) v.
Proof. intros Hc H. by eapply (wf_objects c Hc). Qed.

Lemma safe_search w n s :
  safe w (in_namespace (fun ns => search ns n s))
    (both (pure scope_ok) handle_ok).
Proof.
  apply safe_in_namespace; [intros; apply search_no_ub|].
  intros c [nm h] Hw Hc H. apply search_found in H as (Hn & p & t & Hl).
  split; [done|]. by eapply lookup_handle_ok.
Qed.

Lemma safe_ns_get w h : safe w (in_namespace (fun ns => ns_get ns h)) value_ok.
Proof.
  apply safe_in_namespace; [intros; apply ns_get_no_ub|].
  intros c v Hw Hc. unfold ns_get, unwrap.
  destruct (object_map (namespace c) !! h) eqn:E; [|done]. intros [= <-].
  by eapply object_value_ok.
Qed.

Lemma get_by_path_found ns p v : get_by_path ns p = Ok v ->
  scope_ok p \/ is_absolute p = false.
Proof.
  unfold get_by_path, get_handle. destruct (get_level_for_path ns p) as [[l s]| |] eqn:E; [|done|done].
  intros _. destruct (is_absolute p) eqn:Ha; [left|by right]. by eapply get_level_scope.
Qed.

Lemma safe_get_by_path w p : safe w (in_namespace (fun ns => get_by_path ns p)) value_ok.
Proof.
  apply safe_in_namespace; [intros; apply get_by_path_no_ub|].
  intros c v Hw Hc. unfold get_by_path, ns_get, unwrap.
  destruct (get_handle (namespace c) p) as [h| |]; cbn; [|done|done].
  destruct (object_map (namespace c) !! h) eqn:E; [|done]. intros [= <-].
  by eapply object_value_ok.
Qed.

(** Operations of the namespace add or replace at most one object, and when arithmetic is
    checked an object that they replace keeps its type. *)
Definition extends (w : world) (ns ns' : Namespace) : Prop :=
  (overflow_checks = true -> handles_fresh ns -> handles_fresh ns') /\
  (object_map ns' = object_map ns \/
   exists h v, value_ok w v /\ object_map ns' = <[h := v]> (object_map ns) /\
     (overflow_checks = true -> handles_fresh ns ->
      forall v', object_map ns !! h = Some v' -> type_of v' = type_of v)).

Lemma extends_refl w ns : extends w ns ns.
Proof. split; [done|by left]. Qed.

Lemma extends_objects w ns ns' :
  object_map ns' = object_map ns -> next_handle ns' = next_handle ns -> extends w ns ns'.
Proof. intros E1 E2. split; [|by left]. intros _ H. unfold handles_fresh in *. by rewrite E1, E2. Qed.

Lemma types_grow c ns' w : extends w (namespace c) ns' -> wf c ->
  wle (world_of c) (world_of (set_namespace ns' c)).
Proof.
  intros [_ Ho] Hc. split_and!; cbn; [done| |done|].
  - unfold w_objs, world_of. cbn. rewrite !dom_fmap_L. destruct Ho as [->|(h & v & _ & -> & _)]; set_solver.
  - intros Hk. destruct Ho as [->|(h & v & _ & -> & Ht)]; [done|].
    apply map_subseteq_spec. intros k t. rewrite !lookup_fmap, lookup_insert. case_decide as E; [|done].
    destruct (object_map (namespace c) !! k) as [v'|] eqn:Ev; [|done]. cbn. intros [= <-]. f_equal.
    symmetry. subst. by apply (Ht Hk (wf_fresh c Hc Hk)).
Qed.

Lemma wf_set_namespace c ns' w :
  wf c -> wle w (world_of c) -> handles_valid ns' -> extends w (namespace c) ns' ->
  good c (set_namespace ns' c).
Proof.
  intros Hc Hw Hv Ho. pose proof (types_grow c ns' w Ho Hc) as Hle.
  destruct Hc as [H1 H2 H3 H4 H5 H6]. split_and!; [|done|done]. destruct Ho as [Hf Ho]. split; cbn; try done.
  - assert (map_Forall (fun _ => value_ok (world_of (set_namespace ns' c))) (object_map (namespace c))) as Hm.
    { eapply map_Forall_impl; [exact H2|]. intros h v. cbn. by apply value_ok_mono. }
    destruct Ho as [->|(h & v & Hok & -> & _)]; [done|].
    apply map_Forall_insert_2; [|done]. eapply value_ok_mono; [|exact Hok]. by etrans.
  - destruct (method_context c); [by eapply method_ok_mono|done].
  - intros Hk. by apply Hf; [|apply H6].
Qed.

Lemma safe_on_namespace {A} w (m : SE Namespace AmlError A) :
  defined m ->
  triple handles_valid m (fun _ => handles_valid) (fun _ => handles_valid) ->
  (forall c, wle w (world_of c) -> wf c ->
     match m (namespace c) with
     | SOk _ ns' | SErr _ ns' => extends w (namespace c) ns'
     | SFail _ => True
     end) ->
  safe w (on_namespace m : M A) any.
Proof.
  intros Hd Ht Ho. enter c Hw Hc. unfold on_namespace.
  specialize (Hd (namespace c)). specialize (Ht _ (wf_handles c Hc)). specialize (Ho c Hw Hc).
  destruct (m (namespace c)) as [a ns'|e ns'|r]; [| |congruence].
  all: split; [|done]; by eapply wf_set_namespace.
Qed.

Lemma safe_add_level w p t : safe w (on_namespace (add_level p t) : M unit) any.
Proof.
  apply safe_on_namespace; [apply add_level_defined|apply add_level_valid|].
  intros c _ _. pose proof (add_level_views p t (namespace c)) as H.
  destruct (add_level p t (namespace c)); [apply extends_objects; apply H..|done].
Qed.

Lemma safe_remove_level w p : safe w (on_namespace (remove_level p) : M unit) any.
Proof.
  apply safe_on_namespace; [apply remove_level_defined|apply remove_level_valid|].
  intros c _ _. pose proof (remove_level_views p (namespace c)) as H.
  destruct (remove_level p (namespace c)); [apply extends_objects; apply H..|done].
Qed.

(** A new object is put at a handle that no object has. *)
Lemma extends_new w v ns ns' : value_ok w v ->
  object_map ns' = <[next_handle ns := v]> (object_map ns) ->
  (overflow_checks = true -> handles_fresh ns -> handles_fresh ns') -> extends w ns ns'.
Proof.
  intros Hv Ho Hf. split; [done|]. right. exists (next_handle ns), v. split_and!; [done..|].
  intros _ [_ Hlt] v' E. specialize (Hlt (next_handle ns) (ex_intro _ v' E)). lia.
Qed.

Lemma safe_add_value w p v : value_ok w v ->
  safe w (on_namespace (add_value p v) : M AmlHandle) any.
Proof.
  intros Hv. apply safe_on_namespace; [apply add_value_defined|apply add_value_valid|].
  intros c _ Hc. pose proof (add_value_views p v (namespace c)) as H.
  pose proof (fun Hk Hn => add_value_fresh p v (namespace c) Hn (or_introl Hk)) as Hf.
  destruct (add_value p v (namespace c)) as [h ns'|e ns'|]; [| |done].
  - destruct H as (-> & Ho & _). apply (extends_new w v); [done..|]. intros Hk Hn. by apply Hf.
  - destruct H as [->|(Ho & _)]; [apply extends_refl|]. by apply (extends_new w v).
Qed.

Lemma safe_add_value_at w p sc v : value_ok w v ->
  safe w (on_namespace (add_value_at_resolved_path p sc v) : M AmlHandle) any.
Proof.
  intros Hv. enter c Hw Hc.
  unfold on_namespace, add_value_at_resolved_path, se_bind, se_lift.
  pose proof (resolve_no_ub p sc) as Hr. destruct (resolve p sc) as [q|e|r].
  - apply (safe_add_value w q v Hv c Hw Hc).
  - split; [|done]. replace (set_namespace (namespace c) c) with c by (by destruct c).
    by apply good_refl.
  - congruence.
Qed.

(** Replacing an object by one of its type. *)
Lemma safe_ns_set w h v : value_ok w v -> has_type w h (type_of v) ->
  safe w (on_namespace (ns_set h v) : M unit) any.
Proof.
  intros Hv Ht. apply safe_on_namespace; [|apply ns_set_valid|].
  - unfold ns_set. repeat defined_step.
  - intros c Hw Hc. unfold ns_set, ns_get, unwrap, se_bind, se_get, se_lift, se_modify.
    destruct (object_map (namespace c) !! h) as [v0|] eqn:E; [|done]. split.
    + intros _ [H1 H2]. split; [done|]. intros k [v' Hk]. cbn in Hk. apply H2.
      rewrite lookup_insert in Hk. case_decide; [subst|]; by eexists.
    + right. exists h, v. split_and!; [done..|]. intros Hk _ v' Ev.
      specialize (has_type_mono _ _ _ _ Hw Ht Hk) as Hl. unfold world_of in Hl. cbn in Hl.
      rewrite lookup_fmap, Ev in Hl. by injection Hl.
Qed.

(** An object with its type. *)
Lemma safe_ns_get_typed w h :
  safe w (in_namespace (fun ns => ns_get ns h)) (fun w v => value_ok w v /\ has_type w h (type_of v)).
Proof.
  apply safe_in_namespace; [intros; apply ns_get_no_ub|].
  intros c v Hw Hc. unfold ns_get, unwrap.
  destruct (object_map (namespace c) !! h) eqn:E; [|done]. intros [= <-].
  split; [by eapply object_value_ok|]. intros _. unfold world_of. cbn. by rewrite lookup_fmap, E.
Qed.
End Primitives.

Create HintDb safe discriminated.
#[export] Hint Resolve safe_set_scope safe_set_method safe_gets_scope safe_gets_method
  safe_gets_namespace safe_with_hardware safe_alloc safe_load safe_store_buffer safe_search
  safe_ns_get safe_get_by_path safe_add_level safe_remove_level safe_add_value
  safe_add_value_at safe_ns_set : safe.

(** * The combinators of the parsers *)

Section Combinators.
Context {env : AmlEnv}.

Ltac enterp i c Hw Hc := intros [i c] Hw Hc; cbv [context_of parser_context snd] in *.

Lemma safe_parser {R} w (p : Parser R) (Q : world -> R -> Prop) :
  (forall i, safe w (run_on p i) Q) -> safe w p Q.
Proof.
  intros H. enterp i c Hw Hc. specialize (H i c Hw Hc). unfold run_on in H.
  destruct (p (i, c)) as [r [j d]|e [j d]|]; done.
Qed.

Lemma safe_run_on {R} w (p : Parser R) i (Q : world -> R -> Prop) :
  safe w p Q -> safe w (run_on p i) Q.
Proof.
  intros H. enter c Hw Hc. specialize (H (i, c) Hw Hc). unfold run_on.
  destruct (p (i, c)) as [r [j d]|e [j d]|]; done.
Qed.

Lemma safe_ctx {A} w (m : SE AmlContext AmlError A) (Q : world -> A -> Prop) :
  safe w m Q -> safe w (ctx m) Q.
Proof.
  intros H. enter c Hw Hc. specialize (H c Hw Hc). unfold ctx, se_map_err.
  by destruct (m c).
Qed.

(** A parser that does not touch the context. *)
Lemma safe_pure {R} w (p : Parser R) (Q : world -> R -> Prop) :
  (forall i c, match p (i, c) with
     | SOk r s => snd s = c /\ forall w', wle w w' -> Q w' r
     | SErr e s => snd s = c /\ forall w', wle w w' -> error_ok w' e
     | SFail r => r <> UB
     end) -> safe w p Q.
Proof.
  intros H. enterp i c Hw Hc. specialize (H i c).
  destruct (p (i, c)) as [r [j d]|e [j d]|]; [| |done]; destruct H as [Hd HQ]; cbn in Hd;
    subst d; (split; [by apply good_refl|by apply HQ]).
Qed.

Lemma safe_on_context {A} w (m : SE AmlContext Propagate A) (Q : world -> A -> Prop) :
  safe w m Q -> safe w (on_context m : Parser A) Q.
Proof.
  intros H. enterp i c Hw Hc. specialize (H c Hw Hc). unfold on_context. by destruct (m c).
Qed.

Lemma safe_map_with_context {R A} w (p : Parser R) (f : R -> SE AmlContext Propagate A)
    (Q : world -> R -> Prop) (Q' : world -> A -> Prop) :
  safe w p Q -> (forall w' r, wle w w' -> Q w' r -> safe w' (f r) Q') ->
  safe w (map_with_context p f) Q'.
Proof.
  intros Hp Hf. enterp i c Hw Hc. unfold map_with_context. specialize (Hp (i, c) Hw Hc).
  destruct (p (i, c)) as [r [j d]|e [j d]|]; [|done|done]. destruct Hp as [Hg Hr].
  specialize (Hf _ r (transitivity Hw (proj1 (proj2 Hg))) Hr d (reflexivity _) (proj1 Hg)).
  destruct (f r d) as [a d'|e d'|]; [| |done]; destruct Hf as [Hg' Ha];
    (split; [by eapply good_trans|done]).
Qed.

Lemma safe_map {R A} w (p : Parser R) (f : R -> result Propagate A)
    (Q : world -> R -> Prop) (Q' : world -> A -> Prop) :
  safe w p Q -> (forall w' r, wle w w' -> Q w' r -> safe w' (se_lift (f r) : SE AmlContext _ _) Q') ->
  safe w (p_map p f) Q'.
Proof. apply safe_map_with_context. Qed.

Lemma safe_second {A B} w (p : Parser (A * B)) (Q : world -> B -> Prop) :
  safe w p (fun w r => Q w r.2) -> safe w (second p) Q.
Proof.
  intros Hp. unfold second, p_map, map_with_context. enterp i c Hw Hc.
  specialize (Hp (i, c) Hw Hc). by destruct (p (i, c)) as [[a b] [j d]|e [j d]|].
Qed.

Lemma safe_then {A B} w (p : Parser A) (q : Parser B) (Q1 : world -> A -> Prop)
    (Q2 : world -> B -> Prop) :
  safe w p Q1 -> safe w q Q2 -> Mono Q1 -> Mono Q2 -> safe w (p_then p q) (both Q1 Q2).
Proof.
  intros Hp Hq ??. unfold p_then. eapply safe_bind; [exact Hp|]. intros w1 a Hw1 Ha.
  eapply safe_bind; [by eapply (safe_weaken w w1)|]. intros w2 b Hw2 Hb.
  apply safe_ret; [apply _|]. split; cbn; [by eapply mono|done].
Qed.

Lemma safe_second_then {A B} w (p : Parser A) (q : Parser B) (Q : world -> B -> Prop) :
  safe w p any -> safe w q Q -> Mono Q -> safe w (second (p_then p q)) Q.
Proof.
  intros Hp Hq ?. apply safe_second. eapply safe_weaken; [|reflexivity|].
  - by apply (safe_then w p q any Q); [..|apply _|].
  - intros v a _ Ha. apply Ha.
Qed.

Lemma safe_feed {A B} w (p : Parser A) (f : A -> Parser B) (Q : world -> A -> Prop) Q' :
  safe w p Q -> (forall w' a, wle w w' -> Q w' a -> safe w' (f a) Q') ->
  safe w (p_feed p f) Q'.
Proof. apply safe_bind. Qed.

Lemma safe_discard_result {A} w (p : Parser A) (Q : world -> A -> Prop) :
  safe w p Q -> safe w (discard_result p) any.
Proof.
  intros Hp. eapply safe_bind; [exact Hp|]. intros. by apply safe_ret; [apply _|].
Qed.

Lemma safe_set_indent w i : in_width usize_bits i ->
  safe w (se_modify (set_scope_indent i) : SE AmlContext Propagate unit) any.
Proof.
  intros Hi. enter c Hw Hc. split; [|done]. pose proof Hc as [H1 H2 H3 H4 H5 Hfresh].
  apply wf_same_world; cbn; try done.
Qed.

Lemma safe_indent w b f :
  (forall i r, f i = Ok r -> in_width usize_bits r) -> (forall i, f i <> Fail UB) ->
  (forall i e, f i <> Err e) ->
  safe w (on_context (let! v := se_gets debug_verbosity in
    if b v : bool then indent f else se_ret tt)) any.
Proof.
  intros Hf Hub He. apply safe_on_context. eapply (safe_bind _ _ _ any).
  { enter c Hw Hc. split; [by apply good_refl|done]. }
  intros w' v Hw _. destruct (b v); [|by apply safe_ret; [apply _|]].
  unfold indent. eapply (safe_bind _ _ _ any).
  { enter c Hw' Hc. split; [by apply good_refl|done]. }
  intros w2 i Hw2 _. apply safe_bind_lift; [|apply Hub|].
  - intros e w3 H. by apply He in H.
  - intros r Hr. apply safe_set_indent. by eapply Hf.
Qed.

Lemma usize_bits_nonneg : 0 <= usize_bits.
Proof. destruct usize_bits_ok as [-> | ->]; done. Qed.

Lemma safe_comment_scope {A} w v (p : Parser A) (Q : world -> A -> Prop) :
  safe w p Q -> Mono Q -> safe w (comment_scope v p) Q.
Proof.
  intros Hp ?. pose proof usize_bits_nonneg. unfold comment_scope.
  assert (forall w (f : Z -> Z -> Z -> result Propagate Z) b,
    f = add_w \/ f = sub_w ->
    safe w (on_context (let! v := se_gets debug_verbosity in
      if b v : bool then indent (fun i => f usize_bits i INDENT_PER_SCOPE) else se_ret tt)) any) as Hi.
  { intros w' f b [-> | ->]; apply safe_indent; intros i; unfold add_w, sub_w;
      intros; eauto using checked_no_ub, checked_not_err, checked_in_width. }
  eapply safe_bind; [by apply Hi; left|]. intros w1 _ Hw1 _.
  eapply safe_bind; [by eapply (safe_weaken w w1)|]. intros w2 a Hw2 Ha.
  eapply safe_bind; [by apply Hi; right|]. intros w3 _ Hw3 _.
  apply safe_ret; [apply _|]. by eapply mono.
Qed.

Lemma safe_choice {A} w (ps : list (Parser A)) (Q : world -> A -> Prop) :
  Forall (fun p => safe w p Q) ps -> safe w (choice ps) Q.
Proof.
  intros Hps. enterp i c Hw Hc. revert c Hw Hc.
  induction Hps as [|p ps Hp Hps IH]; intros c Hw Hc; cbn [choice].
  - split; [by apply good_refl|done].
  - specialize (Hp (i, c) Hw Hc). destruct (p (i, c)) as [r [j d]|e [j d]|]; [done| |done].
    destruct Hp as [Hg He]. destruct (is_wrong_parser e); [|by split].
    specialize (IH d). cbn [snd].
    destruct (choice ps (i, d)) as [r s'|e' s'|];
      specialize (IH (transitivity Hw (proj1 (proj2 Hg))) (proj1 Hg)); [| |done];
      destruct IH as [Hg' H']; (split; [by eapply good_trans|done]).
Qed.

Lemma safe_n_of w (p : Parser AmlValue) n :
  safe w p value_ok -> safe w (n_of p n) (fun w vs => values_ok w vs /\ length vs = n).
Proof.
  intros Hp. revert w Hp. induction n as [|n IH]; intros w Hp; cbn [n_of].
  - intros [i c] Hw Hc. split; [by apply good_refl|]. by split; [constructor|].
  - enterp i c Hw Hc. pose proof (Hp (i, c) Hw Hc) as H.
    destruct (p (i, c)) as [r [j d]|e [j d]|]; [|done|done]. destruct H as [Hg Hr].
    cbn in Hg, Hr.
    specialize (IH (world_of d) (safe_weaken _ _ _ _ _ Hp (transitivity Hw (proj1 (proj2 Hg)))
      (fun _ _ _ H => H)) (j, d) (reflexivity _) (proj1 Hg)).
    destruct (n_of p n (j, d)) as [rs [k d']|e [k d']|]; [| |done]; destruct IH as [Hg' Hrs].
    + split; [by eapply good_trans|]. destruct Hrs as [Hrs <-]. split; [|done].
      constructor; [|done]. eapply value_ok_mono; [apply Hg'|done].
    + split; [by eapply good_trans|done].
Qed.

Lemma safe_extract {A} w (p : Parser A) (Q : world -> A -> Prop) :
  safe w p Q -> safe w (extract p) (both Q any).
Proof.
  intros Hp. enterp i c Hw Hc. specialize (Hp (i, c) Hw Hc). unfold extract.
  destruct (p (i, c)) as [r [j d]|e [j d]|]; [|done|done]. destruct Hp as [Hg Hr].
  unfold sub_w. pose proof (checked_no_ub (E := Propagate) usize_bits
    (Z.of_nat (length i) - Z.of_nat (length j))) as Hub.
  pose proof (checked_not_err (E := Propagate) usize_bits
    (Z.of_nat (length i) - Z.of_nat (length j))) as Her.
  destruct (checked _ _) as [z|e|f]; [|by destruct (Her e)|congruence].
  unfold slice. destruct (_ && _); [|done]. by split.
Qed.

Lemma safe_parse_list {A} w len (body : A -> Parser A) a (Q : world -> A -> Prop) `{!Mono Q} :
  Q w a -> (forall w' a, wle w w' -> Q w' a -> safe w' (body a) Q) ->
  safe w (parse_list len body a) Q.
Proof.
  intros Ha Hb. unfold parse_list.
  cut (forall n w' a, wle w w' -> Q w' a -> safe w' (parse_while n len body a) Q).
  { intros H [i c]. by apply H. }
  clear a Ha. induction n as [|n IH]; intros w' a Hle Ha; enterp i c Hw Hc; cbn [parse_while].
  - destruct (still_parsing len i); [done|]. split; [by apply good_refl|by eapply mono].
  - destruct (still_parsing len i); [|split; [by apply good_refl|by eapply mono]].
    specialize (Hb w' a Hle Ha (i, c) Hw Hc).
    destruct (body a (i, c)) as [a' [j d]|e [j d]|]; [|done|done]. destruct Hb as [Hg Ha'].
    cbn in Hg, Ha'.
    specialize (IH (world_of d) a' (transitivity Hle (transitivity Hw (proj1 (proj2 Hg)))) Ha'
      (j, d) (reflexivity _) (proj1 Hg)).
    destruct (parse_while n len body a' (j, d)) as [r s'|e s'|]; [| |done];
      destruct IH as [Hg' H']; (split; [by eapply good_trans|done]).
Qed.
End Combinators.
