(* ===== verification/Invariant.v ===== *)
(** Every operation of the interpreter keeps the invariant of [Safety.v]: the
    conversions and stores of values, the parsers, the invocation of methods, the
    parsing of tables and the initialization of devices. *)
From S2P Require Import Prelude Types Names Namespace Env RustStd Context Value Parser.
From S2P Require Import PkgLength Opcode NameObject Grammar Expression Statement TermObject.
From S2P Require Import Interp Sample Safety.
#[local] Open Scope Z_scope.

(** Takes apart what is known of a result, and moves what is known to the new world. *)
Ltac learn Hw Hr :=
  upgrade Hw;
  try match type of Hr with
      | any _ _ => clear Hr
      | pure _ _ _ => unfold pure in Hr
      end.
Ltac split_both :=
  repeat match goal with
         | H : both _ _ _ ?r |- _ => unfold both in H; cbn [fst snd] in H
         | H : pure _ _ _ |- _ => unfold pure in H; cbn beta in H
         | H : _ /\ _ |- _ => destruct H
         | H : any _ _ |- _ => clear H
         end.
(** The pairs that the continuations take apart. *)
Ltac split_pairs :=
  repeat match goal with
         | |- context [match ?x with pair _ _ => _ end] =>
             is_var x; match type of x with (_ * _)%type => destruct x end
         end.
Ltac next :=
  let w := fresh "w" in let r := fresh "r" in let Hw := fresh "Hw" in let Hr := fresh "Hr" in
  intros w r Hw Hr; upgrade Hw; cbv beta; split_pairs; split_both.

Ltac safe_step :=
  match goal with
  | |- safe _ (se_bind (se_lift _) _) _ =>
      apply safe_bind_lift; [intros; exact I|solve [noub]|intros ? ?; split_pairs]
  | |- safe _ (se_bind _ _) _ => eapply safe_bind
  | |- safe _ (p_feed _ _) _ => eapply safe_feed
  | |- safe _ (map_with_context _ _) _ => eapply safe_map_with_context
  | |- safe _ (p_map _ _) _ => eapply safe_map
  | |- safe _ (second (p_then _ _)) _ => apply safe_second_then
  | |- safe _ (p_then _ _) any => eapply safe_any
  | |- safe _ (p_then _ _) _ => eapply safe_then
  | |- Mono ?Q => tryif is_evar Q then fail else apply _
  | |- safe _ (discard_result _) _ => eapply safe_discard_result
  | |- safe _ (comment_scope _ _) _ => apply safe_comment_scope
  | |- safe _ (choice _) _ => apply safe_choice
  | |- safe _ (ctx _) _ => apply safe_ctx
  | |- safe _ (run_on _ _) _ => apply safe_run_on
  | |- safe _ (with_lock _ _) _ =>
      apply safe_with_lock; [eassumption|let Hw := fresh "Hw" in intros ? ? Hw; upgrade Hw]
  | |- safe _ (extract _) _ => apply safe_extract
  | |- safe _ (se_err _) ?Q => is_evar Q;
      apply (safe_err _ _ any); intros ? ?; first [exact I|by eapply value_ok_mono]
  | |- safe _ (se_fail _) ?Q => is_evar Q; apply (safe_fail _ _ any); discriminate
  | |- safe _ (se_err _) _ => apply safe_err; intros ? ?; first [exact I|by eapply value_ok_mono]
  | |- safe _ (se_fail _) _ => apply safe_fail; discriminate
  | |- safe _ (se_lift (Ok _)) ?Q => is_evar Q; apply (safe_lift_ok _ _ any)
  | |- safe _ (se_lift (Ok _)) _ => apply safe_lift_ok; [apply _|]
  | |- safe _ (se_lift (Err _)) ?Q => is_evar Q;
      apply (safe_lift_err _ _ any); intros ? ?; first [exact I|by eapply value_ok_mono]
  | |- safe _ (se_lift (Err _)) _ =>
      apply safe_lift_err; intros ? ?; first [exact I|by eapply value_ok_mono]
  | |- safe _ (se_lift _) any =>
      apply safe_lift; [intros; exact I|intros; exact I|solve [noub]]
  | |- safe _ (se_ret _) ?Q => is_evar Q; apply (safe_ret _ _ any)
  | |- safe _ (se_ret _) _ => apply safe_ret; [apply _|]
  | |- safe _ (match ?x with _ => _ end) _ => destruct x eqn:?
  | |- Forall _ (_ :: _) => constructor
  | |- Forall _ [] => constructor
  | |- safe _ _ _ => solve [eauto 3 with safe]
  | |- safe _ _ any => eapply safe_any; solve [eauto 3 with safe]
  | |- any _ _ => exact I
  | |- forall _ _, wle _ _ -> _ => next
  end.
Ltac safe := repeat safe_step.

Section Value.
Context {env : AmlEnv}.
Abbreviation M := (SE AmlContext AmlError).

Lemma seg_from_str_no_ub s : seg_from_str s <> Fail UB.
Proof. unfold seg_from_str. noub. Qed.
Hint Resolve seg_from_str_no_ub : noub.
Lemma part_components_no_ub p : part_components p <> Fail UB.
Proof. induction p; cbn [part_components]; noub. Qed.
Hint Resolve part_components_no_ub : noub.
Lemma parts_components_no_ub p : parts_components p <> Fail UB.
Proof. induction p; cbn [parts_components]; noub. Qed.
Hint Resolve parts_components_no_ub : noub.
Lemma name_from_str_no_ub s : name_from_str s <> Fail UB.
Proof. unfold name_from_str. noub. Qed.
Hint Resolve name_from_str_no_ub : noub.
Lemma name_lit_no_ub {E} s : name_lit s <> (Fail UB : result E _).
Proof. unfold name_lit. noub. Qed.
Lemma try_into_no_ub wd e z : try_into wd e z <> Fail UB.
Proof. unfold try_into. noub. Qed.
Lemma access_type_no_ub f : access_type f <> Fail UB.
Proof. unfold access_type. noub. Qed.
Lemma field_update_rule_no_ub f : field_update_rule f <> Fail UB.
Proof. unfold field_update_rule. noub. Qed.
Lemma next_power_of_two_no_ub {E} z : next_power_of_two z <> (Fail UB : result E Z).
Proof. apply checked_no_ub. Qed.
Lemma get_bits_dyn_no_ub {E} v lo hi : get_bits_dyn v lo hi <> (Fail UB : result E Z).
Proof. unfold get_bits_dyn. noub. Qed.
Lemma set_bits_dyn_no_ub {E} v lo hi x : set_bits_dyn v lo hi x <> (Fail UB : result E Z).
Proof. unfold set_bits_dyn. noub. Qed.
Lemma args_arg_no_ub a n : args_arg a n <> Fail UB.
Proof. unfold args_arg. noub. Qed.
Lemma args_store_arg_no_ub a n v : args_store_arg a n v <> Fail UB.
Proof. unfold args_store_arg. noub. Qed.
Lemma as_bool_no_ub v : as_bool v <> Fail UB.
Proof. unfold as_bool. noub. Qed.
Hint Resolve name_lit_no_ub try_into_no_ub access_type_no_ub field_update_rule_no_ub
  next_power_of_two_no_ub get_bits_dyn_no_ub set_bits_dyn_no_ub args_arg_no_ub
  args_store_arg_no_ub as_bool_no_ub : noub.

Lemma try_into_range wd e z r : try_into wd e z = Ok r -> in_width wd r.
Proof. unfold try_into. case_bool_decide; [by intros [= <-]|done]. Qed.

(** ** Regions and fields *)

Section Conversions.
Context (f : AmlValue -> M Z).
Context (Hf : forall w v, value_ok w v -> safe w (f v) (pure (in_width 64))).
Hint Resolve Hf : safe.

Lemma safe_pci_optional w name p wd : safe w (pci_optional f name p wd) any.
Proof.
  unfold pci_optional. safe.
  apply safe_fail. intros ->. by eapply search_no_ub.
Qed.
Hint Resolve safe_pci_optional : safe.

Lemma safe_pci_function w p : safe w (pci_function f p) any.
Proof. unfold pci_function. safe. Qed.
Hint Resolve safe_pci_function : safe.

Lemma safe_region_parts w h : safe w (region_parts h) any.
Proof. unfold region_parts. safe. Qed.
Hint Resolve safe_region_parts : safe.

Lemma safe_region_address w wd b o : safe w (region_address wd b o) any.
Proof. unfold region_address. safe. Qed.
Hint Resolve safe_region_address : safe.

Lemma safe_handler_read w len g : 0 <= len <= 64 -> safe w (handler_read len g) (pure is_u64).
Proof.
  intros Hlen. unfold handler_read. safe. unfold pure.
  eapply (in_width_mono len); [lia|]. apply wrap_in_width. lia.
Qed.
Lemma safe_handler_write w g : safe w (handler_write g) any.
Proof. unfold handler_write. eapply safe_weaken; [apply safe_with_hardware|reflexivity|done]. Qed.
Hint Resolve safe_handler_write : safe.

Lemma safe_read_region w h o len : safe w (read_region f h o len) (pure is_u64).
Proof. unfold read_region. safe; apply safe_handler_read; lia. Qed.
Lemma safe_write_region w h o len v : safe w (write_region f h o len v) any.
Proof. unfold write_region. safe. Qed.
Hint Resolve safe_read_region safe_write_region : safe.

Lemma safe_field_access_size w h fl len : safe w (field_access_size h fl len) any.
Proof. unfold field_access_size. safe. Qed.
Hint Resolve safe_field_access_size : safe.

Lemma get_bits_dyn_range v lo hi z :
  is_u64 v -> get_bits_dyn v lo hi = (Ok z : result AmlError Z) -> is_u64 z.
Proof.
  unfold get_bits_dyn. intros Hv. destruct (range_panics 64 lo hi) eqn:E; [done|].
  intros [= <-]. by apply get_bits_width.
Qed.

Lemma safe_read_field w v : safe w (read_field f v) value_ok.
Proof. unfold read_field. safe. cbn. by eapply get_bits_dyn_range. Qed.
Hint Resolve safe_read_field : safe.

Lemma safe_write_field w v x : value_ok w x -> safe w (write_field f v x) any.
Proof.
  intros Hx. unfold write_field. destruct v; try solve [safe]. safe_step.
  eapply (safe_bind _ _ _ any); [|next; safe].
  destruct a; [|by apply safe_ret; [apply _|]..]. safe.
Qed.
End Conversions.
Hint Resolve safe_read_field safe_write_field : safe.

(** ** Buffer fields *)

Lemma bits_value_range l : 0 <= bits_value l < 2 ^ Z.of_nat (length l).
Proof.
  induction l as [|b l IH]; [done|]. cbn [bits_value length].
  rewrite Nat2Z.inj_succ, Z.pow_succ_r by lia. destruct b; cbn [Z.b2z]; lia.
Qed.

Lemma load_u64_range l : (length l <= 64)%nat -> is_u64 (load_u64 l).
Proof.
  intros Hl. rewrite load_u64_spec by done. eapply (in_width_mono (Z.of_nat (length l))); [lia|].
  apply bits_value_range.
Qed.

Lemma length_slice {A E} (l : list A) a b r :
  slice l a b = (Ok r : result E _) -> (length r = b - a /\ a <= b <= length l)%nat.
Proof.
  unfold slice. destruct (_ && _) eqn:B; [|done]. intros [= <-].
  apply andb_prop in B as [B1%Nat.leb_le B2%Nat.leb_le].
  rewrite length_take, length_drop. lia.
Qed.

Lemma as_usize_range z : 0 <= as_usize z.
Proof. apply wrap_in_width, usize_bits_nonneg. Qed.
Lemma as_usize_lt z : as_usize z < 2 ^ usize_bits.
Proof. apply wrap_in_width, usize_bits_nonneg. Qed.

(** A slice whose bounds were computed with wrap-around has the length that was
    asked for: otherwise its bounds are out of order, and it panics. *)
Lemma slice_wrapped {A E} (l : list A) a n e r :
  0 <= a < 2 ^ usize_bits -> 0 <= n < 2 ^ usize_bits ->
  add_w usize_bits a n = (Ok e : result E Z) ->
  slice l (Z.to_nat a) (Z.to_nat e) = (Ok r : result E _) -> length r = Z.to_nat n.
Proof.
  intros Ha Hn He Hr. apply length_slice in Hr as [-> Hr]. revert He. unfold add_w, checked.
  destruct (_ && _) eqn:B.
  - intros [= <-]. lia.
  - destruct overflow_checks; [done|]. intros [= <-]. exfalso.
    unfold wrap in Hr. revert Ha Hn Hr B. generalize (2 ^ usize_bits). intros M Ha Hn Hr B.
    assert (0 < M) as HM by lia. pose proof (Z.mod_pos_bound (a + n) M HM).
    pose proof (Z.div_mod (a + n) M). assert (1 <= (a + n) / M); [|nia].
    apply Z.div_le_lower_bound; lia.
Qed.

Lemma safe_read_buffer_field w v : value_ok w v -> safe w (read_buffer_field v) value_ok.
Proof.
  intros Hv. unfold read_buffer_field. destruct v; try solve [safe].
  destruct Hv as (Hl & _). safe; [done|]. cbn. apply load_u64_range.
  erewrite slice_wrapped; [..|eassumption|eassumption].
  - rewrite Z.ltb_ge in *. lia.
  - split; [apply as_usize_range|apply as_usize_lt].
  - split; [apply as_usize_range|apply as_usize_lt].
Qed.

Lemma copy_bits_no_ub {E} a b c d e : copy_bits a b c d e <> (Fail UB : result E _).
Proof. unfold copy_bits. noub. Qed.
Hint Resolve copy_bits_no_ub : noub.

Lemma safe_write_buffer_field w v x : value_ok w v -> value_ok w x ->
  safe w (write_buffer_field v x) any.
Proof.
  intros Hv Hx. unfold write_buffer_field. destruct v; try solve [safe].
  destruct Hv as (Hl & _). eapply (safe_bind _ _ _ any); [|next; safe].
  safe_step. destruct x; solve [safe].
Qed.
Hint Resolve safe_read_buffer_field safe_write_buffer_field : safe.

(** ** Conversions *)

Lemma fold_integer bs n :
  (length bs + n <= 8)%nat -> forall i, 0 <= i < 2 ^ (8 * Z.of_nat n) ->
  is_u64 (fold_left (fun i b => wrap 64 (Z.shiftl i 8) + u8 b) bs i).
Proof.
  revert n. induction bs as [|b bs IH]; intros n Hn i Hi; cbn [fold_left].
  - eapply (in_width_mono (8 * Z.of_nat n)); [cbn in Hn; lia|done].
  - cbn [length] in Hn. apply (IH (S n)); [lia|]. pose proof (u8_range b).
    rewrite Z.shiftl_mul_pow2 by lia. change (2 ^ 8) with 256.
    assert (2 ^ (8 * Z.of_nat (S n)) = 256 * 2 ^ (8 * Z.of_nat n)) as E.
    { rewrite Nat2Z.inj_succ, Z.mul_succ_r, Z.pow_add_r by lia. lia. }
    assert (2 ^ (8 * Z.of_nat (S n)) <= 2 ^ 64) by (apply Z.pow_le_mono_r; lia).
    rewrite wrap_id by (split; lia). lia.
Qed.

Lemma buffer_integer_range d : is_u64 (buffer_integer d).
Proof.
  unfold buffer_integer. apply (fold_integer _ 0); [|done]. rewrite length_rev.
  destruct (Nat.ltb_spec 8 (length d)); [rewrite length_take|]; lia.
Qed.

Lemma safe_as_integer fuel w v : value_ok w v -> safe w (as_integer fuel v) (pure is_u64).
Proof.
  revert w v. induction fuel as [|fuel IH]; intros w v Hv; cbn [as_integer]; [safe|].
  destruct v; safe; first [by destruct b | apply Hv | apply buffer_integer_range].
Qed.
Hint Resolve safe_as_integer : safe.

Lemma safe_as_buffer fuel w v : value_ok w v -> safe w (as_buffer fuel v) buf_ok.
Proof.
  revert w v. induction fuel as [|fuel IH]; intros w v Hv; cbn [as_buffer]; [safe|].
  destruct v; safe; done.
Qed.

Lemma safe_as_string fuel w v : value_ok w v -> safe w (as_string fuel v) any.
Proof.
  revert w v. induction fuel as [|fuel IH]; intros w v Hv; cbn [as_string]; [safe|].
  destruct v; safe.
Qed.
Hint Resolve safe_as_buffer safe_as_string : safe.

Lemma safe_as_type fuel w v t : value_ok w v -> safe w (as_type fuel v t) value_ok.
Proof. intros Hv. unfold as_type. safe; done. Qed.
Lemma safe_as_type_typed fuel w v t : value_ok w v ->
  safe w (as_type fuel v t) (fun w r => value_ok w r /\ type_of r = t).
Proof.
  intros Hv c Hw Hc. pose proof (safe_as_type fuel w v t Hv c Hw Hc) as H.
  assert (forall r c', as_type fuel v t c = SOk r c' -> type_of r = t) as Ht.
  { unfold as_type, se_bind, se_ret. intros r c'. case_bool_decide; [by intros [= <- _]|].
    destruct t; try done.
    - destruct (as_buffer fuel v c); [by intros [= <- _]|done..].
    - destruct (as_integer fuel v c); [by intros [= <- _]|done..]. }
  destruct (as_type fuel v t c) as [r c'|e c'|r]; [|done|done].
  destruct H as [Hg Hr]. split_and!; [done..|]. by eapply Ht.
Qed.
Hint Resolve safe_as_type : safe.

Lemma safe_value_cmp fuel w v x : value_ok w v -> value_ok w x -> safe w (value_cmp fuel v x) any.
Proof.
  intros Hv Hx. unfold value_cmp. eapply (safe_bind _ _ _ value_ok); [safe; done|next]. safe.
Qed.
Hint Resolve safe_value_cmp : safe.

(** ** Arguments, locals and stores *)

Lemma args_arg_ok w a n v : args_ok w a -> args_arg a n = Ok v -> value_ok w v.
Proof.
  intros [_ Ha]. unfold args_arg. destruct (6 <? n); [done|].
  destruct (a !! Z.to_nat n) as [o|] eqn:E; cbn; [|done].
  rewrite Forall_forall in Ha. specialize (Ha o (list_elem_of_lookup_2 _ _ _ E)).
  destruct o; [|done]. by intros [= <-].
Qed.

Lemma safe_current_arg w n : safe w (current_arg n) value_ok.
Proof.
  unfold current_arg. safe. apply safe_lift; [|intros; exact I|noub].
  intros v w' H Hw'. upgrade Hw'. destruct r as [m|]; [|done]. eapply args_arg_ok; [apply Hr|exact H].
Qed.

Lemma safe_local w n : safe w (local n) value_ok.
Proof.
  unfold local. safe. apply safe_lift; [|intros; exact I|noub].
  intros v w' H Hw'. upgrade Hw'. destruct r as [m|]; [|done]. cbn in H.
  destruct (7 <? n); [done|]. destruct (locals m !! Z.to_nat n) as [o|] eqn:E; [|done].
  destruct Hr as (_ & Hl & _). rewrite Forall_forall in Hl.
  specialize (Hl o (list_elem_of_lookup_2 _ _ _ E)). destruct o; [|done]. cbn in H.
  by injection H as <-.
Qed.
Hint Resolve safe_current_arg safe_local : safe.

Lemma safe_read_target w t : safe w (read_target t) value_ok.
Proof. unfold read_target. safe. Qed.

Lemma safe_executing w : safe w executing method_ok.
Proof.
  unfold executing. safe. apply safe_lift; [|intros; exact I|noub].
  intros m w' H Hw'. upgrade Hw'. destruct r; [|done]. by injection H as <-.
Qed.

Lemma args_store_ok w a n v b : args_ok w a -> value_ok w v -> args_store_arg a n v = Ok b ->
  args_ok w b.
Proof.
  intros [Hl Ha] Hv. unfold args_store_arg. destruct (6 <? n); [done|].
  destruct (a !! Z.to_nat n); cbn; [|done]. intros [= <-].
  split; [by rewrite length_insert|]. by apply Forall_insert.
Qed.

#[export] Instance method_ok_Mono : Mono method_ok := method_ok_mono.

(** The objects are replaced by objects of their types. *)
Lemma safe_replace_object fuel w h v t : value_ok w v -> has_type w h t ->
  safe w (let! converted := as_type fuel v t in
          do! on_namespace (ns_set h converted) in
          in_namespace (fun ns => ns_get ns h)) value_ok.
Proof.
  intros Hv Ht. eapply safe_bind; [by apply safe_as_type_typed|].
  intros w' r Hw [Hr <-]. upgrade Hw.
  eapply safe_bind; [by apply safe_ns_set|]. intros w'' _ Hw' _. apply safe_ns_get.
Qed.

Lemma safe_store fuel w t v : value_ok w v -> safe w (store fuel t v) value_ok.
Proof.
  intros Hv. unfold store. destruct t; [by safe|..]; [|by safe| |].
  - eapply safe_bind; [apply safe_gets_scope|next]. eapply safe_bind; [apply safe_search|next].
    eapply safe_bind; [apply safe_ns_get_typed|intros w' old Hw' [Hold Ht]; upgrade Hw'].
    destruct (type_of old); first [by apply safe_replace_object | safe; done].
  - eapply safe_bind; [apply safe_executing|next]. safe; [|done].
    apply safe_set_method. cbn. destruct Hr as (H1 & H2 & H3).
    split_and!; [done|done|]. by eapply args_store_ok.
  - eapply safe_bind; [apply safe_executing|next]. safe; [|done].
    apply safe_set_method. cbn. destruct Hr as (H1 & H2 & H3).
    split_and!; cbn; [by rewrite length_insert|by apply Forall_insert|done].
Qed.
Hint Resolve safe_read_target safe_store : safe.
End Value.
#[export] Hint Resolve safe_as_integer safe_as_buffer safe_as_string safe_as_type safe_value_cmp
  safe_current_arg safe_local safe_read_target safe_store : safe.
#[export] Hint Resolve name_lit_no_ub try_into_no_ub args_arg_no_ub args_store_arg_no_ub
  as_bool_no_ub copy_bits_no_ub seg_from_str_no_ub : noub.

(** * Parsers *)

Section Parsers.
Context {env : AmlEnv}.

Lemma safe_opcode w op : safe w (opcode op) any.
Proof.
  apply safe_pure. intros [|b i] c; cbn; [done|]. by destruct (bool_decide _).
Qed.
Lemma safe_take w : safe w p_take any.
Proof. apply safe_pure. by intros [|b i] c. Qed.
Lemma safe_consume w f : safe w (consume f) any.
Proof. apply safe_pure. intros [|b i] c; cbn; [done|]. by destruct (f b). Qed.
Lemma safe_id w : safe w p_id any.
Proof. apply safe_pure. done. Qed.

Lemma safe_take_le w n : safe w (take_le n) (pure (in_width (8 * Z.of_nat n))).
Proof.
  apply safe_pure. intros i c. unfold take_le. destruct (Nat.ltb_spec (length i) n); [done|].
  split; [done|]. intros w' _. unfold pure. apply from_le_bytes_in_width.
  rewrite length_take. lia.
Qed.
Lemma safe_take_u16 w : safe w take_u16 (pure is_u16).
Proof. apply (safe_take_le w 2). Qed.
Lemma safe_take_u32 w : safe w take_u32 (pure is_u32).
Proof. apply (safe_take_le w 4). Qed.
Lemma safe_take_u64 w : safe w take_u64 (pure is_u64).
Proof. apply (safe_take_le w 8). Qed.

Lemma take_n_pure n i c :
  match take_n n (i, c) with
  | SOk _ s => snd s = c
  | SErr e s => snd s = c /\ e = PErr UnexpectedEndOfStream
  | SFail _ => False
  end.
Proof. unfold take_n. by destruct (_ <? _). Qed.

Lemma safe_take_n w n : safe w (take_n n) any.
Proof.
  apply safe_pure. intros i c. pose proof (take_n_pure n i c) as H.
  destruct (take_n n (i, c)); [done| |done]. by destruct H as [H ->].
Qed.

Lemma safe_take_to_end w p : safe w (take_to_end_of_pkglength p) any.
Proof.
  apply safe_parser. intros i. unfold run_on, take_to_end_of_pkglength.
  destruct (_ <? _); [|apply (safe_run_on w (take_n _)), safe_take_n].
  enter c Hw Hc. split; [by apply good_refl|exact I].
Qed.

Lemma fold_length_range bs i n r :
  is_u32 n -> fold_length i bs n = (Ok r : result Propagate Z) -> is_u32 r.
Proof.
  revert i n. induction bs as [|b bs IH]; intros i n Hn; cbn [fold_length].
  - by intros [= <-].
  - destruct (add_w _ _ _) as [m| |] eqn:E; cbn; [|done|done]. intros H.
    eapply IH; [|exact H]. eapply checked_in_width; [|exact E]. lia.
Qed.

Lemma fold_length_no_ub bs i n : fold_length i bs n <> (Fail UB : result Propagate Z).
Proof. revert i n. induction bs; intros i n; cbn [fold_length]; noub. Qed.

Lemma fold_length_not_err bs i n e : fold_length i bs n <> (Err e : result Propagate Z).
Proof.
  revert i n. induction bs as [|b bs IH]; intros i n; cbn [fold_length]; [done|].
  destruct (add_w _ _ _) as [m|e'|] eqn:E; cbn; [apply IH| |done].
  by apply checked_not_err in E.
Qed.

Lemma get_bits_small b lo hi :
  0 <= lo < hi -> hi <= 8 -> 0 <= get_bits (u8 b) lo hi < 2 ^ (hi - lo).
Proof.
  intros H1 H2. rewrite get_bits_spec by (pose proof (u8_range b); lia).
  rewrite Z.land_ones by lia. apply Z.mod_pos_bound. lia.
Qed.

Lemma raw_pkg_length_pure i c :
  match raw_pkg_length (i, c) with
  | SOk n s => snd s = c /\ is_u32 n
  | SErr e s => snd s = c /\ e = PErr UnexpectedEndOfStream
  | SFail r => r <> UB
  end.
Proof.
  unfold raw_pkg_length, se_bind. destruct i as [|b i]; cbn [p_take]; [done|].
  destruct (_ =? 0).
  - split; [done|]. eapply (in_width_mono (6 - 0)); [lia|]. by apply get_bits_small.
  - pose proof (take_n_pure (get_bits (u8 b) 6 8) i c) as H.
    destruct (take_n _ _) as [bs [j d]|e [j d]|]; [|by destruct H as [H _]|done].
    cbn in H. subst d. unfold se_lift.
    pose proof (fold_length_no_ub bs 0 (get_bits (u8 b) 0 4)) as Hub.
    pose proof (fold_length_not_err bs 0 (get_bits (u8 b) 0 4)) as Her.
    destruct (fold_length _ _ _) as [n|e|r] eqn:E; [|by destruct (Her e)|congruence].
    split; [done|]. eapply fold_length_range; [|exact E].
    eapply (in_width_mono (4 - 0)); [lia|]. by apply get_bits_small.
Qed.

Lemma safe_pkg_length w : safe w pkg_length (pure (fun p => is_u64 (raw_length p))).
Proof.
  apply safe_pure. intros i c. unfold pkg_length. pose proof (raw_pkg_length_pure i c) as H.
  destruct (raw_pkg_length (i, c)) as [n [j d]|e [j d]|]; [|by destruct H as [H ->]|done].
  destruct H as [H Hn]. unfold from_raw_length. destruct (len32 i <? n); cbn; [by split|].
  split; [done|]. intros w' _. unfold pure. cbn. eapply (in_width_mono 32); [lia|done].
Qed.
Hint Resolve safe_opcode safe_take safe_consume safe_id safe_take_u16 safe_take_u32
  safe_take_u64 safe_take_to_end safe_pkg_length : safe.

Lemma safe_ext_opcode w op : safe w (ext_opcode op) any.
Proof. unfold ext_opcode. safe. Qed.
Hint Resolve safe_ext_opcode : safe.

Lemma safe_numbered_parser w i op : safe w (numbered_parser i op) any.
Proof. unfold numbered_parser. safe. Qed.
Hint Resolve safe_numbered_parser : safe.
Lemma safe_local_obj w : safe w local_obj any.
Proof. unfold local_obj. safe. Qed.
Lemma safe_arg_obj w : safe w arg_obj any.
Proof. unfold arg_obj. safe. Qed.
Hint Resolve safe_local_obj safe_arg_obj : safe.

(** ** Names *)

Definition path_ok (l : list NameComponent) : Prop := is_normal l = true /\ is_absolute l = false.

Lemma safe_name_seg w : safe w name_seg any.
Proof. unfold name_seg. safe. Qed.
Hint Resolve safe_name_seg : safe.

Lemma safe_n_of_segs w n :
  safe w (n_of name_seg n) any.
Proof.
  revert w. induction n as [|n IH]; intros w; [by apply safe_ret; [apply _|]|].
  intros [i c] Hw Hc. cbn [n_of]. pose proof (safe_name_seg w (i, c) Hw Hc) as H.
  destruct (name_seg (i, c)) as [r [j d]|e [j d]|]; [|done|done]. destruct H as [Hg _].
  specialize (IH _ (j, d) (reflexivity _) (proj1 Hg)).
  destruct (n_of name_seg n (j, d)) as [rs s'|e s'|]; [| |done];
    destruct IH as [Hg' H']; (split; [by eapply good_trans|done]).
Qed.

Lemma safe_multi_name_path w : safe w multi_name_path (pure path_ok).
Proof.
  intros [i c] Hw Hc. unfold multi_name_path, se_bind.
  assert (safe w (p_then (opcode MULTI_NAME_PREFIX) p_take) (both any any)) as H by safe.
  specialize (H (i, c) Hw Hc). destruct (p_then _ _ (i, c)) as [[[] n] s|e s|]; [|done|done].
  destruct H as [Hg _].
  pose proof (safe_n_of_segs _ (Z.to_nat (u8 n)) s (reflexivity _) (proj1 Hg)) as H.
  destruct (n_of name_seg _ s) as [segs s'|e s'|]; [| |done]; destruct H as [Hg' H'].
  - split; [by eapply good_trans|]. split; [apply is_normal_segments|by destruct segs].
  - split; [by eapply (good_trans _ (context_of s))|done].
Qed.
Hint Resolve safe_multi_name_path : safe.

Lemma safe_name_path w : safe w name_path (pure path_ok).
Proof. unfold name_path, null_name, dual_name_path. safe; done. Qed.
Hint Resolve safe_name_path : safe.

Lemma safe_prefix_chars w : safe w prefix_chars any.
Proof.
  intros s. unfold prefix_chars. generalize (S (length s.1)). intros n. revert w s.
  induction n as [|n IH]; intros w [i c] Hw Hc; cbn [p_take_while]; [done|].
  pose proof (safe_opcode w PREFIX_CHAR (i, c) Hw Hc) as H.
  destruct (opcode _ _) as [r s|e s|]; [| |done]; destruct H as [Hg He].
  - specialize (IH _ s (reflexivity _) (proj1 Hg)).
    destruct (p_take_while n _ s) as [m s'|e s'|]; [| |done]; destruct IH as [Hg' H'];
      (split; [by eapply good_trans|done]).
  - destruct (is_wrong_parser e); by split.
Qed.
Hint Resolve safe_prefix_chars : safe.

Lemma prefixes_fine k l : path_ok l -> name_fine (replicate k Prefix ++ l).
Proof. intros [Hn Ha]. destruct k; cbn; [intros H; cbn in H; congruence|done]. Qed.

Lemma safe_from_components w n : name_fine n ->
  safe w (se_lift (prop (from_components n)) : SE AmlContext _ _) (pure name_fine).
Proof.
  intros Hn. unfold prop. apply safe_lift; [| |unfold from_components; noub].
  - intros a w' H Hw'. unfold from_components in H. destruct (assert_ _); [|done|done].
    by injection H as <-.
  - intros e w' H. unfold from_components in H. unfold assert_ in H. by destruct (0 <? _).
Qed.

Lemma safe_root_name_string w : safe w root_name_string (pure name_fine).
Proof.
  unfold root_name_string. safe. apply safe_from_components. intros _.
  match goal with H : path_ok _ |- _ => apply H end.
Qed.
Lemma safe_prefix_path w : safe w prefix_path (pure name_fine).
Proof.
  unfold prefix_path. safe. apply safe_from_components. by apply prefixes_fine.
Qed.

Lemma safe_name_string w : safe w name_string (pure name_fine).
Proof.
  unfold name_string. safe. apply safe_parser. intros i. unfold run_on.
  destruct i as [|b i].
  { enter c Hw Hc. split; [by apply good_refl|exact I]. }
  destruct (bool_decide _); [apply (safe_run_on w root_name_string), safe_root_name_string|].
  destruct (bool_decide _); [apply (safe_run_on w prefix_path), safe_prefix_path|].
  apply (safe_run_on w (p_map name_path _)). safe.
  destruct r; [safe|]. apply safe_from_components. intros _. apply Hr.
Qed.
Hint Resolve safe_name_string : safe.

Lemma safe_super_name w : safe w super_name any.
Proof. unfold super_name, simple_name, debug_obj. safe. Qed.
Hint Resolve safe_super_name : safe.
Lemma safe_target w : safe w target any.
Proof. unfold target, null_name. safe. Qed.
End Parsers.
#[export] Hint Resolve safe_opcode safe_take safe_consume safe_id safe_take_u16 safe_take_u32
  safe_take_u64 safe_take_to_end safe_pkg_length safe_ext_opcode safe_local_obj safe_arg_obj
  safe_name_seg safe_name_string safe_super_name safe_target : safe.

(** * The grammar *)

(** What the parsers below keep. *)
Class GrammarSafe {env : AmlEnv} (g : Grammar) : Prop := {
  gs_term_arg w : safe w g_term_arg value_ok;
  gs_data_ref_object w : safe w g_data_ref_object value_ok;
  gs_term_object w : safe w g_term_object any;
  gs_invoke_method w path args : is_absolute path = true -> args_ok w args ->
    safe w (g_invoke_method path args) value_ok
}.

Section Grammar.
Context {env : AmlEnv} {g : Grammar} {Hg : GrammarSafe g}.
Hint Resolve gs_term_arg gs_data_ref_object gs_term_object : safe.

Lemma safe_term_list w len : safe w (term_list len) any.
Proof. unfold term_list. apply safe_parse_list; [apply _|done|]. intros. safe. Qed.
Hint Resolve safe_term_list : safe.

Lemma whole_length_no_ub {E} code : whole_length code <> (Fail UB : result E _).
Proof. unfold whole_length, from_raw_length. noub. Qed.
Hint Resolve whole_length_no_ub : noub.

Lemma whole_length_not_err {E} code e : whole_length code <> (Err e : result E _).
Proof. unfold whole_length. by destruct (from_raw_length _ _). Qed.

Lemma safe_run_term_list w code : safe w (run_term_list code) any.
Proof.
  unfold run_term_list. apply safe_bind_lift; [|noub|].
  - intros e w' H. by apply whole_length_not_err in H.
  - intros len _. safe.
Qed.
Hint Resolve safe_run_term_list : safe.

Lemma safe_store_result w t v : value_ok w v -> safe w (store_result t v) value_ok.
Proof. intros Hv. unfold store_result. safe. done. Qed.

Lemma safe_op_scope {A} w op (p : Parser A) Q :
  safe w p Q -> Mono Q -> safe w (op_scope op p) Q.
Proof.
  intros Hp HQ. unfold op_scope. safe.
Qed.

Lemma safe_negated_scope w op p Q :
  safe w p Q -> Mono Q -> safe w (negated_scope op p) Q.
Proof.
  intros Hp HQ. unfold negated_scope. safe.
Qed.

Lemma safe_buffer_contents w d v : value_ok w v -> safe w (buffer_contents d v) any.
Proof. intros Hv. unfold buffer_contents. safe. Qed.
Hint Resolve safe_buffer_contents : safe.

Lemma safe_def_buffer w : safe w def_buffer value_ok.
Proof.
  unfold def_buffer. eapply (safe_map_with_context w _ _ any).
  - apply safe_op_scope; [|apply _]. safe.
  - safe. done.
Qed.
Hint Resolve safe_def_buffer : safe.

Lemma safe_package_element w : safe w package_element value_ok.
Proof. unfold package_element. safe. done. Qed.
Hint Resolve safe_package_element : safe.

Lemma safe_def_package w : safe w def_package value_ok.
Proof.
  unfold def_package. apply safe_op_scope; [|apply _]. eapply safe_feed; [safe|next].
  eapply (safe_bind _ _ _ values_ok); [|next; safe; by apply value_ok_package].
  apply safe_parse_list; [apply _|constructor|].
  intros w' a Hw' Ha. eapply safe_bind; [apply safe_package_element|next].
  apply safe_ret; [apply _|]. apply Forall_app. split; [done|by constructor].
Qed.
Hint Resolve safe_def_package : safe.

Lemma wrap64_ok w z : value_ok w (VInteger (wrap 64 z)).
Proof. apply wrap_in_width. lia. Qed.
Lemma checked64_ok w z r : checked 64 z = (Ok r : result AmlError Z) -> value_ok w (VInteger r).
Proof. intros H. eapply checked_in_width; [|exact H]. lia. Qed.

Lemma land_ok w a b : is_u64 a -> is_u64 b -> value_ok w (VInteger (Z.land a b)).
Proof.
  intros [H1 H2] [H3 H4]. cbn. split; [apply Z.land_nonneg; auto|].
  rewrite <-(Z.mod_small a (2 ^ 64)), <-Z.land_ones, <-Z.land_assoc, (Z.land_comm _ b), Z.land_assoc,
    Z.land_ones by lia. apply Z.mod_pos_bound. lia.
Qed.

Lemma shift_ok w (f : Z -> Z -> option Z) a n r :
  f = checked_shl \/ f = checked_shr -> is_u64 a -> 0 <= n -> f a n = Some r ->
  value_ok w (VInteger r).
Proof.
  intros Hf [H1 H2] Hn. destruct Hf as [-> | ->]; unfold checked_shl, checked_shr;
    (destruct (n <? 64); [|done]); intros [= <-]; [apply wrap64_ok|]. cbn.
  split; [by apply Z.shiftr_nonneg|]. rewrite Z.shiftr_div_pow2 by done.
  eapply Z.le_lt_trans; [|exact H2]. apply Z.div_le_upper_bound; [lia|].
  pose proof (Z.pow_pos_nonneg 2 n). nia.
Qed.

Lemma safe_concat_values w a b : value_ok w a -> value_ok w b ->
  safe w (concat_values a b) value_ok.
Proof.
  intros Ha Hb. unfold concat_values.
  assert (value_ok w (as_concat_type a)) as Ha' by (destruct a; done).
  destruct (as_concat_type a); try solve [safe].
  - eapply (safe_bind _ _ _ any); [|next; safe; done]. safe.
  - safe; done.
  - safe; done.
Qed.
Hint Resolve safe_concat_values : safe.
Hint Resolve safe_store_result : safe.

Lemma strip_end_tag_safe w d n : safe w (strip_end_tag d n) any.
Proof. unfold strip_end_tag. safe. Qed.
Hint Resolve strip_end_tag_safe : safe.

Lemma safe_concat_resources w a b : buf_ok w a -> buf_ok w b ->
  safe w (concat_resources a b) value_ok.
Proof. intros Ha Hb. unfold concat_resources. safe. done. Qed.
Hint Resolve safe_concat_resources : safe.

Lemma safe_mid_buffer w d i n : safe w (mid_buffer d i n) value_ok.
Proof.
  unfold mid_buffer. safe_step; [safe; done|]. safe_step.
  eapply (safe_bind _ _ _ any); [|next; safe; done]. safe.
Qed.
Lemma mid_string_no_ub {E} s i n : mid_string s i n <> (Fail UB : result E _).
Proof. unfold mid_string. noub. Qed.
Hint Resolve safe_mid_buffer : safe.
Hint Resolve mid_string_no_ub : noub.
Lemma safe_mid_value w v i n : value_ok w v -> safe w (mid_value v i n) value_ok.
Proof. intros Hv. unfold mid_value. destruct v; safe; done. Qed.
Hint Resolve safe_mid_value : safe.

Lemma parse_u64_ok w radix s z : 0 <= radix -> parse_u64 radix s = Some z -> value_ok w (VInteger z).
Proof. apply parse_u64_range. Qed.

Lemma safe_to_integer w v : value_ok w v -> safe w (to_integer v) (pure is_u64).
Proof.
  intros Hv. unfold to_integer. destruct v; try solve [safe].
  - safe. apply Hv.
  - apply safe_lift; [|intros; exact I|noub]. intros z w' H Hw'.
    unfold pure, ok_or in *. destruct (starts_with _ _), (parse_u64 _ _) eqn:E; try done;
      injection H as <-; (eapply parse_u64_range; [|exact E]; lia).
Qed.
Hint Resolve safe_to_integer : safe.

Lemma safe_invocation_target w n :
  safe w (invocation_target n) (both (pure scope_ok) any).
Proof. unfold invocation_target. safe. by split. Qed.
Hint Resolve safe_invocation_target : safe.

Lemma args_from_list_ok w vs a : values_ok w vs -> args_from_list vs = Ok a -> args_ok w a.
Proof.
  unfold args_from_list. intros Hvs. destruct (Nat.ltb_spec 7 (length vs)); [done|].
  intros [= <-]. split.
  - rewrite length_app, length_map, length_replicate. lia.
  - apply Forall_app. split; [|by apply Forall_replicate].
    rewrite Forall_map. exact Hvs.
Qed.

Lemma args_from_list_no_ub vs : args_from_list vs <> Fail UB.
Proof. unfold args_from_list. noub. Qed.
Hint Resolve args_from_list_no_ub : noub.

Lemma safe_method_invocation w : safe w method_invocation value_ok.
Proof.
  unfold method_invocation. apply safe_comment_scope; [|apply _].
  eapply safe_feed; [safe|next]. eapply safe_map_with_context; [apply safe_n_of; safe|next].
  apply safe_ctx. destruct o; [|safe]. safe_step. destruct Hr as [Hr _].
  apply gs_invoke_method; [apply H|]. by eapply args_from_list_ok.
Qed.
Hint Resolve safe_method_invocation : safe.

Lemma safe_compare_operands w test : safe w (compare_operands test) value_ok.
Proof. unfold compare_operands. safe. done. Qed.
Hint Resolve safe_compare_operands safe_target : safe.

Lemma safe_shift_op w op f e : f = checked_shl \/ f = checked_shr ->
  safe w (shift_op op f e) value_ok.
Proof.
  intros Hf. unfold shift_op. safe. apply safe_store_result.
  match goal with
  | H1 : try_into 32 _ _ = Ok ?n, H2 : ok_or _ (f ?a ?n) = Ok _ |- _ =>
      apply try_into_range in H1; destruct (f a n) eqn:E; [|done]; injection H2 as <-;
      eapply (shift_ok _ f a n); [done|done|apply H1|done]
  end.
Qed.

Lemma safe_expression_opcode w : safe w expression_opcode value_ok.
Proof.
  unfold expression_opcode, def_add, def_and, def_concat, def_concat_res, def_increment,
    def_decrement, def_l_equal, def_l_greater, def_l_greater_equal, def_l_less,
    def_l_less_equal, def_l_not_equal, def_l_or, def_mid, def_shift_left, def_shift_right,
    def_store, def_to_integer.
  apply safe_comment_scope; [|apply _]. apply safe_choice.
  repeat (apply List.Forall_cons; [first
    [apply safe_def_package|apply safe_op_scope; [|apply _]|apply safe_negated_scope; [|apply _]|idtac]|]);
    [..|constructor].
  all: try solve [safe].
  all: safe; try done; try (apply safe_store_result).
  - apply wrap64_ok.
  - by apply land_ok.
  - by eapply checked64_ok.
  - by eapply checked64_ok.
  - apply safe_shift_op. by left.
  - apply safe_shift_op. by right.
Qed.
Hint Resolve safe_expression_opcode : safe.

(** ** Statements *)

Lemma safe_fatal_error w a b c : safe w (fatal_error a b c) any.
Proof.
  enter k Hw Hc. unfold fatal_error. destruct (handle_fatal_error _ _ _ _); [|done].
  split; [|done]. pose proof Hc as [H1 H2 H3 H4 H5 Hfresh]. by apply wf_same_world.
Qed.
Hint Resolve safe_fatal_error : safe.

Lemma safe_else_branch w : safe w else_branch any.
Proof. unfold else_branch. safe. Qed.
Hint Resolve safe_else_branch : safe.

Lemma safe_while_loop w fuel s b : safe w (while_loop fuel s b) any.
Proof.
  revert w. induction fuel as [|fuel IH]; intros w; cbn [while_loop]; [safe|].
  eapply safe_bind; [apply safe_try, safe_run_term_list|next].
  assert (safe w0 (let! result := run_on (comment_scope VbAllScopes g_term_arg) s in
    let! predicate := ctx (se_lift (as_bool result)) in
    if predicate : bool then while_loop fuel s b else se_ret tt) any) as Hagain.
  { eapply (safe_bind _ _ _ value_ok); [safe|next].
    eapply (safe_bind _ _ _ any); [|next; safe]. apply safe_ctx, safe_lift; [done|done|noub]. }
  destruct r as [r|[e|v| |]|r]; [done| | | |done|done].
  - apply safe_err. done.
  - apply safe_err. intros w' Hw'. by eapply value_ok_mono.
  - safe.
Qed.
Hint Resolve safe_while_loop : safe.

Lemma safe_then_bool w v d : 
  safe w (se_lift (let? predicate := prop (as_bool v) in Ok (predicate, d)) :
    SE AmlContext Propagate (bool * bytes)) any.
Proof.
  apply safe_lift; [done| |noub]. intros e w' H Hw. destruct (as_bool v); [done| |done].
  by injection H as <-.
Qed.

Hint Resolve safe_then_bool : safe.

Lemma safe_def_if_else w : safe w def_if_else any.
Proof.
  unfold def_if_else. eapply safe_discard_result, (safe_then w _ _ any any); [safe| |apply _..].
  apply safe_comment_scope; [|apply _]. eapply (safe_map_with_context w _ _ (both any any)); [|safe].
  apply safe_then; [|safe|apply _..]. eapply safe_feed; [safe|next].
  eapply safe_map; [safe|next]. safe.
Qed.

Lemma safe_def_while w : safe w def_while any.
Proof.
  unfold def_while. eapply safe_discard_result, (safe_then w _ _ any any); [safe| |apply _..].
  apply safe_comment_scope; [|apply _]. eapply (safe_map_with_context w _ _ any); [safe|next].
  eapply (safe_bind _ _ _ any); [|next; safe]. apply safe_ctx. safe.
Qed.
Hint Resolve safe_def_if_else safe_def_while : safe.

Lemma safe_statement_opcode w : safe w statement_opcode any.
Proof.
  unfold statement_opcode. apply safe_comment_scope; [|apply _]. apply safe_choice.
  repeat (apply List.Forall_cons; [first [apply safe_def_while|apply safe_def_if_else|idtac]|]);
    [..|constructor].
  all: unfold def_break, def_breakpoint, def_continue, def_fatal, def_noop, def_return; safe.
Qed.
Hint Resolve safe_statement_opcode : safe.

(** ** Terms *)

Lemma safe_add_at_current_scope w n v : value_ok w v -> safe w (add_at_current_scope n v) any.
Proof. intros Hv. unfold add_at_current_scope. safe. Qed.
Hint Resolve safe_add_at_current_scope : safe.

Lemma safe_resolve_here w n : name_fine n -> safe w (resolve_here n) (pure scope_ok).
Proof.
  intros Hn. unfold resolve_here. eapply safe_bind; [apply safe_gets_scope|next].
  apply safe_lift; [|done|apply resolve_no_ub]. intros m w' H Hw'. by eapply resolve_scope.
Qed.
Lemma safe_enter_scope w n : scope_ok n -> safe w (enter_scope n) (pure scope_ok).
Proof.
  intros Hn. unfold enter_scope. eapply safe_bind; [apply safe_gets_scope|next].
  eapply safe_bind; [by apply safe_set_scope|next]. by apply safe_ret; [apply _|].
Qed.
Hint Resolve safe_resolve_here safe_enter_scope : safe.

Lemma safe_in_scope w p :
  safe w p (both any (pure scope_ok)) -> safe w (in_scope p) any.
Proof.
  intros Hp. unfold in_scope. eapply (safe_map_with_context w _ _ (pure scope_ok)).
  - eapply safe_feed; [exact Hp|next]. eapply safe_map; [apply safe_term_list|next].
    by apply safe_lift_ok; [apply _|].
  - next. intros c Hw' Hc. apply (safe_set_scope w0 r Hr c Hw' Hc).
Qed.

Lemma safe_value_then_level w n v t : name_fine n -> value_ok w v ->
  safe w (value_then_level n v t) (pure scope_ok).
Proof. intros Hn Hv. unfold value_then_level. safe. Qed.
Lemma safe_level_then_value w n v t : name_fine n -> value_ok w v ->
  safe w (level_then_value n v t) (pure scope_ok).
Proof. intros Hn Hv. unfold level_then_value. safe. Qed.
Hint Resolve safe_value_then_level safe_level_then_value : safe.

Lemma safe_create_field w src idx scale len n : value_ok w src -> value_ok w idx -> is_u64 len ->
  safe w (create_field src idx scale len n) any.
Proof.
  intros Hs Hi Hl. unfold create_field.
  eapply safe_bind; [by apply safe_as_buffer|next]. eapply safe_bind; [by apply safe_as_integer|next].
  eapply (safe_bind _ _ _ (pure is_u64)); [|next; apply safe_add_at_current_scope; by split_and!].
  destruct scale; [|by apply safe_ret; [apply _|]]. apply safe_lift; [|done|noub].
  intros z' w' H Hw'. eapply checked_in_width; [|exact H]. lia.
Qed.
Hint Resolve safe_create_field : safe.

Lemma safe_create_fixed_field w op scale len : is_u64 len ->
  safe w (create_fixed_field op scale len) any.
Proof. intros Hl. unfold create_fixed_field. safe. Qed.

Lemma region_space_no_ub b : region_space b <> Fail UB.
Proof. unfold region_space. noub. Qed.
Hint Resolve region_space_no_ub : noub.

Lemma safe_region_parent w r n : name_fine n ->
  safe w (region_parent r n) (pure (fun p => match p with Some p => scope_ok p | None => True end)).
Proof.
  intros Hn. unfold region_parent. destruct r; try solve [safe; done].
  all: eapply safe_bind; [by apply safe_resolve_here|next];
    apply safe_bind_lift; [done|noub|]; intros p Hp; apply safe_ret; [apply _|];
    by eapply parent_scope.
Qed.
Hint Resolve safe_region_parent : safe.

Lemma safe_field_element w h f o : handle_ok w h -> is_u64 o ->
  safe w (field_element h f o) (pure is_u64).
Proof.
  intros Hh Ho. unfold field_element, reserved_field, named_field. safe; [done| |done].
  apply safe_add_at_current_scope. by split_and!.
Qed.

Lemma safe_field_list w len h f : handle_ok w h -> safe w (field_list len h f) any.
Proof.
  intros Hh. unfold field_list. eapply safe_discard_result.
  apply (safe_parse_list _ _ _ _ (pure is_u64)); [by split|].
  intros w' o Hw Ho. upgrade Hw. eapply safe_bind; [by apply safe_field_element|next].
  apply safe_on_context, safe_lift; [| |noub].
  - intros z w2 H Hw2. eapply checked_in_width; [|exact H]. lia.
  - intros e w2 H. by apply checked_not_err in H.
Qed.
Hint Resolve safe_field_list : safe.

(** The shape of the parsers of named objects. *)
Lemma safe_named {A B} w (p : Parser A) v (q : Parser B) :
  safe w p any -> safe w q any -> safe w (discard_result (p_then p (comment_scope v q))) any.
Proof.
  intros Hp Hq. eapply safe_discard_result, (safe_then w _ _ any any); [done| |apply _..].
  apply safe_comment_scope; [done|apply _].
Qed.

Ltac safe_scoped := repeat first
  [apply safe_named | apply safe_in_scope | apply safe_create_fixed_field | safe_step].

Lemma safe_namespace_modifier w : safe w namespace_modifier any.
Proof. unfold namespace_modifier, def_name, def_scope. safe_scoped; by split. Qed.

Lemma safe_opregion_as_handle w : safe w opregion_as_handle handle_ok.
Proof.
  unfold opregion_as_handle. eapply safe_map_with_context; [safe|next]. apply safe_ctx.
  eapply safe_bind; [apply safe_gets_scope|next]. eapply safe_bind; [apply safe_search|next].
  by apply safe_ret; [apply _|].
Qed.
Hint Resolve safe_opregion_as_handle : safe.
Hint Extern 1 (is_u64 _) => solve [by split] : safe.
Hint Extern 1 (value_ok _ _) => solve [cbn; split_and?; done] : safe.

Lemma safe_named_obj w : safe w named_obj any.
Proof.
  unfold named_obj, def_create_bit_field, def_create_byte_field, def_create_word_field,
    def_create_dword_field, def_create_qword_field, def_create_field,
    def_op_region, def_field, def_method, def_external, def_device,
    def_processor, def_power_res, def_thermal_zone, def_mutex.
  safe_scoped; try (by split); by split.
Qed.
Hint Resolve safe_namespace_modifier safe_named_obj : safe.

Lemma safe_term_object w : safe w term_object any.
Proof. unfold term_object. safe. Qed.

(** ** Data *)

Lemma safe_string_parser w : safe w string_parser value_ok.
Proof.
  apply safe_pure. intros i c. unfold string_parser. destruct (nul_position i); [|done].
  by destruct (utf8_valid _).
Qed.
Hint Resolve safe_string_parser : safe.

Lemma safe_const_parser w : safe w const_parser value_ok.
Proof.
  apply safe_parser. intros i. unfold run_on, const_parser.
  assert (forall p : Parser AmlValue, safe w p value_ok -> safe w (run_on p (drop 1 i)) value_ok) as H
    by (intros; by apply safe_run_on).
  destruct i as [|b i]; unfold se_bind; cbn [p_take].
  { enter c Hw Hc. split; [by apply good_refl|exact I]. }
  cbn [drop] in H. change (drop 0 i) with i in H.
  repeat (destruct (bool_decide _); [apply (H _); safe; try done; try by split|]).
  - apply u8_in_width. lia.
  - eapply (in_width_mono 16); [lia|apply Hr].
  - eapply (in_width_mono 32); [lia|apply Hr].
  - enter c Hw Hc. split; [by apply good_refl|exact I].
Qed.
Hint Resolve safe_const_parser : safe.

Lemma safe_data_object w : safe w data_object value_ok.
Proof. unfold data_object, computational_data. safe. by split. Qed.
Hint Resolve safe_data_object : safe.
Lemma safe_data_ref_object w : safe w data_ref_object value_ok.
Proof. unfold data_ref_object. safe. Qed.
Lemma safe_term_arg w : safe w term_arg value_ok.
Proof. unfold term_arg. safe. Qed.
Hint Resolve safe_term_object safe_data_ref_object safe_term_arg : safe.
End Grammar.

(** * The interpreter *)

(** What the native methods that the user adds have to keep. *)
Class NativesSafe {env : AmlEnv} (natives : UserNatives) : Prop :=
  user_native_safe n w : safe w (user_native n) value_ok.

Section Interp.
Context {env : AmlEnv} {natives : UserNatives} {Hnatives : NativesSafe natives}.
Abbreviation M := (SE AmlContext AmlError).

Lemma safe_osi_method fuel w : safe w (osi_method fuel) value_ok.
Proof. unfold osi_method. safe; by case_bool_decide. Qed.

Lemma safe_run_native fuel w m : safe w (run_native fuel m) value_ok.
Proof. destruct m; [apply safe_osi_method|apply user_native_safe]. Qed.

Lemma safe_method_result w m : safe w m any -> safe w (method_result m) value_ok.
Proof.
  intros Hm. enter c Hw Hc. specialize (Hm c Hw Hc). unfold method_result.
  destruct (m c) as [u c'|[e|v| |] c'|r]; [|by destruct Hm..|done].
  destruct Hm as [Hg _]. split; [done|by split].
Qed.

Section Step.
Context {g : Grammar} {Hg : GrammarSafe g}.

Lemma safe_run_code w code : safe w (run_code code) value_ok.
Proof.
  destruct code as [code|m]; [|apply safe_run_native]. apply safe_method_result.
  apply safe_run_term_list.
Qed.

Lemma new_method_ok w args : args_ok w args -> method_opt_ok w (Some (new_method_context args)).
Proof. intros Ha. split_and!; [done| |done]. by apply Forall_replicate. Qed.

Lemma safe_invoke_method w path args : is_absolute path = true -> args_ok w args ->
  safe w (invoke_method path args) value_ok.
Proof.
  intros Hp Ha. unfold invoke_method.
  apply (safe_bind _ _ _ (fun w v => value_ok w v /\ scope_ok path)).
  { intros c Hw Hc. pose proof (safe_get_by_path w path c Hw Hc) as H. unfold in_namespace,
    se_bind, se_gets, se_lift in *.
  destruct (get_by_path (namespace c) path) eqn:E; [|done|done].
  destruct H as [Hgd Hv]. split; [done|]. split; [done|].
  apply get_by_path_found in E as [E|E]; [done|congruence]. }
  next. destruct r; try by apply safe_ret; [apply _|].
  eapply safe_bind; [apply safe_gets_method|next].
  eapply safe_bind; [by apply safe_set_method, new_method_ok|next].
  eapply safe_bind; [apply safe_gets_scope|next].
  eapply safe_bind; [by apply safe_set_scope|next].
  eapply safe_bind; [apply safe_add_level|next].
  eapply safe_bind; [apply safe_try, safe_run_code|].
  intros w6 rv Hw6 Hrv. upgrade Hw6.
  eapply safe_bind; [apply safe_remove_level|]. intros w7 u Hw7 _. upgrade Hw7.
  eapply safe_bind; [by apply safe_set_method|]. intros w8 u' Hw8 _. upgrade Hw8.
  eapply safe_bind; [by apply safe_set_scope|]. intros w9 u'' Hw9 _. upgrade Hw9.
  apply safe_lift; [|done|intros ->; done].
  intros v w10 -> Hw10. eapply value_ok_mono; [|exact Hrv].
  do 3 (etrans; [eassumption|]). done.
Qed.

Lemma grammar_step_safe : GrammarSafe (grammar_step g).
Proof.
  split; cbn.
  - apply safe_term_arg.
  - apply safe_data_ref_object.
  - apply safe_term_object.
  - apply safe_invoke_method.
Qed.
End Step.

#[export] Instance grammar_safe n : GrammarSafe (grammar n).
Proof.
  induction n as [|n IH]; [|by apply grammar_step_safe].
  split; intros; apply safe_fail; discriminate.
Qed.

Lemma safe_invoke fuel w path args : is_absolute path = true -> args_ok w args ->
  safe w (invoke fuel path args) value_ok.
Proof. apply safe_invoke_method. Qed.

Lemma safe_parse_table fuel w stream : safe w (parse_table fuel stream) any.
Proof.
  unfold parse_table. destruct stream as [|b s]; [safe|]. enter c Hw Hc.
  pose proof (safe_run_term_list (g := grammar fuel) w (b :: s) c Hw Hc) as H.
  destruct (run_term_list (b :: s) c) as [u c'|[e|v| |] c'|r]; try done; by destruct H.
Qed.

Lemma args_empty_ok w : args_ok w args_empty.
Proof. split; [done|]. by apply Forall_replicate. Qed.
Hint Resolve args_empty_ok : safe.

Lemma safe_invoke_device_method fuel w name path :
  safe w (invoke_device_method fuel name path) value_ok.
Proof.
  unfold invoke_device_method. safe. apply safe_invoke; [|apply args_empty_ok].
  by eapply resolve_absolute.
Qed.
Hint Resolve safe_invoke_device_method : safe.

Lemma as_status_no_ub v : as_status v <> Fail UB.
Proof. unfold as_status. noub. Qed.
Hint Resolve as_status_no_ub : noub.

Lemma safe_has_value w level name : safe w (has_value level name) any.
Proof. unfold has_value. safe. Qed.
Hint Resolve safe_has_value : safe.

Lemma safe_initialize_level fuel w path level : safe w (initialize_level fuel path level) any.
Proof.
  unfold initialize_level. destruct (level_typ level); try solve [safe].
  eapply safe_bind; [apply safe_has_value|next].
  eapply (safe_bind _ _ _ any); [destruct r; safe|next].
  eapply safe_bind; [apply safe_has_value|next].
  eapply (safe_bind _ _ _ any); [|next; safe]. safe.
Qed.

Lemma safe_traverse_level f level w path :
  (forall w p l, safe w (f p l) any) -> safe w (traverse_level f level path : M unit) any.
Proof.
  intros Hf. revert level w path. fix IH 1. intros [t cs vs] w path. cbn [traverse_level].
  revert w. induction cs as [|[s l] cs IHcs]; intros w; [safe|].
  apply safe_bind_lift; [done|apply resolve_no_ub|]. intros p _.
  eapply safe_bind; [apply Hf|next].
  eapply (safe_bind _ _ _ any); [destruct r; [apply IH|safe]|next]. apply IHcs.
Qed.

Lemma safe_initialize_objects fuel w : safe w (initialize_objects fuel) any.
Proof.
  unfold initialize_objects. apply safe_bind_lift; [done|noub|]. intros n Hn.
  eapply safe_bind; [apply safe_try, safe_invoke; [|apply args_empty_ok]|].
  { vm_compute in Hn. by injection Hn as <-. }
  intros w' r Hw Hr. eapply (safe_bind _ _ _ any).
  { destruct r as [v|e|r]; [safe| |done]. destruct e; safe. }
  next. eapply safe_bind; [apply safe_gets_namespace|next]. unfold traverse.
  eapply safe_bind; [apply safe_initialize_level|next].
  destruct r2; [|safe]. apply safe_traverse_level. intros. apply safe_initialize_level.
Qed.

(** ** New contexts *)

Lemma method_flags_new_no_ub {bf : BitField} {E} a s l :
  method_flags_new a s l <> (Fail UB : result E _).
Proof. unfold method_flags_new. noub. Qed.

Lemma safe_unwrap_se {A} w (m : M A) Q : safe w m Q -> safe w (unwrap_se m) Q.
Proof.
  intros Hm. enter c Hw Hc. specialize (Hm c Hw Hc). unfold unwrap_se. by destruct (m c).
Qed.

Lemma safe_add_predefined_level w n : safe w (add_predefined_level n) any.
Proof. unfold add_predefined_level. safe. apply safe_unwrap_se. safe. Qed.

Lemma safe_add_predefined_value w n v :
  (forall x w', v = Ok x -> value_ok w' x) -> v <> Fail UB ->
  safe w (add_predefined_value n v) any.
Proof.
  intros Hv Hub. unfold add_predefined_value. safe_step.
  apply safe_bind_lift; [done|done|]. intros x Hx.
  eapply safe_bind; [apply safe_unwrap_se, safe_add_value; by apply Hv|next]. safe.
Qed.

Lemma safe_add_predefined_objects w : safe w add_predefined_objects any.
Proof.
  unfold add_predefined_objects.
  do 5 (eapply safe_bind; [apply safe_add_predefined_level|next]).
  eapply safe_bind; [apply safe_add_predefined_value; [by intros x w' [= <-]|done]|next].
  eapply safe_bind; [apply safe_add_predefined_value|next].
  - intros x w'. unfold native_method. destruct (method_flags_new _ _ _); [|done|done].
    by intros [= <-].
  - unfold native_method. apply bind_no_ub; [apply method_flags_new_no_ub|done].
  - apply safe_add_predefined_value; [|done]. intros x w' [= <-]. by split.
Qed.

(** The context before its predefined objects. *)
Lemma initial_wf h v : wf (MkContext _ h new_namespace None root 0 v [] []).
Proof.
  split; cbn; [|done|done|done| |].
  - intros p s k. unfold ns_lookup. destruct p; done.
  - split; [done|]. apply Z.pow_pos_nonneg; [lia|apply usize_bits_nonneg].
  - intros _. split; [done|]. intros k [x Hx]. cbn in Hx. by rewrite lookup_empty in Hx.
Qed.
End Interp.

(** * The invariant of the interpreter *)

(** An outcome that keeps the invariant. *)
Definition keeps {env : AmlEnv} {A} (c : AmlContext) (r : sres AmlContext AmlError A)
    (Q : world -> A -> Prop) : Prop :=
  match r with
  | SOk a c' => good c c' /\ Q (world_of c') a
  | SErr _ c' => good c c'
  | SFail r => r <> UB
  end.

Lemma safe_keeps {env : AmlEnv} {A} c (m : SE AmlContext AmlError A) Q :
  safe (world_of c) m Q -> wf c -> keeps c (m c) Q.
Proof.
  intros Hm Hc. specialize (Hm c (reflexivity _) Hc). unfold keeps. destruct (m c); [done|apply Hm|done].
Qed.

(** C8: A new context satisfies the invariant, and parsing a table, invoking a
    method by an absolute path with arguments of their types, and initializing the
    devices keep it, also when they fail: every value that the context holds is of
    its type, every handle and buffer it refers to exists, the current scope is an
    absolute, normal name, no object or buffer is lost, and no lock stays held. A
    method returns a value of its type, and nothing ever follows a dangling
    reference. *)
Theorem context_invariant {env : AmlEnv} {natives : UserNatives} (Hn : NativesSafe natives)
    (fuel : nat) :
  (forall h v c, new_context h v = Ok c -> wf c) /\
  forall c, wf c ->
    (forall stream, keeps c (parse_table fuel stream c) any) /\
    (forall path args, is_absolute path = true -> args_ok (world_of c) args ->
       keeps c (invoke fuel path args c) value_ok) /\
    keeps c (initialize_objects fuel c) any.
Proof.
  split.
  - intros h v c. unfold new_context. pose proof (safe_add_predefined_objects
      _ _ (reflexivity _) (initial_wf h v)) as H.
    destruct (add_predefined_objects _) as [u c'|e c'|r]; [|done|done].
    intros [= <-]. apply H.
  - intros c Hc. split; [|split].
    + intros stream. by apply safe_keeps; [apply safe_parse_table|].
    + intros path args Hp Ha. by apply safe_keeps; [apply safe_invoke|].
    + by apply safe_keeps; [apply safe_initialize_objects|].
Qed.

Lemma context_invariant_witness :
  @wf env_debug sample_context /\
  keeps sample_context (@parse_table env_debug sample_natives 20 sample_table sample_context) any.
Proof.
  assert (NativesSafe sample_natives) as Hn
    by (intros n w c Hw Hc; split; [by apply good_refl|exact I]).
  destruct (context_invariant Hn 20) as [Hnew Hkeep].
  pose proof (Hnew _ _ _ sample_context_new) as Hc.
  split; [exact Hc|]. destruct (Hkeep _ Hc) as [H _]. exact (H sample_table).
Defined.

(** The object of a handle is of the same type after an outcome, if there is one. *)
Definition keeps_type {env : AmlEnv} {A} (h : AmlHandle) (v : AmlValue) (r : sres AmlContext AmlError A) : Prop :=
  match r with
  | SOk _ c' | SErr _ c' => exists v', ns_get (namespace c') h = Ok v' /\ type_of v' = type_of v
  | SFail _ => True
  end.

Lemma safe_keeps_type {env : AmlEnv} {A} c h v (m : SE AmlContext AmlError A) Q :
  safe (world_of c) m Q -> wf c -> overflow_checks = true -> ns_get (namespace c) h = Ok v ->
  keeps_type h v (m c).
Proof.
  intros Hm Hc Hk Hv. specialize (Hm c (reflexivity _) Hc).
  assert (forall c', good c c' -> exists v', ns_get (namespace c') h = Ok v' /\ type_of v' = type_of v) as H.
  { intros c' (_ & (_ & _ & _ & Ht) & _). specialize (Ht Hk). unfold world_of in Ht. cbn in Ht.
    unfold ns_get, unwrap in *. destruct (object_map (namespace c) !! h) as [v0|] eqn:E; [|done].
    injection Hv as <-.
    assert ((type_of <$> object_map (namespace c')) !! h = Some (type_of v0)) as Hl
      by (eapply lookup_weaken; [|exact Ht]; by rewrite lookup_fmap, E).
    rewrite lookup_fmap in Hl. destruct (object_map (namespace c') !! h) as [v'|]; [|done].
    exists v'. by injection Hl. }
  unfold keeps_type. destruct (m c); [apply H, Hm|apply H, Hm|done].
Qed.

(** C9: Objects keep their types: in a build that checks arithmetic, whatever a table does
    when it is parsed, a method when it is invoked, or the devices when they are
    initialized - stores, increments, calls, and also when it ends with an error - the
    object behind a handle is still there afterwards and has the type it had. *)
Theorem objects_keep_types {env : AmlEnv} {natives : UserNatives} (Hn : NativesSafe natives)
    (fuel : nat) (c : AmlContext) (h : AmlHandle) (v : AmlValue) :
  wf c -> overflow_checks = true -> ns_get (namespace c) h = Ok v ->
  (forall stream, keeps_type h v (parse_table fuel stream c)) /\
  (forall path args, is_absolute path = true -> args_ok (world_of c) args ->
     keeps_type h v (invoke fuel path args c)) /\
  keeps_type h v (initialize_objects fuel c).
Proof.
  intros Hc Hk Hv. split; [|split].
  - intros stream. by eapply safe_keeps_type; [apply safe_parse_table|..].
  - intros path args Hp Ha. by eapply safe_keeps_type; [apply safe_invoke|..].
  - by eapply safe_keeps_type; [apply safe_initialize_objects|..].
Qed.

(** The context of [AmlContext::new] in which [\FOO_] is the integer 5. *)
Definition typed_context : @AmlContext env_debug :=
  MkContext env_debug ∅ (MkNamespace 1 {[0 := VInteger 5]} (MkLevel LScope [] [(MkSeg x46 x4f x4f x5f, 0)]))
    None root 0 VbNone [] [].

(** [Store(..., FOO_)] leaves an integer behind, whatever the table. *)
Lemma objects_keep_types_witness :
  keeps_type 0 (VInteger 5) (@parse_table env_debug sample_natives 20
    [x70; x11; x04; x0a; x01; x07; x46; x4f; x4f; x5f] typed_context).
Proof.
  assert (NativesSafe sample_natives) as Hn
    by (intros n w c Hw Hc; split; [by apply good_refl|exact I]).
  assert (wf typed_context) as Hc.
  { split; [| |exact I|by split| |].
    - intros p s k. destruct p as [|t p]; [|discriminate]. unfold ns_lookup. cbn.
      destruct (decide _); [|discriminate]. intros [= <-]. cbn. by eexists.
    - intros k x Hx. change (({[0 := VInteger 5]} : gmap Z AmlValue) !! k = Some x) in Hx.
      apply lookup_singleton_Some in Hx as [<- <-]. split; [discriminate|reflexivity].
    - split; [discriminate|reflexivity].
    - intros _. split; [split; [discriminate|reflexivity]|]. intros k [x Hx].
      change (({[0 := VInteger 5]} : gmap Z AmlValue) !! k = Some x) in Hx.
      apply lookup_singleton_Some in Hx as [<- _]. split; [discriminate|reflexivity]. }
  destruct (objects_keep_types Hn 20 typed_context 0 (VInteger 5) Hc eq_refl eq_refl) as [H _].
  exact (H _).
Defined.
