(* ===== verification/EvalCorrect.v ===== *)
(** Parsing the encoding of an expression evaluates the expression, from what is known of
    the calls that it makes: the first part of the promise of [Program.v]. *)
From S2P Require Import Prelude Types Names Namespace Ordered Env RustStd Context Value Parser.
From S2P Require Import PkgLength Opcode NameObject Grammar Expression Statement TermObject.
From S2P Require Import Interp Sample Flat Program Fuel Denotation First Calculus Memory.
#[local] Open Scope Z_scope.

(** How many calls of the parser of operands an expression nests. *)
Fixpoint height (e : expr) : nat :=
  match e with
  | EConst _ | ESlot _ => 0
  | EIncrement _ | EDecrement _ => 1
  | EArith _ a b _ | ECompare _ a b | EOr a b => S (max (height a) (height b))
  | EStore a _ | EToInteger a _ => S (height a)
  | ECall _ args => S (foldr (fun e n => max (height e) n) 0%nat args)
  end.

(** Induction on expressions and their operands. *)
Lemma expr_nested_ind (P : expr -> Prop) :
  (forall z, P (EConst z)) -> (forall s, P (ESlot s)) ->
  (forall op a b t, P a -> P b -> P (EArith op a b t)) ->
  (forall s, P (EIncrement s)) -> (forall s, P (EDecrement s)) ->
  (forall op a b, P a -> P b -> P (ECompare op a b)) ->
  (forall a b, P a -> P b -> P (EOr a b)) -> (forall a s, P a -> P (EStore a s)) ->
  (forall a t, P a -> P (EToInteger a t)) -> (forall r args, Forall P args -> P (ECall r args)) ->
  forall e, P e.
Proof.
  intros H1 H2 H3 H4 H5 H6 H7 H8 H9 H10. fix IH 1.
  intros [z|s|op a b t|s|s|op a b|a b|a s|a t|r args]; [apply H1|apply H2|apply H3; apply IH|apply H4|apply H5
    |apply H6; apply IH|apply H7; apply IH|apply H8; apply IH|apply H9; apply IH|apply H10].
  induction args as [|e args IHargs]; constructor; [apply IH|exact IHargs].
Qed.

(** The target that an operation stores its result to. *)
Definition slot_target (s : slot) : Target_ :=
  match s with
  | SlotLocal n => TgtLocal (Z.of_nat n)
  | SlotArg n => TgtArg (Z.of_nat n)
  | SlotName r => TgtName (ref_name r)
  end.
Definition opt_target (t : option slot) : Target_ :=
  match t with Some s => slot_target s | None => TgtNull end.

(** The first bytes of a parser. *)
Ltac heads :=
  first [apply heads_op_scope | apply heads_negated_scope | apply heads_op_stmt
         | apply heads_def_buffer | apply heads_data_object | apply heads_arg_obj
         | apply heads_map_ctx, heads_arg_obj | apply heads_map_ctx, heads_local_obj
         | apply heads_map, heads_arg_obj | apply heads_map, heads_local_obj
         | apply heads_map, heads_opcode | apply heads_map, heads_ext_opcode
         | apply heads_numbered | apply heads_unit_op | apply heads_unit_ext
         | apply heads_map, heads_namespace_modifier | apply heads_map, heads_named_obj
         | apply heads_map, heads_statement_opcode | apply heads_namespace_modifier].

(** The next alternative of a choice is wrong, or it is the one. *)
Ltac pass := eapply parses_pass; [heads|vm_compute; reflexivity|].

(** The first bytes of slots. *)
Definition slot_heads : list byte :=
  [x60; x61; x62; x63; x64; x65; x66; x67; x68; x69; x6a; x6b; x6c; x6d; x6e] ++ name_heads.

Section Slots.
Context {env : AmlEnv} {prog : Program} {ex : Executing}.

Lemma den_numbered i op rest c : quiet c ->
  den (numbered_parser i op) (op :: rest) c = SOk (i, rest) c.
Proof.
  intros Hc. unfold numbered_parser. rewrite den_map. unfold se_bind at 1. rewrite den_then.
  unfold se_bind at 1. rewrite den_opcode. unfold se_bind at 1. by rewrite den_scope.
Qed.

Lemma parses_numbered i op rest :
  parses (T := frame) id (numbered_parser i op) (op :: rest) rest (se_ret i).
Proof. intros c f Hc _. rewrite den_numbered; [done|by apply put_quiet]. Qed.

Lemma parses_slot_obj (s : slot) rest :
  slot_valid s = true ->
  match s with
  | SlotLocal n => parses (T := frame) id local_obj (slot_bytes s ++ rest) rest (se_ret (Z.of_nat n))
  | SlotArg n => parses (T := frame) id arg_obj (slot_bytes s ++ rest) rest (se_ret (Z.of_nat n))
  | SlotName r => parses (T := frame) id name_string (slot_bytes s ++ rest) rest (se_ret (ref_name r))
  end.
Proof.
  destruct s as [n|n|r]; cbn [slot_valid]; [intros Hn%Nat.ltb_lt..|intros [Hr _]%andb_prop].
  3: by apply (gives_parses id), gives_name.
  all: do 8 (destruct n as [|n];
    [first [exfalso; lia | cbn [slot_bytes app]; repeat pass; apply parses_take; [done|apply parses_numbered]]|]).
  all: lia.
Qed.

(** A slot starts with one of its bytes, of its kind. *)
Lemma slot_bytes_head s rest : slot_valid s = true ->
  exists b i, slot_bytes s ++ rest = b :: i /\ b ∈ slot_heads /\
  match s with
  | SlotLocal _ => bool_decide (b ∈ [x68; x69; x6a; x6b; x6c; x6d; x6e]) = false
  | SlotArg _ => True
  | SlotName _ => b ∈ name_heads
  end.
Proof.
  destruct s as [n|n|r]; cbn [slot_valid]; [intros Hn%Nat.ltb_lt..|intros [Hr _]%andb_prop].
  3: { destruct (ref_bytes_head r rest Hr) as (b & i & E & Hb). exists b, i. split; [done|].
       split; [|done]. apply elem_of_app. by right. }
  all: do 8 (destruct n as [|n];
    [first [exfalso; lia | eexists _, _; split; [reflexivity|]; split;
       [apply (bool_decide_unpack _); vm_compute; exact I|done]]|]).
  all: lia.
Qed.

Lemma never_wrong_slot_get s : never_wrong (slot_get s).
Proof.
  intros f. destruct s as [n|n|r]; cbn; [by destruct (_ !! n) as [[]|]..|by destruct (binding r)].
Qed.

Lemma never_wrong_slot_put s v : never_wrong (slot_put s v).
Proof. intros f. destruct s as [n|n|r]; cbn; [by destruct (_ !! n)..|by destruct (binding r)]. Qed.

Lemma never_wrong_put_target t v : never_wrong (put_target t v).
Proof. destruct t; [apply never_wrong_slot_put|done]. Qed.

(** An alternative that starts like no slot is passed over. *)
Lemma pass_slot {A B} (emb : B -> A) (p : Parser A) bs ps s rest j (sp : SE frame AmlError B) :
  slot_valid s = true -> heads p bs ->
  forallb (fun b => negb (bool_decide (b ∈ bs))) slot_heads = true ->
  parses emb (choice ps) (slot_bytes s ++ rest) j sp ->
  parses emb (choice (p :: ps)) (slot_bytes s ++ rest) j sp.
Proof.
  intros Hs Hp Hb. destruct (slot_bytes_head s rest Hs) as (b & i & -> & Hi & _).
  apply parses_pass with (bs := bs); [done|by apply (heads_apart b slot_heads)].
Qed.

(** The three kinds of slots, one after the other. *)
Lemma parses_slot_kinds {A B} (emb : B -> A) (pa pl pn : Parser A) ps s rest (sp : SE frame AmlError B) :
  slot_valid s = true -> never_wrong sp ->
  heads pa [x68; x69; x6a; x6b; x6c; x6d; x6e] -> heads pl [x60; x61; x62; x63; x64; x65; x66; x67] ->
  parses emb (match s with SlotArg _ => pa | SlotLocal _ => pl | SlotName _ => pn end)
    (slot_bytes s ++ rest) rest sp ->
  parses emb (choice (pa :: pl :: pn :: ps)) (slot_bytes s ++ rest) rest sp.
Proof.
  intros Hs Hw Ha Hl Hp. destruct (slot_bytes_head s rest Hs) as (b & i & E & Hi & Hk).
  destruct s as [n|n|r].
  - rewrite E in *. by eapply parses_pass; [exact Ha|done|apply parses_take].
  - by apply parses_take.
  - rewrite E in *. eapply parses_pass; [exact Ha|by apply (heads_apart b name_heads)|].
    eapply parses_pass; [exact Hl|by apply (heads_apart b name_heads)|]. by apply parses_take.
Qed.

(** Parsing a slot as a target. *)
Lemma parses_simple_name s rest : slot_valid s = true ->
  parses (T := frame) id simple_name (slot_bytes s ++ rest) rest (se_ret (slot_target s)).
Proof.
  intros Hs. pose proof (parses_slot_obj s rest Hs) as H. apply parses_scope; [done|].
  apply parses_slot_kinds; [done|done|apply heads_map, heads_arg_obj|apply heads_map, heads_local_obj|].
  destruct s as [n|n|r].
  - exact (parses_map id id local_obj _ _ _ _ TgtLocal H (fun _ => eq_refl)).
  - exact (parses_map id id arg_obj _ _ _ _ TgtArg H (fun _ => eq_refl)).
  - exact (parses_map id id name_string _ _ _ _ TgtName H (fun _ => eq_refl)).
Qed.

Lemma parses_super_name s rest : slot_valid s = true ->
  parses (T := frame) id super_name (slot_bytes s ++ rest) rest (se_ret (slot_target s)).
Proof.
  intros Hs. apply parses_scope; [done|].
  eapply pass_slot; [done|apply heads_map, heads_ext_opcode|vm_compute; reflexivity|].
  apply parses_take; [done|]. by apply parses_simple_name.
Qed.

Lemma parses_super_unit s rest : slot_valid s = true ->
  parses (T := frame) (fun _ : unit => slot_target s) super_name (slot_bytes s ++ rest) rest (se_ret tt).
Proof. intros Hs c f Hc Hg. by rewrite (parses_super_name s rest Hs c f Hc Hg). Qed.

Lemma parses_target t rest : match t with Some s => slot_valid s = true | None => True end ->
  parses (T := frame) id target (target_bytes t ++ rest) rest (se_ret (opt_target t)).
Proof.
  intros Ht. apply parses_scope; [done|]. destruct t as [s|]; cbn [target_bytes opt_target app].
  - eapply pass_slot; [done|apply heads_map, heads_map, heads_opcode|vm_compute; reflexivity|].
    apply parses_take; [done|]. by apply parses_super_name.
  - apply parses_take; [done|]. intros c f Hc _. unfold null_name. rewrite den_map.
    unfold se_bind at 1. rewrite den_map. unfold se_bind at 1. by rewrite den_opcode.
Qed.

Lemma parses_target_unit t rest : match t with Some s => slot_valid s = true | None => True end ->
  parses (T := frame) (fun _ : unit => opt_target t) target (target_bytes t ++ rest) rest (se_ret tt).
Proof. intros Ht c f Hc Hg. by rewrite (parses_target t rest Ht c f Hc Hg). Qed.

(** * Values *)

Lemma as_integer_num fuel v c : as_integer (S fuel) (val v) c = SOk (int v) c.
Proof. by destruct v. Qed.

Lemma as_bool_num v : as_bool (val v) = Ok (truth v).
Proof. by destruct v. Qed.

Lemma lookup_slot (l : list (option num)) n : map (fmap val) l !! n = fmap val <$> l !! n.
Proof. apply list_lookup_fmap. Qed.

(** The parts of a context that holds a frame. *)
Lemma put_scope f c : current_scope (put f c) = current_scope c.
Proof. done. Qed.
Lemma put_namespace f c : namespace (put f c) = with_memory (f_memory f) (namespace c).
Proof. done. Qed.

Lemma search_bound r h f c : prepared c -> binding r = Some h ->
  exists path, search (namespace (put f c)) (ref_name r) (current_scope (put f c)) = Ok (path, h) /\
  ns_get (namespace (put f c)) h = Ok (val (recall (f_memory f) h)) /\
  get_by_path (namespace (put f c)) path = Ok (val (recall (f_memory f) h)).
Proof.
  intros (Hc & Hl & Hsc & Hm) Hr.
  destruct (linked_binding _ _ _ r h Hl Hm Hr) as (Hh & Ho & q & Hs & Hg).
  exists (abs q). rewrite put_scope, put_namespace, Hsc.
  assert (ns_get (with_memory (f_memory f) (namespace c)) h = Ok (val (recall (f_memory f) h))) as E
    by by apply with_memory_get.
  split; [by rewrite search_memory|]. split; [exact E|].
  unfold get_by_path.
  change (get_handle (with_memory (f_memory f) (namespace c)) (abs q)) with (get_handle (namespace c) (abs q)).
  by rewrite Hg.
Qed.

Lemma slot_name_bound r : slot_valid (SlotName r) = true -> exists h, binding r = Some h.
Proof. intros [_ [h Hh]%bool_decide_eq_true]%andb_prop. by exists h. Qed.

(** Reading a slot, and storing to one. *)
Lemma implements_read_target s : slot_valid s = true ->
  implements val (ctx (read_target (slot_target s))) (slot_get s).
Proof.
  intros Hs. apply implements_ctx. intros c f Hc _. destruct s as [n|n|r].
  - cbn [slot_valid] in Hs. cbn [slot_target read_target]. unfold local, se_bind, se_gets, se_lift.
    cbn [put represents_frame method_context set_method_context ok_or result_bind to_mc locals].
    apply Nat.ltb_lt in Hs. rewrite (proj2 (Z.ltb_ge _ _)) by lia.
    rewrite Nat2Z.id, lookup_slot. cbn [slot_get].
    by destruct (f_locals f !! n) as [[v|]|].
  - cbn [slot_valid] in Hs. cbn [slot_target read_target]. unfold current_arg, args_arg, se_bind, se_gets, se_lift.
    cbn [put represents_frame method_context set_method_context ok_or result_bind to_mc args].
    apply Nat.ltb_lt in Hs. rewrite (proj2 (Z.ltb_ge _ _)) by lia.
    rewrite Nat2Z.id, lookup_slot. cbn [slot_get].
    by destruct (f_args f !! n) as [[v|]|].
  - destruct (slot_name_bound r Hs) as [h Hh]. destruct (search_bound r h f c Hc Hh) as (path & H1 & H2 & _).
    cbn [slot_target read_target slot_get]. unfold se_bind, se_gets, in_namespace, se_bind, se_gets, se_lift.
    by rewrite H1, H2, Hh.
Qed.

Lemma insert_slot (l : list (option num)) n v :
  <[n := Some (val v)]> (map (fmap val) l) = map (fmap val) (<[n := Some v]> l).
Proof. symmetry. exact (list_fmap_insert (fmap val) l n (Some v)). Qed.

(** Storing to an object of the namespace: numbers are integers. *)
Lemma store_bound fuel r h v f c : prepared c -> binding r = Some h ->
  store fuel (TgtName (ref_name r)) (val v) (put f c) =
  SOk (val v) (put (MkFrame (f_locals f) (f_args f) (<[h := v]> (f_memory f))) c).
Proof.
  intros Hc Hh. destruct (search_bound r h f c Hc Hh) as (path & H1 & H2 & _).
  destruct (search_bound r h (MkFrame (f_locals f) (f_args f) (<[h := v]> (f_memory f))) c Hc Hh)
    as (_ & _ & H3 & _).
  cbn [store]. unfold se_bind, se_gets, in_namespace, se_bind, se_gets, se_lift. rewrite H1, H2.
  assert (type_of (val (recall (f_memory f) h)) = TInteger) as -> by by destruct (recall _ _).
  unfold as_type. rewrite bool_decide_true by by destruct v. unfold on_namespace, se_ret.
  destruct Hc as (Hq & Hl & _ & Hm). destruct (linked_binding _ _ _ r h Hl Hm Hh) as (Hin & Ho & _).
  rewrite put_namespace, with_memory_set by done.
  revert H3. rewrite put_namespace. cbn [f_memory]. unfold recall. rewrite lookup_insert_eq. cbn [default].
  intros H3. cbn [namespace set_namespace]. rewrite H3. by destruct c.
Qed.

Lemma implements_store fuel t v : match t with Some s => slot_valid s = true | None => True end ->
  implements id (ctx (store fuel (opt_target t) (val v))) (do! put_target t v in se_ret (val v)).
Proof.
  intros Ht. apply implements_ctx. intros c f Hc _. destruct t as [[n|n|r]|].
  - cbn [slot_valid] in Ht. cbn [opt_target slot_target store]. unfold executing, se_bind, se_gets, se_lift, se_modify.
    cbn [put represents_frame method_context set_method_context ok_or result_bind to_mc locals].
    rewrite Nat2Z.id, lookup_slot. cbn [put_target slot_put].
    destruct (f_locals f !! n) as [o|]; [|done]. cbn. by rewrite insert_slot.
  - cbn [slot_valid] in Ht. cbn [opt_target slot_target store]. unfold executing, se_bind, se_gets, se_lift, se_modify.
    cbn [put represents_frame method_context set_method_context ok_or result_bind to_mc args].
    unfold args_store_arg. apply Nat.ltb_lt in Ht. rewrite (proj2 (Z.ltb_ge _ _)) by lia.
    rewrite Nat2Z.id, lookup_slot. cbn [put_target slot_put].
    destruct (f_args f !! n) as [o|]; [|done]. cbn. by rewrite insert_slot.
  - destruct (slot_name_bound r Ht) as [h Hh]. cbn [opt_target slot_target].
    rewrite (store_bound fuel r h v f c Hc Hh). cbn [put_target]. unfold se_bind, slot_put. by rewrite Hh.
  - done.
Qed.
End Slots.

Lemma implements_store_val {env : AmlEnv} {prog : Program} {ex : Executing} fuel t v :
  match t with Some s => slot_valid s = true | None => True end ->
  implements val (ctx (store fuel (opt_target t) (val v))) (do! put_target t v in se_ret v).
Proof.
  intros Ht c f Hc Hg. rewrite (implements_store fuel t v Ht c f Hc).
  2: { unfold given, se_bind in *. by destruct (put_target t v f). }
  unfold se_bind.
  by destruct (put_target t v f).
Qed.

(** * Expressions *)

Section Expressions.
Context {env : AmlEnv} {natives : UserNatives} {prog : Program} {ex : Executing}.

Lemma parses_negated_scope {B} (emb : B -> AmlValue) op p i rest (s : SE frame AmlError B) :
  parses emb p i rest s -> parses emb (negated_scope op p) (DEF_L_NOT_OP :: op :: i) rest s.
Proof.
  intros Hp. eapply parses_spec; [|eapply (parses_second emb _ (prod_map (@id unit) (@id unit)))].
  2: { eapply (parses_then (prod_map id id) emb _ _ _ i).
       - eapply (parses_then id id _ _ _ (op :: i)); apply parses_opcode.
       - apply parses_scope; [done|exact Hp]. }
  intros f. unfold se_bind. cbn. by destruct (s f).
Qed.

(** ** Constants *)

Lemma den_const op i c :
  den const_parser (op :: i) c =
    (if bool_decide (op = BYTE_CONST) then den (p_map p_take (fun v => Ok (VInteger (u8 v)))) i
     else if bool_decide (op = WORD_CONST) then den (p_map take_u16 (fun v => Ok (VInteger v))) i
     else if bool_decide (op = DWORD_CONST) then den (p_map take_u32 (fun v => Ok (VInteger v))) i
     else if bool_decide (op = QWORD_CONST) then den (p_map take_u64 (fun v => Ok (VInteger v))) i
     else if bool_decide (op = STRING_PREFIX) then den string_parser i
     else if bool_decide (op = ZERO_OP) then se_ret (value_zero, i)
     else if bool_decide (op = ONE_OP) then se_ret (value_one, i)
     else if bool_decide (op = ONES_OP) then se_ret (value_ones, i)
     else se_err (PErr WrongParser)) c.
Proof. unfold den, const_parser, se_bind. cbn [p_take]. by repeat case_bool_decide. Qed.

Lemma den_const_ok z bs rest c : enc_const z bs -> den const_parser (bs ++ rest) c = SOk (VInteger z, rest) c.
Proof.
  intros H. destruct H as [| | |z H|z H|z H|z H]; cbn [app]; rewrite den_const; try done.
  - change (bool_decide (BYTE_CONST = BYTE_CONST)) with true. cbv iota. rewrite den_map.
    unfold se_bind, den, p_take. cbn [to_le_bytes app]. rewrite to_u8_val.
    unfold in_width in H. by rewrite Z.mod_small.
  - change (bool_decide (WORD_CONST = BYTE_CONST)) with false.
    change (bool_decide (WORD_CONST = WORD_CONST)) with true. cbv iota. rewrite den_map.
    unfold se_bind, take_u16. by rewrite den_take_le.
  - change (bool_decide (DWORD_CONST = BYTE_CONST)) with false.
    change (bool_decide (DWORD_CONST = WORD_CONST)) with false.
    change (bool_decide (DWORD_CONST = DWORD_CONST)) with true. cbv iota. rewrite den_map.
    unfold se_bind, take_u32. by rewrite den_take_le.
  - change (bool_decide (QWORD_CONST = BYTE_CONST)) with false.
    change (bool_decide (QWORD_CONST = WORD_CONST)) with false.
    change (bool_decide (QWORD_CONST = DWORD_CONST)) with false.
    change (bool_decide (QWORD_CONST = QWORD_CONST)) with true. cbv iota. rewrite den_map.
    unfold se_bind, take_u64. by rewrite den_take_le.
Qed.

Lemma parses_const {g : Grammar} z bs rest : enc_const z bs ->
  parses val data_object (bs ++ rest) rest (se_ret (NInt z)).
Proof.
  intros H. assert (exists b i, bs ++ rest = b :: i /\ bool_decide (b ∈ [x12]) = false /\
    bool_decide (b ∈ [x5b]) = false) as (b & i & E & H1 & H2).
  { destruct H; eexists _, _; split_and!; reflexivity. }
  apply parses_scope; [done|]. rewrite E. eapply parses_pass; [apply heads_op_scope|done|].
  apply parses_take; [done|]. apply parses_scope; [done|].
  eapply parses_pass; [apply heads_map, heads_ext_opcode|done|].
  apply parses_take; [done|]. rewrite <-E. intros c f Hc _. by rewrite (den_const_ok z).
Qed.

(** ** Operations *)

Lemma never_wrong_arith op x y : never_wrong (T := frame) (se_lift (arith_op op x y)).
Proof. apply never_wrong_lift. destruct op; cbn; by try destruct (_ && _). Qed.

Lemma never_wrong_checked w z : never_wrong (T := frame) (se_lift (checked w z)).
Proof. apply never_wrong_lift. unfold checked. by repeat case_match. Qed.

Lemma never_wrong_to_int x : never_wrong (T := frame) (se_lift (to_int x)).
Proof. apply never_wrong_lift. by destruct x. Qed.

(** An operation is an alternative of the expressions, which are the last
    alternative of the operands. *)
Lemma parses_operation {g : Grammar} {B} (emb : B -> AmlValue) b i rest (s : SE frame AmlError B) :
  parses emb expression_opcode (b :: i) rest s -> never_wrong s ->
  forallb (fun bs => negb (bool_decide (b ∈ bs)))
    [data_heads; [x68; x69; x6a; x6b; x6c; x6d; x6e]; [x60; x61; x62; x63; x64; x65; x66; x67]] = true ->
  parses emb term_arg (b :: i) rest s.
Proof.
  intros Hp Hs [H1 [H2 [H3 _]%andb_prop]%andb_prop]%andb_prop.
  apply parses_scope; [done|].
  eapply parses_pass; [apply heads_data_object|by apply negb_true_iff|].
  eapply parses_pass; [apply heads_map_ctx, heads_arg_obj|by apply negb_true_iff|].
  eapply parses_pass; [apply heads_map_ctx, heads_local_obj|by apply negb_true_iff|].
  by apply parses_take.
Qed.

(** Two operands and a target. *)
Lemma parses_operands {g : Grammar} (t : option slot) ia ib rest (s1 s2 : SE frame AmlError num) :
  match t with Some s => slot_valid s = true | None => True end ->
  parses val g_term_arg ia ib s1 -> parses val g_term_arg ib (target_bytes t ++ rest) s2 ->
  parses (prod_map (prod_map val val) (fun _ : unit => opt_target t))
    (p_then (p_then g_term_arg g_term_arg) target) ia rest
    (let! p := (let! a := s1 in let! b := s2 in se_ret (a, b)) in
     let! u := se_ret tt in se_ret (p, u)).
Proof.
  intros Ht H1 H2. eapply parses_then; [eapply parses_then; [exact H1|exact H2]|].
  intros c f Hc Hg. by rewrite (parses_target t rest Ht c f Hc Hg).
Qed.

Lemma as_integer_pure {g : Grammar} v c : (0 < g_fuel)%nat -> as_integer g_fuel (val v) c = SOk (int v) c.
Proof. intros Hf. destruct g_fuel; [lia|]. apply as_integer_num. Qed.

Lemma implements_store_result {g : Grammar} t v :
  match t with Some s => slot_valid s = true | None => True end ->
  implements val (ctx (store_result (opt_target t) (val v))) (do! put_target t v in se_ret v).
Proof.
  intros Ht. eapply implements_spec; [|eapply (implements_ctx_bind id)].
  2: by apply implements_store. 2: intros b; apply (implements_ctx val _ (se_ret v)); done.
  intros f. unfold se_bind. by destruct (put_target t v f).
Qed.

(** The shifts check their count on 32 bits before the operation does. *)
Lemma shift_count_spec (shift : Z -> Z -> Z) e x y (c : AmlContext) :
  (let! n := se_lift (try_into 32 e y) in
   se_lift (ok_or e (if n <? 64 then Some (shift x n) else None))) c =
  (se_lift (if (0 <=? y) && (y <? 64) then Ok (shift x y) else Err e) : SE AmlContext AmlError Z) c.
Proof.
  unfold try_into, se_bind, se_lift. case_bool_decide as H; unfold in_width in H.
  - rewrite (proj2 (Z.leb_le 0 y)) by lia. by destruct (y <? 64).
  - destruct (Z.leb_spec 0 y), (Z.ltb_spec y 64); cbn [andb]; [|done..]. exfalso. apply H. lia.
Qed.

(** The commitment of the choice between the expressions. *)
Lemma parses_expression {g : Grammar} {B} (emb : B -> AmlValue) i rest (s : SE frame AmlError B) :
  parses emb (choice [def_add; def_and; def_buffer; def_concat; def_concat_res; def_increment;
    def_decrement; def_l_equal; def_l_greater; def_l_greater_equal; def_l_less; def_l_less_equal;
    def_l_not_equal; def_l_or; def_mid; def_package; def_shift_left; def_shift_right; def_store;
    def_to_integer; method_invocation]) i rest s ->
  parses emb expression_opcode i rest s.
Proof. by apply parses_scope. Qed.

Definition arith_spec (op : arith) (t : option slot) (s1 s2 : SE frame AmlError num)
    : SE frame AmlError num :=
  let! x := s1 in
  let! y := s2 in
  let! z := se_lift (arith_op op (int x) (int y)) in
  do! put_target t (NInt z) in
  se_ret (NInt z).

Definition compare_spec (test : Z -> Z -> bool) (s1 s2 : SE frame AmlError num)
    : SE frame AmlError num :=
  let! x := s1 in
  let! y := s2 in
  se_ret (NBool (test (int x) (int y))).

Section Operations.
Context {g : Grammar} (fuel_pos : (0 < g_fuel)%nat).
Context (s1 s2 : SE frame AmlError num) (ia ib rest : bytes).
Context (wrong1 : never_wrong s1) (wrong2 : never_wrong s2).
Context (operand1 : parses val g_term_arg ia ib s1).

Lemma never_wrong_arith_spec op t : never_wrong (arith_spec op t s1 s2).
Proof.
  unfold arith_spec. repeat first [apply never_wrong_bind; [|intros ?] | done
    | apply never_wrong_arith | apply never_wrong_put_target ].
Qed.

(** Converting the operands, computing and storing. *)
Lemma implements_arith op t (f : Z -> Z -> SE AmlContext AmlError Z) x y :
  match t with Some s => slot_valid s = true | None => True end ->
  (forall c, f (int x) (int y) c = se_lift (arith_op op (int x) (int y)) c) ->
  implements val (ctx (let! left_ := as_integer g_fuel (val x) in
                       let! right_ := as_integer g_fuel (val y) in
                       let! z := f left_ right_ in
                       store_result (opt_target t) (VInteger z)))
    (let! z := se_lift (arith_op op (int x) (int y)) in
     do! put_target t (NInt z) in se_ret (NInt z)).
Proof.
  intros Ht Hf. do 2 (eapply implements_pure; [intros; by apply as_integer_pure|]).
  eapply (implements_ctx_bind id).
  - apply implements_ctx. intros c t' Hc _. rewrite Hf. unfold se_lift.
    by destruct (arith_op op (int x) (int y)).
  - intros z. by apply (implements_store_result t (NInt z)).
Qed.

Section Arith.
Context (op : arith) (t : option slot).
Context (Ht : match t with Some s => slot_valid s = true | None => True end).
Context (operand2 : parses val g_term_arg ib (target_bytes t ++ rest) s2).

Lemma arith_spec_eq f :
  (let! p := (let! q := (let! a := s1 in let! b := s2 in se_ret (a, b)) in
              let! u := se_ret tt in se_ret (q, u)) in
   let! z := se_lift (arith_op op (int p.1.1) (int p.1.2)) in
   do! put_target t (NInt z) in se_ret (NInt z)) f = arith_spec op t s1 s2 f.
Proof.
  unfold arith_spec, se_bind. destruct (s1 f) as [x f1|e f1|]; [|done|done]. by destruct (s2 f1).
Qed.

Lemma parses_binary (h : Z -> Z -> Z) :
  (forall x y, arith_op op x y = Ok (h x y)) ->
  parses val (op_scope (arith_byte op)
    (map_with_context (p_then (p_then g_term_arg g_term_arg) target)
       (fun '((left_arg, right_arg), target) => ctx (
          let! left_ := as_integer g_fuel left_arg in
          let! right_ := as_integer g_fuel right_arg in
          store_result target (VInteger (h left_ right_))))))
    (arith_byte op :: ia) rest (arith_spec op t s1 s2).
Proof.
  intros Hh. apply parses_op_scope. eapply parses_spec; [apply arith_spec_eq|].
  eapply parses_map_ctx; [by eapply parses_operands|]. intros [[x y] u]. cbn.
  apply (implements_arith op t (fun x y => se_ret (h x y))); [done|].
  intros c. by rewrite Hh.
Qed.

Lemma parses_shift (shift : Z -> Z -> option Z) e :
  (forall x y c, (let! n := se_lift (try_into 32 e y) in se_lift (ok_or e (shift x n))) c =
     (se_lift (arith_op op x y) : SE AmlContext AmlError Z) c) ->
  parses val (shift_op (arith_byte op) shift e) (arith_byte op :: ia) rest (arith_spec op t s1 s2).
Proof.
  intros Hh. unfold shift_op.
  eapply parses_spec; [|eapply parses_map_ctx with (s' := fun b : unit * (num * num * unit) =>
    let! z := se_lift (arith_op op (int b.2.1.1) (int b.2.1.2)) in
    do! put_target t (NInt z) in se_ret (NInt z)); [eapply parses_then; [apply parses_opcode|];
    apply parses_scope; [done|by eapply parses_operands]|]].
  2: { intros [v [[x y] u]]. cbn. eapply implements_eq; [|apply (implements_arith op t (fun x y =>
         let! n := se_lift (try_into 32 e y) in se_lift (ok_or e (shift x n)))); [done|]].
       - intros c. unfold ctx, se_map_err, se_bind, se_lift. repeat case_match; congruence.
       - intros c. apply Hh. }
  intros f. rewrite <-arith_spec_eq. unfold se_bind. cbn. destruct (s1 f) as [x f1|e' f1|]; [|done|done].
  by destruct (s2 f1).
Qed.

Lemma parses_arith :
  parses val expression_opcode (arith_byte op :: ia) rest (arith_spec op t s1 s2).
Proof.
  pose proof (never_wrong_arith_spec op t) as Hw. apply parses_expression.
  pose proof parses_binary as Hb. pose proof parses_shift as Hs.
  destruct op; cbn [arith_byte] in *; repeat pass; (apply parses_take; [done|]).
  - by apply (Hb (fun x y => wrap 64 (x + y))).
  - by apply (Hb Z.land).
  - apply (Hs checked_shl). intros x y c. by apply (shift_count_spec (fun x n => wrap 64 (Z.shiftl x n))).
  - apply (Hs checked_shr). intros x y c. by apply (shift_count_spec Z.shiftr).
Qed.
End Arith.

(** ** Comparisons *)

Lemma parses_pair (p1 p2 : Parser AmlValue) :
  parses val p1 ia ib s1 -> parses val p2 ib rest s2 ->
  parses (prod_map val val) (p_then p1 p2) ia rest (let! a := s1 in let! b := s2 in se_ret (a, b)).
Proof. apply parses_then. Qed.

Lemma value_cmp_num x y c : value_cmp g_fuel (val x) (val y) c = SOk (int x ?= int y) c.
Proof.
  unfold value_cmp, se_bind.
  assert (type_of (val x) = TInteger) as E by by destruct x. rewrite E.
  change (bool_decide (TInteger = TFieldUnit)) with false. cbn [se_ret]. rewrite E.
  by rewrite !as_integer_pure.
Qed.

Lemma parses_compare test test' :
  (forall x y, test (x ?= y) = test' x y) -> parses val g_term_arg ib rest s2 ->
  parses val (compare_operands test) ia rest (compare_spec test' s1 s2).
Proof.
  intros Ht Hp. unfold compare_operands.
  eapply parses_spec; [|eapply parses_map_ctx with (s' := fun b : num * num =>
    se_ret (NBool (test' (int b.1) (int b.2)))); [by eapply parses_pair|]].
  - intros f. unfold compare_spec, se_bind. destruct (s1 f) as [x f1|e' f1|]; [|done|done].
    by destruct (s2 f1).
  - intros [x y]. cbn. eapply implements_pure; [intros; apply value_cmp_num|].
    rewrite Ht. by apply (implements_ctx val _ (se_ret (NBool _))).
Qed.

Lemma never_wrong_compare_spec test : never_wrong (compare_spec test s1 s2).
Proof. repeat (apply never_wrong_bind; [done|intros ?]). done. Qed.

Lemma choice_negated {B} (emb : B -> AmlValue) op p ps b i r (s : SE frame AmlError B) :
  bool_decide (b = op) = false ->
  parses emb (choice ps) (DEF_L_NOT_OP :: b :: i) r s ->
  parses emb (choice (negated_scope op p :: ps)) (DEF_L_NOT_OP :: b :: i) r s.
Proof.
  intros Hb%bool_decide_eq_false Hp c f Hc Hg. rewrite <-Hp by done. unfold den.
  by erewrite choice_skip by by apply negated_scope_wrong.
Qed.

Lemma parses_order op : parses val g_term_arg ib rest s2 ->
  parses val expression_opcode (order_bytes op ++ ia) rest (compare_spec (order_op op) s1 s2).
Proof.
  intros Hp. apply parses_expression.
  pose proof (never_wrong_compare_spec (order_op op)) as Hw.
  pose proof (fun test H => parses_compare test (order_op op) H Hp) as Hc.
  destruct op; cbn [order_bytes app] in *;
    repeat first [pass | apply choice_negated; [reflexivity|]];
    (apply parses_take; [done|]); first [apply parses_op_scope | apply parses_negated_scope];
    apply Hc; intros x y; destruct (Z.compare_spec x y); cbn [order_op is_eq is_lt is_gt negb]; lia.
Qed.

Definition or_spec : SE frame AmlError num :=
  let! x := s1 in let! y := s2 in se_ret (NBool (truth x || truth y)).

Lemma parses_or : parses val g_term_arg ib rest s2 ->
  parses val expression_opcode (DEF_L_OR_OP :: ia) rest or_spec.
Proof.
  intros Hp. apply parses_expression. repeat pass. apply parses_take.
  { repeat (apply never_wrong_bind; [done|intros ?]). done. }
  apply parses_op_scope.
  eapply parses_spec; [|eapply parses_map_ctx with (s' := fun b : num * num =>
    se_ret (NBool (truth b.1 || truth b.2))); [by eapply parses_pair|]].
  - intros f. unfold or_spec, se_bind. destruct (s1 f) as [x f1|e' f1|]; [|done|done].
    by destruct (s2 f1).
  - intros [x y]. cbn. rewrite !as_bool_num. by apply (implements_ctx val _ (se_ret (NBool _))).
Qed.
End Operations.

(** ** Operations on a slot *)

Section SlotOperations.
Context {g : Grammar} (fuel_pos : (0 < g_fuel)%nat) (s : slot) (Hs : slot_valid s = true).
Context (rest : bytes).

Definition step_spec (step : Z -> result AmlError Z) : SE frame AmlError num :=
  let! x := slot_get s in
  let! z := se_lift (step (int x)) in
  do! slot_put s (NInt z) in
  se_ret (NInt z).

(** Reading a slot, computing, and storing back. *)
Lemma parses_step op (step : Z -> result AmlError Z) :
  parses val (op_scope op (map_with_context super_name (fun addend => ctx (
      let! value := read_target addend in
      let! value := as_integer g_fuel value in
      let! new_value := se_lift (step value) in
      store_result addend (VInteger new_value)))))
    (op :: slot_bytes s ++ rest) rest (step_spec step).
Proof.
  apply parses_op_scope.
  eapply parses_spec; [|eapply parses_map_ctx with (s' := fun _ => step_spec step);
    [by apply parses_super_unit|]]; [done|].
  intros u. cbn beta. eapply implements_ctx_bind; [by apply implements_read_target|]. intros x.
  eapply implements_pure; [intros; by apply as_integer_pure|].
  eapply (implements_ctx_bind id).
  - apply implements_ctx. intros c t Hc _. unfold se_lift. by destruct (step (int x)).
  - intros z. by apply (implements_store_result (Some s) (NInt z)).
Qed.

Lemma never_wrong_step_spec step :
  (forall x, match step x with Err e => e <> WrongParser | _ => True end) ->
  never_wrong (step_spec step).
Proof.
  intros H. apply never_wrong_bind; [apply never_wrong_slot_get|intros x].
  apply never_wrong_bind; [apply never_wrong_lift, H|intros z].
  apply never_wrong_bind; [apply never_wrong_slot_put|done].
Qed.

Lemma parses_increment :
  parses val expression_opcode (DEF_INCREMENT_OP :: slot_bytes s ++ rest) rest
    (step_spec (fun x => add_w 64 x 1)).
Proof.
  apply parses_expression. repeat pass. apply parses_take; [|apply parses_step].
  apply never_wrong_step_spec. intros x. unfold add_w, checked. by repeat case_match.
Qed.

Lemma parses_decrement :
  parses val expression_opcode (DEF_DECREMENT_OP :: slot_bytes s ++ rest) rest
    (step_spec (fun x => sub_w 64 x 1)).
Proof.
  apply parses_expression. repeat pass. apply parses_take; [|apply parses_step].
  apply never_wrong_step_spec. intros x. unfold sub_w, checked. by repeat case_match.
Qed.

Definition store_spec (s1 : SE frame AmlError num) : SE frame AmlError num :=
  let! x := s1 in do! slot_put s x in se_ret x.

Lemma parses_store s1 ia : never_wrong s1 -> parses val g_term_arg ia (slot_bytes s ++ rest) s1 ->
  parses val expression_opcode (DEF_STORE_OP :: ia) rest (store_spec s1).
Proof.
  intros Hw Hp. apply parses_expression. repeat pass. apply parses_take.
  { apply never_wrong_bind; [done|intros x]. apply never_wrong_bind; [apply never_wrong_slot_put|done]. }
  unfold def_store.
  eapply parses_spec; [|eapply parses_map_ctx with (s' := fun b : unit * (num * unit) =>
    do! slot_put s b.2.1 in se_ret b.2.1);
    [eapply parses_then; [apply parses_opcode|]; apply parses_scope; [done|];
     eapply parses_then; [exact Hp|by apply parses_super_unit]|]].
  - intros f. unfold store_spec, se_bind. cbn. by destruct (s1 f).
  - intros [u [x u']]. cbn. by apply (implements_store_val g_fuel (Some s) x).
Qed.
End SlotOperations.

(** ** Conversion to an integer *)

Definition to_integer_spec (t : option slot) (s1 : SE frame AmlError num) : SE frame AmlError num :=
  let! x := s1 in
  let! z := se_lift (to_int x) in
  do! put_target t (NInt z) in
  se_ret (NInt z).

Lemma parses_to_integer {g : Grammar} (t : option slot) (s1 : SE frame AmlError num) ia rest :
  match t with Some s => slot_valid s = true | None => True end ->
  never_wrong s1 -> parses val g_term_arg ia (target_bytes t ++ rest) s1 ->
  parses val expression_opcode (DEF_TO_INTEGER_OP :: ia) rest (to_integer_spec t s1).
Proof.
  intros Ht Hw Hp. apply parses_expression. repeat pass. apply parses_take.
  { apply never_wrong_bind; [done|intros x]. apply never_wrong_bind; [apply never_wrong_to_int|intros z].
    by apply never_wrong_bind; [apply never_wrong_put_target|]. }
  unfold def_to_integer.
  eapply parses_spec; [|eapply parses_map_ctx with (s' := fun b : unit * (num * unit) =>
    let! z := se_lift (to_int b.2.1) in do! put_target t (NInt z) in se_ret (NInt z));
    [eapply parses_then; [apply parses_opcode|]; apply parses_scope; [done|];
     eapply parses_then; [exact Hp|by apply parses_target_unit]|]].
  - intros f. unfold to_integer_spec, se_bind. cbn. by destruct (s1 f).
  - intros [u [x u']]. cbn. eapply (implements_ctx_bind id).
    + apply implements_ctx. intros c f Hc _. by destruct x.
    + intros z. by apply (implements_store_result t (NInt z)).
Qed.

(** ** Objects *)

(** Invoking an object that is not a method reads it. *)
Lemma den_invocation {g : Grammar} r h rest f c : ref_ok r = true -> prepared c -> binding r = Some h ->
  den method_invocation (ref_bytes r ++ rest) (put f c) = SOk (val (recall (f_memory f) h), rest) (put f c).
Proof.
  intros Hr Hc Hh. destruct (search_bound r h f c Hc Hh) as (path & H1 & H2 & H3).
  assert (quiet (put f c)) as Hq by by apply put_quiet.
  assert (ctx (invocation_target (ref_name r)) (put f c) = SOk (path, None) (put f c)) as Ht.
  { unfold ctx, se_map_err, invocation_target, in_namespace, se_bind, se_gets, se_lift. rewrite H1, H2.
    by destruct (recall (f_memory f) h). }
  set (c1 := put f c) in *. clearbody c1.
  unfold method_invocation. eassert (den (p_feed _ _) _ _ = _) as Hb; [|rewrite den_scope; [exact Hb|done..|]].
  - rewrite den_feed. unfold se_bind at 1. rewrite den_map_ctx. unfold se_bind at 1.
    rewrite gives_name by done. unfold se_bind at 1. rewrite Ht. cbn [se_ret].
    unfold den, map_with_context, ctx, se_map_err, in_namespace, se_bind, se_gets, se_lift. cbn.
    change (n_of g_term_arg (Z.to_nat 0) (rest, c1)) with (SOk (E := Propagate) (@nil AmlValue) (rest, c1)).
    cbn beta iota. rewrite H3. reflexivity.
  - by rewrite Hb.
Qed.

(** What starts with a name is an invocation. *)
Lemma parses_named_expression {g : Grammar} r i rest (s : SE frame AmlError num) : ref_ok r = true -> never_wrong s ->
  parses val method_invocation (ref_bytes r ++ i) rest s -> parses val expression_opcode (ref_bytes r ++ i) rest s.
Proof.
  intros Hr Hw Hm. destruct (ref_bytes_head r i Hr) as (b & j & E & Hb). rewrite E in *.
  apply parses_expression. repeat (eapply parses_pass; [heads|by apply (heads_apart b name_heads)|]).
  by apply parses_take.
Qed.

Lemma parses_named_operand {g : Grammar} r i rest (s : SE frame AmlError num) : ref_ok r = true -> never_wrong s ->
  parses val method_invocation (ref_bytes r ++ i) rest s -> parses val term_arg (ref_bytes r ++ i) rest s.
Proof.
  intros Hr Hw Hm. apply parses_named_expression in Hm; [|done..].
  destruct (ref_bytes_head r i Hr) as (b & j & E & Hb). rewrite E in *. apply parses_operation; [done..|].
  apply forallb_forall. intros bs Hbs. apply negb_true_iff, (heads_apart b name_heads); [done|].
  revert bs Hbs. apply forallb_forall. vm_compute. reflexivity.
Qed.

Lemma parses_invocation {g : Grammar} r rest : slot_valid (SlotName r) = true ->
  parses val term_arg (ref_bytes r ++ rest) rest (slot_get (SlotName r)).
Proof.
  intros Hs. destruct (slot_name_bound r Hs) as [h Hh]. apply andb_prop in Hs as [Hr _].
  apply parses_named_operand; [done|apply (never_wrong_slot_get (SlotName r))|].
  intros c f Hc _. rewrite (den_invocation r h) by done. cbn [slot_get]. by rewrite Hh.
Qed.

Lemma parses_slot {g : Grammar} s rest : slot_valid s = true ->
  parses val term_arg (slot_bytes s ++ rest) rest (slot_get s).
Proof.
  intros Hs. pose proof (never_wrong_slot_get s) as Hw.
  pose proof (parses_slot_obj s rest Hs) as H. pose proof (implements_read_target s Hs) as Hr.
  destruct (slot_bytes_head s rest Hs) as (b & i & E & Hb & Hk).
  destruct s as [n|n|r]; [| |by apply parses_invocation]; apply parses_scope; try done.
  all: eapply pass_slot; [done|apply heads_data_object|vm_compute; reflexivity|].
  - rewrite E in *. eapply parses_pass; [apply heads_map_ctx, heads_arg_obj|done|].
    apply parses_take; [done|].
    eapply parses_spec; [|eapply parses_map_ctx with (s := se_ret tt) (s' := fun _ => slot_get (SlotLocal n))
      (emb := fun _ : unit => Z.of_nat n)]; [done| |intros _; exact Hr].
    intros c f Hc Hg. by rewrite (H c f Hc Hg).
  - apply parses_take; [done|].
    eapply parses_spec; [|eapply parses_map_ctx with (s := se_ret tt) (s' := fun _ => slot_get (SlotArg n))
      (emb := fun _ : unit => Z.of_nat n)]; [done| |intros _; exact Hr].
    intros c f Hc Hg. by rewrite (H c f Hc Hg).
Qed.

(** The first bytes of operations are not those of data, slots, named objects or
    statements. *)
Definition op_heads : list byte := [x72; x7b; x79; x7a; x75; x76; x93; x94; x95; x92; x91; x70; x99].

Definition is_call (e : expr) : bool := match e with ECall _ _ => true | _ => false end.

Lemma enc_operation_head e bs : enc_expr e bs -> is_operation e = true -> is_call e = false ->
  exists b i, bs = b :: i /\ b ∈ op_heads.
Proof.
  intros H He Hcall. destruct H as [| |[]| | |[]| | | |]; try discriminate He; try discriminate Hcall;
    eexists _, _; split; first [reflexivity | apply (bool_decide_unpack _); vm_compute; exact I].
Qed.

Lemma op_head_not b (bss : list (list byte)) : b ∈ op_heads ->
  forallb (fun b => forallb (fun bs => negb (bool_decide (b ∈ bs))) bss) op_heads = true ->
  forallb (fun bs => negb (bool_decide (b ∈ bs))) bss = true.
Proof. intros Hb H. rewrite forallb_forall in H. apply H. by apply list_elem_of_In. Qed.

(** ** Calls *)

(** The flags of every method say how many arguments it takes. *)
Definition arities_ok : Prop := Forall (fun m => arg_count (m_flags m) = Z.of_nat (m_arity m)) p_methods.

Lemma args_fit (vs : list num) : (length vs <= 7)%nat -> exists args, args_from_list (map val vs) = Ok args.
Proof.
  intros H. unfold args_from_list. rewrite (proj2 (Nat.ltb_ge _ _)) by (rewrite length_map; lia).
  by eexists.
Qed.

Lemma method_at_found q m : method_at q = Some m -> m ∈ p_methods.
Proof. unfold method_at. intros [H _]%find_some. by apply list_elem_of_In. Qed.

(** The name of a method denotes it, with its number of arguments. *)
Lemma callee_target r m f c : arities_ok -> callee r = Some m -> prepared c ->
  ctx (invocation_target (ref_name r)) (put f c) =
  SOk (abs (m_path m), Some (Z.of_nat (m_arity m))) (put f c).
Proof.
  intros Hprog Hcallee (_ & Hl & Hsc & Hm). destruct (linked_callee _ _ _ r m Hl Hm Hcallee)
    as (Hin & h & Hs & Hg & Hh & Ho). pose proof (proj1 (Forall_forall _ _) Hprog m Hin) as Ha. cbn beta in Ha.
  unfold ctx, se_map_err, invocation_target, in_namespace, se_bind, se_gets, se_lift.
  rewrite put_scope, put_namespace, Hsc. rewrite search_memory, Hs.
  unfold ns_get. rewrite put_namespace, with_memory_lookup, Ho, bool_decide_false by done. cbn. by rewrite Ha.
Qed.

(** The arguments of a call. *)
Lemma den_n_of {A} (p : Parser A) n i c :
  den (n_of p (Datatypes.S n)) i c =
  se_bind (den p i) (fun '(a, i) => se_bind (den (n_of p n) i) (fun '(l, i) => se_ret (a :: l, i))) c.
Proof.
  unfold den, se_bind. cbn [n_of]. destruct (p (i, c)) as [a [i' c']|e [i' c']|]; [|done|done].
  by destruct (n_of p n (i', c')) as [l [i2 c2]|e [i2 c2]|].
Qed.

(** Calling a method in a context that is ready for frames gives what is known of the
    call. *)
Definition known_in (g : Grammar) (k : call_made) : Prop := forall c f args, prepared c ->
  f_memory f = k_before k -> args_from_list (map val (k_args k)) = Ok args ->
  @g_invoke_method env g (abs (k_path k)) args (put f c) =
  se_lift (result_map val (k_result k)) (put (set_memory (k_after k) f) c).

Definition r_never_wrong (r : result AmlError num) : Prop :=
  match r with Err e => e <> WrongParser | Fail _ => False | _ => True end.

Definition known (n : nat) (k : call_made) : Prop :=
  (length (k_args k) <= 7)%nat /\ r_never_wrong (k_result k) /\ forall n', (n <= n')%nat -> known_in (grammar n') k.

Lemma known_le n n' ks : (n <= n')%nat -> Forall (known n) ks -> Forall (known n') ks.
Proof.
  intros Hn H. eapply Forall_impl; [exact H|]. intros k (Hl & Hw & Hk). split; [done|]. split; [done|]. intros m Hm. apply Hk. lia.
Qed.

Section Calls.
Context (ks : list call_made) (n0 : nat) (Hks : Forall (known n0) ks).

Lemma perform_known path vs f : match perform ks path vs f with
  | SFail r => r = OutOfFuel
  | _ => exists k, k ∈ ks /\ k_path k = path /\ k_args k = vs /\ k_before k = f_memory f /\
      perform ks path vs f = se_lift (k_result k) (set_memory (k_after k) f)
  end.
Proof.
  unfold perform. destruct (find _ ks) as [k|] eqn:E; [|done].
  apply find_some in E as [Hin [[= E1 E2] E3]%bool_decide_eq_true%pair_equal_spec]. apply list_elem_of_In in Hin.
  pose proof (proj1 (Forall_forall _ _) Hks k Hin) as (_ & Hw & _). destruct (k_result k) as [v|e|x] eqn:Er; [| |done].
  all: exists k; rewrite Er; done.
Qed.

Lemma never_wrong_perform path vs : never_wrong (perform ks path vs).
Proof.
  intros f. pose proof (perform_known path vs f) as H.
  destruct (perform ks path vs f) as [v f'|e f'|x] eqn:E; [done| |done]. destruct H as (k & Hin & _ & _ & _ & H).
  pose proof (proj1 (Forall_forall _ _) Hks k Hin) as (_ & Hw & _). destruct (k_result k); [done| |done].
  by injection H as -> _.
Qed.

Lemma never_wrong_eval e : never_wrong (eval ks e).
Proof.
  induction e as [| | | | | | | | |r args IH] using expr_nested_ind; cbn [eval]; repeat first
    [ apply never_wrong_bind; [|intros ?] | done | apply never_wrong_slot_get
    | apply never_wrong_slot_put | apply never_wrong_put_target | apply never_wrong_arith
    | apply never_wrong_checked | apply never_wrong_to_int | by apply never_wrong_map ].
  destruct (callee r); [apply never_wrong_perform|done].
Qed.

Lemma implements_perform path vs n : (n0 <= n)%nat ->
  implements val (ctx (let! args := se_lift (args_from_list (map val vs)) in
                       @g_invoke_method env (grammar n) (abs path) args)) (perform ks path vs).
Proof.
  intros Hn c f Hc Hg. unfold given in Hg. pose proof (perform_known path vs f) as H.
  destruct (perform ks path vs f) as [v f'|e f'|x]; [| |by destruct Hg].
  all: destruct H as (k & Hin & <- & <- & Hb & E);
    destruct (proj1 (Forall_forall _ _) Hks k Hin) as (Hlen & _ & Hk);
    destruct (args_fit _ Hlen) as [args Ha];
    unfold ctx, se_map_err, se_bind, se_lift; rewrite Ha, (Hk n Hn c f args Hc (eq_sym Hb) Ha);
    destruct (k_result k); by inversion E; subst.
Qed.

Lemma parses_args (p : Parser AmlValue) es bs rest : enc_exprs es bs ->
  Forall (fun e => forall b rest', enc_expr e b -> parses val p (b ++ rest') rest' (eval ks e)) es ->
  parses (map val) (n_of p (length es)) (bs ++ rest) rest (se_map (eval ks) es).
Proof.
  intros H. induction H as [|e es b bs He Hes IH]; intros Hp; [apply (implements_ret (fun vs => (map val vs, rest)) [])|].
  apply Forall_cons in Hp as [Hp Hps]. rewrite <-app_assoc. eapply implements_eq; [intros; apply den_n_of|].
  eapply implements_bind; [by apply Hp|]. intros v. eapply implements_bind; [by apply IH|]. intros vs.
  apply (implements_ret (fun vs => (map val vs, rest)) (v :: vs)).
Qed.

(** Invoking a method: its arguments are evaluated, and then it is called. *)
Lemma parses_call n r args m bs rest : arities_ok -> (n0 <= n)%nat ->
  ref_ok r = true -> callee r = Some m -> length args = m_arity m -> enc_exprs args bs ->
  Forall (fun e => forall b rest', enc_expr e b ->
    parses val (@g_term_arg env (grammar n)) (b ++ rest') rest' (eval ks e)) args ->
  parses val (@method_invocation env (grammar n)) (ref_bytes r ++ bs ++ rest) rest (eval ks (ECall r args)).
Proof.
  intros Hprog Hn Hr Hm Hlen Hes Hargs. apply parses_scope; [done|].
  eapply parses_spec; [|eapply (parses_feed (fun _ : unit => (abs (m_path m), Some (Z.of_nat (length args))))
    val _ _ _ (bs ++ rest) _ (se_ret tt) (fun _ => eval ks (ECall r args)))]; [done| |intros _].
  - intros c f Hc _. rewrite den_map_ctx. unfold se_bind at 1. rewrite gives_name by (done || by apply put_quiet).
    unfold se_bind. by rewrite (callee_target r m f c Hprog Hm Hc), Hlen.
  - cbn [eval default]. rewrite Hm. unfold id. rewrite Nat2Z.id.
    eapply (parses_map_ctx (map val) val); [by apply parses_args|]. intros vs. by apply implements_perform.
Qed.

(** ** All expressions *)

Lemma parses_op_expr {g : Grammar} e bs rest : enc_expr e bs -> is_operation e = true -> is_call e = false ->
  (0 < g_fuel)%nat ->
  (forall e' bs' rest', enc_expr e' bs' -> (S (height e') <= height e)%nat ->
     parses val g_term_arg (bs' ++ rest') rest' (eval ks e')) ->
  parses val expression_opcode (bs ++ rest) rest (eval ks e).
Proof.
  intros H He Hcall Hg IH. destruct H as [z bs Hz|s Hs|op a b t ba bb Ha Hb Ht|s Hs|s Hs|op a b ba bb Ha Hb
    |a b ba bb Ha Hb|a s ba Ha Hs|a t ba Ha Ht|]; try discriminate He; try discriminate Hcall;
    cbn [app]; rewrite <-?app_assoc; cbn [height app] in *.
  - eapply parses_arith; eauto using never_wrong_eval; apply IH; auto; lia.
  - by apply parses_increment.
  - by apply parses_decrement.
  - eapply parses_order; eauto using never_wrong_eval; apply IH; auto; lia.
  - eapply parses_or; eauto using never_wrong_eval; apply IH; auto; lia.
  - eapply parses_store; eauto using never_wrong_eval; apply IH; auto; lia.
  - eapply parses_to_integer; eauto using never_wrong_eval; apply IH; auto; lia.
Qed.

Lemma height_args e args : e ∈ args -> (height e <= foldr (fun e n => max (height e) n) 0%nat args)%nat.
Proof. induction 1; cbn; lia. Qed.

(** The parsers of operands [p] evaluate what is below an expression. *)
Definition below (p : Parser AmlValue) (e : expr) : Prop := forall e' bs' rest', enc_expr e' bs' ->
  (S (height e') <= height e)%nat -> parses val p (bs' ++ rest') rest' (eval ks e').

Lemma parses_call_expr (Hprog : arities_ok) n r args bs rest : enc_expr (ECall r args) bs -> (n0 <= n)%nat ->
  below (@g_term_arg env (grammar n)) (ECall r args) ->
  exists i, bs ++ rest = ref_bytes r ++ i /\ ref_ok r = true /\
  parses val (@method_invocation env (grammar n)) (ref_bytes r ++ i) rest (eval ks (ECall r args)).
Proof.
  intros H Hn Hb. inversion H as [| | | | | | | | |r' es m bs' Hr Hm Hlen Ha Hes]; subst.
  exists (bs' ++ rest). rewrite <-app_assoc. split; [done|]. split; [done|].
  eapply parses_call; [done..|]. apply Forall_forall. intros e He b rest' Hb'. apply Hb; [done|].
  apply height_args in He. cbn [height]. lia.
Qed.

Lemma parses_operation_expr (Hprog : arities_ok) n e bs rest : enc_expr e bs -> is_operation e = true ->
  (n0 <= n)%nat -> (0 < n)%nat -> below (@g_term_arg env (grammar n)) e ->
  parses val (@expression_opcode env (grammar n)) (bs ++ rest) rest (eval ks e).
Proof.
  intros H He Hn Hn' Hb. destruct (is_call e) eqn:Hcall.
  - destruct e as [| | | | | | | | |r args]; try discriminate Hcall.
    destruct (parses_call_expr Hprog n r args bs rest H Hn Hb) as (i & -> & Hr & Hp).
    apply parses_named_expression; [done|apply never_wrong_eval|done].
  - apply parses_op_expr; [done..| |done]. destruct n; [lia|cbn; lia].
Qed.

Lemma parses_expr (Hprog : arities_ok) n e bs rest : enc_expr e bs -> (n0 + height e <= n)%nat ->
  parses val (@g_term_arg env (grammar (S n))) (bs ++ rest) rest (eval ks e).
Proof.
  revert e bs rest. induction n as [n IH] using lt_wf_ind. intros e bs rest H Hn.
  assert (is_operation e = true -> below (@g_term_arg env (grammar n)) e) as Hb.
  { intros _ e' bs' rest' H' Hh. destruct n as [|n]; [lia|]. apply IH; [lia|done|lia]. }
  cbn [grammar grammar_step g_term_arg].
  destruct (is_operation e) eqn:He; [specialize (Hb eq_refl)|].
  - assert (0 < n)%nat as Hpos by (destruct e; cbn in *; try discriminate He; lia).
    destruct (is_call e) eqn:Hcall.
    + destruct e as [| | | | | | | | |r args]; try discriminate Hcall.
      destruct (parses_call_expr Hprog n r args bs rest H) as (i & -> & Hr & Hp); [lia|done|].
      apply parses_named_operand; [done|apply never_wrong_eval|done].
    + pose proof (parses_operation_expr Hprog n e bs rest H He ltac:(lia) Hpos Hb) as Hp.
      destruct (enc_operation_head e bs H He Hcall) as (b & i & -> & Hh).
      apply parses_operation; [done|apply never_wrong_eval|by apply op_head_not].
  - destruct H; try discriminate He.
    + by apply parses_scope, parses_take, parses_const.
    + by apply parses_slot.
Qed.

(** The parser of operands on a context. *)
Lemma eval_known (Hprog : arities_ok) e bs n rest c f :
  enc_expr e bs -> (n0 + height e <= n)%nat -> prepared c -> given (eval ks e) f ->
  method_context c = Some (to_mc f) -> holds (f_memory f) (object_map (namespace c)) ->
  @g_term_arg env (grammar (S n)) (bs ++ rest, c) =
  match eval ks e f with
  | SOk v f' => SOk (val v) (rest, put f' c)
  | SErr err f' => SErr (PErr err) (bs ++ rest, put f' c)
  | SFail r => SFail r
  end.
Proof.
  intros He Hn Hc Hg Hm Hh. pose proof (parses_expr Hprog n e bs rest He Hn c f Hc Hg) as H.
  rewrite (put_holds f c Hm Hh) in H.
  unfold den in H. destruct (g_term_arg (bs ++ rest, c)) as [a [i c']|err [i c']|r] eqn:Ep.
  - destruct (eval ks e f); [|done|done]. by injection H as -> -> ->.
  - destruct (eval ks e f) as [v f'|err' f'|r]; [done| |done]. injection H as -> ->. do 2 f_equal.
    apply (comment_scope_error VbAllScopes) in Ep; [|by apply ready_quiet|done].
    by apply choice_error_input in Ep.
  - destruct (eval ks e f); [done|done|]. by injection H as ->.
Qed.
End Calls.
End Expressions.

(** [VAL_] with 2 and the methods of the sample, one of which may be executing. *)
Definition sample_namespace (executing : option NameSeg) : Namespace :=
  MkNamespace 4
    {[ 0 := VInteger 2; 1 := VMethod sample_flags (Aml tick_body); 2 := VMethod sample_flags (Aml foo_body);
       3 := VMethod sample_flags (Aml tock_body) ]}
    (MkLevel LScope (match executing with Some s => [(s, new_level LMethodLocals)] | None => [] end)
       [(foo, 2); (tick, 1); (tock, 3); (val_, 0)]).

Lemma sample_ordered s : ns_ordered (sample_namespace s).
Proof.
  apply tree_ordered_children. destruct s as [s|]; cbn; (split; [repeat constructor|]); intros t c; cbn.
  - case_decide; [intros [= <-]; apply new_level_ordered|done].
  - done.
Qed.

(** The methods only differ in their names and their code. *)
Lemma sample_method_linked (executing : option NameSeg) (s : NameSeg) code ss h :
  bool_decide (h ∈ [0]) = false ->
  get_handle (sample_namespace executing) (abs [s]) = Ok h ->
  object_map (sample_namespace executing) !! h = Some (VMethod sample_flags (Aml code)) ->
  (executing = Some s \/ ns_level (sample_namespace executing) [s] = None) ->
  nearest (sample_namespace executing) val_ (ancestors [s]) = Some ([], 0) ->
  nearest (sample_namespace executing) tick (ancestors [s]) = Some ([], 1) ->
  @method_linked (sample_program [] 0) (match executing with Some s => [[s]] | None => [] end)
    (sample_namespace executing) (sample_method [] 0 s code ss).
Proof.
  intros Hh%bool_decide_eq_false Hg Ho Hl Hv Ht. split_and!.
  - exists h. done.
  - cbn. intros Hn. destruct Hl as [->|Hl]; [|done]. destruct Hn. by left.
  - constructor; [|constructor]. split; [by left|]. exists [val_].
    change (ref_name (here val_)) with [Segment val_]. change (m_path _) with [s].
    by rewrite search_spec, Hv.
  - constructor; [|constructor]. exists 1.
    change (ref_name (here tick)) with [Segment tick]. change (m_path _) with [s].
    by rewrite search_spec, Ht.
Qed.

Lemma sample_linked (executing : option NameSeg) : executing ∈ [None; Some tick; Some tock] ->
  @linked (sample_program [] 0) (match executing with Some s => [[s]] | None => [] end)
    (sample_namespace executing).
Proof.
  intros He. split; [apply sample_ordered|]. split; [constructor; [by eexists|constructor]|].
  assert (executing = None \/ executing = Some tick \/ executing = Some tock) as Hc by set_solver.
  constructor; [|constructor; [|constructor; [|constructor]]].
  - apply (sample_method_linked executing foo _ _ 2); destruct Hc as [-> | [-> | ->]]; auto.
  - apply (sample_method_linked executing tick _ _ 1); destruct Hc as [-> | [-> | ->]]; auto.
  - apply (sample_method_linked executing tock _ _ 3); destruct Hc as [-> | [-> | ->]]; auto.
Qed.

(** A method of the sample that is called with 40. *)
Definition sample_running (s : NameSeg) : @AmlContext env_debug :=
  set_method_context (Some (to_mc (call_frame [NInt 40] {[ 0 := NInt 2 ]})))
    (set_current_scope (abs [s]) (set_namespace (sample_namespace (Some s)) sample_context)).

Lemma sample_prepared m s : m_path m = [s] -> m ∈ @p_methods (sample_program [] 0) ->
  Some s ∈ [None; Some tick; Some tock] ->
  @ready env_debug frame (@represents_frame env_debug (sample_program [] 0) (calling m)) (sample_running s).
Proof.
  intros Hm Hin Hs. split; [reflexivity|]. cbn [calling active current]. rewrite Hm.
  split; [apply (sample_linked (Some s) Hs)|]. split; [done|exact Hin].
Qed.

