(* ===== verification/StmtCorrect.v ===== *)
(** Running the encodings of statements executes them: each statement and each list of
    statements, from the evaluation of its expressions and the runs of its parts. *)
From S2P Require Import Prelude Types Names Namespace Ordered Env RustStd Context Value Parser.
From S2P Require Import PkgLength Opcode NameObject Grammar Expression Statement TermObject.
From S2P Require Import Interp Sample Flat Program Fuel Denotation First Calculus Memory EvalCorrect.
#[local] Open Scope Z_scope.

Section Exec.
Context {env : AmlEnv} {natives : UserNatives} {prog : Program}.

Section Statements.
Context {ex : Executing}.

(** How a parser or a run of terms tells the outcome of statements. *)
Definition ends_with {A} (a : A) (o : outcome) (f : frame) (c : AmlContext)
    : sres AmlContext Propagate A :=
  match o with
  | Normal => SOk a (put f c)
  | Returned v => SErr (PReturn (val v)) (put f c)
  | Broke => SErr PBreak (put f c)
  | Continued => SErr PContinue (put f c)
  | Failed e => SErr (PErr e) (put f c)
  end.

Definition o_never_wrong (o : outcome) : Prop :=
  match o with Failed e => e <> WrongParser | _ => True end.

(** A list of terms that goes on to the end of its input. *)
Definition whole : PkgLength := MkPkgLength 0 0.

Lemma keeps_quiet_ends {A} (a : A) o f c : prepared c -> keeps_quiet (ends_with a o f c).
Proof. intros Hc. destruct o; apply put_quiet; done. Qed.

Lemma ends_not_wrong {A} (a : A) o f c : o_never_wrong o ->
  match ends_with a o f c with SErr e _ => is_wrong_parser e = false | _ => True end.
Proof. destruct o as [| | | |e]; cbn; try done. by destruct e. Qed.

(** ** Statements as terms *)

(** A statement is the third alternative of the terms, and is told by its byte. *)
Lemma den_statement {g : Grammar} b i rest o f0 f c :
  prepared c -> o_never_wrong o ->
  forallb (fun bs => negb (bool_decide (b ∈ bs))) [[x08; x10]; named_heads] = true ->
  den statement_opcode (b :: i) (put f0 c) = ends_with (tt, rest) o f c ->
  den (discard_result term_object) (b :: i) (put f0 c) = ends_with (tt, rest) o f c.
Proof.
  intros Hc Ho [H1 [H2 _]%andb_prop]%andb_prop H.
  apply negb_true_iff in H1, H2.
  assert (quiet (put f0 c)) as Hc0 by by apply put_quiet.
  assert (den (p_map statement_opcode (fun _ => Ok (@None AmlValue))) (b :: i) (put f0 c) =
    ends_with (None, rest) o f c) as Hm.
  { rewrite den_map. unfold se_bind. rewrite H. by destruct o. }
  assert (den (choice [p_map namespace_modifier (fun _ => Ok None);
               p_map named_obj (fun _ => Ok None);
               p_map statement_opcode (fun _ => Ok None);
               p_map expression_opcode (fun value => Ok (Some value))]) (b :: i) (put f0 c) =
    ends_with (None, rest) o f c) as Hch.
  { erewrite den_pass by first [apply heads_map, heads_namespace_modifier | done].
    erewrite den_pass by first [apply heads_map, heads_named_obj | done].
    rewrite den_take; [done|]. rewrite Hm. by apply ends_not_wrong. }
  rewrite den_discard. unfold se_bind, term_object.
  rewrite den_scope; [|done|done|rewrite Hch; by apply keeps_quiet_ends].
  rewrite Hch. by destruct o.
Qed.

(** The commitment of the choice between the statements. *)
Ltac pass_stmt :=
  erewrite den_pass;
  [|first [apply heads_unit_op | apply heads_unit_ext]|by apply put_quiet|vm_compute; reflexivity].

(** The statements whose parser is an opcode and a scope. *)
Lemma den_op_stmt {A} op v (p : Parser A) i rest a o f0 f c :
  prepared c -> v <> VbNone -> den p i (put f0 c) = ends_with (a, rest) o f c ->
  den (discard_result (p_then (opcode op) (comment_scope v p))) (op :: i) (put f0 c) =
  ends_with (tt, rest) o f c.
Proof.
  intros Hc Hv Hp. rewrite den_discard. unfold se_bind at 1. rewrite den_then.
  unfold se_bind at 1. rewrite den_opcode. unfold se_bind at 1.
  rewrite den_scope; [|by apply put_quiet|done|rewrite Hp; by apply keeps_quiet_ends].
  rewrite Hp. by destruct o.
Qed.

Lemma den_statement_opcode {g : Grammar} b i rest o f0 f c :
  prepared c -> o_never_wrong o ->
  den (choice [def_break; def_breakpoint; def_continue; def_fatal; def_if_else; def_noop;
               def_return; def_while]) (b :: i) (put f0 c) = ends_with (tt, rest) o f c ->
  den statement_opcode (b :: i) (put f0 c) = ends_with (tt, rest) o f c.
Proof.
  intros Hc Ho H. unfold statement_opcode.
  rewrite den_scope; [done|by apply put_quiet|done|]. rewrite H. by apply keeps_quiet_ends.
Qed.

(** What follows a conditional without an else branch shows that it has none. *)
Definition follows (s : stmt) (rest : bytes) : Prop :=
  match s with
  | SIf _ _ None => exists b i, rest = b :: i /\ b <> DEF_ELSE_OP
  | _ => True
  end.

Definition stmt_ok (s : stmt) (f : frame) (o : outcome) (f' : frame) : Prop := forall b,
  enc_stmt s b -> exists N, forall n rest c, (N <= n)%nat -> prepared c -> short (b ++ rest) ->
  follows s rest ->
  den (discard_result (@term_object env (grammar n))) (b ++ rest) (put f c) =
  ends_with (tt, rest) o f' c.

Definition list_ok (ss : list stmt) (f : frame) (o : outcome) (f' : frame) : Prop := forall b,
  enc_list ss b -> exists N, forall n m c, (N <= n)%nat -> (length b <= m)%nat -> prepared c -> short b ->
  run_on (parse_while m whole (fun _ => discard_result (@term_object env (grammar n))) tt) b (put f c) =
  ends_with tt o f' c.

Lemma noop_ok f : stmt_ok SNoop f Normal f.
Proof.
  intros b H. inversion H; subst. exists 0%nat. intros n rest c _ Hc _ _. cbn [app].
  apply den_statement; [done|done|done|]. apply den_statement_opcode; [done|done|].
  repeat pass_stmt. rewrite den_take; unfold def_noop; by rewrite (den_op_stmt _ _ _ _ rest tt Normal f f c).
Qed.

Lemma break_ok f : stmt_ok SBreak f Broke f.
Proof.
  intros b H. inversion H; subst. exists 0%nat. intros n rest c _ Hc _ _. cbn [app].
  apply den_statement; [done|done|done|]. apply den_statement_opcode; [done|done|].
  repeat pass_stmt. rewrite den_take; unfold def_break; by rewrite (den_op_stmt _ _ _ _ rest tt Broke f f c).
Qed.

Lemma continue_ok f : stmt_ok SContinue f Continued f.
Proof.
  intros b H. inversion H; subst. exists 0%nat. intros n rest c _ Hc _ _. cbn [app].
  apply den_statement; [done|done|done|]. apply den_statement_opcode; [done|done|].
  repeat pass_stmt. rewrite den_take; unfold def_continue;
    by rewrite (den_op_stmt _ _ _ _ rest tt Continued f f c).
Qed.

(** The value or the error of an expression, and the frame it leaves. *)
Definition value_ends (r : result AmlError num) (rest : bytes) (f : frame) (c : AmlContext)
    : sres AmlContext Propagate (AmlValue * bytes) :=
  match r with
  | Ok v => SOk (val v, rest) (put f c)
  | Err e => SErr (PErr e) (put f c)
  | Fail x => SFail x
  end.
Definition value_outcome (r : result AmlError num) : outcome :=
  match r with Err e => Failed e | _ => Normal end.
Lemma value_keeps_quiet r rest f c : prepared c -> keeps_quiet (value_ends r rest f c).
Proof. intros Hc. destruct r; [by apply put_quiet..|done]. Qed.

(** An expression is the last alternative of the terms. *)
Lemma den_expression {g : Grammar} x i rest r f0 f c : prepared c -> r_never_wrong r ->
  forallb (fun bs => negb (bool_decide (x ∈ bs))) [[x08; x10]; named_heads; statement_heads] = true ->
  den expression_opcode (x :: i) (put f0 c) = value_ends r rest f c ->
  den (discard_result term_object) (x :: i) (put f0 c) = ends_with (tt, rest) (value_outcome r) f c.
Proof.
  intros Hc Hr [H1%negb_true_iff [H2%negb_true_iff [H3%negb_true_iff _]%andb_prop]%andb_prop]%andb_prop H.
  assert (quiet (put f0 c)) as Hc0 by by apply put_quiet.
  assert (den (p_map expression_opcode (fun value => Ok (Some value))) (x :: i) (put f0 c) =
    match value_ends r rest f c with
    | SOk (v, i) c => SOk (Some v, i) c | SErr e c => SErr e c | SFail r => SFail r end) as Hm.
  { rewrite den_map. unfold se_bind. rewrite H. by destruct r. }
  assert (den (choice [p_map namespace_modifier (fun _ => Ok None);
               p_map named_obj (fun _ => Ok None);
               p_map statement_opcode (fun _ => Ok None);
               p_map expression_opcode (fun value => Ok (Some value))]) (x :: i) (put f0 c) =
    match value_ends r rest f c with
    | SOk (v, i) c => SOk (Some v, i) c | SErr e c => SErr e c | SFail r => SFail r end) as Hch.
  { erewrite den_pass by first [apply heads_map, heads_namespace_modifier | done].
    erewrite den_pass by first [apply heads_map, heads_named_obj | done].
    erewrite den_pass by first [apply heads_map, heads_statement_opcode | done].
    rewrite den_take; [done|]. rewrite Hm. destruct r as [|e|]; try done. by destruct e. }
  rewrite den_discard. unfold se_bind, term_object.
  rewrite den_scope; [rewrite Hch; by destruct r|done|done|rewrite Hch].
  destruct r; [by apply put_quiet..|done].
Qed.

(** Returning the value of an operand. *)
Lemma den_return n i rest r f0 f c : prepared c -> r_never_wrong r ->
  den (@g_term_arg env (grammar n)) i (put f0 c) = value_ends r rest f c ->
  den (discard_result (@term_object env (grammar n))) (DEF_RETURN_OP :: i) (put f0 c) =
  ends_with (tt, rest) (match r with Ok v => Returned v | Err e => Failed e | Fail _ => Normal end) f c.
Proof.
  intros Hc Hr H. set (o := match r with Ok v => Returned v | Err e => Failed e | Fail _ => Normal end).
  assert (o_never_wrong o) as Hw by by destruct r.
  apply den_statement; [done|done|done|]. apply den_statement_opcode; [done|done|].
  assert (den (p_map (@g_term_arg env (grammar n))
    (fun return_arg => @Err Propagate unit (PReturn return_arg))) i (put f0 c) = ends_with (tt, rest) o f c) as Hp.
  { rewrite den_map. unfold se_bind. rewrite H. by destruct r. }
  repeat pass_stmt. rewrite den_take; unfold def_return;
    rewrite (den_op_stmt _ _ _ _ rest tt o f0 f c); try done.
  by apply ends_not_wrong.
Qed.

(** What an operand gives in a context. *)
Definition operand_at (n : nat) (be : bytes) (f : frame) (r : result AmlError num) (f1 : frame) (c : AmlContext) : Prop :=
  forall rest, den (@g_term_arg env (grammar n)) (be ++ rest) (put f c) = value_ends r rest f1 c.

(** An expression has a value or an error from a frame, and leaves a frame. *)
Definition evals (e : expr) (f : frame) (r : result AmlError num) (f1 : frame) : Prop :=
  r_never_wrong r /\ forall be, enc_expr e be -> exists N, forall n c, (N <= n)%nat -> prepared c ->
  operand_at n be f r f1 c /\
  (is_operation e = true -> forall rest,
     den (@expression_opcode env (grammar n)) (be ++ rest) (put f c) = value_ends r rest f1 c).

Lemma known_evals (Hprog : arities_ok) ks n0 e f r f1 : Forall (known n0) ks -> r_never_wrong r ->
  eval ks e f = se_lift r f1 -> evals e f r f1.
Proof.
  intros Hks Hw E. split; [done|]. intros be He. exists (S (n0 + height e)). intros n c Hn Hc.
  assert (given (eval ks e) f) as Hg by (unfold given; rewrite E; by destruct r).
  destruct n as [|n]; [lia|].
  assert (operand_at (S n) be f r f1 c) as Hop.
  { intros rest. rewrite (parses_expr ks n0 Hks Hprog n e be rest He ltac:(lia) c f Hc Hg), E. by destruct r. }
  split; [done|]. intros Ho rest.
  assert (below ks (@g_term_arg env (grammar (S n))) e) as Hb.
  { intros e' be' rest' He' Hh. apply (parses_expr ks n0 Hks Hprog); [done|lia]. }
  rewrite (parses_operation_expr ks n0 Hks Hprog (S n) e be rest He Ho ltac:(lia) ltac:(lia) Hb c f Hc Hg), E.
  by destruct r.
Qed.

Lemma return_ok e f r f' : evals e f r f' ->
  stmt_ok (SReturn e) f (match r with Ok v => Returned v | Err e => Failed e | Fail _ => Normal end) f'.
Proof.
  intros [Hw Hev] b H. inversion H as [| | | |e' be He| | |]; subst. destruct (Hev be He) as [N HN]. exists N.
  intros n rest c Hn Hc _ _. cbn [app]. apply (den_return n _ rest r); [done|done|]. by apply HN.
Qed.

Lemma operation_head e bs : enc_expr e bs -> is_operation e = true ->
  exists b i, bs = b :: i /\ (b ∈ op_heads \/ b ∈ name_heads).
Proof.
  intros He Ho. destruct (is_call e) eqn:Hc.
  - inversion He as [| | | | | | | | |r' es m bs' Hr]; subst; try discriminate Hc.
    destruct (ref_bytes_head r' bs' Hr) as (x & i & E & Hx). exists x, i. auto.
  - destruct (enc_operation_head e bs He Ho Hc) as (b & i & E & Hb). exists b, i. auto.
Qed.

Lemma expr_ok e f r f' : evals e f r f' -> stmt_ok (SExpr e) f (value_outcome r) f'.
Proof.
  intros [Hw Hev] b H. inversion H as [e' bs He Hop| | | | | | |]; subst. destruct (Hev b He) as [N HN]. exists N.
  intros n rest c Hn Hc _ _. destruct (HN n c Hn Hc) as [_ Hx]. specialize (Hx Hop rest).
  destruct (operation_head e b He Hop) as (x & i & -> & Hh). cbn [app] in *.
  apply den_expression; [done|done| |done]. destruct Hh as [Hh|Hh]; [by apply op_head_not|].
  apply forallb_forall. intros bs Hbs. apply negb_true_iff, (heads_apart x name_heads); [done|].
  revert bs Hbs. apply forallb_forall. vm_compute. reflexivity.
Qed.

(** ** Lists of statements *)

Lemma enc_stmt_head s b : enc_stmt s b -> exists x i, b = x :: i /\ x <> DEF_ELSE_OP.
Proof.
  intros H. destruct H as [e bs He Hop| | | | | | |]; try by eexists _, _.
  destruct (operation_head e bs He Hop) as (x & i & -> & Hx). exists x, i.
  split; [done|]. intros ->. destruct Hx as [Hx|Hx]; revert Hx; apply (bool_decide_eq_false _);
    vm_compute; reflexivity.
Qed.

Lemma enc_list_follows s b ss bs : enc_stmt s b -> enc_list ss bs ->
  match s with SIf _ _ None => bs <> [] | _ => True end -> follows s bs.
Proof.
  intros _ Hl Hs. destruct s as [|e s1 [s2|]| | | | |]; try done.
  destruct Hl as [|s' ss' b' bs' H' _ _]; [done|].
  destruct (enc_stmt_head s' b' H') as (x & i & -> & Hx). by exists x, (i ++ bs').
Qed.

Lemma still_parsing_whole i : short i -> still_parsing whole i = bool_decide (i <> []).
Proof.
  intros Hi. unfold still_parsing. rewrite len32_small by done. by destruct i.
Qed.

(** One round of the loop over a list. *)
Lemma list_round n m s b bs f o f' c :
  enc_stmt s b -> (length (b ++ bs) <= m)%nat -> short (b ++ bs) ->
  den (discard_result (@term_object env (grammar n))) (b ++ bs) (put f c) = ends_with (tt, bs) o f' c ->
  run_on (parse_while m whole (fun _ => discard_result (@term_object env (grammar n))) tt) (b ++ bs) (put f c) =
  match o with
  | Normal => run_on (parse_while (pred m) whole (fun _ => discard_result (@term_object env (grammar n))) tt)
                bs (put f' c)
  | _ => ends_with tt o f' c
  end.
Proof.
  intros Hb Hm Hs Hd. destruct (enc_stmt_head s b Hb) as (x & i & -> & _).
  destruct m as [|m]; [cbn in Hm; lia|]. unfold run_on. cbn [parse_while pred].
  rewrite still_parsing_whole, bool_decide_true by done. unfold den in Hd.
  destruct (discard_result _ _) as [[] [i' c']|e [i' c']|]; destruct o; try done; cbn in Hd.
  all: by injection Hd; intros; subst.
Qed.

Lemma nil_ok f : list_ok [] f Normal f.
Proof.
  intros b H. inversion H; subst. exists 0%nat. intros n m c _ _ Hc _. unfold run_on.
  by destruct m.
Qed.

Lemma cons_ok s ss f f1 o f2 : stmt_ok s f Normal f1 -> list_ok ss f1 o f2 -> list_ok (s :: ss) f o f2.
Proof.
  intros H1 H2 b' H. inversion H as [|s' ss' b bs Hs Hl Hi]; subst.
  destruct (H1 b Hs) as [N1 H1']. destruct (H2 bs Hl) as [N2 H2']. exists (max N1 N2).
  intros n m c Hn Hm Hc Hsh. erewrite list_round; [|exact Hs|done|done|apply H1'; try done; [lia|]].
  - destruct (enc_stmt_head s b Hs) as (x & i & -> & _). cbn [length app] in Hm.
    apply H2'; [lia|rewrite length_app in Hm; lia|done|by apply short_app in Hsh as [_ ?]].
  - by eapply enc_list_follows.
Qed.

Lemma stop_ok s ss f o f1 : stmt_ok s f o f1 -> o <> Normal -> list_ok (s :: ss) f o f1.
Proof.
  intros H1 Ho b' H. inversion H as [|s' ss' b bs Hs Hl Hi]; subst.
  destruct (H1 b Hs) as [N1 H1']. exists N1. intros n m c Hn Hm Hc Hsh.
  erewrite list_round; [|exact Hs|done|done|apply H1'; try done; by eapply enc_list_follows].
  by destruct o.
Qed.

Lemma parse_while_raw {A} m x y e (body : A -> Parser A) a st :
  parse_while m (MkPkgLength x e) body a st = parse_while m (MkPkgLength y e) body a st.
Proof.
  revert a st. induction m as [|m IH]; intros a [i c]; [done|]. cbn [parse_while].
  change (still_parsing (MkPkgLength x e) i) with (still_parsing (MkPkgLength y e) i).
  destruct (still_parsing _ i); [|done]. by destruct (body a (i, c)).
Qed.

(** Running a whole piece of code. *)
Lemma run_code_list n b c :
  @run_term_list env (grammar (S n)) b c =
  run_on (parse_while (length b) whole (fun _ => discard_result (@term_object env (grammar n))) tt) b c.
Proof.
  unfold run_term_list, se_bind, whole_length, from_raw_length.
  rewrite Z.ltb_irrefl, Z.sub_diag. cbn [ok_or result_bind unwrap_ok se_lift].
  unfold term_list, parse_list, run_on. cbn [fst grammar grammar_step g_term_object].
  by rewrite (parse_while_raw _ _ 0).
Qed.

Lemma run_list_ok ss f o f' b : list_ok ss f o f' -> enc_list ss b -> short b ->
  exists N, forall n c, (N <= n)%nat -> prepared c ->
  @run_term_list env (grammar n) b (put f c) = ends_with tt o f' c.
Proof.
  intros H Hb Hs. destruct (H b Hb) as [N HN]. exists (S N). intros [|n] c Hn Hc; [lia|].
  rewrite run_code_list. apply HN; try done; lia.
Qed.

(** ** Conditionals *)

(** A package whose contents are an operand and a body. *)
Lemma den_package n be b1 k rest f r f1 c :
  operand_at n be f r f1 c ->
  let body := be ++ b1 in
  pkg_fits k (Z.of_nat (S k + length body)) = true ->
  Z.of_nat (S k + length body + length rest) < 2 ^ 32 ->
  den (p_then pkg_length (@g_term_arg env (grammar n)))
    (pkg_bytes k (Z.of_nat (S k + length body)) ++ body ++ rest) (put f c) =
  match r with
  | Ok v => SOk ((MkPkgLength (Z.of_nat (S k + length body)) (Z.of_nat (length rest)), val v),
                 b1 ++ rest) (put f1 c)
  | Err err => SErr (PErr err) (put f1 c)
  | Fail r => SFail r
  end.
Proof.
  intros Ho body Hf Hl. rewrite den_then. unfold se_bind at 1.
  unfold den at 1. rewrite pkg_length_ok by done. unfold se_bind, body. rewrite <-app_assoc.
  rewrite (Ho (b1 ++ rest)). by destruct r.
Qed.

(** The branch behind a conditional. *)
Lemma den_else_none x i c : quiet c -> x <> DEF_ELSE_OP ->
  den else_branch (x :: i) c = SOk ([], x :: i) c.
Proof.
  intros Hc Hx. unfold else_branch. erewrite den_pass; [|apply heads_second, heads_then, heads_opcode|done|].
  - reflexivity.
  - apply bool_decide_eq_false. by rewrite list_elem_of_singleton.
Qed.

Lemma den_else_some k b rest c : quiet c ->
  pkg_fits k (Z.of_nat (S k + length b)) = true ->
  Z.of_nat (S k + length b + length rest) < 2 ^ 32 ->
  den else_branch (DEF_ELSE_OP :: (pkg_bytes k (Z.of_nat (S k + length b)) ++ b) ++ rest) c =
  SOk (b, rest) c.
Proof.
  intros Hc Hf Hl. unfold else_branch.
  assert (den (p_feed pkg_length take_to_end_of_pkglength)
    ((pkg_bytes k (Z.of_nat (S k + length b)) ++ b) ++ rest) c = SOk (b, rest) c) as Hp.
  { rewrite <-app_assoc, den_feed. unfold se_bind, den at 1. rewrite pkg_length_ok by done.
    unfold den. rewrite take_to_end_ok by lia. done. }
  assert (den (second (p_then (opcode DEF_ELSE_OP)
      (comment_scope VbAllScopes (p_feed pkg_length take_to_end_of_pkglength))))
    (DEF_ELSE_OP :: (pkg_bytes k (Z.of_nat (S k + length b)) ++ b) ++ rest) c = SOk (b, rest) c) as Hs.
  { rewrite den_second. unfold se_bind at 1. rewrite den_then. unfold se_bind at 1.
    rewrite den_opcode. unfold se_bind at 1. rewrite den_scope; [|done|done|by rewrite Hp].
    by rewrite Hp. }
  rewrite den_take; by rewrite Hs.
Qed.

(** The rest of a conditional, after its opcode. *)
Lemma den_if n be b1 k t b2 rest f r f1 c :
  operand_at n be f r f1 c -> prepared c ->
  let body := be ++ b1 in
  pkg_fits k (Z.of_nat (S k + length body)) = true ->
  Z.of_nat (S k + length body + length t) < 2 ^ 32 ->
  (forall c, quiet c -> den (@else_branch env) t c = SOk (b2, rest) c) ->
  den (map_with_context
    (p_then (p_feed (p_then pkg_length (@g_term_arg env (grammar n))) (fun '(length, predicate_arg) =>
       p_map (take_to_end_of_pkglength length) (fun then_branch =>
         let? predicate := prop (as_bool predicate_arg) in Ok (predicate, then_branch)))) else_branch)
    (fun '((predicate, then_branch), else_branch) =>
       @run_term_list env (grammar n) (if predicate : bool then then_branch else else_branch)))
    (pkg_bytes k (Z.of_nat (S k + length body)) ++ body ++ t) (put f c) =
  match r with
  | Ok v =>
      match @run_term_list env (grammar n) (if truth v then b1 else b2) (put f1 c) with
      | SOk u c' => SOk (u, rest) c'
      | SErr err c' => SErr err c'
      | SFail r => SFail r
      end
  | Err err => SErr (PErr err) (put f1 c)
  | Fail r => SFail r
  end.
Proof.
  intros Ho Hc body Hf Hl Ht. subst body. rewrite den_map_ctx. unfold se_bind at 1. rewrite den_then.
  unfold se_bind at 1. rewrite den_feed. unfold se_bind at 1.
  rewrite (den_package n be b1 k t f r f1 c Ho Hf Hl).
  destruct r as [v|err|r]; [|done|done]. cbn beta iota.
  rewrite den_map. unfold se_bind at 1, den at 1.
  rewrite take_to_end_ok by (rewrite length_app in Hl; lia).
  rewrite as_bool_num. cbn [prop result_map_err result_bind]. unfold se_bind, se_lift, se_ret.
  rewrite Ht by by apply put_quiet. by destruct (run_term_list _ _).
Qed.

(** The two ways in which a conditional goes on after its predicate. *)
Definition if_runs (e : expr) (s1 s2 : list stmt) (f : frame) (o : outcome) (f' : frame) : Prop :=
  exists r f1, evals e f r f1 /\
  match r with
  | Ok v => list_ok (if truth v then s1 else s2) f1 o f'
  | Err err => f1 = f' /\ o = Failed err
  | Fail _ => False
  end.

Lemma if_tail e s1 s2 f o f' be b1 b2 k : if_runs e s1 s2 f o f' -> o_never_wrong o ->
  enc_expr e be -> enc_list s1 b1 -> enc_list s2 b2 ->
  pkg_fits k (Z.of_nat (S k + length (be ++ b1))) = true -> short b1 -> short b2 ->
  exists N, forall n t rest c, (N <= n)%nat -> prepared c ->
  Z.of_nat (S k + length (be ++ b1) + length t) < 2 ^ 32 ->
  (forall c, quiet c -> den (@else_branch env) t c = SOk (b2, rest) c) ->
  den (discard_result (@term_object env (grammar n)))
    (DEF_IF_ELSE_OP :: pkg_bytes k (Z.of_nat (S k + length (be ++ b1))) ++ (be ++ b1) ++ t) (put f c) =
  ends_with (tt, rest) o f' c.
Proof.
  intros (r & f1 & [_ Hev] & Hr) Hw He H1 H2 Hk Hs1 Hs2. destruct (Hev be He) as [N0 H0].
  assert (exists N, forall n c, (N <= n)%nat -> prepared c ->
    match r with
    | Ok v => @run_term_list env (grammar n) (if truth v then b1 else b2) (put f1 c) = ends_with tt o f' c
    | Err err => f1 = f' /\ o = Failed err
    | Fail r => False
    end) as [N HN].
  { destruct r as [v|err|]; [|by exists 0%nat|done]. destruct (truth v); eapply run_list_ok; done. }
  exists (max N N0). intros n t rest c Hn Hc Hl Ht.
  specialize (HN n c ltac:(lia) Hc). destruct (H0 n c ltac:(lia) Hc) as [Ho _].
  pose proof (den_if n be b1 k t b2 rest f r f1 c Ho Hc Hk Hl Ht) as Hd. cbv zeta in Hd.
  apply den_statement; [done|done|done|]. apply den_statement_opcode; [done|done|].
  repeat pass_stmt. rewrite den_take; unfold def_if_else;
    rewrite (den_op_stmt _ _ _ _ rest tt o f f' c); try done; try by apply ends_not_wrong.
  all: rewrite Hd; destruct r as [v|err|r]; [|by destruct HN as [-> ->]|done].
  all: rewrite HN; by destruct o.
Qed.

Lemma if_ok e s1 s2 f o f' : if_runs e s1 (default [] s2) f o f' -> o_never_wrong o ->
  stmt_ok (SIf e s1 s2) f o f'.
Proof.
  intros Hr Hw b H. inversion H as [|e' s1' be b1 bs He H1 Hp|e' s1' s2' be b1 b2 bs bs' He H1 H2 Hp Hp'
    | | | | |]; subst.
  - inversion Hp as [k body Hk]; subst. cbn [default] in Hr.
    destruct (Z_lt_ge_dec (Z.of_nat (length b1)) (2 ^ 32)) as [Hs|Hs].
    + destruct (if_tail e s1 [] f o f' be b1 [] k Hr Hw He H1 enc_nil Hk Hs) as [N HN]; [done|].
      exists N. intros n rest c Hn Hc Hsh (x & i & -> & Hx). cbn [app]. rewrite <-app_assoc.
      apply HN; [done|done| |intros; by apply den_else_none].
      unfold short in Hsh. cbn [app length] in Hsh. rewrite !length_app, pkg_bytes_length in Hsh.
      rewrite !length_app in *. cbn [length] in *. lia.
    + exists 0%nat. intros n rest c _ _ Hsh. unfold short in Hsh. cbn [app length] in Hsh.
      rewrite !length_app in Hsh. lia.
  - inversion Hp as [k body Hk]; subst. inversion Hp' as [k' body' Hk']; subst. cbn [default] in Hr.
    destruct (Z_lt_ge_dec (Z.of_nat (length b1 + length b2)) (2 ^ 32)) as [Hs|Hs].
    + destruct (if_tail e s1 s2' f o f' be b1 b2 k Hr Hw He H1 H2 Hk) as [N HN];
        [unfold short; lia..|].
      exists N. intros n rest c Hn Hc Hsh _. cbn [app]. rewrite <-!app_assoc.
      assert (Z.of_nat (S k + length (be ++ b1) + S (S k' + length b2 + length rest)) < 2 ^ 32) as Hl.
      { unfold short in Hsh. cbn [app length] in Hsh. rewrite !length_app in Hsh. cbn [length] in Hsh.
        rewrite !length_app, !pkg_bytes_length in Hsh. rewrite !length_app. lia. }
      rewrite (app_assoc be). apply HN; [done|done| |].
      * rewrite !length_app in *. cbn [length]. rewrite !length_app, pkg_bytes_length. lia.
      * intros c' Hc'. rewrite !length_app in Hl.
        pose proof (den_else_some k' b2 rest c' Hc' Hk' ltac:(lia)) as Hd.
        cbn [app]. rewrite <-app_assoc in *. exact Hd.
    + exists 0%nat. intros n rest c _ _ Hsh. unfold short in Hsh. cbn [app length] in Hsh.
      rewrite !length_app in Hsh. cbn [length] in Hsh. rewrite !length_app in Hsh. lia.
Qed.

(** ** Loops *)

Lemma g_fuel_grammar n : @g_fuel env (grammar n) = n.
Proof. induction n as [|n IH]; cbn; congruence. Qed.

(** Observing what a parser reads. *)
Lemma den_extract {A} (p : Parser A) pre rest c : short (pre ++ rest) ->
  match den p (pre ++ rest) c with SOk (_, i) _ => i = rest | _ => True end ->
  den (extract p) (pre ++ rest) c =
  match den p (pre ++ rest) c with
  | SOk (a, i) c' => SOk ((a, pre), i) c'
  | SErr e c' => SErr e c'
  | SFail r => SFail r
  end.
Proof.
  intros Hs. unfold den, extract. destruct (p _) as [a [i c']|e [i c']|]; [|done|done]. intros ->.
  unfold sub_w. rewrite checked_exact.
  2: { unfold short in Hs. rewrite length_app in *. split; [lia|].
       assert (2 ^ 32 <= 2 ^ usize_bits) by (apply Z.pow_le_mono_r; destruct usize_bits_ok; lia). lia. }
  rewrite length_app. replace (Z.to_nat _) with (length pre) by lia.
  unfold slice. rewrite length_app, drop_0, Nat.sub_0_r, take_app_length.
  by rewrite (proj2 (Nat.leb_le (length pre) _)) by lia.
Qed.

(** Evaluating the predicate, and going on with the loop. *)
Definition again n fuel be b : SE AmlContext Propagate unit :=
  let! result := run_on (comment_scope VbAllScopes (@g_term_arg env (grammar n))) be in
  let! predicate := ctx (se_lift (as_bool result)) in
  if predicate : bool then @while_loop env (grammar n) fuel be b else se_ret tt.

Lemma again_eq n fuel be b f r f1 c : operand_at n be f r f1 c -> prepared c ->
  again n fuel be b (put f c) =
  match r with
  | Ok v => if truth v then @while_loop env (grammar n) fuel be b (put f1 c) else SOk tt (put f1 c)
  | Err err => SErr (PErr err) (put f1 c)
  | Fail r => SFail r
  end.
Proof.
  intros Ho Hc. pose proof (Ho []) as Hd. rewrite app_nil_r in Hd.
  assert (run_on (comment_scope VbAllScopes (@g_term_arg env (grammar n))) be (put f c) =
    match r with
    | Ok v => SOk (val v) (put f1 c)
    | Err err => SErr (PErr err) (put f1 c)
    | Fail r => SFail r
    end) as Hr.
  { unfold run_on. rewrite comment_scope_quiet; [|by apply put_quiet|done|].
    - unfold den in Hd. destruct (g_term_arg _) as [a [i c']|e' [i c']|]; destruct r;
        try done; by injection Hd; intros; subst.
    - rewrite Hd. by apply value_keeps_quiet. }
  unfold again, se_bind at 1. rewrite Hr. destruct r as [v|err|]; [|done|done].
  unfold se_bind. rewrite as_bool_num. cbn. by destruct (truth v).
Qed.

Definition loop_ok (e : expr) (body : list stmt) (f : frame) (o : outcome) (f' : frame) : Prop :=
  (exists r f1, evals e f r f1) /\ forall be b, enc_expr e be -> enc_list body b -> short b ->
  exists N, forall n fuel c, (N <= n)%nat -> (N <= fuel)%nat -> prepared c ->
  again n fuel be b (put f c) = ends_with tt o f' c.

Lemma loop_end e body f v f' : evals e f (Ok v) f' -> truth v = false -> loop_ok e body f Normal f'.
Proof.
  intros Hx Ev. split; [by eexists _, _|]. destruct Hx as [_ Hev]. intros be b He Hb Hs.
  destruct (Hev be He) as [N HN]. exists N. intros n fuel c Hn _ Hc.
  destruct (HN n c Hn Hc) as [Ho _]. by rewrite (again_eq n fuel be b f _ _ c Ho Hc), Ev.
Qed.

Lemma loop_fails e body f err f' : evals e f (Err err) f' -> loop_ok e body f (Failed err) f'.
Proof.
  intros Hx. split; [by eexists _, _|]. destruct Hx as [_ Hev]. intros be b He Hb Hs.
  destruct (Hev be He) as [N HN]. exists N. intros n fuel c Hn _ Hc.
  destruct (HN n c Hn Hc) as [Ho _]. by rewrite (again_eq n fuel be b f _ _ c Ho Hc).
Qed.

Lemma loop_body e body f v f1 o f2 : evals e f (Ok v) f1 -> truth v = true ->
  list_ok body f1 o f2 ->
  match o with Normal | Continued => False | _ => True end ->
  loop_ok e body f (match o with Broke => Normal | o => o end) f2.
Proof.
  intros Hx Ev Hl Ho. split; [by eexists _, _|]. destruct Hx as [_ Hev]. intros be b He Hb Hs. destruct (run_list_ok _ _ _ _ _ Hl Hb Hs) as [N HN].
  destruct (Hev be He) as [N0 H0]. exists (max (S N) N0). intros n fuel c Hn Hf Hc.
  destruct (H0 n c ltac:(lia) Hc) as [Hop _].
  rewrite (again_eq n fuel be b f _ _ c Hop Hc), Ev. destruct fuel as [|fuel]; [lia|].
  cbn [while_loop]. unfold se_bind at 1, se_try. rewrite HN by (done || lia).
  by destruct o.
Qed.

Lemma loop_again e body f v f1 o f2 o' f3 : evals e f (Ok v) f1 -> truth v = true ->
  list_ok body f1 o f2 -> o = Normal \/ o = Continued ->
  loop_ok e body f2 o' f3 -> loop_ok e body f o' f3.
Proof.
  intros Hx Ev Hl Ho [_ IH]. split; [by eexists _, _|]. destruct Hx as [_ Hev]. intros be b He Hb Hs. destruct (run_list_ok _ _ _ _ _ Hl Hb Hs) as [N HN].
  destruct (IH be b He Hb Hs) as [N' HN']. destruct (Hev be He) as [N0 H0].
  exists (S (max N (max N' N0))). intros n fuel c Hn Hf Hc. destruct (H0 n c ltac:(lia) Hc) as [Hop _].
  rewrite (again_eq n fuel be b f _ _ c Hop Hc), Ev. destruct fuel as [|fuel]; [lia|].
  cbn [while_loop]. unfold se_bind at 1, se_try. rewrite HN by (done || lia).
  rewrite <-(HN' n fuel c) by (done || lia). by destruct Ho as [-> | ->].
Qed.

(** The rest of a loop, after its opcode. *)
Lemma den_while n be b k rest f r f1 c :
  operand_at n be f r f1 c -> prepared c ->
  pkg_fits k (Z.of_nat (S k + length (be ++ b))) = true ->
  Z.of_nat (S k + length (be ++ b) + length rest) < 2 ^ 32 ->
  den (map_with_context
       (p_feed (p_then pkg_length (extract (@g_term_arg env (grammar n))))
          (fun '(length, (first_predicate, predicate_stream)) =>
             p_map (take_to_end_of_pkglength length)
               (fun body => Ok (first_predicate, predicate_stream, body))))
       (fun '(first_predicate, predicate_stream, body) =>
          let! predicate := ctx (se_lift (as_bool first_predicate)) in
          if predicate then @while_loop env (grammar n) n predicate_stream body
          else se_ret tt))
    (pkg_bytes k (Z.of_nat (S k + length (be ++ b))) ++ (be ++ b) ++ rest) (put f c) =
  match again n n be b (put f c) with
  | SOk u c' => SOk (u, rest) c'
  | SErr e c' => SErr e c'
  | SFail r => SFail r
  end.
Proof.
  intros Ho Hc Hk Hl. rewrite (again_eq n n be b f r f1 c Ho Hc). rewrite den_map_ctx.
  unfold se_bind at 1. rewrite den_feed. unfold se_bind at 1. rewrite den_then. unfold se_bind at 1.
  unfold den at 1. rewrite pkg_length_ok by done. unfold se_bind at 1. rewrite <-app_assoc.
  pose proof (Ho (b ++ rest)) as Hd.
  rewrite length_app in Hl.
  rewrite den_extract; rewrite ?Hd; [|unfold short; rewrite !length_app; lia|by destruct r].
  destruct r as [v|err|]; [|done|done]. cbn [value_ends]. unfold se_bind at 1, se_ret at 1. cbn beta iota.
  rewrite den_map. unfold se_bind at 1, den at 1. rewrite take_to_end_ok by lia.
  unfold se_bind. cbn. rewrite as_bool_num. cbn. by destruct (truth v).
Qed.

Lemma while_ok e body f o f' : loop_ok e body f o f' -> o_never_wrong o -> stmt_ok (SWhile e body) f o f'.
Proof.
  intros [(r & f1 & _ & Hev) Hl] Hw b' H. inversion H as [| | |e' s be b bs He Hb Hp| | | |]; subst.
  inversion Hp as [k body' Hk]; subst.
  destruct (Z_lt_ge_dec (Z.of_nat (length b)) (2 ^ 32)) as [Hs|Hs].
  2: { exists 0%nat. intros n rest c _ _ Hsh. unfold short in Hsh. cbn [app length] in Hsh.
       rewrite !length_app in Hsh. lia. }
  destruct (Hl be b He Hb Hs) as [N HN], (Hev be He) as [N0 H0]. exists (max N N0).
  intros n rest c Hn Hc Hsh _. specialize (HN n n c ltac:(lia) ltac:(lia) Hc).
  destruct (H0 n c ltac:(lia) Hc) as [Hop _]. cbn [app]. rewrite <-app_assoc.
  apply den_statement; [done|done|done|]. apply den_statement_opcode; [done|done|].
  pose proof (den_while n be b k rest f r f1 c Hop Hc Hk) as Hd. rewrite HN in Hd.
  unfold short in Hsh. cbn [app length] in Hsh. rewrite <-app_assoc, !length_app, pkg_bytes_length in Hsh.
  specialize (Hd ltac:(rewrite length_app; lia)).
  repeat pass_stmt. rewrite den_take; unfold def_while; rewrite (g_fuel_grammar n);
    rewrite (den_op_stmt _ _ _ _ rest tt o f f' c); try done; try by apply ends_not_wrong.
  all: rewrite Hd; by destruct o.
Qed.
End Statements.
End Exec.
