(* ===== verification/ExecCorrect.v ===== *)
(** Calls of methods, and with them whole executions: running the encoding of statements
    executes them, and parsing the encoding of an expression evaluates it, with the calls
    of other methods that they make. *)
From S2P Require Import Prelude Types Names Namespace Ordered Env RustStd Context Value Parser.
From S2P Require Import PkgLength Opcode NameObject Grammar Expression Statement TermObject.
From S2P Require Import Interp Sample Flat Program Fuel Denotation First Calculus Memory EvalCorrect.
From S2P Require Import StmtCorrect.
#[local] Open Scope Z_scope.

Scheme exec_mutual := Minimality for exec Sort Prop
  with exec_list_mutual := Minimality for exec_list Sort Prop
  with performed_mutual := Minimality for performed Sort Prop.
Combined Scheme exec_exec_list_performed_ind from exec_mutual, exec_list_mutual, performed_mutual.

Section Exec.
Context {env : AmlEnv} {natives : UserNatives} {prog : Program}.

(** The code of every method encodes its statements, and its flags say how many
    arguments it takes. *)
Definition program_ok : Prop := Forall (fun m =>
  @enc_list prog (m_bound m) (m_body m) (m_code m) /\ short (m_code m) /\
  arg_count (m_flags m) = Z.of_nat (m_arity m)) p_methods.

Lemma program_arities : program_ok -> arities_ok.
Proof. intros H. eapply Forall_impl; [exact H|]. by intros m (_ & _ & Ha). Qed.

(** * Calls *)

Lemma call_frame_args vs m a : args_from_list (map val vs) = Ok a ->
  new_method_context a = to_mc (call_frame vs m).
Proof.
  unfold args_from_list. destruct (_ <? _)%nat; [done|]. intros [= <-].
  unfold new_method_context, to_mc, call_frame. cbn [f_locals f_args]. f_equal.
  rewrite length_map, map_app, !map_map. f_equal.
  by induction (7 - length vs)%nat; cbn; f_equal.
Qed.

(** The context in which a method is called: the frame of the caller, and the memory. *)
Definition at_call (mc : option MethodContext) (mem : memory) (c : AmlContext) : AmlContext :=
  set_method_context mc (set_namespace (with_memory mem (namespace c)) c).

Definition call_result (o : outcome) : result AmlError AmlValue := result_map val (call_value o).

(** A method in a context in which the program is linked. *)
Section Invoke.
Context (m : method) (executing : list (list NameSeg)) (c : AmlContext) (mem : memory) (vs : list num).
Context (args : Args) (o : outcome) (f' : frame) (mc : option MethodContext).
Hypothesis (Hquiet : quiet c) (Hlinked : linked executing (namespace c)) (Hm : m ∈ p_methods).
Hypothesis (Hargs : args_from_list (map val vs) = Ok args).
#[local] Instance called : Executing := {| current := m; active := m_path m :: executing |}.

(** The method is entered and left: between [ns1] and [ns2] its body runs. *)
Lemma invoke_between (g : Grammar) ns1 ns2 :
  add_level (abs (m_path m)) LMethodLocals (namespace c) = SOk tt ns1 ->
  remove_level (abs (m_path m)) ns1 = SOk tt ns2 ->
  object_map ns1 = object_map (namespace c) -> object_map ns2 = object_map ns1 ->
  linked (m_path m :: executing) ns1 ->
  (forall c', prepared c' ->
     run_term_list (m_code m) (put (call_frame vs mem) c') = ends_with tt o f' c') ->
  invoke_method (abs (m_path m)) args (at_call mc mem c) =
  se_lift (call_result o) (at_call mc (f_memory f') (set_namespace ns2 c)).
Proof.
  intros E1 E2 O1 O2 Hl Hr. destruct Hlinked as (_ & _ & Hall). rewrite Forall_forall in Hall.
  destruct (Hall m Hm) as ((h & Hg & Hh & Ho) & _).
  assert (get_by_path (with_memory mem (namespace c)) (abs (m_path m)) =
    Ok (VMethod (m_flags m) (Aml (m_code m)))) as Hget.
  { unfold get_by_path.
    change (get_handle (with_memory mem (namespace c)) (abs (m_path m))) with
      (get_handle (namespace c) (abs (m_path m))). rewrite Hg. cbn [result_bind]. unfold ns_get.
    by rewrite with_memory_lookup, Ho, bool_decide_false. }
  apply (add_level_memory mem) in E1; [|done]. apply (remove_level_memory (f_memory f')) in E2; [|done].
  unfold invoke_method, in_namespace, se_bind, se_gets, se_lift, se_modify, at_call.
  cbn [namespace set_method_context set_namespace]. rewrite Hget, (call_frame_args vs mem args Hargs).
  unfold on_namespace at 1. cbn [namespace set_current_scope set_method_context set_namespace]. rewrite E1.
  unfold se_try, run_code, method_result.
  assert (prepared (set_namespace ns1 (set_current_scope (abs (m_path m)) c))) as Hc by by split.
  specialize (Hr _ Hc). cbn [put represents_frame namespace set_namespace call_frame f_memory] in Hr.
  unfold set_method_context, set_namespace, set_current_scope in Hr |- *.
  cbn [hardware namespace method_context current_scope scope_indent debug_verbosity buffers locked] in Hr |- *.
  rewrite Hr. unfold on_namespace.
  destruct o; cbn [ends_with put represents_frame namespace set_namespace set_method_context]; by rewrite E2.
Qed.

(** A call of a method that is not executing leaves the namespace as it was, apart from
    the memory. *)
Lemma invoke_ok (g : Grammar) : m_path m ∉ executing ->
  (forall c', prepared c' ->
     run_term_list (m_code m) (put (call_frame vs mem) c') = ends_with tt o f' c') ->
  invoke_method (abs (m_path m)) args (at_call mc mem c) =
  se_lift (call_result o) (at_call mc (f_memory f') c).
Proof.
  intros Hact Hr. destruct Hlinked as (Hd & _ & Hall). rewrite Forall_forall in Hall.
  destruct (Hall m Hm) as ((h & Hg & _) & Hl & _). specialize (Hl Hact).
  destruct (get_handle_parent _ _ _ Hg) as (p & s & Ep & Hp). rewrite Ep in Hl.
  destruct (level_restored p s LMethodLocals _ Hd Hp Hl) as (ns1 & E1 & E2 & O1 & Hd1 & L1 & V1).
  rewrite <-Ep in *. erewrite (invoke_between g ns1); [|done..| |done]; [by destruct c|].
  eapply linked_level; [done..| |done]. intros q Hq. by rewrite L1, decide_False.
Qed.
End Invoke.

(** * Every execution *)

Definition exec_ok (ex : Executing) (s : stmt) (f : frame) (o : outcome) (f' : frame) : Prop :=
  match s with SWhile e body => loop_ok e body f o f' | _ => stmt_ok s f o f' end.

Lemma exec_ok_stmt ex s f o f' : exec_ok ex s f o f' -> o_never_wrong o -> stmt_ok s f o f'.
Proof. intros H Ho. destruct s; try done. by apply while_ok. Qed.

(** What was performed is known, with enough fuel. *)
Definition calls_ok (ex : Executing) (ks : list call_made) : Prop := exists N, Forall (known N) ks.

Lemma call_value_never_wrong o : o_never_wrong o -> r_never_wrong (call_value o).
Proof. by destruct o. Qed.

(** An execution of the body of a method makes its call known. *)
Lemma call_known (Hprog : program_ok) (ex : Executing) m vs mem o f :
  m ∈ p_methods -> m_path m ∉ active -> (length vs <= 7)%nat -> o_never_wrong o ->
  @list_ok env natives prog (called m active) (m_body m) (call_frame vs mem) o f ->
  exists N, known N (MkCallMade (m_path m) vs mem (call_value o) (f_memory f)).
Proof.
  intros Hin Hact Hlen Hw Hl. destruct (proj1 (Forall_forall _ _) Hprog m Hin) as (Hb & Hs & _).
  destruct (run_list_ok (ex := called m active) _ _ _ _ _ Hl Hb Hs) as [N HN].
  exists (S N). split; [done|]. split; [by apply call_value_never_wrong|].
  intros [|n] Hn; [lia|]. intros c f0 args (Hq & Hlk & _) Hf Hargs. cbn in Hf, Hargs. subst mem.
  apply (invoke_ok m active c (f_memory f0) vs args o f (Some (to_mc f0))); try done.
  intros c' Hc'. apply HN; [lia|done].
Qed.

Lemma performed_evals (Hprog : program_ok) (ex : Executing) ks e f r f1 : calls_ok ex ks ->
  eval ks e f = se_lift r f1 -> match r with Fail _ => False | _ => True end -> evals e f r f1.
Proof.
  intros [N Hks] E Hr. apply (known_evals (program_arities Hprog) ks N); [done| |done].
  pose proof (never_wrong_eval ks N Hks e f) as Hw. rewrite E in Hw. by destruct r.
Qed.

Lemma evals_error (ex : Executing) e f err f1 : evals e f (Err err) f1 -> err <> WrongParser.
Proof. by intros [H _]. Qed.

Lemma exec_all_ok (Hprog : program_ok) :
  (forall ex s f o f', exec ex s f o f' -> exec_ok ex s f o f' /\ o_never_wrong o) /\
  (forall ex ss f o f', exec_list ex ss f o f' -> list_ok ss f o f' /\ o_never_wrong o) /\
  (forall ex ks, performed ex ks -> calls_ok ex ks).
Proof.
  apply exec_exec_list_performed_ind; cbn [exec_ok]; intros;
    repeat match goal with
    | H : _ /\ _ |- _ => destruct H
    | Hc : calls_ok ?ex ?ks, H : eval ?ks _ _ = SOk ?v _ |- _ =>
        apply (performed_evals Hprog ex ks _ _ (Ok v)) in H; [|done..]
    | Hc : calls_ok ?ex ?ks, H : eval ?ks _ _ = SErr ?v _ |- _ =>
        apply (performed_evals Hprog ex ks _ _ (Err v)) in H; [|done..]
    end; try (split; [|cbn; eauto using evals_error]).
  - by apply (expr_ok e f (Ok v)).
  - by apply (expr_ok e f (Err err)).
  - apply if_ok; [|done]. by exists (Ok v), f'.
  - apply if_ok; [by exists (Err err), f'|by eapply evals_error].
  - by eapply loop_end.
  - by eapply loop_fails.
  - by eapply (loop_body e body f v f1 Broke).
  - destruct o as [|w| | |err]; try done;
      [by apply (loop_body e body f v f1 (Returned w))|by apply (loop_body e body f v f1 (Failed err))].
  - by eapply loop_again.
  - by apply (return_ok e f (Ok v)).
  - by apply (return_ok e f (Err err)).
  - apply break_ok.
  - apply continue_ok.
  - apply noop_ok.
  - apply nil_ok.
  - eapply cons_ok; [by apply exec_ok_stmt|done].
  - by apply stop_ok; [apply exec_ok_stmt|].
  - by exists 0%nat.
  - match goal with Hc : calls_ok ex ks |- _ => destruct Hc as [N HN] end. destruct (call_known Hprog ex m vs mem o f) as [N' HN']; try done.
    { by eapply method_at_found. }
    exists (max N N'). constructor.
    + eapply (Forall_inv (l := [])). apply (known_le N'); [lia|by constructor].
    + apply (known_le N); [lia|done].
Qed.

(** C4: Structured execution is what the interpreter does with the encoding of a list
    of statements, in a method of a linked program: how it ends and the frame and the
    memory it leaves, also when it calls other methods, alone or inside of expressions. *)
Theorem exec_correct (ex : Executing) ss f o f' b : program_ok ->
  exec_list ex ss f o f' -> enc_list ss b -> short b ->
  exists N, forall n c, (N <= n)%nat -> prepared c ->
  @run_term_list env (grammar n) b (put f c) = ends_with tt o f' c.
Proof. intros Hp He Hb Hs. apply (run_list_ok ss); [by apply exec_all_ok|done..]. Qed.

(** C5: Expressions: parsing any encoding of an expression in an executing method gives
    its value and makes its stores and its calls, which were executed as the statements of
    the called methods say; an error of the evaluation is the error of the parser, at the
    input before the expression; and the arithmetic panics exactly when the evaluation
    does. Nothing of the context changes but the locals, the arguments and the objects
    that are stored to, and the input behind the expression is left. *)
Theorem eval_correct (ex : Executing) ks e b f c : program_ok ->
  performed ex ks -> enc_expr e b -> prepared c -> eval ks e f <> SFail OutOfFuel ->
  method_context c = Some (to_mc f) -> holds (f_memory f) (object_map (namespace c)) ->
  exists N, forall n rest, (N <= n)%nat ->
  @g_term_arg env (grammar n) (b ++ rest, c) =
  match eval ks e f with
  | SOk v f' => SOk (val v) (rest, put f' c)
  | SErr err f' => SErr (PErr err) (b ++ rest, put f' c)
  | SFail r => SFail r
  end.
Proof.
  intros Hp Hks He Hc Hg Hm Hh. apply (proj2 (proj2 (exec_all_ok Hp))) in Hks as [N HN].
  exists (S (N + height e)). intros [|n] rest Hn; [lia|].
  apply (eval_known ks N HN (program_arities Hp)); try done; [lia|].
  unfold given. destruct (eval ks e f); [done..|]. cbn. congruence.
Qed.
End Exec.

(** [TOCK], which calls [TICK] with 0, and with its argument and 1 inside of a sum: from 2,
    a call with 40 gives 42 + 43 and leaves 43 in [VAL_]. *)
Lemma sample_program_ok : @program_ok env_debug (sample_program [] 0).
Proof.
  constructor; [|constructor; [|constructor; [|constructor]]].
  - split; [apply foo_enc|split; reflexivity].
  - split; [apply (tick_enc [] 0)|split; reflexivity].
  - split; [apply (tock_enc [] 0)|split; reflexivity].
Qed.

Lemma tock_prepared : @ready env_debug frame
  (@represents_frame env_debug (sample_program [] 0) (calling (tock_method [] 0))) (sample_running tock).
Proof. apply sample_prepared; [done|right; right; left|set_solver]. Qed.

Definition tock_put : frame -> @AmlContext env_debug -> @AmlContext env_debug :=
  @put env_debug frame (@represents_frame env_debug (sample_program [] 0) (calling (tock_method [] 0))).

Lemma exec_correct_witness : exists N, forall n, (N <= n)%nat ->
  @run_term_list env_debug (@grammar env_debug sample_natives n) tock_body
    (tock_put (call_frame [NInt 40] {[ 0 := NInt 2 ]}) (sample_running tock)) =
  SErr (PReturn (VInteger 85)) (tock_put (call_frame [NInt 40] {[ 0 := NInt 43 ]}) (sample_running tock)).
Proof.
  assert (2 * (40 + 2) + 1 < 2 ^ 64) as Hz by reflexivity.
  assert ([tick] ∉ @nil (list NameSeg)) as Hn by (intros H; inversion H).
  destruct (@exec_correct env_debug sample_natives (sample_program [] 0) (calling (tock_method [] 0)) tock_stmts
    (call_frame [NInt 40] {[ 0 := NInt 2 ]}) (Returned (NInt 85)) (call_frame [NInt 40] {[ 0 := NInt 43 ]})
    tock_body sample_program_ok (tock_exec [] 0 [] 40 2 ltac:(lia) ltac:(lia) Hz Hn) (tock_enc [] 0) eq_refl)
    as [N HN].
  exists N. intros n Hle. exact (HN n (sample_running tock) Hle tock_prepared).
Defined.

(** The sum of [TOCK], in which [TICK] is called with 40 and with 1. *)
Lemma eval_correct_witness : exists N, forall n rest, (N <= n)%nat ->
  @g_term_arg env_debug (@grammar env_debug sample_natives n)
    ([x72; x54; x49; x43; x4b; x68; x54; x49; x43; x4b; x01; x00] ++ rest, sample_running tock) =
  SOk (VInteger 85) (rest, tock_put (call_frame [NInt 40] {[ 0 := NInt 43 ]}) (sample_running tock)).
Proof.
  assert (2 * (40 + 2) + 1 < 2 ^ 64) as Hz by reflexivity.
  assert ([tick] ∉ @nil (list NameSeg)) as Hn by (intros H; inversion H).
  assert (@eval target_debug (sample_program [] 0) (@current_bound (calling (tock_method [] 0))) (tock_calls [] 0 40 2)
    tock_sum (call_frame [NInt 40] {[ 0 := NInt 2 ]}) = SOk (NInt 85) (call_frame [NInt 40] {[ 0 := NInt 43 ]})) as E.
  { by apply (tock_sum_eval [] 0 [] [(0, 2); (40, 2); (1, 42)] 40 2); [..|right; left|right; right; left]. }
  pose proof (@eval_correct env_debug sample_natives (sample_program [] 0) (calling (tock_method [] 0))
    (tock_calls [] 0 40 2) tock_sum _ (call_frame [NInt 40] {[ 0 := NInt 2 ]}) (sample_running tock)
    sample_program_ok (tock_calls_performed [] 0 [] 40 2 ltac:(lia) ltac:(lia) Hz Hn) (tock_sum_enc [] 0)
    tock_prepared) as H.
  change (env_target (AmlEnv := env_debug)) with target_debug in H. rewrite E in H.
  apply H; [discriminate|reflexivity|]. constructor; [reflexivity|constructor].
Defined.
