(* ===== verification/DataCorrect.v ===== *)
(** Data objects: the parsers of data give the encodings of data the values that
    [Declarations.v] says, and put buffers into the store. *)
From S2P Require Import Prelude Types Names Namespace Env RustStd Context Value Parser.
From S2P Require Import PkgLength Opcode NameObject Grammar Expression Statement TermObject.
From S2P Require Import Interp Sample Program Flat Declarations Fuel Denotation First Calculus.
From S2P Require Import EvalCorrect StmtCorrect ExecCorrect.
#[local] Open Scope Z_scope.

#[export] #[program] Instance represents_world {env : AmlEnv} : Represents (world Namespace) := {
  put w c := set_namespace (w_names w) (set_current_scope (abs (w_scope w)) (set_buffers (w_buffers w) c));
  ready := quiet;
  forgives _ := False
}.
Next Obligation. done. Qed.
Next Obligation. done. Qed.

#[export] Instance world_strict {env : AmlEnv} : Strict represents_world.
Proof. intros r []. Qed.

(** * Data *)

Lemma nul_position_end s rest : (x00 ∉ s) -> nul_position (s ++ x00 :: rest) = Some (length s).
Proof.
  induction s as [|b s IH]; cbn [app nul_position length]; [done|].
  intros [Hb Hs]%not_elem_of_cons. rewrite bool_decide_false by done. by rewrite IH.
Qed.

Lemma enc_package_inv body b : enc_package body b -> exists k,
  b = pkg_bytes k (Z.of_nat (Datatypes.S k + length body)) ++ body /\
  pkg_fits k (Z.of_nat (Datatypes.S k + length body)) = true.
Proof. intros []. eauto. Qed.

Section Data.
Context {env : AmlEnv} {natives : UserNatives}.
Abbreviation W := (SE (world Namespace) AmlError).

Lemma never_wrong_build d : never_wrong (build d : W AmlValue).
Proof.
  induction d as [d Hd|count l IH] using data_nested_ind.
  - intros w. destruct d; cbn [build]; try done; [by destruct (utf8_valid s)| |by edestruct Hd].
    by destruct (_ <? _).
  - apply never_wrong_bind; [by apply never_wrong_map|]. intros vs w. by destruct (_ =? _).
Qed.

(** Constants and strings are the second alternative of computational data. *)
Lemma parses_const_data {g : Grammar} {B} (emb : B -> AmlValue) x i rest (s : W B) :
  bool_decide (x ∈ [x12; x5b]) = false -> never_wrong s -> parses emb const_parser (x :: i) rest s ->
  parses emb data_object (x :: i) rest s.
Proof.
  intros Hx%bool_decide_eq_false Hs Hp. apply parses_scope; [done|].
  eapply parses_pass; [apply heads_op_scope|apply bool_decide_eq_false; set_solver|].
  apply parses_take; [done|]. apply parses_scope; [done|].
  eapply parses_pass; [apply heads_map, heads_ext_opcode|apply bool_decide_eq_false; set_solver|].
  by apply parses_take.
Qed.

Lemma parses_integer {g : Grammar} z bs rest : enc_const z bs ->
  parses id data_object (bs ++ rest) rest (se_ret (VInteger z) : W AmlValue).
Proof.
  intros H. assert (exists b i, bs ++ rest = b :: i /\ bool_decide (b ∈ [x12; x5b]) = false)
    as (b & i & E & Hb) by (destruct H; eexists _, _; split; reflexivity).
  rewrite E. apply parses_const_data; [done|done|]. rewrite <-E.
  intros c w Hc _. by rewrite (den_const_ok z).
Qed.

Lemma parses_string {g : Grammar} s rest : (x00 ∉ s) ->
  parses id data_object (STRING_PREFIX :: (s ++ [x00]) ++ rest) rest (build (DString s) : W AmlValue).
Proof.
  intros Hs. apply parses_const_data; [done|apply (never_wrong_build (DString s))|].
  intros c w Hc _. rewrite den_const. change (bool_decide (STRING_PREFIX = BYTE_CONST)) with false.
  change (bool_decide (STRING_PREFIX = WORD_CONST)) with false.
  change (bool_decide (STRING_PREFIX = DWORD_CONST)) with false.
  change (bool_decide (STRING_PREFIX = QWORD_CONST)) with false.
  change (bool_decide (STRING_PREFIX = STRING_PREFIX)) with true. cbv iota.
  rewrite <-app_assoc. cbn [app]. unfold den, string_parser. rewrite nul_position_end by done.
  rewrite take_app_length. cbn [build]. destruct (utf8_valid s); [|done].
  replace (length s + 1)%nat with (Datatypes.S (length s)) by lia.
  by rewrite (drop_app_add _ _ 1) || (rewrite <-(Nat.add_1_r (length s)), drop_app_add).
Qed.

Lemma parses_revision {g : Grammar} rest :
  parses id data_object ([EXT_OPCODE_PREFIX; EXT_REVISION_OP] ++ rest) rest (build DRevision : W AmlValue).
Proof.
  apply parses_scope; [done|]. pass. apply parses_take; [done|]. apply parses_scope; [done|].
  apply parses_take; [done|]. intros c w Hc _. reflexivity.
Qed.

(** An operand that is a constant. *)
Lemma gives_operand n z bs rest : enc_const z bs ->
  gives (@g_term_arg env (grammar (Datatypes.S n))) (bs ++ rest) (VInteger z) rest.
Proof. 
  intros H. assert (exists b i, bs ++ rest = b :: i /\ bool_decide (b ∈ [x12]) = false /\
    bool_decide (b ∈ [x5b]) = false) as (b & i & E & H1 & H2).
  { destruct H; eexists _, _; split_and!; reflexivity. }
  apply gives_scope, gives_take, gives_scope; [done..|]. rewrite E.
  eapply gives_pass; [apply heads_op_scope|done|]. apply gives_take, gives_scope; [done|].
  eapply gives_pass; [apply heads_map, heads_ext_opcode|done|]. apply gives_take.
  rewrite <-E. intros c Hc. by apply den_const_ok.
Qed.

Lemma implements_buffer_contents n size contents :
  implements id (@buffer_contents env (grammar (Datatypes.S n)) contents (VInteger size))
    (if as_usize size <? Z.of_nat (length contents) then se_err MalformedBuffer
     else se_ret (contents ++ replicate (Z.to_nat (as_usize size) - length contents) x00) : W bytes).
Proof.
  intros c w Hc _. unfold buffer_contents. rewrite g_fuel_grammar. unfold se_bind, ctx, se_map_err.
  cbn [as_integer se_ret]. by destruct (_ <? _).
Qed.

Lemma short_snoc i j k : short (i ++ j ++ k) -> short (j ++ k).
Proof. by intros [_ H]%short_app. Qed.

(** The alternatives before the last one of computational data. *)
Lemma parses_buffer n size contents b rest :
  enc_data (DBuffer size contents) b -> short (b ++ rest) ->
  parses id (@data_object env (grammar (Datatypes.S n))) (b ++ rest) rest
    (build (DBuffer size contents) : W AmlValue).
Proof.
  intros H Hs. inversion H as [| | |size' contents' bs b' Hsize Hp|]; subst.
  apply enc_package_inv in Hp as (k & -> & Hk). cbn [app] in *. rewrite <-!app_assoc in *.
  pose proof (never_wrong_build (DBuffer size contents)) as Hw.
  apply parses_scope; [done|]. pass. apply parses_take; [done|].
  apply parses_scope; [done|]. pass. eapply parses_pass; [apply heads_const_parser|done|].
  apply parses_take; [done|]. unfold def_buffer.
  apply short_snoc with (i := [DEF_BUFFER_OP]) in Hs.
  eapply parses_spec; [|eapply (parses_map_ctx id id) with (s' := new_buffer)].
  2: { apply parses_op_scope. eapply feed_gives.
       - eapply gives_then; [rewrite (app_assoc bs); apply gives_pkg_length; [done|by rewrite <-app_assoc]|].
         rewrite <-app_assoc. by apply (gives_operand n size).
       - cbn beta iota. eapply gives_map_ctx; [|apply implements_buffer_contents].
         apply gives_to_end. by do 2 apply short_snoc in Hs. }
  - intros w. cbn [build]. unfold se_bind. by destruct (_ <? _).
  - intros v. by apply (implements_ctx id).
Qed.

(** ** Packages *)

Lemma enc_element_nonempty d b rest : enc_element d b -> (length rest < length (b ++ rest))%nat.
Proof.
  intros [? ? []|r Hr]; cbn [app length]; rewrite ?length_app; try lia.
  - destruct H; cbn [length]; lia.
  - destruct (ref_bytes_head r [] Hr) as (b' & i & E & _). rewrite app_nil_r in E. rewrite E. cbn. lia.
Qed.

(** What the parser of data does with the encodings of [d]. *)
Definition data_ok (d : data) : Prop := forall b n rest,
  enc_data d b -> (data_depth d <= n)%nat -> short (b ++ rest) ->
  parses id (@data_object env (grammar n)) (b ++ rest) rest (build d : W AmlValue).

Lemma parses_data_ref n d b rest : data_ok d -> enc_data d b -> (data_depth d <= n)%nat -> short (b ++ rest) ->
  parses id (@g_data_ref_object env (grammar (Datatypes.S n))) (b ++ rest) rest (build d : W AmlValue).
Proof.
  intros Hd Hb Hn Hs. apply parses_scope; [done|]. apply parses_take; [apply never_wrong_build|]. by apply Hd.
Qed.

Lemma parses_element n d b rest :
  data_ok d -> enc_element d b -> (data_depth d <= n)%nat -> short (b ++ rest) ->
  parses id (@package_element env (grammar (Datatypes.S n))) (b ++ rest) rest (build d : W AmlValue).
Proof.
  intros Hd H. revert Hd. destruct H as [d b Hb|r Hr]; intros Hd Hn Hs.
  - apply parses_take; [apply never_wrong_build|]. by apply parses_data_ref.
  - apply (gives_parses id). destruct (ref_bytes_head r rest Hr) as (x & i & E & Hx).
    assert (heads (@g_data_ref_object env (grammar (Datatypes.S n))) data_heads) as Hh.
    { apply heads_scope; [done|]. apply (heads_choice _ [data_heads]).
      constructor; [apply heads_data_object|constructor]. }
    rewrite E. eapply gives_pass; [exact Hh|by apply (heads_apart x name_heads)|]. rewrite <-E.
    apply gives_take. eapply gives_map; [by apply gives_name|done].
Qed.

Lemma parses_elements n l bs rest acc m x :
  Forall data_ok l -> enc_elements l bs -> (list_max (map data_depth l) <= n)%nat ->
  (length bs <= m)%nat -> short (bs ++ rest) ->
  parses id (parse_while m (MkPkgLength x (Z.of_nat (length rest))) (fun package_contents =>
      let! value := @package_element env (grammar (Datatypes.S n)) in
      se_ret (package_contents ++ [value])) acc)
    (bs ++ rest) rest (let! vs := se_map build l in se_ret (acc ++ vs) : W (list AmlValue)).
Proof.
  intros Hl H. revert acc m. induction H as [|d l b bs Hd Hbs IH]; intros acc m Hn Hm Hs.
  - eapply parses_spec; [|by apply (parses_while_done id)]. intros w. cbn. by rewrite app_nil_r.
  - apply Forall_cons in Hl as [Hok Hl]. rewrite <-app_assoc in *.
    change (list_max _) with (max (data_depth d) (list_max (map data_depth l))) in Hn.
    pose proof (enc_element_nonempty d b (bs ++ rest) Hd) as Hne.
    repeat rewrite length_app in Hne. rewrite length_app in Hm.
    eapply parses_spec; [|eapply (parses_while_step id id) with (i' := bs ++ rest)
      (s := let! v := build d in se_ret (acc ++ [v]))
      (k := fun acc' => let! vs := se_map build l in se_ret (acc' ++ vs));
      [done|repeat rewrite length_app; lia|lia| |]].
    + intros w. cbn [se_map]. unfold se_bind.
      destruct (build d w) as [v w'|e w'|r]; [|done|done]. cbn [se_ret].
      destruct (se_map build l w') as [vs w''|e w''|r]; [|done|done]. cbn. by rewrite <-app_assoc.
    + eapply (parses_feed id id); [apply parses_element; done || lia|]. intros v. by apply (gives_parses id).
    + intros acc'. apply IH; [done|lia|lia|]. by apply short_snoc in Hs.
Qed.

Lemma parses_package n count l b rest :
  Forall data_ok l -> enc_data (DPackage count l) b -> (list_max (map data_depth l) <= n)%nat ->
  short (b ++ rest) ->
  parses id (@data_object env (grammar (Datatypes.S n))) (b ++ rest) rest
    (build (DPackage count l) : W AmlValue).
Proof.
  intros Hl H Hn Hs. inversion H as [| | | |count' l' bs b' Hbs Hp]; subst.
  apply enc_package_inv in Hp as (k & -> & Hk). cbn [app] in *. rewrite <-!app_assoc in *.
  apply parses_scope; [done|]. apply parses_take; [apply (never_wrong_build (DPackage _ _))|].
  apply short_snoc with (i := [DEF_PACKAGE_OP]) in Hs.
  apply parses_op_scope. eapply feed_gives.
  - eapply gives_then; [by apply (gives_pkg_length k (count :: bs))|apply gives_byte].
  - apply short_snoc in Hs. cbn beta iota. cbn [build]. eapply (parses_feed id id).
    + apply short_snoc with (i := [count]) in Hs.
      apply parses_list. eapply parses_spec; [|apply (parses_elements n l bs rest []); try done].
      * intros w. unfold se_bind. by destruct (se_map build l w).
      * rewrite length_app. lia.
    + intros vs. intros c w Hc _. unfold id. by destruct (_ =? _).
Qed.

(** ** All data *)

Lemma parses_data d : data_ok d.
Proof.
  induction d as [d Hd|count l IH] using data_nested_ind; intros b n rest H Hn Hs.
  - destruct d as [z|s| |size contents|count l|r].
    + inversion H. by apply parses_integer.
    + inversion H. by apply parses_string.
    + inversion H. apply parses_revision.
    + destruct n as [|n]; [cbn in Hn; lia|]. by apply parses_buffer.
    + by edestruct Hd.
    + inversion H.
  - destruct n as [|n]; cbn [data_depth] in Hn; [lia|]. apply parses_package; [done|done|lia|done].
Qed.
End Data.
