(* ===== verification/Method.v ===== *)
(** Calling a control method: the structured execution of its body, in a new frame
    with the arguments of the call and the memory of the program, decides what the call
    gives and how the context is left. *)
From S2P Require Import Prelude Types Names Namespace Ordered Env RustStd Context Value Parser.
From S2P Require Import PkgLength Opcode NameObject Grammar Expression Statement TermObject.
From S2P Require Import Interp Sample Flat Program Fuel Denotation First Calculus Memory EvalCorrect.
From S2P Require Import StmtCorrect ExecCorrect.
#[local] Open Scope Z_scope.

(** The context that a call leaves: that of the caller, with the memory of the program. *)
Definition after_call {env : AmlEnv} {prog : Program} (mem : memory) (c : AmlContext) : AmlContext :=
  set_namespace (with_memory mem (namespace c)) c.

Lemma at_call_holds {env : AmlEnv} {prog : Program} mem c : holds mem (object_map (namespace c)) ->
  at_call (method_context c) mem c = c.
Proof. intros H. unfold at_call. rewrite with_memory_holds by done. by destruct c. Qed.

Section Method.
Context {env : AmlEnv} {natives : UserNatives} {prog : Program}.
Context (m : method) (executing : list (list NameSeg)) (actuals : list num) (args : Args).
Context (o : outcome) (mem : memory) (f' : frame) (c : AmlContext).
Hypothesis (Hprog : program_ok) (Hlinked : linked executing (namespace c)) (Hm : m ∈ p_methods).
Hypothesis (Hargs : args_from_list (map val actuals) = Ok args).
Hypothesis (Hholds : holds mem (object_map (namespace c))) (Hquiet : quiet c).
Hypothesis (Hexec : exec_list (called m executing) (m_body m) (call_frame actuals mem) o f').

#[local] Instance running_method : Executing := called m executing.

(** The body of the method, in the contexts in which it is executed. *)
Lemma body_runs : exists N, forall n c', (N <= n)%nat -> prepared c' ->
  @run_term_list env (grammar n) (m_code m) (put (call_frame actuals mem) c') = ends_with tt o f' c'.
Proof.
  assert (@enc_list prog (m_bound m) (m_body m) (m_code m) /\ short (m_code m)) as [Hb Hs].
  { unfold program_ok in Hprog. rewrite Forall_forall in Hprog. by destruct (Hprog m Hm) as (? & ? & _). }
  by apply (run_list_ok (ex := called m executing) (m_body m)); [apply exec_all_ok|..].
Qed.

(** C3: Calling a method of a linked program that is not executing gives the outcome of
    its statements: the value that is returned, 0 when nothing is, or the error; and
    whatever the outcome, the context of the caller is back when the call ends, but for
    the objects that the method and those it calls store to, which hold the memory that
    the execution leaves. *)
Theorem invoke_method_correct : m_path m ∉ executing ->
  exists N, forall n, (N <= n)%nat ->
    invoke n (abs (m_path m)) args c =
    se_lift (call_result o) (after_call (f_memory f') c).
Proof.
  intros Hact. destruct body_runs as [N HN]. exists N. intros n Hn. unfold invoke.
  rewrite <-(at_call_holds mem c) at 1 by done. erewrite invoke_ok; [|done..|]; [by destruct c|].
  intros c' Hc'. by apply HN.
Qed.

(** C35: A method that is called while it is executing gives its result as well, but
    takes the level of the locals of the outer call with it: leaving the outer call
    then fails. *)
Theorem invoke_method_reentered : m_path m ∈ executing -> is_Some (ns_level (namespace c) (m_path m)) ->
  exists N ns', (forall n, (N <= n)%nat ->
      invoke n (abs (m_path m)) args c =
      se_lift (call_result o) (after_call (f_memory f') (set_namespace ns' c))) /\
    remove_level (abs (m_path m)) (with_memory (f_memory f') ns') =
      SErr (LevelDoesNotExist (abs (m_path m))) (with_memory (f_memory f') ns').
Proof.
  intros Hact Hs. pose proof Hlinked as (Hd & _ & Hall). rewrite Forall_forall in Hall.
  destruct (Hall m Hm) as ((h & Hg & _) & _).
  destruct (get_handle_parent _ _ _ Hg) as (p & s & Ep & Hp). rewrite Ep in *.
  destruct (add_level_ok (namespace c) p s LMethodLocals Hp) as (ns1 & E1 & O1 & _ & L1 & V1).
  destruct (remove_level_ok ns1 p s) as (ns2 & E2 & O2 & _ & Hin & Hoff).
  { rewrite L1, decide_True by done. by eexists. }
  destruct body_runs as [N HN]. exists N, ns2. split.
  - intros n Hn. unfold invoke. rewrite <-(at_call_holds mem c) at 1 by done. rewrite <-Ep in *.
    erewrite invoke_between; [|done..| |intros c' Hc'; by apply HN]; [by destruct c|].
    apply (linked_level executing (namespace c)); [done|by eapply add_level_ordered|done| |done].
    intros q Hq. by rewrite L1, decide_False.
  - apply remove_level_missing; [by apply (Hin (p ++ [s]))|].
    change (ns_level (with_memory (f_memory f') ns2) p) with (ns_level ns2 p). destruct (Hoff p) as [-> _].
    + intros Hq%prefix_length. rewrite length_app in Hq. cbn in Hq. lia.
    + rewrite L1, decide_False; [done|]. intros E%(f_equal length).
      rewrite length_app in E. cbn in E. lia.
Qed.
End Method.

(** * The properties on a concrete program *)

Definition sample_idle (executing : option NameSeg) : @AmlContext env_debug :=
  set_namespace (sample_namespace executing) sample_context.
Definition with_sample (v : num) : Namespace -> Namespace := @with_memory (sample_program [] 0) {[ 0 := v ]}.

(** [TOCK] is called with 40, when [VAL_] holds 2. *)
Lemma invoke_method_correct_witness : exists N, forall n, (N <= n)%nat ->
  @invoke env_debug sample_natives n (abs [tock]) (Some (VInteger 40) :: replicate 6 None) (sample_idle None) =
  SOk (VInteger 85) (set_namespace (with_sample (NInt 43) (sample_namespace None)) (sample_idle None)).
Proof.
  assert (2 * (40 + 2) + 1 < 2 ^ 64) as Hz by reflexivity.
  assert ([tick] ∉ @nil (list NameSeg)) as Hn by (intros H; inversion H).
  assert ([tock] ∉ @nil (list NameSeg)) as Hn' by (intros H; inversion H).
  assert (@holds (sample_program [] 0) {[ 0 := NInt 2 ]} (object_map (sample_namespace None))) as Hh
    by (constructor; [reflexivity|constructor]).
  assert (None ∈ [None; Some tick; Some tock]) as Hin by left.
  assert (tock_method [] 0 ∈ @p_methods (sample_program [] 0)) as Hm by (right; right; left).
  pose proof (@invoke_method_correct env_debug sample_natives (sample_program [] 0) (tock_method [] 0) [] [NInt 40]
    _ (Returned (NInt 85)) {[ 0 := NInt 2 ]} (call_frame [NInt 40] {[ 0 := NInt 43 ]}) (sample_idle None)
    sample_program_ok (sample_linked None Hin) Hm eq_refl Hh eq_refl
    (tock_exec [] 0 [] 40 2 ltac:(lia) ltac:(lia) Hz Hn) Hn') as H.
  exact H.
Defined.

(** [TICK] is called with 40 while it is executing. *)
Lemma invoke_method_reentered_witness : exists N ns',
  (forall n, (N <= n)%nat ->
  @invoke env_debug sample_natives n (abs [tick]) (Some (VInteger 40) :: replicate 6 None) (sample_idle (Some tick)) =
  SOk (VInteger 42) (set_namespace (with_sample (NInt 42) ns') (sample_idle (Some tick)))) /\
  remove_level (abs [tick]) (with_sample (NInt 42) ns') =
    SErr (LevelDoesNotExist (abs [tick])) (with_sample (NInt 42) ns').
Proof.
  assert (@holds (sample_program [] 0) {[ 0 := NInt 2 ]} (object_map (sample_namespace (Some tick)))) as Hh
    by (constructor; [reflexivity|constructor]).
  assert (Some tick ∈ [None; Some tick; Some tock]) as Hin by (right; left).
  assert (tick_method [] 0 ∈ @p_methods (sample_program [] 0)) as Hm by (right; left).
  assert ([tick] ∈ [[tick]]) as Ha by left.
  assert (0 <= 40 + 2 < 2 ^ 64) as Hz by (split; [lia|reflexivity]).
  pose proof (@invoke_method_reentered env_debug sample_natives (sample_program [] 0) (tick_method [] 0) [[tick]]
    [NInt 40] _ (Returned (NInt 42)) {[ 0 := NInt 2 ]} (call_frame [NInt 40] {[ 0 := NInt 42 ]})
    (sample_idle (Some tick)) sample_program_ok (sample_linked (Some tick) Hin) Hm eq_refl Hh eq_refl
    (tick_exec [] 0 [[tick]] 40 2 Hz) Ha (mk_is_Some _ _ eq_refl)) as H.
  exact H.
Defined.
