(* ===== verification/TableOps.v ===== *)
(** The computations that a table makes on its context, as computations on a world: the
    names it declares, the blocks it opens and the choice among the terms by their first
    byte; and that no declaration fails with the error that asks for another parser. *)
From S2P Require Import Prelude Types Names Namespace Env RustStd Context Value Parser.
From S2P Require Import PkgLength Opcode NameObject Grammar Expression Statement TermObject.
From S2P Require Import Interp Sample Program Flat Declarations Fuel Denotation First Calculus.
From S2P Require Import EvalCorrect StmtCorrect ExecCorrect DataCorrect.
#[local] Open Scope Z_scope.

(** The parts of a context that holds a world. *)
Ltac in_world :=
  cbn [put represents_world current_scope namespace buffers set_namespace set_current_scope set_buffers
       w_names w_scope w_buffers op_add_value op_add_level tree_ops result_map result_bind].

Section Operations.
Context {env : AmlEnv}.
Abbreviation W := (SE (world Namespace) AmlError).

(** * The computations on the context *)

Lemma implements_resolve r : implements abs (ctx (resolve_here (ref_name r))) (at_ref r : W _).
Proof.
  apply implements_ctx. intros c w Hc _. unfold resolve_here, at_ref, se_bind, se_gets, se_lift. in_world.
  rewrite resolve_ref. by destruct (ref_path r (w_scope w)).
Qed.

Lemma implements_add_value r v :
  implements id (ctx (add_at_current_scope (ref_name r) v)) (declare_value r v : W unit).
Proof.
  apply implements_ctx. intros c w Hc _.
  unfold add_at_current_scope, declare_value, at_ref, add_value_at_resolved_path, on_namespace, on_names,
    se_bind, se_gets, se_lift. in_world. rewrite resolve_ref.
  destruct (ref_path r (w_scope w)) as [p| |]; in_world; [|by destruct c|done].
  by destruct (add_value (abs p) v (w_names w)).
Qed.

(** Opening a block gives the scope that was left. *)
Definition opened (k : block) (r : name_ref) : W (list NameSeg) :=
  let! previous_scope := se_gets w_scope in
  do! open_block k r in
  se_ret previous_scope.

(** What the parser of a block does with its name. *)
Definition block_opener (k : block) (name : AmlName) : SE AmlContext AmlError AmlName :=
  match k with
  | BScope =>
      let! scope := resolve_here name in
      let! previous_scope := enter_scope scope in
      do! on_namespace (add_level scope LScope) in
      se_ret previous_scope
  | BDevice => value_then_level name VDevice LDevice
  | BThermalZone => value_then_level name VThermalZone LThermalZone
  | BProcessor id address len => level_then_value name (VProcessor id address len) LProcessor
  | BPowerResource system_level resource_order =>
      level_then_value name (VPowerResource system_level resource_order) LPowerResource
  end.

Lemma implements_opener k r :
  implements abs (ctx (block_opener k (ref_name r))) (opened k r).
Proof.
  apply implements_ctx. intros c w Hc _. destruct k; unfold opened, open_block, at_ref;
    cbn [block_opener]; unfold value_then_level, level_then_value, resolve_here, enter_scope,
    on_namespace, on_names, se_modify, se_bind, se_gets, se_lift, se_ret; in_world; rewrite resolve_ref;
    (destruct (ref_path r (w_scope w)) as [p| |]; in_world; [|done|done]).
  1: by destruct (add_level _ _ _).
  1-2: destruct (add_value _ _ _); in_world; [|done|done]; by destruct (add_level _ _ _).
  1-2: destruct (add_level _ _ _); in_world; [|done|done]; by destruct (add_value _ _ _).
Qed.

(** * The choice between the terms *)

Lemma ext_wrong {A} op (p : Parser A) b i c : b <> op ->
  discard_result (p_then (ext_opcode op) p) (EXT_OPCODE_PREFIX :: b :: i, c) =
  SErr (PErr WrongParser) (b :: i, c).
Proof.
  intros Hb. unfold ext_opcode, discard_result, p_then, se_bind. by rewrite opcode_ok, opcode_wrong.
Qed.

Lemma pass_ext {A B} (emb : B -> unit) op (p : Parser A) ps b i rest (s : W B) :
  bool_decide (b = op) = false ->
  parses emb (choice ps) (EXT_OPCODE_PREFIX :: b :: i) rest s ->
  parses emb (choice (discard_result (p_then (ext_opcode op) p) :: ps)) (EXT_OPCODE_PREFIX :: b :: i) rest s.
Proof.
  intros Hb%bool_decide_eq_false Hp c w Hc Hg. rewrite <-Hp by done. unfold den.
  by rewrite (choice_skip _ _ _ _ _ (ext_wrong op p b i _ Hb)).
Qed.

Context {g : Grammar}.

(** An alternative of the terms, without the scopes of the comments around it. *)
Lemma parses_none (p : Parser unit) i rest (s : W unit) :
  parses id p i rest s -> parses (fun _ => None) (p_map p (fun _ => Ok (@None AmlValue))) i rest s.
Proof.
  intros Hp. eapply parses_spec; [|eapply (parses_map id _ _ _ _ _ _ (fun _ => tt)); [exact Hp|done]].
  intros w. unfold se_bind. by destruct (s w) as [[]| |].
Qed.

Lemma parses_term (t : Parser (option AmlValue)) i rest (s : W unit) :
  parses (fun _ => None) t i rest s -> parses id (discard_result (comment_scope VbAllScopes t)) i rest s.
Proof.
  intros Hp c w Hc _. rewrite den_discard. unfold se_bind.
  rewrite (parses_scope (fun _ => None) VbAllScopes t i rest s ltac:(done) Hp c w Hc (given_strict _ _)).
  by destruct (s w) as [[]| |].
Qed.

Lemma parses_modifier i rest (s : W unit) :
  never_wrong s -> parses id namespace_modifier i rest s ->
  parses id (discard_result term_object) i rest s.
Proof. intros Hs Hp. apply parses_term. apply parses_take; [done|]. by apply parses_none. Qed.

Lemma parses_named b i rest (s : W unit) :
  bool_decide (b ∈ [x08; x10]) = false -> never_wrong s -> parses id named_obj (b :: i) rest s ->
  parses id (discard_result term_object) (b :: i) rest s.
Proof.
  intros Hb Hs Hp. apply parses_term.
  eapply parses_pass; [apply heads_map, heads_namespace_modifier|done|].
  apply parses_take; [done|]. by apply parses_none.
Qed.
End Operations.

(** The alternatives before the one that the opcode selects. *)
Ltac pass_object := first [pass | apply pass_ext; [reflexivity|]].
Ltac named_object := 
  apply parses_named; [reflexivity|auto|]; apply parses_scope; [done|]; repeat pass_object;
  apply parses_take; [auto|]; (eapply parses_object; [done|first [apply gives_opcode|apply gives_ext_opcode]|]).

(** * No declaration fails with the error that asks for another parser *)

Section NeverWrong.
Context {env : AmlEnv}.
Abbreviation W := (SE (world Namespace) AmlError).

Definition not_wrong {A} (r : result AmlError A) : Prop :=
  match r with Err e => e <> WrongParser | _ => True end.

Lemma never_wrong_of {T A} (r : result AmlError A) : not_wrong r -> never_wrong (se_lift r : SE T AmlError A).
Proof. apply never_wrong_lift. Qed.

Lemma not_wrong_checked w z : not_wrong (checked w z).
Proof. unfold checked. by repeat case_match. Qed.

Lemma not_wrong_bind {A B} (r : result AmlError A) (k : A -> result AmlError B) :
  not_wrong r -> (forall a, not_wrong (k a)) -> not_wrong (result_bind r k).
Proof. intros Hr Hk. destruct r; [apply Hk|done|done]. Qed.

Lemma not_wrong_split p : not_wrong (split_path (abs p)).
Proof. destruct p as [|s p _] using rev_ind; [done|]. by rewrite split_path_abs. Qed.

Lemma not_wrong_get_level ns p : not_wrong (get_level_for_path ns (abs p)).
Proof.
  destruct p as [|s p _] using rev_ind; [done|]. rewrite get_level_for_path_abs.
  by destruct (level_at _ _).
Qed.

Lemma not_wrong_ref_path r scope : not_wrong (ref_path r scope).
Proof. unfold ref_path. destruct (r_anchor r); [done|]. by destruct (_ <=? _)%nat. Qed.

Lemma not_wrong_search r scope ns : not_wrong (search ns (ref_name r) (abs scope)).
Proof.
  destruct (search_rules_apply (ref_name r)) eqn:E.
  - destruct r as [[|[|k]] [|s [|s' segs]]]; try done. unfold search, ref_name.
    cbn [r_anchor r_segs anchor_name replicate app map search_rules_apply is_absolute abs assert_ result_bind].
    change (Root :: map Segment scope) with (abs scope).
    rewrite (search_loop_spec ns s scope) by (unfold abs; cbn; rewrite length_map; lia).
    by destruct (nearest _ _ _) as [[]|].
  - unfold search. rewrite E, resolve_ref. pose proof (not_wrong_ref_path r scope) as H.
    destruct (ref_path r scope) as [p| |]; [|done..]. cbn [result_map result_bind].
    apply not_wrong_bind; [apply not_wrong_get_level|intros [l s]]. by destruct (bt_get _ _).
Qed.

Lemma not_wrong_region space : not_wrong (region_space space).
Proof. unfold region_space. by repeat case_match. Qed.

Lemma never_wrong_names {A} (m : SE Namespace AmlError A) : never_wrong m -> never_wrong (on_names m : W A).
Proof. intros H w. specialize (H (w_names w)). unfold on_names. by destruct (m (w_names w)). Qed.

Lemma never_wrong_write p f : never_wrong (write_level (abs p) f).
Proof.
  apply never_wrong_bind; [apply never_wrong_of, not_wrong_split|]. by intros [].
Qed.

Lemma never_wrong_ok {T A B} (a : A) (k : A -> SE T AmlError B) :
  never_wrong (k a) -> never_wrong (se_bind (se_lift (Ok a)) k).
Proof. by intros H. Qed.

Lemma never_wrong_add_value p v : never_wrong (op_add_value p v : SE Namespace AmlError AmlHandle).
Proof.
  cbn [op_add_value tree_ops]. unfold add_value. rewrite normalize_abs.
  apply never_wrong_bind; [done|intros _]. apply never_wrong_ok. apply never_wrong_bind.
  - apply never_wrong_bind; [done|intros h]. apply never_wrong_bind; [|done].
    apply never_wrong_of, not_wrong_checked.
  - intros h. apply never_wrong_bind.
    + apply never_wrong_bind; [done|intros ns]. apply never_wrong_of, not_wrong_get_level.
    + intros [l s]. apply never_wrong_bind; [apply never_wrong_write|intros _].
      by destruct (bt_get _ _).
Qed.

Lemma never_wrong_add_level p typ : never_wrong (op_add_level p typ : SE Namespace AmlError unit).
Proof.
  cbn [op_add_level tree_ops]. unfold add_level. rewrite normalize_abs.
  apply never_wrong_bind; [done|intros _]. apply never_wrong_ok. case_bool_decide; [done|].
  apply never_wrong_bind.
  - apply never_wrong_bind; [done|intros ns]. apply never_wrong_of, not_wrong_get_level.
  - intros [l s]. destruct (bt_get _ _); [done|]. apply never_wrong_write.
Qed.

Lemma never_wrong_at_ref r : never_wrong (at_ref r : W (list NameSeg)).
Proof. apply never_wrong_bind; [done|intros p]. apply never_wrong_of, not_wrong_ref_path. Qed.

Lemma never_wrong_declare_value r v : never_wrong (declare_value r v : W unit).
Proof.
  apply never_wrong_bind; [apply never_wrong_at_ref|intros p]. apply never_wrong_bind; [|done].
  apply never_wrong_names, never_wrong_add_value.
Qed.

Lemma never_wrong_open_block k r : never_wrong (open_block k r : W unit).
Proof.
  apply never_wrong_bind; [apply never_wrong_at_ref|intros p].
  destruct k; repeat first [done | apply never_wrong_names, never_wrong_add_value
    | apply never_wrong_names, never_wrong_add_level | apply never_wrong_bind; [|intros ?]].
Qed.

Lemma never_wrong_fields region flags fields offset :
  never_wrong (declare_fields region flags offset fields : W unit).
Proof.
  revert offset. induction fields as [|[bits|s bits] fields IH]; intros offset; [done| |];
    cbn [declare_fields];
    repeat first [apply IH | apply never_wrong_declare_value | apply never_wrong_of, not_wrong_checked
      | apply never_wrong_bind; [|intros ?]].
Qed.

Lemma never_wrong_each {T A} (f : A -> SE T AmlError unit) (l : list A) :
  Forall (fun a => never_wrong (f a)) l -> never_wrong (se_each f l).
Proof. induction 1 as [|a l Ha _ IH]; [done|]. by apply never_wrong_bind; [|intros _]. Qed.

Lemma never_wrong_declare d : never_wrong (declare d : W unit).
Proof.
  induction d as [d Hd|k r body IH] using decl_nested_ind.
  - destruct d as [r d|k r body| | | |r space offset length|region flags fields]; cbn [declare];
      try apply never_wrong_declare_value; try done.
    + apply never_wrong_bind; [apply never_wrong_build|intros v]. apply never_wrong_declare_value.
    + by edestruct Hd.
    + apply never_wrong_bind; [apply never_wrong_of, not_wrong_region|intros region].
      apply never_wrong_bind; [|intros owner; apply never_wrong_declare_value].
      destruct region; try done; (apply never_wrong_bind; [apply never_wrong_at_ref|by intros []]).
    + apply never_wrong_bind; [done|intros scope]. apply never_wrong_bind; [done|intros ns].
      apply never_wrong_bind; [|intros h; apply never_wrong_fields]. apply never_wrong_of.
      cbn. pose proof (not_wrong_search region scope ns) as H. by destruct (search _ _ _).
  - cbn [declare]. apply never_wrong_bind; [done|intros p].
    apply never_wrong_bind; [apply never_wrong_open_block|intros _].
    apply never_wrong_bind; [by apply never_wrong_each|done].
Qed.
End NeverWrong.
