(* ===== verification/TableCorrect.v ===== *)
(** Parsing a table gives its declarations their meaning: [parse_table] on an encoding
    of declarations changes the namespace, the scope and the buffers as
    [Declarations.v] says, on the flat maps of [Flat.v], errors and panics included. *)
From S2P Require Import Prelude Types Names Namespace Env RustStd Context Value Parser.
From S2P Require Import PkgLength Opcode NameObject Grammar Expression Statement TermObject.
From S2P Require Import Interp Sample Program Flat Declarations Fuel Denotation First Calculus.
From S2P Require Import EvalCorrect StmtCorrect ExecCorrect DataCorrect TableOps.
#[local] Open Scope Z_scope.

(** * Declarations *)

Section Declarations.
Context {env : AmlEnv} {natives : UserNatives}.
Abbreviation W := (SE (world Namespace) AmlError).

Lemma gives_then_parses {A B C} (p : Parser A) (q : Parser B) i a j rest (emb : C -> B) (s : W C) :
  gives p i a j -> parses emb q j rest s -> parses (fun c => (a, emb c)) (p_then p q) i rest s.
Proof.
  intros Hp Hq c w Hc _. rewrite den_then. unfold se_bind. rewrite Hp by by apply put_quiet.
  rewrite Hq by (done || apply given_strict). by destruct (s w).
Qed.

Lemma parses_then_gives {A B C} (p : Parser A) (q : Parser B) i b j rest (emb : C -> A) (s : W C) :
  parses emb p i j s -> gives q j b rest -> parses (fun c => (emb c, b)) (p_then p q) i rest s.
Proof.
  intros Hp Hq c w Hc _. rewrite den_then. unfold se_bind. rewrite Hp by (done || apply given_strict).
  destruct (s w) as [a w'| |]; [|done|done]. by rewrite Hq by by apply put_quiet.
Qed.

Lemma parses_discard {A B} (emb : B -> A) p i rest (s : W B) :
  parses emb p i rest s -> parses id (discard_result p) i rest (do! s in se_ret tt).
Proof.
  intros Hp c w Hc _. rewrite den_discard. unfold se_bind. rewrite Hp by (done || apply given_strict). by destruct (s w).
Qed.

(** What the parser of terms does with the encodings of [d]. *)
Definition decl_ok (d : decl) : Prop := forall b n rest,
  enc_decl (length rest) d b -> (decl_depth d <= n)%nat -> short (b ++ rest) ->
  parses id (discard_result (@term_object env (grammar n))) (b ++ rest) rest (declare d : W unit).

Lemma name_ok r d : decl_ok (DefName r d).
Proof.
  intros b n rest H Hn Hs. inversion H as [after r' d' bd Hr Hd| | | | | |]; subst.
  destruct n as [|n]; cbn [decl_depth] in Hn; [lia|]. cbn [app] in *. rewrite <-!app_assoc in *.
  pose proof (never_wrong_declare (DefName r d)) as Hw.
  apply parses_modifier; [done|]. apply parses_take; [done|].
  eapply (parses_object (fun _ => tt)); [done|apply gives_opcode|].
  eapply (parses_map_ctx (fun v => (ref_name r, v)) (fun _ => tt)).
  - eapply (gives_then_parses _ _ _ _ _ _ id); [by apply gives_name|].
    apply parses_data_ref; [apply parses_data|done|lia|].
    by apply short_snoc with (i := DEF_NAME_OP :: ref_bytes r) in Hs.
  - intros v c w Hc _. rewrite (implements_add_value r v c w Hc (given_strict _ _)). by destruct (declare_value r v w) as [[] ?| |].
Qed.

Lemma method_ok r flags code : decl_ok (DefMethod r flags code).
Proof.
  intros b n rest H Hn Hs. inversion H as [| |after r' fl co bp Hr Hp| | | |]; subst.
  apply enc_package_inv in Hp as (k & -> & Hk). cbn [app] in *. rewrite <-!app_assoc in *.
  apply short_snoc with (i := [DEF_METHOD_OP]) in Hs.
  pose proof (never_wrong_declare (DefMethod r flags code)) as Hw. named_object.
  eapply (gives_map_ctx id _ (ref_name r, flags, code)); [|apply implements_add_value].
  eapply gives_feed.
  - eapply gives_then; [eapply gives_then|apply gives_byte].
    + rewrite (app_assoc (ref_bytes r)). apply gives_pkg_length; [done|by rewrite <-app_assoc].
    + rewrite <-app_assoc. by apply gives_name.
  - eapply gives_map; [|done]. apply gives_to_end.
    do 2 apply short_snoc in Hs. by apply short_snoc with (i := [flags]) in Hs.
Qed.

Lemma mutex_ok r sync_level : decl_ok (DefMutex r sync_level).
Proof.
  intros b n rest H Hn Hs. inversion H as [| | |after r' sl Hr| | |]; subst.
  cbn [app] in *. rewrite <-!app_assoc in *.
  pose proof (never_wrong_declare (DefMutex r sync_level)) as Hw. named_object.
  eapply (gives_map_ctx id _ (ref_name r, sync_level)); [|apply implements_add_value].
  eapply gives_then; [by apply gives_name|apply gives_byte].
Qed.

Lemma external_ok r type count : decl_ok (DefExternal r type count).
Proof.
  intros b n rest H Hn Hs. inversion H as [| | | |after r' ty co Hr| |]; subst.
  cbn [app] in *. rewrite <-!app_assoc in *.
  pose proof (never_wrong_declare (DefExternal r type count)) as Hw. named_object.
  apply (gives_parses (fun _ => (ref_name r, type, count)) _ _ tt).
  eapply gives_then; [eapply gives_then; [by apply gives_name|]|]; apply gives_byte.
Qed.

Lemma op_region_ok r space offset length_ : decl_ok (DefOpRegion r space offset length_).
Proof.
  intros b n rest H Hn Hs. inversion H as [| | | | |after r' sp o l bo bl Hr Ho Hl|]; subst.
  destruct n as [|n]; cbn [decl_depth] in Hn; [lia|].
  cbn [app] in *. rewrite <-!app_assoc in *. cbn [app].
  pose proof (never_wrong_declare (DefOpRegion r space offset length_)) as Hw. named_object.
  eapply (gives_map_ctx id _ (ref_name r, space, VInteger offset, VInteger length_)).
  - eapply gives_then; [eapply gives_then; [eapply gives_then; [by apply gives_name|apply gives_byte]|]|].
    + rewrite <-app_assoc. by apply gives_operand.
    + by apply gives_operand.
  - cbn beta iota. rewrite g_fuel_grammar. cbn [declare].
    eapply (implements_ctx_bind id); [by apply implements_ctx; intros; destruct (region_space space)|].
    intros region. cbn [as_integer].
    eapply implements_eq with (m' := ctx (let! parent_device := region_parent region (ref_name r) in
      add_at_current_scope (ref_name r) (VOpRegion region offset length_ parent_device))); [done|].
    eapply (implements_ctx_bind id); [|intros owner; apply implements_add_value].
    destruct region; try (by apply (implements_ctx id)); cbn [region_parent region_owner];
      (eapply (implements_ctx_bind abs); [apply implements_resolve|]; intros p;
       apply (implements_ctx id); intros c w Hc _; unfold se_bind, se_lift; rewrite parent_abs; by destruct p).
Qed.

(** ** Lists of declarations *)

Lemma enc_decl_nonempty after d b (rest : bytes) : enc_decl after d b -> (length rest < length (b ++ rest))%nat.
Proof.
  intros H. rewrite length_app. enough (0 < length b)%nat by lia.
  destruct H as [| |after k r body bs b| | | |]; cbn [app List.length]; try lia.
  destruct k; cbn; lia.
Qed.

Lemma parses_decl_list n x ds bs (rest : bytes) m :
  Forall decl_ok ds -> enc_decls (length rest) ds bs -> (list_max (map decl_depth ds) <= n)%nat ->
  (length bs <= m)%nat -> short (bs ++ rest) ->
  parses id (parse_while m (MkPkgLength x (Z.of_nat (length rest)))
      (fun _ => discard_result (@term_object env (grammar n))) tt)
    (bs ++ rest) rest (se_each declare ds : W unit).
Proof.
  intros Hok H. revert bs H m. induction Hok as [|d ds Hd _ IH]; intros bs H m Hn Hm Hs.
  { inversion H; subst. by apply (parses_while_done id). }
  inversion H as [|after d' ds' b bs' Hb Hbs]; subst. rewrite <-app_assoc in *.
  change (list_max _) with (max (decl_depth d) (list_max (map decl_depth ds))) in Hn.
  pose proof (enc_decl_nonempty _ d b (bs' ++ rest) Hb) as Hne.
  repeat rewrite length_app in Hne. rewrite length_app in Hm.
  eapply (parses_while_step id id); [done|repeat rewrite length_app; lia|lia| |].
  - apply Hd; [by rewrite length_app|lia|done].
  - intros []. apply IH; [done|lia|lia|]. by apply short_snoc in Hs.
Qed.

(** ** Blocks *)

Lemma implements_opened len k r :
  implements (fun previous_scope => (len, abs previous_scope))
    (ctx (let! previous_scope := block_opener k (ref_name r) in se_ret (len : PkgLength, previous_scope)))
    (opened k r).
Proof.
  eapply implements_spec; [|eapply (implements_ctx_bind abs); [apply implements_opener|]].
  2: { intros p. by apply (implements_ctx (fun p => (len, abs p)) _ (se_ret p)). }
  intros w. unfold se_bind. by destruct (opened k r w).
Qed.

Lemma parses_in_scope {g : Grammar} len header i j rest (o : W (list NameSeg)) (s : W unit) :
  parses (fun previous_scope => (len, abs previous_scope)) header i j o ->
  parses id (term_list len) j rest s ->
  parses id (in_scope header) i rest
    (let! previous_scope := o in do! s in se_modify (set_scope previous_scope)).
Proof.
  intros Ho Hs. unfold in_scope.
  eapply parses_spec; [|eapply (parses_map_ctx abs id) with
    (s := let! previous_scope := o in do! s in se_ret previous_scope)
    (s' := fun previous_scope => se_modify (set_scope previous_scope))].
  - intros w. unfold se_bind. destruct (o w) as [p w'|e w'|r]; [|done|done]. by destruct (s w').
  - eapply parses_feed; [exact Ho|]. intros p. cbn beta iota.
    eapply (parses_map id abs _ _ _ _ s (fun _ => p)); [exact Hs|done].
  - done.
Qed.

(** The header of a block: the length, the name and the fields. *)
Definition block_header {g : Grammar} (k : block) : Parser (PkgLength * AmlName) :=
  match k with
  | BScope | BDevice | BThermalZone =>
      map_with_context (p_then pkg_length name_string) (fun '(length, name) => ctx (
        let! previous_scope := block_opener k name in se_ret (length, previous_scope)))
  | BProcessor _ _ _ =>
      map_with_context
        (p_then (p_then (p_then (p_then pkg_length name_string) p_take) take_u32) p_take)
        (fun '((((pkg_length, name), proc_id), pblk_address), pblk_len) => ctx (
           let! previous_scope := block_opener (BProcessor proc_id pblk_address pblk_len) name in
           se_ret (pkg_length, previous_scope)))
  | BPowerResource _ _ =>
      map_with_context
        (p_then (p_then (p_then pkg_length name_string) p_take) take_u16)
        (fun '(((pkg_length, name), system_level), resource_order) => ctx (
           let! previous_scope := block_opener (BPowerResource system_level resource_order) name in
           se_ret (pkg_length, previous_scope)))
  end.

Lemma parses_header {g : Grammar} k j r bs rest :
  let body := ref_bytes r ++ block_fields k ++ bs in
  let n := Z.of_nat (Datatypes.S j + length body) in
  ref_ok r = true -> block_ok k -> pkg_fits j n = true ->
  short (pkg_bytes j n ++ body ++ rest) ->
  parses (fun previous_scope => (MkPkgLength n (Z.of_nat (length rest)), abs previous_scope))
    (block_header k) (pkg_bytes j n ++ body ++ rest) (bs ++ rest) (opened k r).
Proof.
  intros body n Hr Hk Hj Hs. pose proof (gives_pkg_length (env := env) j body rest Hj Hs) as Hp.
  fold n in Hp. unfold body in Hp at 2. rewrite <-!app_assoc in Hp.
  assert (gives (p_then pkg_length name_string) (pkg_bytes j n ++ body ++ rest)
    (MkPkgLength n (Z.of_nat (length rest)), ref_name r) (block_fields k ++ bs ++ rest)) as Hh.
  { eapply gives_then; [exact Hp|]. by apply gives_name. }
  destruct k; cbn [block_header block_fields app] in *.
  1-3: eapply gives_map_ctx; [exact Hh|]; apply implements_opened.
  - eapply gives_map_ctx.
    + eapply gives_then; [|apply gives_byte]. eapply gives_then; [eapply gives_then; [exact Hh|apply gives_byte]|].
      rewrite <-!app_assoc. by apply gives_le.
    + apply (implements_opened _ (BProcessor id address len)).
  - eapply gives_map_ctx.
    + eapply gives_then; [eapply gives_then; [exact Hh|apply gives_byte]|]. by apply gives_le.
    + apply (implements_opened _ (BPowerResource system_level resource_order)).
Qed.

Lemma parses_eq {A B} (emb : B -> A) p p' i rest (s : W B) :
  (forall x, p x = p' x) -> parses emb p' i rest s -> parses emb p i rest s.
Proof. intros E H c w Hc Hg. rewrite <-(H c w Hc Hg). unfold den. by rewrite E. Qed.

(** The inside of a block. *)
Lemma parses_block n k r body j bs rest :
  let contents := ref_bytes r ++ block_fields k ++ bs in
  let len := Z.of_nat (Datatypes.S j + length contents) in
  Forall decl_ok body -> ref_ok r = true -> block_ok k -> enc_decls (length rest) body bs ->
  pkg_fits j len = true -> (list_max (map decl_depth body) <= n)%nat ->
  short (pkg_bytes j len ++ contents ++ rest) ->
  forall header : Parser (PkgLength * AmlName),
  (forall x, header x = @block_header (grammar (Datatypes.S n)) k x) ->
  parses id (@in_scope env (grammar (Datatypes.S n)) header) (pkg_bytes j len ++ contents ++ rest) rest
    (declare (DefBlock k r body) : W unit).
Proof.
  intros contents len Hok Hr Hk Hbs Hj Hn Hs header Hh.
  eapply parses_spec; [|eapply parses_in_scope; [eapply parses_eq; [exact Hh|by apply parses_header]|]].
  2: { apply parses_list. apply (parses_decl_list n _ body); try done; [rewrite length_app; lia|].
       unfold contents in Hs. rewrite <-!app_assoc in Hs. by do 3 apply short_snoc in Hs. }
  intros w. cbn [declare]. unfold opened, se_bind, se_gets. by destruct (open_block k r w).
Qed.

Lemma def_block_ok k r body : Forall decl_ok body -> decl_ok (DefBlock k r body).
Proof.
  intros Hok b n rest H Hn Hs. inversion H as [|after k' r' body' bs bp Hr Hk Hbs Hp| | | | |]; subst.
  apply enc_package_inv in Hp as (j & -> & Hj). destruct n as [|n]; cbn [decl_depth] in Hn; [lia|].
  rewrite <-(app_assoc (block_op k)), <-(app_assoc (pkg_bytes _ _)) in *.
  pose proof (parses_block n k r body j bs rest Hok Hr Hk Hbs Hj ltac:(lia) (short_snoc _ _ _ Hs)) as Hb.
  pose proof (never_wrong_declare (DefBlock k r body)) as Hw. destruct k; cbn [block_op app].
  2-5: named_object; by apply Hb.
  apply parses_modifier; [done|]. pass. apply parses_take; [done|].
  eapply parses_object; [done|apply gives_opcode|]. apply Hb. intros [i c].
  cbn [block_header block_opener]. unfold map_with_context.
  destruct (p_then pkg_length name_string (i, c)) as [[len name] [i' c']|e s|]; [|done|done].
  unfold ctx, se_map_err, se_bind. destruct (resolve_here name c') as [a c1| |]; [|done|done].
  destruct (enter_scope a c1) as [p c2| |]; [|done|done].
  by destruct (on_namespace (add_level a LScope) c2).
Qed.

(** ** Fields *)

Lemma gives_field_length k bits rest : field_fits k bits (length rest) = true ->
  short (pkg_bytes k bits ++ rest) -> exists e,
  gives pkg_length (pkg_bytes k bits ++ rest) (MkPkgLength bits e) rest.
Proof.
  intros [Hf Hb%Z.leb_le]%andb_prop Hs. exists (Z.of_nat (Datatypes.S k + length rest) - bits).
  intros c Hc. unfold den, pkg_length. unfold short in Hs. rewrite length_app, pkg_bytes_length in Hs.
  rewrite raw_pkg_length_encode by (done || lia).
  unfold from_raw_length. rewrite len32_small by (rewrite length_app, pkg_bytes_length; lia).
  rewrite length_app, pkg_bytes_length, (proj2 (Z.ltb_ge _ _)) by lia. done.
Qed.

(** The offset behind the fields, which the loop carries. *)
Fixpoint fields_end (region : AmlHandle) (flags : FieldFlags) (offset : Z) (fields : list field_decl) : W Z :=
  match fields with
  | [] => se_ret offset
  | FReserved bits :: fields =>
      let! offset := se_lift (add_w 64 offset bits) in fields_end region flags offset fields
  | FNamed s bits :: fields =>
      do! declare_value (MkRef (Up 0) [s]) (VField region flags offset bits) in
      let! offset := se_lift (add_w 64 offset bits) in fields_end region flags offset fields
  end.

Lemma fields_end_spec region flags offset fields w :
  (do! fields_end region flags offset fields in se_ret tt) w = declare_fields region flags offset fields w.
Proof.
  revert offset w. unfold se_bind.
  induction fields as [|[bits|s bits] fields IH]; intros offset w; [done| |];
    cbn [fields_end declare_fields]; unfold se_bind, se_lift.
  - destruct (add_w 64 offset bits); [apply IH|done|done].
  - destruct (declare_value _ _ w) as [u w'| |]; [|done|done].
    destruct (add_w 64 offset bits); [apply IH|done|done].
Qed.

Lemma implements_offset {A} rest offset bits (p : Parser Z) i (s : W A) :
  parses (fun _ => bits) p i rest s ->
  parses id (let! field_length := p in on_context (se_lift (add_w 64 offset field_length))) i rest
    (do! s in se_lift (add_w 64 offset bits)).
Proof.
  intros Hp c w Hc _. rewrite den_bind. unfold se_bind. rewrite Hp by (done || apply given_strict).
  destruct (s w) as [a w'| |]; [|done|done]. unfold den, on_context, se_lift, add_w, checked.
  destruct (_ && _); [done|]. by destruct overflow_checks.
Qed.

Lemma seg_bytes_length s : length (seg_as_str s) = 4%nat.
Proof. done. Qed.

(** One element of a list of fields. *)
Definition field_body (region : AmlHandle) (flags : byte) (offset : Z) : Parser Z :=
  let! field_length := field_element region (MkFieldFlags flags) offset in
  on_context (se_lift (add_w 64 offset field_length)).

Lemma parses_reserved region flags offset k bits rest :
  field_fits k bits (length rest) = true -> short (pkg_bytes k bits ++ rest) ->
  parses id (field_body region flags offset) (RESERVED_FIELD :: pkg_bytes k bits ++ rest) rest
    (se_lift (add_w 64 offset bits) : W Z).
Proof.
  intros Hf Hs. destruct (gives_field_length k bits rest Hf Hs) as [e He].
  apply (implements_offset rest offset bits _ _ (se_ret tt)). apply (gives_parses (fun _ => bits) _ _ tt).
  apply gives_take. eapply gives_map; [eapply gives_then; [apply gives_opcode|exact He]|done].
Qed.

(** The reserved fields are passed over for a name. *)
Lemma den_named_field region flags offset s i c : seg_ok s = true -> quiet c ->
  den (field_element region flags offset) (seg_as_str s ++ i) c =
  den (choice [named_field region flags offset]) (seg_as_str s ++ i) c.
Proof.
  intros Hs Hc. destruct (seg_bytes_head s i Hs) as (b & j & E & Hb). rewrite E.
  apply den_pass with (bs := [RESERVED_FIELD]); [apply heads_map, heads_then, heads_opcode|done|].
  destruct b; done.
Qed.

Lemma parses_named_field region flags offset k s bits rest : seg_ok s = true ->
  field_fits k bits (length rest) = true -> short (pkg_bytes k bits ++ rest) ->
  parses (fun _ => bits) (field_element region flags offset) (seg_as_str s ++ pkg_bytes k bits ++ rest) rest
    (declare_value (MkRef (Up 0) [s]) (VField region flags offset bits) : W unit).
Proof.
  intros Hs Hf Hsh. destruct (gives_field_length k bits rest Hf Hsh) as [e He].
  intros c w Hc Hg. rewrite den_named_field by (done || by apply put_quiet). revert c w Hc Hg.
  apply parses_take; [apply never_wrong_declare_value|].
  eapply gives_map_ctx; [eapply gives_then; [|exact He]|].
  - intros c Hc. unfold den. by rewrite name_seg_ok.
  - eapply implements_spec with (s := do! declare_value (MkRef (Up 0) [s])
      (VField region flags offset bits) in se_ret tt).
    { intros w. unfold se_bind. by destruct (declare_value _ _ w) as [[] ?| |]. }
    eapply (implements_ctx_bind id); [apply (implements_add_value (MkRef (Up 0) [s]))|]. intros u.
    by apply (implements_ctx (fun _ => bits)).
Qed.

Lemma parses_field region flags offset k s bits rest : seg_ok s = true ->
  field_fits k bits (length rest) = true -> short (pkg_bytes k bits ++ rest) ->
  parses id (field_body region flags offset) (seg_as_str s ++ pkg_bytes k bits ++ rest) rest
    (do! declare_value (MkRef (Up 0) [s]) (VField region (MkFieldFlags flags) offset bits) in
     se_lift (add_w 64 offset bits) : W Z).
Proof. intros. by apply implements_offset, parses_named_field. Qed.

Lemma parses_fields region flags fields bs x offset (rest : bytes) m :
  enc_fields (length rest) fields bs -> (length bs <= m)%nat -> short (bs ++ rest) ->
  parses id (parse_while m (MkPkgLength x (Z.of_nat (length rest))) (field_body region flags) offset)
    (bs ++ rest) rest (fields_end region (MkFieldFlags flags) offset fields).
Proof.
  intros H. revert offset m. induction H as [|k bits l b Hf _ IH|k s bits l b Hseg Hf _ IH];
    intros offset m Hm Hs; [by apply (parses_while_done id)| |]; rewrite <-length_app in Hf.
  - change ((RESERVED_FIELD :: pkg_bytes k bits ++ b) ++ rest) with
      ([RESERVED_FIELD] ++ (pkg_bytes k bits ++ b) ++ rest) in *. rewrite <-app_assoc in *.
    cbn [length] in Hm. rewrite length_app in Hm.
    pose proof (short_snoc _ _ _ Hs) as Hs1. pose proof (short_snoc _ _ _ Hs1) as Hs2.
    eapply (parses_while_step id id); [done|cbn; repeat rewrite length_app; lia|lia|by apply parses_reserved|].
    intros o. apply IH; [lia|done].
  - rewrite <-!app_assoc in *. rewrite !length_app, seg_bytes_length in Hm.
    pose proof (short_snoc _ _ _ Hs) as Hs1. pose proof (short_snoc _ _ _ Hs1) as Hs2.
    eapply parses_spec; [|eapply (parses_while_step id id); [done| |lia|by apply parses_field|]].
    + intros w. cbn [fields_end]. unfold se_bind. by destruct (declare_value _ _ w).
    + repeat rewrite length_app. rewrite seg_bytes_length. lia.
    + intros o. apply IH; [lia|done].
Qed.

Lemma implements_region region :
  implements id
    (ctx (let! scope := se_gets current_scope in
          let! (_, handle) := in_namespace (fun ns => search ns (ref_name region) scope) in
          se_ret handle))
    (let! scope := se_gets w_scope in let! names := se_gets w_names in
     se_lift (op_search region scope names) : W AmlHandle).
Proof.
  apply implements_ctx. intros c w Hc _. unfold in_namespace, se_bind, se_gets, se_lift. in_world.
  cbn [op_search tree_ops]. by destruct (search _ _ _) as [[]| |].
Qed.

Lemma def_field_ok region flags fields : decl_ok (DefField region flags fields).
Proof.
  intros b n rest H Hn Hs. inversion H as [| | | | | |after r' fl fs bs bp Hr Hf Hp]; subst.
  apply enc_package_inv in Hp as (k & -> & Hk). cbn [app] in *. rewrite <-!app_assoc in *.
  apply short_snoc with (i := [EXT_OPCODE_PREFIX; EXT_DEF_FIELD_OP]) in Hs.
  pose proof (never_wrong_declare (DefField region flags fields)) as Hw. named_object.
  pose proof (short_snoc _ _ _ Hs) as Hs1. pose proof (short_snoc _ _ _ Hs1) as Hs2.
  apply short_snoc with (i := [flags]) in Hs2. set (len := Z.of_nat _) in *.
  eapply parses_spec; [|eapply (parses_feed (fun h : AmlHandle =>
      (MkPkgLength len (Z.of_nat (length rest)), h, flags)) id)
    with (s := let! scope := se_gets w_scope in let! names := se_gets w_names in
               se_lift (op_search region scope names) : W AmlHandle)
         (k := fun h => do! fields_end h (MkFieldFlags flags) 0 fields in se_ret tt)].
  - intros w. cbn [declare]. unfold se_bind, se_gets, se_lift.
    destruct (op_search region (w_scope w) (w_names w)) as [h| |]; [|done|done].
    exact (fields_end_spec h (MkFieldFlags flags) 0 fields w).
  - eapply (parses_then_gives _ _ _ _ _ _ (fun h => (_, h))); [|apply gives_byte].
    eapply (gives_then_parses _ _ _ _ _ _ id).
    + rewrite (app_assoc (ref_bytes region)). apply gives_pkg_length; [done|by rewrite <-app_assoc].
    + rewrite <-app_assoc. eapply gives_map_ctx; [by apply gives_name|]. apply implements_region.
  - intros h. cbn beta iota. eapply (parses_discard id). apply parses_list. apply parses_fields; [done| |done].
    rewrite length_app. lia.
Qed.

(** ** All declarations *)

Lemma parses_decl d : decl_ok d.
Proof.
  induction d as [d Hd|k r body IH] using decl_nested_ind; [|by apply def_block_ok].
  destruct d as [r d|k r body|r flags code|r sync_level|r type count|r space offset len|region flags fields].
  - apply name_ok.
  - by edestruct Hd.
  - apply method_ok.
  - apply mutex_ok.
  - apply external_ok.
  - apply op_region_ok.
  - apply def_field_ok.
Qed.

(** How deeply the parsers of a table call themselves. *)
Definition table_depth (ds : list decl) : nat := list_max (map decl_depth ds).

(** Running a table on a context, as declarations on its world. *)
Lemma run_table n ds b c w : enc_decls 0 ds b -> (table_depth ds < n)%nat -> short b -> quiet c ->
  @run_term_list env (grammar n) b (put w c) =
  match declare_all ds w with
  | SOk _ w' => SOk tt (put w' c)
  | SErr e w' => SErr (PErr e) (put w' c)
  | SFail r => SFail r
  end.
Proof.
  intros Hb Hn Hs Hc. destruct n as [|n]; [lia|]. rewrite run_code_list.
  assert (Forall decl_ok ds) as Hok by by (apply Forall_forall; intros; apply parses_decl).
  pose proof (parses_decl_list n 0 ds b [] (length b) Hok Hb) as H. rewrite app_nil_r in H.
  specialize (H ltac:(unfold table_depth in Hn; lia) ltac:(lia) Hs c w Hc (given_strict _ _)).
  change (MkPkgLength 0 (Z.of_nat (length []))) with whole in H. unfold den in H. unfold run_on.
  unfold declare_all. destruct (parse_while _ _ _ _ _) as [u [i c']|e [i c']|r], (se_each declare ds w);
    try done; [injection H as _ _ ->; by destruct u|by injection H as -> ->|by injection H as ->].
Qed.

(** Parsing a table on a context that holds a world. *)
Lemma parse_table_world ds b n c w :
  enc_decls 0 ds b -> ds <> [] -> (table_depth ds < n)%nat -> short b -> quiet c ->
  parse_table n b (put w c) =
  match declare_all ds w with
  | SOk _ w' => SOk tt (put w' c)
  | SErr e w' => SErr e (put w' c)
  | SFail r => SFail r
  end.
Proof.
  intros Hb Hne Hn Hs Hc. unfold parse_table. destruct b as [|x b].
  - inversion Hb as [|after d ds' b1 b2 Hd]; subst; [done|].
    pose proof (enc_decl_nonempty _ _ _ [] Hd) as Hl. destruct b1; [cbn in Hl; lia|done].
  - rewrite (run_table n ds) by done. by destruct (declare_all ds _).
Qed.

(** A context holds its own namespace, scope and buffers. *)
Lemma put_own c p : current_scope c = abs p -> put (MkWorld (namespace c) p (buffers c)) c = c.
Proof. intros Hp. destruct c. cbn in *. by rewrite Hp. Qed.

(** From the world of the tree to that of the flat maps. *)
Lemma world_refines ds c p m :
  current_scope c = abs p -> models (namespace c) m ->
  match declare_all ds (MkWorld m p (buffers c)) with
  | SOk _ w => exists ns, models ns (w_names w) /\
      declare_all ds (MkWorld (namespace c) p (buffers c)) = SOk tt (MkWorld ns p (w_buffers w))
  | SErr e w => exists ns, models ns (w_names w) /\
      declare_all ds (MkWorld (namespace c) p (buffers c)) = SErr e (MkWorld ns (w_scope w) (w_buffers w))
  | SFail r => declare_all ds (MkWorld (namespace c) p (buffers c)) = SFail r
  end.
Proof.
  intros Hp Hm.
  pose proof (sim_declare_all (R := models) ds (MkWorld (namespace c) p (buffers c)) (MkWorld m p (buffers c))) as H.
  specialize (H ltac:(by split_and!)).
  pose proof (scope_declare_all (N := Namespace) ds (MkWorld (namespace c) p (buffers c))) as E.
  destruct (declare_all ds (MkWorld (namespace c) p (buffers c))) as [[] [ns q bufs]|e [ns q bufs]|r],
    (declare_all ds (MkWorld m p (buffers c))) as [[] w'|e' w'|r']; try done; cbn in *.
  - destruct H as (_ & Hn & Hq & <-). exists ns. by subst.
  - destruct H as (-> & Hn & <- & <-). by exists ns.
  - by subst.
Qed.

(** C2: Tables: parsing an encoding of declarations, in a context whose namespace
    corresponds to flat maps, ends as the declarations do on these maps: on success the
    namespace corresponds to the maps that they give, the scope is the one before, and
    the buffers of their data are in the store; on a failure the error is that of the
    declarations, and what was declared before it stays, with the scope of the failure;
    and the parser panics only when the declarations do. Nothing else of the context
    changes. *)
Theorem parse_table_correct (ds : list decl) (b : bytes) (n : nat) (c : AmlContext) (p : list NameSeg) (m : flat) :
  enc_decls 0 ds b -> ds <> [] -> (table_depth ds < n)%nat -> short b -> quiet c ->
  current_scope c = abs p -> models (namespace c) m ->
  match declare_all ds (MkWorld m p (buffers c)) with
  | SOk _ w => exists ns, models ns (w_names w) /\
      parse_table n b c = SOk tt (set_namespace ns (set_buffers (w_buffers w) c))
  | SErr e w => exists ns, models ns (w_names w) /\
      parse_table n b c = SErr e (set_namespace ns (set_current_scope (abs (w_scope w)) (set_buffers (w_buffers w) c)))
  | SFail r => parse_table n b c = SFail r
  end.
Proof.
  intros Hb Hne Hn Hs Hc Hp Hm. pose proof (world_refines ds c p m Hp Hm) as H.
  pose proof (parse_table_world ds b n c (MkWorld (namespace c) p (buffers c)) Hb Hne Hn Hs Hc) as E.
  rewrite (put_own c p Hp) in E. rewrite E. destruct (declare_all ds (MkWorld m p _)) as [u w|e w|r].
  - destruct H as (ns & Hns & ->). exists ns. split; [done|]. in_world. rewrite <-Hp. by destruct c.
  - destruct H as (ns & Hns & ->). by exists ns.
  - by rewrite H.
Qed.

(** What the parser of a field returns, after what the declaration of the field did. *)
Definition field_outcome (bits : Z) (rest : bytes) (c : AmlContext) (r : sres (world Namespace) AmlError unit)
    : sres AmlContext Propagate (Z * bytes) :=
  match r with
  | SOk _ w => SOk (bits, rest) (put w c)
  | SErr e w => SErr (PErr e) (put w c)
  | SFail r => SFail r
  end.

(** C24: The length of a field, in bits, is read as the length of a package: a field of
    at most as many bits as there are bytes from its length to the end of the table is
    declared with that length; a longer one is refused with InvalidPkgLength, and with it
    the table, although nothing of that length has to follow. *)
Theorem field_length_limit (region : AmlHandle) (flags : byte) (offset : Z) (s : NameSeg) (k : nat) (bits : Z)
    (rest : bytes) (c : AmlContext) (w : world Namespace) :
  seg_ok s = true -> pkg_fits k bits = true -> short (pkg_bytes k bits ++ rest) -> quiet c ->
  den (field_element region (MkFieldFlags flags) offset) (seg_as_str s ++ pkg_bytes k bits ++ rest) (put w c) =
  if bits <=? Z.of_nat (Datatypes.S k + length rest) then
    field_outcome bits rest c (declare_value (MkRef (Up 0) [s]) (VField region (MkFieldFlags flags) offset bits) w)
  else SErr (PErr InvalidPkgLength) (put w c).
Proof.
  intros Hs Hf Hsh Hc. destruct (bits <=? _) eqn:Hbits.
  - apply parses_named_field; [done| |done|done|apply given_strict]. unfold field_fits. by rewrite Hf, Hbits.
  - rewrite den_named_field by (done || by apply put_quiet). apply Z.leb_gt in Hbits.
    assert (den pkg_length (pkg_bytes k bits ++ rest) (put w c) = SErr (PErr InvalidPkgLength) (put w c)) as Hp.
    { unfold short in Hsh. rewrite length_app, pkg_bytes_length in Hsh. unfold den, pkg_length.
      rewrite raw_pkg_length_encode by (done || lia). unfold from_raw_length.
      rewrite len32_small by (rewrite length_app, pkg_bytes_length; lia).
      by rewrite length_app, pkg_bytes_length, (proj2 (Z.ltb_lt _ _)) by lia. }
    assert (den (named_field region (MkFieldFlags flags) offset) (seg_as_str s ++ pkg_bytes k bits ++ rest)
      (put w c) = SErr (PErr InvalidPkgLength) (put w c)) as Hn.
    { unfold named_field. rewrite den_map_ctx. unfold se_bind at 1. rewrite den_then. unfold se_bind at 1.
      unfold den at 1. rewrite name_seg_ok by done. unfold se_bind. by rewrite Hp. }
    rewrite den_take; [done|]. by rewrite Hn.
Qed.
End Declarations.

(** A field of 40 bits at the end of a table is refused; with as many bytes after it, it
    is declared. *)
Definition field_sample : NameSeg := MkSeg x46 x4c x44 x5f.
Definition field_context : @AmlContext env_debug := MkContext env_debug ∅ new_namespace None root 0 VbNone [] [].

Lemma field_length_limit_witness :
  @den env_debug _ (@field_element env_debug 0 (MkFieldFlags x01) 0) (seg_as_str field_sample ++ [x28])
    field_context = SErr (PErr InvalidPkgLength) field_context.
Proof.
  exact (@field_length_limit env_debug 0 x01 0 field_sample 0 40 [] field_context
    (MkWorld new_namespace [] []) eq_refl eq_refl eq_refl eq_refl).
Defined.
