(* ===== verification/Load.v ===== *)
(** From a new context to a namespace: the objects that every context defines, and the
    definition blocks that the library is given one after the other. *)
From S2P Require Import Prelude Types Names Namespace Env RustStd Context Value Parser.
From S2P Require Import PkgLength Opcode NameObject Grammar Expression Statement TermObject.
From S2P Require Import Interp Sample Program Flat Declarations Fuel Denotation First Calculus.
From S2P Require Import EvalCorrect StmtCorrect ExecCorrect Method DataCorrect TableCorrect.
#[local] Open Scope Z_scope.

(** * Predefined objects *)

Definition seg_GPE : NameSeg := MkSeg x5f x47 x50 x45.
Definition seg_SB : NameSeg := MkSeg x5f x53 x42 x5f.
Definition seg_SI : NameSeg := MkSeg x5f x53 x49 x5f.
Definition seg_PR : NameSeg := MkSeg x5f x50 x52 x5f.
Definition seg_TZ : NameSeg := MkSeg x5f x54 x5a x5f.
Definition seg_OS : NameSeg := MkSeg x5f x4f x53 x5f.
Definition seg_OSI : NameSeg := MkSeg x5f x4f x53 x49.
Definition seg_REV : NameSeg := MkSeg x5f x52 x45 x56.

Section Load.
Context {env : AmlEnv} {natives : UserNatives}.

(** [\_OSI]: a native method with one argument. *)
Definition osi_value : AmlValue :=
  VMethod (MkMethodFlags (to_u8 (set_bits (set_bit (set_bits 0 0 3 1) 3 false) 4 8 0))) (Native OsiMethod).

(** What every context defines, on any namespace. *)
Definition predefine {N} {ops : NamespaceOps N} : SE N AmlError unit :=
  do! op_add_level [seg_GPE] LScope in
  do! op_add_level [seg_SB] LScope in
  do! op_add_level [seg_SI] LScope in
  do! op_add_level [seg_PR] LScope in
  do! op_add_level [seg_TZ] LScope in
  do! op_add_value [seg_OS] (VString (bstr "Microsoft Windows NT")) in
  do! op_add_value [seg_OSI] osi_value in
  do! op_add_value [seg_REV] (VInteger 2) in
  se_ret tt.

Lemma sim_predefine : sim models predefine predefine.
Proof.
  repeat (apply sim_bind; [apply sim_op_add_level || apply sim_op_add_value|intros ?]). apply sim_ret.
Qed.

(** A step of [add_predefined_objects] that succeeds. *)
Lemma unwrap_names {A} (m : SE Namespace AmlError A) c a ns :
  m (namespace c) = SOk a ns -> unwrap_se (on_namespace m) c = SOk a (set_namespace ns c).
Proof. intros H. unfold unwrap_se, on_namespace. by rewrite H. Qed.

(** The flat maps of a new context. *)
Definition predefined : flat :=
  match predefine flat_empty with SOk _ m => m | _ => flat_empty end.

Lemma predefine_ok : predefine flat_empty = SOk tt predefined.
Proof.
  assert (match predefine flat_empty with SOk _ _ => true | _ => false end = true) as H
    by (vm_compute; reflexivity).
  unfold predefined. by destruct (predefine flat_empty) as [[] m| |].
Qed.

(** [m] does on the namespace of the context what [n] does when it succeeds. *)
Definition lifts {A} (m : SE AmlContext AmlError unit) (n : SE Namespace AmlError A) : Prop :=
  forall c a ns, n (namespace c) = SOk a ns -> m c = SOk tt (set_namespace ns c).

Lemma lifts_bind {A B} m m' (n : SE Namespace AmlError A) (n' : SE Namespace AmlError B) :
  lifts m n -> lifts m' n' -> lifts (do! m in m') (do! n in n').
Proof.
  intros Hm Hm' c b ns. unfold se_bind. destruct (n (namespace c)) as [a ns1| |] eqn:E; [|done..].
  intros E'. rewrite (Hm c a ns1 E), (Hm' (set_namespace ns1 c) b ns E'). by destruct c.
Qed.

Lemma lifts_level name s : name_lit (E := AmlError) name = Ok (abs [s]) ->
  lifts (add_predefined_level name) (op_add_level [s] LScope).
Proof.
  intros Hn c [] ns E. unfold add_predefined_level, se_bind, se_lift. rewrite Hn.
  by apply unwrap_names.
Qed.

Lemma lifts_value name s v : name_lit (E := AmlError) name = Ok (abs [s]) ->
  lifts (add_predefined_value name (Ok v)) (op_add_value [s] v).
Proof.
  intros Hn c h ns E. unfold add_predefined_value, se_bind, se_lift. rewrite Hn.
  by rewrite (unwrap_names (add_value (abs [s]) v) c h ns E).
Qed.

Lemma lifts_predefine : lifts add_predefined_objects predefine.
Proof.
  do 5 (apply lifts_bind; [by apply lifts_level|]).
  do 2 (apply lifts_bind; [by apply lifts_value|]).
  intros c [] ns. unfold se_bind at 1. destruct (op_add_value _ _ _) as [h ns1| |] eqn:E; [|done..].
  intros [= <-]. exact (lifts_value (bstr "\_REV") seg_REV (VInteger 2) eq_refl c h ns1 E).
Qed.

(** The state that [AmlContext::new] makes; it never fails. *)
Lemma new_context_ok (h : hw) (v : DebugVerbosity) : exists ns, models ns predefined /\
  new_context h v = Ok (MkContext env h ns None root 0 v [] []).
Proof.
  pose proof (sim_predefine new_namespace flat_empty models_empty) as H. rewrite predefine_ok in H.
  destruct (predefine new_namespace) as [[] ns| |] eqn:E; [|done..]. destruct H as [_ Hns].
  exists ns. split; [done|]. unfold new_context.
  by rewrite (lifts_predefine (MkContext env h new_namespace None root 0 v [] []) tt ns E).
Qed.

(** * Definition blocks *)

(** The library is given the tables one after the other. *)
Definition load (n : nat) (tables : list bytes) : SE AmlContext AmlError unit :=
  se_each (parse_table n) tables.

Lemma each_app {S E A} (f : A -> SE S E unit) l1 l2 s :
  se_each f (l1 ++ l2) s = (do! se_each f l1 in se_each f l2) s.
Proof.
  revert s. induction l1 as [|a l1 IH]; intros s; [done|]. cbn [app se_each]. unfold se_bind.
  destruct (f a s) as [u s'| |]; [|done..]. apply IH.
Qed.

(** Tables that encode declarations, with fuel for them. *)
Definition encodes (n : nat) (ds : list decl) (b : bytes) : Prop :=
  enc_decls 0 ds b /\ ds <> [] /\ (table_depth ds < n)%nat /\ short b.

Lemma load_world n dss bs c w : Forall2 (encodes n) dss bs -> quiet c ->
  load n bs (put w c) =
  match declare_all (concat dss) w with
  | SOk _ w' => SOk tt (put w' c)
  | SErr e w' => SErr e (put w' c)
  | SFail r => SFail r
  end.
Proof.
  intros H Hc. revert w. induction H as [|ds b dss bs (Hb & Hne & Hn & Hs) _ IH]; intros w; [done|].
  unfold load. cbn [se_each concat]. unfold se_bind at 1.
  rewrite (parse_table_world ds b n c w Hb Hne Hn Hs Hc).
  unfold declare_all. rewrite each_app. unfold se_bind, declare_all.
  destruct (se_each declare ds w) as [u w'| |]; [apply IH|done..].
Qed.

(** Loading the system: a new context that is given definition blocks one after the
    other holds exactly what their declarations, in that order, make of the predefined
    objects; the first error ends the loading, with what was declared up to there. *)
Theorem load_tables_correct (n : nat) (dss : list (list decl)) (bs : list bytes) (h : hw) :
  Forall2 (encodes n) dss bs ->
  exists c, new_context h VbNone = Ok c /\
  match declare_all (concat dss) (MkWorld predefined [] []) with
  | SOk _ w => exists ns, models ns (w_names w) /\
      load n bs c = SOk tt (set_namespace ns (set_buffers (w_buffers w) c))
  | SErr e w => exists ns, models ns (w_names w) /\
      load n bs c = SErr e (set_namespace ns (set_current_scope (abs (w_scope w)) (set_buffers (w_buffers w) c)))
  | SFail r => load n bs c = SFail r
  end.
Proof.
  intros Hbs. destruct (new_context_ok h VbNone) as (ns0 & Hns0 & ->).
  set (c := MkContext env h ns0 None root 0 VbNone [] []). exists c. split; [done|].
  pose proof (world_refines (concat dss) c [] predefined eq_refl Hns0) as H.
  pose proof (load_world n dss bs c (MkWorld ns0 [] []) Hbs eq_refl) as E.
  change (put (MkWorld ns0 [] []) c) with c in E. rewrite E. cbn [buffers namespace c] in H.
  destruct (declare_all (concat dss) (MkWorld predefined [] [])) as [u w|e w|r].
  - destruct H as (ns & Hns & ->). by exists ns.
  - destruct H as (ns & Hns & ->). by exists ns.
  - by rewrite H.
Qed.
End Load.

(** * Two tables *)

(** [Device(DEV_) { Name(VAL_, 42)  Method(FOO_, 1) { Return(Add(Arg0, 2)) } }] and
    [Scope(\DEV_) { Name(BAR_, Buffer(3) {1, 2}) }] *)
Definition dev : NameSeg := MkSeg x44 x45 x56 x5f.
Definition bar : NameSeg := MkSeg x42 x41 x52 x5f.

Definition dsdt_decls : list decl :=
  [DefBlock BDevice (MkRef (Up 0) [dev])
     [DefName (MkRef (Up 0) [val_]) (DInt 42); DefMethod (MkRef (Up 0) [foo]) x01 foo_body]].
Definition dsdt_bytes : bytes :=
  [x5b; x82; x19; x44; x45; x56; x5f; x08; x56; x41; x4c; x5f; x0a; x2a;
   x14; x0c; x46; x4f; x4f; x5f; x01; xa4; x72; x68; x0a; x02; x00].

Definition ssdt_decls : list decl :=
  [DefBlock BScope (MkRef AtRoot [dev]) [DefName (MkRef (Up 0) [bar]) (DBuffer 3 [x01; x02])]].
Definition ssdt_bytes : bytes :=
  [x10; x11; x5c; x44; x45; x56; x5f; x08; x42; x41; x52; x5f; x11; x05; x0a; x03; x01; x02].

Lemma dsdt_enc : enc_decls 0 dsdt_decls dsdt_bytes.
Proof.
  apply (enc_decls_cons 0 _ [] dsdt_bytes []); [|constructor].
  apply (enc_DefBlock _ BDevice (MkRef (Up 0) [dev]) _ [x08; x56; x41; x4c; x5f; x0a; x2a;
    x14; x0c; x46; x4f; x4f; x5f; x01; xa4; x72; x68; x0a; x02; x00]); [reflexivity|exact I| |].
  - apply (enc_decls_cons _ _ _ [x08; x56; x41; x4c; x5f; x0a; x2a]).
    + apply (enc_DefName _ (MkRef (Up 0) [val_]) (DInt 42) [x0a; x2a]); [reflexivity|]. apply enc_DInt, (enc_byte 42).
      vm_compute. split; congruence.
    + apply (enc_decls_cons _ _ [] [x14; x0c; x46; x4f; x4f; x5f; x01; xa4; x72; x68; x0a; x02; x00] []);
        [|constructor].
      apply (enc_DefMethod _ (MkRef (Up 0) [foo]) x01 foo_body [x0c; x46; x4f; x4f; x5f; x01; xa4; x72; x68; x0a; x02; x00]);
        [reflexivity|].
      exact (enc_pkg 0 [x46; x4f; x4f; x5f; x01; xa4; x72; x68; x0a; x02; x00] eq_refl).
  - exact (enc_pkg 0 [x44; x45; x56; x5f; x08; x56; x41; x4c; x5f; x0a; x2a;
      x14; x0c; x46; x4f; x4f; x5f; x01; xa4; x72; x68; x0a; x02; x00] eq_refl).
Qed.

Lemma ssdt_enc : enc_decls 0 ssdt_decls ssdt_bytes.
Proof.
  apply (enc_decls_cons 0 _ [] ssdt_bytes []); [|constructor].
  apply (enc_DefBlock _ BScope (MkRef AtRoot [dev]) _ [x08; x42; x41; x52; x5f; x11; x05; x0a; x03; x01; x02]);
    [reflexivity|exact I| |].
  - apply (enc_decls_cons _ _ [] [x08; x42; x41; x52; x5f; x11; x05; x0a; x03; x01; x02] []); [|constructor].
    apply (enc_DefName _ (MkRef (Up 0) [bar]) _ [x11; x05; x0a; x03; x01; x02]); [reflexivity|].
    apply (enc_DBuffer 3 [x01; x02] [x0a; x03] [x05; x0a; x03; x01; x02]).
    + apply (enc_byte 3). vm_compute. split; congruence.
    + exact (enc_pkg 0 [x0a; x03; x01; x02] eq_refl).
  - exact (enc_pkg 0 [x5c; x44; x45; x56; x5f; x08; x42; x41; x52; x5f; x11; x05; x0a; x03; x01; x02] eq_refl).
Qed.

Lemma parse_table_correct_witness : exists ns,
  @parse_table env_debug sample_natives 5 dsdt_bytes field_context = SOk tt (set_namespace ns field_context) /\
  get_by_path ns (abs [dev; val_]) = Ok (VInteger 42).
Proof.
  pose proof (@parse_table_correct env_debug sample_natives dsdt_decls dsdt_bytes 5 field_context [] flat_empty
    dsdt_enc ltac:(discriminate) ltac:(apply Nat.ltb_lt; reflexivity) eq_refl eq_refl eq_refl models_empty) as H.
  cbn [buffers field_context] in H. set (r := declare_all _ _) in H.
  assert (match r with SOk _ w => w_buffers w = [] /\ flat_get (w_names w) [dev; val_] = Ok (VInteger 42)
    | _ => False end) as Hr by (vm_compute; split; reflexivity).
  destruct r as [u w|e w|r]; [|contradiction..]. destruct Hr as [Hb Hv]. destruct H as (ns & Hns & Hp).
  rewrite Hb in Hp. exists ns. split; [exact Hp|]. rewrite (refine_get ns _ _ Hns). exact Hv.
Defined.

Lemma tables_encode : Forall2 (encodes 5) [dsdt_decls; ssdt_decls] [dsdt_bytes; ssdt_bytes].
Proof.
  apply Forall2_cons_2; [|apply Forall2_cons_2; [|constructor]].
  - split; [apply dsdt_enc|]. split; [done|]. split; [apply Nat.ltb_lt|]; reflexivity.
  - split; [apply ssdt_enc|]. split; [done|]. split; [apply Nat.ltb_lt|]; reflexivity.
Qed.

Lemma load_tables_correct_witness : exists c ns, @new_context env_debug ∅ VbNone = Ok c /\
  @load env_debug sample_natives 5 [dsdt_bytes; ssdt_bytes] c =
    SOk tt (set_namespace ns (set_buffers [[x01; x02; x00]] c)) /\
  get_by_path ns (abs [dev; bar]) = Ok (VBuffer 0) /\
  get_by_path ns (abs [dev; val_]) = Ok (VInteger 42).
Proof.
  destruct (@load_tables_correct env_debug sample_natives 5 _ _ ∅ tables_encode) as (c & Hc & H).
  exists c. set (r := declare_all _ _) in H.
  assert (match r with SOk _ w => w_buffers w = [[x01; x02; x00]] /\
    flat_get (w_names w) [dev; bar] = Ok (VBuffer 0) /\
    flat_get (w_names w) [dev; val_] = Ok (VInteger 42) | _ => False end) as Hr
    by (vm_compute; repeat split).
  destruct r as [u w|e w|r]; [|contradiction..].
  destruct Hr as (Hb & H1 & H2). destruct H as (ns & Hns & Hl). exists ns. rewrite Hb in Hl.
  split; [exact Hc|]. split; [exact Hl|].
  split; rewrite (refine_get ns _ _ Hns); assumption.
Defined.

(** A table that fails inside a block leaves its scope behind, and the names of the next
    table are declared there: after [Scope(\_SB_) { Name(FOO_, Zero)  Name(FOO_, Zero) }],
    which collides, [Name(BAR_, One)] gives [\_SB_.BAR_]. *)
Definition colliding_bytes : bytes :=
  [x10; x12; x5c; x5f; x53; x42; x5f; x08; x46; x4f; x4f; x5f; x00; x08; x46; x4f; x4f; x5f; x00].

Definition after_collision : option (result AmlError AmlValue * result AmlError AmlValue) :=
  match @parse_table env_debug sample_natives 5 colliding_bytes sample_context with
  | SErr (NameCollision _) c =>
      match @parse_table env_debug sample_natives 5 [x08; x42; x41; x52; x5f; x01] c with
      | SOk _ c => Some (get_by_path (namespace c) (abs [bar]), get_by_path (namespace c) (abs [seg_SB; bar]))
      | _ => None
      end
  | _ => None
  end.

Example failed_table_moves_scope :
  after_collision = Some (Err (ValueDoesNotExist (abs [bar])), Ok (VInteger 1)).
Proof. vm_compute. reflexivity. Qed.
