(* ===== verification/Session.v ===== *)
(** Using the library: definition blocks are loaded into a new context, and then objects
    are read and the methods of a program are called, one after the other. Each call
    finds the objects of the namespace as the calls before it left them. *)
From S2P Require Import Prelude Types Names Namespace Ordered Env RustStd Context Value Parser.
From S2P Require Import PkgLength Opcode NameObject Grammar Expression Statement TermObject.
From S2P Require Import Interp Sample Program Flat Declarations Fuel Denotation First Calculus.
From S2P Require Import Memory EvalCorrect StmtCorrect ExecCorrect Method DataCorrect TableCorrect Load.
#[local] Open Scope Z_scope.

(** * Programs on the flat maps *)

Record call := MkCall { c_path : list NameSeg; c_actuals : list num }.

Section Flat.
Context {tgt : Target} {prog : Program}.

(** The maps whose objects hold a memory. *)
Definition flat_memory (mem : memory) (m : flat) : flat :=
  MkFlat (f_levels m) (f_names m)
    (map_imap (fun h v => Some (if bool_decide (h ∈ p_handles) then val (recall mem h) else v))
       (f_objects m)) (f_next m).

(** The methods of the program are where they say, no levels are in their way, and their
    names denote what they say. *)
Definition flat_method_linked (m : flat) (mt : method) : Prop :=
  (exists h, flat_get_handle m (m_path mt) = Ok h /\ h ∉ p_handles /\
     f_objects m !! h = Some (VMethod (m_flags mt) (Aml (m_code mt)))) /\
  f_levels m !! m_path mt = None /\
  Forall (fun '(r, h) => h ∈ p_handles /\ exists q, flat_search m r (m_path mt) = Ok (q, h))
    (@bindings (m_bound mt)) /\
  Forall (fun '(r, q) => exists h, flat_search m r (m_path mt) = Ok (q, h)) (@callees (m_bound mt)).

Definition flat_linked (m : flat) : Prop :=
  Forall (fun h => is_Some (f_objects m !! h)) p_handles /\ Forall (flat_method_linked m) p_methods.

(** What a call gives, and the memory it leaves: a method of the program runs, an object
    that is not a method is read, and a path without an object is an error. *)
Inductive calls (m : flat) (mem : memory) : call -> result AmlError AmlValue -> memory -> Prop :=
  | calls_method mt actuals o f :
      mt ∈ p_methods -> (length actuals <= 7)%nat ->
      exec_list (calling mt) (m_body mt) (call_frame actuals mem) o f ->
      calls m mem (MkCall (m_path mt) actuals) (call_result o) (f_memory f)
  | calls_object path actuals v :
      flat_get (flat_memory mem m) path = Ok v -> (forall flags code, v <> VMethod flags code) ->
      (length actuals <= 7)%nat ->
      calls m mem (MkCall path actuals) (Ok v) mem
  | calls_nothing path actuals e :
      flat_get (flat_memory mem m) path = Err e -> (length actuals <= 7)%nat ->
      calls m mem (MkCall path actuals) (Err e) mem
  | calls_too_many path actuals :
      (7 < length actuals)%nat -> calls m mem (MkCall path actuals) (Err TooManyArgs) mem.

Inductive session (m : flat) : memory -> list call -> list (result AmlError AmlValue) -> memory -> Prop :=
  | session_nil mem : session m mem [] [] mem
  | session_cons mem1 mem2 mem3 k ks r rs :
      calls m mem1 k r mem2 -> session m mem2 ks rs mem3 -> session m mem1 (k :: ks) (r :: rs) mem3.

Lemma flat_memory_objects mem m h :
  f_objects (flat_memory mem m) !! h =
  (fun v => if bool_decide (h ∈ p_handles) then val (recall mem h) else v) <$> f_objects m !! h.
Proof. cbn. rewrite map_lookup_imap. by destruct (f_objects m !! h). Qed.

Lemma flat_memory_twice mem mem' m : flat_memory mem (flat_memory mem' m) = flat_memory mem m.
Proof.
  unfold flat_memory at 1 3. f_equal. apply map_eq. intros h.
  rewrite !map_lookup_imap, flat_memory_objects. destruct (f_objects m !! h); [|done]. cbn.
  by case_bool_decide.
Qed.

Lemma flat_memory_holds mem m : flat_linked m -> holds mem (f_objects (flat_memory mem m)).
Proof.
  intros [Ho _]. rewrite Forall_forall in Ho. apply Forall_forall. intros h Hh.
  rewrite flat_memory_objects. destruct (Ho h Hh) as [v ->]. cbn. by rewrite bool_decide_true.
Qed.

Lemma holds_flat_memory mem m : holds mem (f_objects m) -> flat_memory mem m = m.
Proof.
  intros Hh. unfold holds in Hh. rewrite Forall_forall in Hh. destruct m as [l n o x]. unfold flat_memory. cbn in *.
  f_equal. apply map_eq. intros h. rewrite map_lookup_imap. destruct (o !! h) as [v|] eqn:E; [|done]. cbn.
  case_bool_decide as Hin; [|done]. apply Hh in Hin. congruence.
Qed.

Lemma in_parent_memory {A} mem m p (a : A) : in_parent p (flat_memory mem m) a = in_parent p m a.
Proof.
  assert (forall pre p, first_missing (flat_memory mem m) pre p = first_missing m pre p) as Hf.
  { intros pre q. revert pre. induction q as [|s q IH]; intros pre; [done|]. cbn. by rewrite IH. }
  unfold in_parent. cbn. destruct p; [done|]. by rewrite Hf.
Qed.

Lemma flat_search_memory mem m r scope : flat_search (flat_memory mem m) r scope = flat_search m r scope.
Proof.
  assert (forall s ps, flat_nearest (flat_memory mem m) s ps = flat_nearest m s ps) as H.
  { intros s ps. induction ps as [|p ps IH]; [done|]. cbn. by rewrite IH. }
  assert (forall r : name_ref, (let? p := ref_path r scope in
      let? h := in_parent p (flat_memory mem m) (f_names (flat_memory mem m) !! p) in
      let? h := ok_or (ValueDoesNotExist (ref_name r)) h in Ok (p, h)) =
    (let? p := ref_path r scope in let? h := in_parent p m (f_names m !! p) in
     let? h := ok_or (ValueDoesNotExist (ref_name r)) h in Ok (p, h))) as Hd.
  { intros r'. destruct (ref_path r' scope) as [q| |]; [|done..]. cbn [result_bind]. by rewrite in_parent_memory. }
  destruct r as [[|[|k]] [|s [|s' segs]]]; try apply Hd. unfold flat_search. by rewrite H.
Qed.

Lemma flat_linked_memory mem m : flat_linked m -> flat_linked (flat_memory mem m).
Proof.
  intros [Ho Hm]. split.
  - eapply Forall_impl; [exact Ho|]. intros h Hh. rewrite flat_memory_objects. by rewrite fmap_is_Some.
  - eapply Forall_impl; [exact Hm|]. intros mt ((h & Hg & Hh & Hv) & Hl & Hb & Hc).
    split_and!; [|done| |].
    + exists h. split; [|split; [done|by rewrite flat_memory_objects, Hv, bool_decide_false]].
      unfold flat_get_handle in *. by rewrite in_parent_memory.
    + eapply Forall_impl; [exact Hb|]. intros [r k] (Hk & q & Hq). split; [done|].
      exists q. by rewrite flat_search_memory.
    + eapply Forall_impl; [exact Hc|]. intros [r q] (k & Hk). exists k. by rewrite flat_search_memory.
Qed.

(** * Programs on the tree *)

Lemma models_memory ns m mem : models ns m -> models (with_memory mem ns) (flat_memory mem m).
Proof.
  intros (H1 & H2 & H3 & H4 & H5 & H6). split_and!; [done|done|done| |done|done].
  unfold flat_memory, with_memory. cbn. by rewrite H4.
Qed.

Lemma models_linked ns m : models ns m -> flat_linked m -> linked [] ns.
Proof.
  intros Hm [Ho Hall]. pose proof Hm as (Hl & _ & _ & Eo & _ & Hd). rewrite Eo in Ho. split; [done|].
  split; [done|]. eapply Forall_impl; [exact Hall|]. intros mt ((h & Hg & Hh & Hv) & Hlev & Hb & Hc).
  split_and!.
  - exists h. rewrite (refine_get_handle ns m _ Hm), <-Eo. done.
  - intros _. by rewrite <-Hl.
  - eapply Forall_impl; [exact Hb|]. intros [r k] (Hk & q & Hq). split; [done|]. exists q.
    by rewrite (refine_search ns m r _ Hm), Hq.
  - eapply Forall_impl; [exact Hc|]. intros [r q] (k & Hk). exists k.
    by rewrite (refine_search ns m r _ Hm), Hk.
Qed.
End Flat.

Section Session.
Context {env : AmlEnv} {natives : UserNatives} {prog : Program}.

(** [Args::from_list] and [AmlContext::invoke_method]; the caller goes on after an
    error. *)
Definition evaluate (n : nat) (k : call) : SE AmlContext AmlError (result AmlError AmlValue) :=
  se_try (let! args := se_lift (args_from_list (map val (c_actuals k))) in
          invoke n (abs (c_path k)) args).

(** The object of a call is found by its path. *)
Lemma evaluate_found n k args c v :
  args_from_list (map val (c_actuals k)) = Ok args ->
  get_by_path (namespace c) (abs (c_path k)) = Ok v -> (forall flags code, v <> VMethod flags code) ->
  evaluate n k c = SOk (Ok v) c.
Proof.
  intros Ha Hg Hv. unfold evaluate, se_try, se_bind, se_lift. rewrite Ha.
  unfold invoke, invoke_method, in_namespace, se_bind, se_gets, se_lift. rewrite Hg.
  destruct v; try done. by edestruct Hv.
Qed.

Lemma evaluate_missing n k args c e :
  args_from_list (map val (c_actuals k)) = Ok args ->
  get_by_path (namespace c) (abs (c_path k)) = Err e -> evaluate n k c = SOk (Err e) c.
Proof.
  intros Ha Hg. unfold evaluate, se_try, se_bind, se_lift. rewrite Ha.
  unfold invoke, invoke_method, in_namespace, se_bind, se_gets, se_lift. by rewrite Hg.
Qed.

Lemma set_namespace_same (c : AmlContext) : set_namespace (namespace c) c = c.
Proof. by destruct c. Qed.

Section Calls.
Context (m : flat) (Hprog : program_ok) (Hlinked : flat_linked m).

(** One call. *)
Lemma call_refines mem k r mem' c : calls m mem k r mem' -> models (namespace c) (flat_memory mem m) -> quiet c ->
  exists N ns', models ns' (flat_memory mem' m) /\
  forall n, (N <= n)%nat -> evaluate n k c = SOk r (set_namespace ns' c).
Proof.
  intros H Hm Hq. pose proof (flat_linked_memory mem m Hlinked) as Hl.
  destruct H as [mt actuals o f Hmt Hn Hexec|path actuals v Hget Hv Hn|path actuals e Hget Hn|path actuals Hn].
  - destruct (args_fit actuals Hn) as [args Hargs].
    pose proof (flat_memory_holds mem m Hlinked) as Hh. pose proof Hm as (_ & _ & _ & Eo & _). rewrite Eo in Hh.
    destruct (body_runs mt [] actuals o mem f Hprog Hmt Hexec) as [N HN].
    exists N, (with_memory (f_memory f) (namespace c)). split.
    { rewrite <-(flat_memory_twice _ mem). by apply models_memory. }
    intros n Hle. unfold evaluate, se_try, se_bind, se_lift. cbn [c_actuals c_path].
    rewrite Hargs. unfold invoke. rewrite <-(at_call_holds mem c Hh) at 1.
    assert (m_path mt ∉ @nil (list NameSeg)) as Hnil by (intros Hi; inversion Hi).
    rewrite (invoke_ok mt [] c mem actuals args o f (method_context c) Hq (models_linked _ _ Hm Hl) Hmt Hargs
      (grammar n) Hnil) by (intros c' Hc'; by apply HN).
    destruct c. by destruct o.
  - destruct (args_fit actuals Hn) as [args Hargs]. exists 0%nat, (namespace c). split; [done|]. intros n _.
    rewrite set_namespace_same. rewrite <-(refine_get _ _ _ Hm) in Hget. by eapply evaluate_found.
  - destruct (args_fit actuals Hn) as [args Hargs]. exists 0%nat, (namespace c). split; [done|]. intros n _.
    rewrite set_namespace_same. rewrite <-(refine_get _ _ _ Hm) in Hget. by eapply evaluate_missing.
  - exists 0%nat, (namespace c). split; [done|]. intros n _. rewrite set_namespace_same.
    unfold evaluate, se_try, se_bind, se_lift, args_from_list. cbn [c_actuals].
    by rewrite (proj2 (Nat.ltb_lt _ _)) by (rewrite length_map; lia).
Qed.

Lemma session_refines mem ks rs mem' c : session m mem ks rs mem' ->
  models (namespace c) (flat_memory mem m) -> quiet c ->
  exists N ns', models ns' (flat_memory mem' m) /\
  forall n, (N <= n)%nat -> se_map (evaluate n) ks c = SOk rs (set_namespace ns' c).
Proof.
  intros H. revert c. induction H as [mem|mem1 mem2 mem3 k ks r rs Hk _ IH]; intros c Hm Hq.
  - exists 0%nat, (namespace c). split; [done|]. intros n _. by rewrite set_namespace_same.
  - destruct (call_refines mem1 k r mem2 c Hk Hm Hq) as (N1 & ns1 & Hm1 & H1).
    destruct (IH (set_namespace ns1 c) Hm1 Hq) as (N2 & ns2 & Hm2 & H2).
    exists (max N1 N2), ns2. split; [done|]. intros n Hn. cbn [se_map]. unfold se_bind.
    rewrite H1 by lia. rewrite H2 by lia. done.
Qed.
End Calls.

(** The context after the tables were loaded. *)
Lemma loaded n dss bs h (w : world flat) mem : Forall2 (encodes n) dss bs ->
  declare_all (concat dss) (MkWorld predefined [] []) = SOk tt w -> holds mem (f_objects (w_names w)) ->
  exists c ns, new_context h VbNone = Ok c /\ quiet c /\ models ns (flat_memory mem (w_names w)) /\
    load n bs c = SOk tt (set_namespace ns (set_buffers (w_buffers w) c)).
Proof.
  intros Hbs Hw Hh. destruct (load_tables_correct n dss bs h Hbs) as (c & Hc & Hl). rewrite Hw in Hl.
  destruct Hl as (ns & Hns & Hl). destruct (new_context_ok h VbNone) as (ns0 & _ & Hnew).
  exists c, ns. split; [done|]. split; [rewrite Hnew in Hc; by injection Hc as <-|].
  by rewrite holds_flat_memory.
Qed.

(** From tables to results: after definition blocks were loaded into a new context
    and linked a program there, any sequence of calls gives what the structured execution
    of the methods gives, which call each other and share a memory, each from the memory
    that the calls before it left; and the namespace is, at the end, what the tables
    declare, with that memory. *)
Theorem load_and_call (n : nat) (dss : list (list decl)) (bs : list bytes) (h : hw) (w : world flat)
    (ks : list call) (rs : list (result AmlError AmlValue)) (mem mem' : memory) :
  Forall2 (encodes n) dss bs ->
  declare_all (concat dss) (MkWorld predefined [] []) = SOk tt w ->
  program_ok -> flat_linked (w_names w) -> holds mem (f_objects (w_names w)) ->
  session (w_names w) mem ks rs mem' ->
  exists c ns N, new_context h VbNone = Ok c /\ models ns (flat_memory mem' (w_names w)) /\
    forall k, (N <= k)%nat ->
      (do! load n bs in se_map (evaluate k) ks) c =
      SOk rs (set_namespace ns (set_buffers (w_buffers w) c)).
Proof.
  intros Hbs Hw Hp Hlk Hh Hs. destruct (loaded n dss bs h w mem Hbs Hw Hh) as (c & ns1 & Hc & Hq & Hns1 & Hl).
  destruct (session_refines _ Hp Hlk mem ks rs mem' (set_namespace ns1 (set_buffers (w_buffers w) c)) Hs Hns1 Hq)
    as (N & ns & Hns & HN).
  exists c, ns, N. split; [done|]. split; [done|]. intros k Hk. unfold se_bind. rewrite Hl.
  by rewrite HN.
Qed.
End Session.

(** * A session *)

(** [Scope(\DEV_) { Method(TICK, 1) { .. }  Method(TOCK, 1) { .. } }], with the methods of
    the program, loaded after the table that declares [\DEV_.VAL_] and [\DEV_.FOO_]. *)
Definition tick_decl : decl := DefMethod (here tick) x01 tick_body.
Definition tock_decl : decl := DefMethod (here tock) x01 tock_body.
Definition tick_bytes : bytes := [x14; x15; x54; x49; x43; x4b; x01] ++ tick_body.
Definition tock_bytes : bytes := [x14; x18; x54; x4f; x43; x4b; x01] ++ tock_body.
Definition clock_decls : list decl :=
  [DefBlock BScope (MkRef AtRoot [dev]) [tick_decl; tock_decl]].
Definition clock_bytes : bytes :=
  [x10; x35; x5c; x44; x45; x56; x5f] ++ tick_bytes ++ tock_bytes.

Lemma clock_table_enc : enc_decls 0 clock_decls clock_bytes.
Proof.
  apply (enc_decls_cons 0 _ [] clock_bytes []); [|constructor].
  apply (enc_DefBlock _ BScope (MkRef AtRoot [dev]) _ (tick_bytes ++ tock_bytes));
    [reflexivity|exact I| |exact (enc_pkg 0 ([x5c; x44; x45; x56; x5f] ++ tick_bytes ++ tock_bytes) eq_refl)].
  apply (enc_decls_cons _ _ [tock_decl] tick_bytes tock_bytes);
    [|apply (enc_decls_cons _ _ [] tock_bytes []); [|constructor]].
  - apply (enc_DefMethod _ (here tick) x01 tick_body ([x15; x54; x49; x43; x4b; x01] ++ tick_body));
      [reflexivity|].
    exact (enc_pkg 0 ([x54; x49; x43; x4b; x01] ++ tick_body) eq_refl).
  - apply (enc_DefMethod _ (here tock) x01 tock_body ([x18; x54; x4f; x43; x4b; x01] ++ tock_body));
      [reflexivity|].
    exact (enc_pkg 0 ([x54; x4f; x43; x4b; x01] ++ tock_body) eq_refl).
Qed.

Lemma session_tables_encode : Forall2 (encodes 5) [dsdt_decls; clock_decls] [dsdt_bytes; clock_bytes].
Proof.
  apply Forall2_cons_2; [|apply Forall2_cons_2; [|constructor]].
  - split; [apply dsdt_enc|]. split; [done|]. split; [apply Nat.ltb_lt|]; reflexivity.
  - split; [apply clock_table_enc|]. split; [done|]. split; [apply Nat.ltb_lt|]; reflexivity.
Qed.

(** The declarations of the two tables, on the maps. *)
Definition sample_declared : sres (world flat) AmlError unit :=
  @declare_all target_debug flat (@flat_ops target_debug) (concat [dsdt_decls; clock_decls])
    (MkWorld (@predefined env_debug) [] []).
Definition sample_world : world flat :=
  match sample_declared with
  | SOk _ w => w
  | _ => MkWorld flat_empty [] []
  end.

Lemma sample_world_ok : sample_declared = SOk tt sample_world.
Proof.
  assert (match sample_declared with SOk _ _ => true | _ => false end = true) as H
    by (vm_compute; reflexivity).
  unfold sample_world. by destruct sample_declared as [[] w| |].
Qed.

(** The program in the tables: [\DEV_.VAL_] is the fifth object, and holds 42. *)
#[local] Instance clock_program : Program := sample_program [dev] 4.
Definition clock_memory (z : Z) : memory := {[ 4 := NInt z ]}.

Lemma clock_program_ok : @program_ok env_debug clock_program.
Proof.
  constructor; [|constructor; [|constructor; [|constructor]]].
  - split; [apply foo_enc|split; reflexivity].
  - split; [apply (tick_enc [dev] 4)|split; reflexivity].
  - split; [apply (tock_enc [dev] 4)|split; reflexivity].
Qed.

Lemma clock_method_linked s code (ss : list stmt) h : h <> 4 ->
  flat_get_handle (w_names sample_world) [dev; s] = Ok h ->
  f_objects (w_names sample_world) !! h = Some (VMethod sample_flags (Aml code)) ->
  f_levels (w_names sample_world) !! [dev; s] = None ->
  flat_search (w_names sample_world) (here val_) [dev; s] = Ok ([dev; val_], 4) ->
  (exists k, flat_search (w_names sample_world) (here tick) [dev; s] = Ok ([dev; tick], k)) ->
  @flat_method_linked clock_program (w_names sample_world) (sample_method [dev] 4 s code ss).
Proof.
  intros Hh Hg Ho Hl Hv Ht. split_and!; [|exact Hl| |].
  - exists h. split; [exact Hg|]. split; [|exact Ho].
    intros E. exact (Hh (proj1 (list_elem_of_singleton h 4) E)).
  - constructor; [|constructor]. split; [left|]. exists [dev; val_]. exact Hv.
  - constructor; [exact Ht|constructor].
Qed.

Lemma clock_linked : @flat_linked clock_program (w_names sample_world).
Proof.
  split; [constructor; [|constructor]; vm_compute; by eexists|].
  constructor; [|constructor; [|constructor; [|constructor]]].
  - apply (clock_method_linked foo foo_body _ 5); [done|vm_compute; reflexivity..|].
    eexists. vm_compute. reflexivity.
  - apply (clock_method_linked tick tick_body _ 6); [done|vm_compute; reflexivity..|].
    eexists. vm_compute. reflexivity.
  - apply (clock_method_linked tock tock_body _ 7); [done|vm_compute; reflexivity..|].
    eexists. vm_compute. reflexivity.
Qed.

(** The calls: [TICK(40)] makes [VAL_] 82, reading it gives that, and [FOO_(40)] does
    not touch it; [TOCK(1)] calls [TICK] with 0, 1 and 1, which makes it 83 and then 84; and
    [\FOO_] is nothing. *)
Definition sample_calls : list call :=
  [MkCall [dev; tick] [NInt 40]; MkCall [dev; val_] []; MkCall [dev; foo] [NInt 40];
   MkCall [dev; tock] [NInt 1]; MkCall [foo] []].
Definition sample_results : list (result AmlError AmlValue) :=
  [Ok (VInteger 82); Ok (VInteger 82); Ok (VInteger 42); Ok (VInteger 167);
   Err (ValueDoesNotExist (abs [foo]))].

(** A call of a method of the program, by its structured execution. *)
Lemma clock_call m mt vs o f mem r mem' :
  mt ∈ @p_methods clock_program -> (length vs <= 7)%nat ->
  @exec_list target_debug clock_program (running [] mt) (m_body mt) (call_frame vs mem) o f ->
  call_result o = r -> f_memory f = mem' ->
  @calls target_debug clock_program m mem (MkCall (m_path mt) vs) r mem'.
Proof. intros Hm Hn He <- <-. by apply (@calls_method target_debug clock_program). Qed.

Lemma sample_session :
  @session target_debug clock_program (w_names sample_world) (clock_memory 42) sample_calls sample_results
    (clock_memory 84).
Proof.
  assert ([dev] ++ [tick] ∉ @nil (list NameSeg)) as Hn by (intros H; inversion H).
  econstructor.
  { eapply (clock_call _ (tick_method [dev] 4));
      [right; left|apply Nat.leb_le; reflexivity|apply tick_exec; split; [lia|reflexivity]|reflexivity..]. }
  econstructor; [apply calls_object; [vm_compute; reflexivity|done|apply Nat.leb_le; reflexivity]|].
  econstructor.
  { eapply (clock_call _ (foo_method [dev] 4));
      [left|apply Nat.leb_le; reflexivity|apply foo_exec|reflexivity..]. }
  econstructor.
  { eapply (clock_call _ (tock_method [dev] 4));
      [right; right; left|apply Nat.leb_le; reflexivity|apply tock_exec; [lia|lia|reflexivity|exact Hn]|reflexivity..]. }
  econstructor; [apply calls_nothing; [vm_compute; reflexivity|apply Nat.leb_le; reflexivity]|].
  constructor.
Qed.

Lemma load_and_call_witness : exists c ns N, @new_context env_debug ∅ VbNone = Ok c /\
  models ns (flat_memory (clock_memory 84) (w_names sample_world)) /\
  forall k, (N <= k)%nat ->
    (do! @load env_debug sample_natives 5 [dsdt_bytes; clock_bytes] in
     se_map (@evaluate env_debug sample_natives k) sample_calls) c =
    SOk sample_results (set_namespace ns (set_buffers (w_buffers sample_world) c)).
Proof.
  assert (@holds clock_program (clock_memory 42) (f_objects (w_names sample_world))) as Hh
    by (constructor; [vm_compute; reflexivity|constructor]).
  pose proof (@load_and_call env_debug sample_natives clock_program 5 [dsdt_decls; clock_decls]
    [dsdt_bytes; clock_bytes] ∅ sample_world sample_calls sample_results (clock_memory 42) (clock_memory 84)
    session_tables_encode sample_world_ok clock_program_ok clock_linked Hh sample_session) as H.
  exact H.
Defined.
