(* ===== verification/Devices.v ===== *)
(** The initialization of devices: [initialize_objects] goes through the levels of the
    namespace in the order of their paths, asks the devices for their status, initializes
    those that are present, and leaves out what is below the devices that are neither
    present nor functional. *)
From S2P Require Import Prelude Types Names Namespace Ordered Env RustStd Context Value Parser.
From S2P Require Import PkgLength Opcode NameObject Grammar Expression Statement TermObject.
From S2P Require Import Interp Sample Program Flat Preorder Declarations Fuel Denotation First Calculus.
From S2P Require Import Memory EvalCorrect StmtCorrect ExecCorrect Method DataCorrect TableCorrect Load.
From S2P Require Import Session.
#[local] Open Scope Z_scope.

Definition sta : NameSeg := MkSeg x5f x53 x54 x41.
Definition ini : NameSeg := MkSeg x5f x49 x4e x49.

(** * On the flat maps *)

Section Flat.
Context {tgt : Target} {bf : BitField} {prog : Program} (m : flat).

(** The status of a device, from its [_STA]; that of a device without one. *)
Inductive status_of (p : list NameSeg) (mem : memory) : result AmlError StatusObject -> memory -> Prop :=
  | status_default : f_names m !! (p ++ [sta]) = None -> status_of p mem (Ok default_status) mem
  | status_asked r mem' : is_Some (f_names m !! (p ++ [sta])) ->
      calls m mem (MkCall (p ++ [sta]) []) r mem' -> status_of p mem (result_bind r as_status) mem'.

(** What is done at a level, and whether the levels below it are visited. *)
Inductive visits (p : list NameSeg) (mem : memory) : result AmlError bool -> memory -> Prop :=
  | visit_other typ : f_levels m !! p = Some typ -> typ <> LDevice ->
      visits p mem (Ok (bool_decide (typ = LScope))) mem
  | visit_fails e mem1 : f_levels m !! p = Some LDevice -> status_of p mem (Err e) mem1 ->
      visits p mem (Err e) mem1
  | visit_initialized st mem1 r mem2 : f_levels m !! p = Some LDevice -> status_of p mem (Ok st) mem1 ->
      present st = true -> is_Some (f_names m !! (p ++ [ini])) ->
      calls m mem1 (MkCall (p ++ [ini]) []) r mem2 ->
      visits p mem (result_map (fun _ => true) r) mem2
  | visit_device st mem1 : f_levels m !! p = Some LDevice -> status_of p mem (Ok st) mem1 ->
      present st = false \/ f_names m !! (p ++ [ini]) = None ->
      visits p mem (Ok (present st || functional st)) mem1.

(** The levels of a list one after the other; those below a level that is not entered
    are left out, and an error ends the walk. *)
Inductive walk : list (list NameSeg) -> memory -> result AmlError unit -> memory -> Prop :=
  | walk_end mem : walk [] mem (Ok tt) mem
  | walk_into p ps mem mem1 r mem2 : visits p mem (Ok true) mem1 -> walk ps mem1 r mem2 ->
      walk (p :: ps) mem r mem2
  | walk_past p ps mem mem1 r mem2 : visits p mem (Ok false) mem1 ->
      walk (filter (fun q => ¬ p `prefix_of` q) ps) mem1 r mem2 -> walk (p :: ps) mem r mem2
  | walk_fails p ps mem e mem1 : visits p mem (Err e) mem1 -> walk (p :: ps) mem (Err e) mem1.

(** [\_SB._INI] comes first, if there is one. *)
Inductive initializes (mem : memory) : result AmlError unit -> memory -> Prop :=
  | initializes_all r mem1 r' mem2 : calls m mem (MkCall [seg_SB; ini] []) r mem1 ->
      match r with Ok _ | Err (ValueDoesNotExist _) => True | _ => False end ->
      walk (level_order m) mem1 r' mem2 -> initializes mem r' mem2
  | initializes_fails e mem1 : calls m mem (MkCall [seg_SB; ini] []) (Err e) mem1 ->
      match e with ValueDoesNotExist _ => False | _ => True end -> initializes mem (Err e) mem1.
End Flat.

(** * The interpreter *)

Section Devices.
Context {env : AmlEnv} {natives : UserNatives} {prog : Program}.
Context (m : flat) (Hprog : program_ok) (Hlinked : flat_linked m).

(** [run] has the outcome [r], and makes the memory [mem] of the context [mem']. *)
Definition leads {A} (run : nat -> SE AmlContext AmlError A) (mem : memory) (r : result AmlError A)
    (mem' : memory) : Prop :=
  forall c, models (namespace c) (flat_memory mem m) -> quiet c ->
  exists N ns', models ns' (flat_memory mem' m) /\
  forall n, (N <= n)%nat -> run n c = se_lift r (set_namespace ns' c).

Lemma leads_ret {A} (r : result AmlError A) mem : leads (fun _ => se_lift r) mem r mem.
Proof.
  intros c Hm Hq. exists 0%nat, (namespace c). split; [done|]. intros n _. by rewrite set_namespace_same.
Qed.

Lemma leads_bind {A B} (x : nat -> SE AmlContext AmlError A) (y : nat -> A -> SE AmlContext AmlError B)
    mem a mem1 r mem2 :
  leads x mem (Ok a) mem1 -> leads (fun n => y n a) mem1 r mem2 ->
  leads (fun n => se_bind (x n) (y n)) mem r mem2.
Proof.
  intros Hx Hy c Hm Hq. destruct (Hx c Hm Hq) as (N1 & ns1 & Hm1 & H1).
  destruct (Hy (set_namespace ns1 c) Hm1 Hq) as (N2 & ns2 & Hm2 & H2).
  exists (max N1 N2), ns2. split; [done|]. intros n Hn. unfold se_bind. rewrite H1 by lia. cbn.
  by rewrite H2 by lia.
Qed.

Lemma leads_bind_err {A B} (x : nat -> SE AmlContext AmlError A) (y : nat -> A -> SE AmlContext AmlError B)
    mem e mem1 :
  leads x mem (Err e) mem1 -> leads (fun n => se_bind (x n) (y n)) mem (Err e) mem1.
Proof.
  intros Hx c Hm Hq. destruct (Hx c Hm Hq) as (N1 & ns1 & Hm1 & H1). exists N1, ns1. split; [done|].
  intros n Hn. unfold se_bind. by rewrite H1.
Qed.

(** Calls do not panic. *)
Lemma calls_result mem k r mem' : calls m mem k r mem' -> match r with Fail _ => False | _ => True end.
Proof. intros H. inversion H as [mt actuals o f| | |]; try done. by destruct o. Qed.

(** A call without arguments. *)
Lemma invoke_leads mem p r mem' : calls m mem (MkCall p []) r mem' ->
  leads (fun n => invoke n (abs p) args_empty) mem r mem'.
Proof.
  intros H c Hm Hq. destruct (call_refines m Hprog Hlinked mem _ r mem' c H Hm Hq) as (N & ns' & Hm' & HN).
  exists N, ns'. split; [done|]. intros n Hn. specialize (HN n Hn). pose proof (calls_result _ _ _ _ H) as Hr.
  unfold evaluate, se_try, se_bind, se_lift in HN. cbn in HN.
  change [None; None; None; None; None; None; None] with args_empty in HN.
  destruct (invoke n (abs p) args_empty c), r; by simplify_eq.
Qed.

Lemma device_method_leads name s mem p r mem' : name_lit (E := AmlError) name = Ok [Segment s] ->
  calls m mem (MkCall (p ++ [s]) []) r mem' ->
  leads (fun n => invoke_device_method n name (abs p)) mem r mem'.
Proof.
  intros Hn H c Hm Hq. destruct (invoke_leads _ _ _ _ H c Hm Hq) as (N & ns' & Hm' & HN).
  exists N, ns'. split; [done|]. intros n Hle. unfold invoke_device_method, se_bind at 1 2, se_lift at 1 2.
  by rewrite Hn, resolve_seg, HN.
Qed.

(** What a level of the tree tells about the maps. *)
Definition level_view (p : list NameSeg) (l : NamespaceLevel) : Prop :=
  f_levels m !! p = Some (level_typ l) /\ forall s, f_names m !! (p ++ [s]) = bt_get s (values l).

Lemma has_value_leads name s p l mem : seg_from_str name = Ok s -> level_view p l ->
  leads (fun _ => has_value l name) mem (Ok (bool_decide (is_Some (f_names m !! (p ++ [s]))))) mem.
Proof.
  intros Hn [_ Hv] c Hm Hq. exists 0%nat, (namespace c). split; [done|]. intros n _.
  rewrite set_namespace_same. unfold has_value, se_bind, se_lift. rewrite Hn. cbn. rewrite Hv.
  by destruct (bt_get s (values l)).
Qed.

(** The status of a device. *)
Lemma status_leads p l mem r mem' : level_view p l -> status_of m p mem r mem' ->
  leads (fun n => if bool_decide (is_Some (f_names m !! (p ++ [sta]))) then
      let! sta := invoke_device_method n (bstr "_STA") (abs p) in se_lift (as_status sta)
    else se_ret default_status) mem r mem'.
Proof.
  intros Hl [Hs|r' mem1 Hs Hcall].
  - rewrite Hs, bool_decide_false by (by intros []). apply (leads_ret (Ok default_status)).
  - rewrite bool_decide_true by done. pose proof (calls_result _ _ _ _ Hcall) as Hr.
    apply (device_method_leads (bstr "_STA")) in Hcall; [|reflexivity].
    destruct r' as [v|e|]; [|by apply leads_bind_err|done].
    eapply leads_bind; [done|]. apply leads_ret.
Qed.

(** What the closure of the traversal does at a level. *)
Lemma visits_leads p l mem r mem' : level_view p l -> visits m p mem r mem' ->
  leads (fun n => initialize_level n (abs p) l) mem r mem'.
Proof.
  intros Hl H. pose proof Hl as [Ht _]. unfold initialize_level.
  destruct H as [typ Hp Hd|e mem1 Hp Hst|st mem1 r mem2 Hp Hst Hpr Hini Hcall|st mem1 Hp Hst Hini];
    rewrite Hp in Ht; injection Ht as Ht; rewrite <-Ht.
  { destruct typ; try done; apply (leads_ret (Ok _)). }
  all: eapply leads_bind; [by apply (has_value_leads (bstr "_STA") sta p)|].
  - by apply leads_bind_err, (status_leads p l).
  - eapply leads_bind; [by apply (status_leads p l)|].
    eapply leads_bind; [by apply (has_value_leads (bstr "_INI") ini p)|].
    rewrite Hpr, bool_decide_true by done. pose proof (calls_result _ _ _ _ Hcall) as Hr.
    apply (device_method_leads (bstr "_INI")) in Hcall; [|reflexivity]. cbn [andb orb].
    destruct r as [v|e|]; [|by do 2 apply leads_bind_err|done].
    eapply leads_bind; [|apply (leads_ret (Ok true))].
    eapply leads_bind; [done|]. apply (leads_ret (Ok tt)).
  - eapply leads_bind; [by apply (status_leads p l)|].
    eapply leads_bind; [by apply (has_value_leads (bstr "_INI") ini p)|].
    replace (present st && _) with false; [apply (leads_ret (Ok _))|].
    destruct Hini as [->| ->]; [done|]. rewrite bool_decide_false by (by intros []). by destruct (present st).
Qed.

(** * The traversal *)

(** The walk over a list goes on to [rest], or ends with an error before. *)
Definition goes (run : nat -> SE AmlContext AmlError unit) (rest : list (list NameSeg)) (mem : memory)
    (r : result AmlError unit) (mem' : memory) : Prop :=
  (exists mem1, leads run mem (Ok tt) mem1 /\ walk m rest mem1 r mem') \/
  (exists e, r = Err e /\ leads run mem (Err e) mem').

Lemma goes_after {A} (x : nat -> SE AmlContext AmlError A) (y : nat -> A -> SE AmlContext AmlError unit)
    mem a mem1 rest r mem2 :
  leads x mem (Ok a) mem1 -> goes (fun n => y n a) rest mem1 r mem2 ->
  goes (fun n => se_bind (x n) (y n)) rest mem r mem2.
Proof.
  intros Hx [(mem' & Hy & Hw)|(e & -> & Hy)]; [left; exists mem'|right; exists e].
  - split; [|done]. by eapply leads_bind.
  - split; [done|]. by eapply leads_bind.
Qed.

Lemma goes_then (x y : nat -> SE AmlContext AmlError unit) rest1 rest mem r mem' :
  goes x rest1 mem r mem' -> (forall mem1, walk m rest1 mem1 r mem' -> goes y rest mem1 r mem') ->
  goes (fun n => do! x n in y n) rest mem r mem'.
Proof.
  intros [(mem1 & Hx & Hw)|(e & -> & Hx)] Hy.
  - by eapply goes_after; [|apply Hy].
  - right. exists e. split; [done|]. by apply leads_bind_err.
Qed.

(** The loop over the children of a level. *)
Definition each_child (f : AmlName -> NamespaceLevel -> SE AmlContext AmlError bool) (scope : AmlName) :=
  fix go (cs : list (NameSeg * NamespaceLevel)) : SE AmlContext AmlError unit :=
    match cs with
    | [] => se_ret tt
    | (name, child) :: cs =>
        let! name := se_lift (resolve (from_name_seg name) scope) in
        let! traverse_children := f name child in
        do! (if traverse_children : bool then traverse_level f child name else se_ret tt) in
        go cs
    end.

Lemma traverse_level_eq f l scope : traverse_level f l scope = each_child f scope (children l).
Proof. by destruct l. Qed.

Lemma filter_below p (below rest : list (list NameSeg)) : Forall (fun q => ¬ p `prefix_of` q) rest ->
  filter (fun q => ¬ p `prefix_of` q) (map (app p) below ++ rest) = rest.
Proof.
  intros H. rewrite filter_app. induction below as [|q below IH]; cbn [map].
  - cbn. induction H as [|q rest Hq _ IH]; [done|]. by rewrite filter_cons_True, IH.
  - rewrite filter_cons_False; [done|]. intros Hq. apply Hq. by apply prefix_app_r.
Qed.

(** The levels of a tree at a path are as the maps say. *)
Definition tree_view (p : list NameSeg) (l : NamespaceLevel) : Prop :=
  tree_ordered l /\ forall q l', level_at l q = Some l' -> level_view (p ++ q) l'.

Lemma tree_view_child p l s c : tree_view p l -> (s, c) ∈ children l -> tree_view (p ++ [s]) c.
Proof.
  intros [Ho Hv] Hc. apply tree_ordered_children in Ho as [Ho Ho']. apply bt_get_elem in Hc; [|done].
  split; [by eauto|]. intros q l' Hq. rewrite <-app_assoc. apply Hv. cbn. by rewrite Hc.
Qed.

Lemma paths_below_cons p s c cs :
  map (app p) (paths_below ((s, c) :: cs)) =
  (p ++ [s]) :: map (app (p ++ [s])) (paths_below (children c)) ++ map (app p) (paths_below cs).
Proof.
  cbn. rewrite paths_eq. cbn. f_equal. rewrite map_app, map_map. f_equal. apply map_ext. intros q.
  by rewrite <-app_assoc.
Qed.

(** What comes after the levels below a child is not below it. *)
Lemma not_below p s cs rest : Forall (fun sc : NameSeg * NamespaceLevel => seg_key s < seg_key sc.1) cs ->
  Forall (fun q => ¬ p `prefix_of` q) rest ->
  Forall (fun q => ¬ (p ++ [s]) `prefix_of` q) (map (app p) (paths_below cs) ++ rest).
Proof.
  intros Hs Hrest. apply Forall_app. split.
  - apply Forall_map, Forall_forall. intros q Hq [r E]. rewrite <-app_assoc in E. apply app_inv_head in E as ->.
    by destruct (paths_below_above (seg_key s) cs Hs r _ Hq s eq_refl) as [_ []].
  - eapply Forall_impl; [exact Hrest|]. intros q Hq [r ->]. apply Hq. rewrite <-app_assoc. by apply prefix_app_r.
Qed.

(** The traversal of a level walks over the levels below it, in order. *)
Lemma traverse_level_goes l : forall p rest mem r mem', tree_view p l ->
  Forall (fun q => ¬ p `prefix_of` q) rest ->
  walk m (map (app p) (paths_below (children l)) ++ rest) mem r mem' ->
  goes (fun n => traverse_level (initialize_level n) l (abs p)) rest mem r mem'.
Proof.
  induction l as [t cs vs IH] using level_nested_ind. intros p rest mem r mem' Hv Hrest Hw.
  assert (Forall (fun sc => tree_view (p ++ [sc.1]) sc.2) cs) as Hviews.
  { apply Forall_forall. intros [s c] Hc. by apply (tree_view_child p (MkLevel t cs vs)). }
  assert (bt_ordered cs) as Ho by by destruct Hv as [[? _]%tree_ordered_children _].
  enough (goes (fun n => each_child (initialize_level n) (abs p) cs) rest mem r mem') as H.
  { destruct H as [(mem1 & H & ?)|(e & ? & H)]; [left; exists mem1|right; exists e]; split; try done. }
  cbn [children] in Hw. clear Hv t vs. revert mem Hw.
  induction Ho as [|[s c] cs Ho IHcs Hs]; intros mem Hw.
  { left. exists mem. split; [apply (leads_ret (Ok tt))|done]. }
  apply Forall_cons in IH as [IHc IH]. apply Forall_cons in Hviews as [Hc Hviews].
  specialize (IHcs IH Hviews). cbn [fst snd] in *. rewrite paths_below_cons in Hw. cbn [app] in Hw.
  rewrite <-app_assoc in Hw. pose proof (not_below p s cs rest Hs Hrest) as Hnot.
  assert (level_view (p ++ [s]) c) as Hview.
  { destruct Hc as [_ Hc]. specialize (Hc [] c eq_refl). by rewrite app_nil_r in Hc. }
  eapply goes_after.
  { replace (resolve (from_name_seg s) (abs p)) with (@Ok AmlError _ (abs (p ++ [s]))) by (by rewrite <-resolve_seg).
    apply (leads_ret (Ok _)). }
  inversion Hw as [|q ps mem0 mem1 r' mem2 Hvis Hw'|q ps mem0 mem1 r' mem2 Hvis Hw'|q ps mem0 e mem1 Hvis]; subst.
  - eapply goes_after; [by apply visits_leads|]. eapply goes_then; [by apply IHc|]. apply IHcs.
  - eapply goes_after; [by apply visits_leads|]. rewrite filter_below in Hw' by done.
    eapply goes_after; [apply (leads_ret (Ok tt))|]. by apply IHcs.
  - right. exists e. split; [done|]. by apply leads_bind_err, visits_leads.
Qed.

(** The walk over all levels of a namespace that implements the maps. *)
Lemma traverse_leads ns mem0 mem r mem' : models ns (flat_memory mem0 m) -> walk m (level_order m) mem r mem' ->
  leads (fun n => traverse (initialize_level n) ns) mem r mem'.
Proof.
  intros Hns Hw. change (level_order m) with (level_order (flat_memory mem0 m)) in Hw.
  rewrite (level_order_paths ns) in Hw by done. destruct Hns as (Hl & Hk & _ & _ & _ & Ho).
  assert (tree_view [] (root_level ns)) as Hv.
  { split; [done|]. intros q l' Hq. split; [|intros s].
    - specialize (Hl q). unfold ns_level in Hl. by rewrite Hq in Hl.
    - specialize (Hk q s). unfold ns_lookup in Hk. by rewrite Hq in Hk. }
  pose proof (proj2 Hv [] _ eq_refl) as Hroot. rewrite paths_eq in Hw. unfold traverse.
  inversion Hw as [|q ps mem1 mem2 r' mem3 Hvis Hw'|q ps mem1 mem2 r' mem3 Hvis Hw'|q ps mem1 e mem2 Hvis]; subst.
  - eapply leads_bind; [by apply (visits_leads [])|].
    rewrite <-(app_nil_r (paths_below _)), <-(map_id (paths_below _)) in Hw'.
    destruct (traverse_level_goes _ [] [] _ _ _ Hv (Forall_nil_2 _) Hw') as [(mem3 & H & Hend)|(e & -> & H)];
      [|done]. by inversion Hend; subst.
  - eapply leads_bind; [by apply (visits_leads [])|].
    rewrite <-(app_nil_r (paths_below _)), <-(map_id (paths_below _)), filter_below in Hw' by constructor.
    inversion Hw'; subst. apply (leads_ret (Ok tt)).
  - by apply leads_bind_err, (visits_leads []).
Qed.

Lemma initialize_leads mem r mem' : initializes m mem r mem' -> leads initialize_objects mem r mem'.
Proof.
  intros H. assert (forall r1 mem1, calls m mem (MkCall [seg_SB; ini] []) r1 mem1 ->
    leads (fun n => se_try (invoke n (abs [seg_SB; ini]) args_empty)) mem (Ok r1) mem1) as Hini.
  { intros r1 mem1 Hcall c Hm Hq. destruct (invoke_leads _ _ _ _ Hcall c Hm Hq) as (N & ns & Hns & HN).
    exists N, ns. split; [done|]. intros n Hn. unfold se_try. rewrite HN by done.
    apply calls_result in Hcall. by destruct r1. }
  unfold initialize_objects. destruct H as [r1 mem1 r' mem2 Hcall Hr Hw|e mem1 Hcall He].
  - eapply leads_bind; [apply (leads_ret (Ok (abs [seg_SB; ini])))|].
    eapply leads_bind; [by apply Hini|]. eapply leads_bind.
    { destruct r1 as [v|[]|]; try done; apply (leads_ret (Ok tt)). }
    intros c Hm Hq. exact (traverse_leads (namespace c) mem1 mem1 _ _ Hm Hw c Hm Hq).
  - eapply leads_bind; [apply (leads_ret (Ok (abs [seg_SB; ini])))|].
    eapply leads_bind; [by apply Hini|]. apply leads_bind_err.
    destruct e; try done; apply (leads_ret (Err _)).
Qed.

(** C6: The initialization of devices is the walk: [\_SB._INI] runs first, if there is
    one; then the levels are visited in the order of their paths, a device says by its
    [_STA] whether it is present and functional, its [_INI] runs when it is present, and
    what is below it is left out when it is neither; each method finds the memory that
    the methods before it left, and the first error ends the walk. *)
Theorem initialize_objects_correct (mem mem' : memory) (r : result AmlError unit) (c : AmlContext) :
  initializes m mem r mem' -> models (namespace c) (flat_memory mem m) -> quiet c ->
  exists N ns', models ns' (flat_memory mem' m) /\
    forall n, (N <= n)%nat -> initialize_objects n c = se_lift r (set_namespace ns' c).
Proof. intros H. by apply initialize_leads. Qed.
End Devices.
