(* ===== verification/Startup.v ===== *)
(** The life of a context: definition blocks are loaded into it, the devices that they
    declare are initialized, and then methods are called and objects are read. *)
From S2P Require Import Prelude Types Names Namespace Ordered Env RustStd Context Value Parser.
From S2P Require Import PkgLength Opcode NameObject Grammar Expression Statement TermObject.
From S2P Require Import Interp Sample Program Flat Preorder Declarations Fuel Denotation First Calculus.
From S2P Require Import Memory EvalCorrect StmtCorrect ExecCorrect Method DataCorrect TableCorrect Load.
From S2P Require Import Session Devices.
#[local] Open Scope Z_scope.

Section Startup.
Context {env : AmlEnv} {natives : UserNatives} {prog : Program}.

(** What a user of the library does with the context, in one computation. *)
Definition start_up (n : nat) (bs : list bytes) (k : nat) (ks : list call)
    : SE AmlContext AmlError (list (result AmlError AmlValue)) :=
  do! load n bs in
  do! initialize_objects k in
  se_map (evaluate k) ks.

(** C1: From tables to results: after definition blocks were loaded into a new context,
    linked a program there and had their devices initialized, any sequence of calls gives
    what the structured execution of the methods gives, which call each other and share
    a memory, each from the memory that the initialization and the calls before it left;
    and the namespace is, at the end, what the tables declare, with that memory. *)
Theorem start_up_correct (n : nat) (dss : list (list decl)) (bs : list bytes) (h : hw) (w : world flat)
    (ks : list call) (rs : list (result AmlError AmlValue)) (mem mem1 mem2 : memory) :
  Forall2 (encodes n) dss bs ->
  declare_all (concat dss) (MkWorld predefined [] []) = SOk tt w ->
  program_ok -> flat_linked (w_names w) -> holds mem (f_objects (w_names w)) ->
  initializes (w_names w) mem (Ok tt) mem1 ->
  session (w_names w) mem1 ks rs mem2 ->
  exists c ns N, new_context h VbNone = Ok c /\ models ns (flat_memory mem2 (w_names w)) /\
    forall k, (N <= k)%nat ->
      start_up n bs k ks c = SOk rs (set_namespace ns (set_buffers (w_buffers w) c)).
Proof.
  intros Hbs Hw Hp Hlk Hh Hi Hs.
  destruct (loaded n dss bs h w mem Hbs Hw Hh) as (c & ns1 & Hc & Hq & Hns1 & Hl).
  destruct (initialize_leads _ Hp Hlk mem _ mem1 Hi (set_namespace ns1 (set_buffers (w_buffers w) c)) Hns1 Hq)
    as (N1 & ns2 & Hns2 & H1).
  destruct (session_refines _ Hp Hlk mem1 ks rs mem2 (set_namespace ns2 (set_buffers (w_buffers w) c)) Hs Hns2 Hq)
    as (N2 & ns & Hns & H2).
  exists c, ns, (max N1 N2). split; [done|]. split; [done|]. intros k Hk. unfold start_up, se_bind. rewrite Hl.
  rewrite H1 by lia. cbn. by rewrite H2 by lia.
Qed.
End Startup.

(** * Devices that are initialized *)

(** [Name(VAL_, 14)  Device(DEVA) { Method(_INI) { VAL_++ } }
    Device(DEVB) { Method(_STA) { Return(VAL_) }  Method(_INI) { VAL_++ } }
    Device(DEVC) { Name(_STA, 0)  Method(_INI) { VAL_++ }  Device(DEVD) { Method(_INI) { VAL_++ } } }] *)
Definition deva : NameSeg := MkSeg x44 x45 x56 x41.
Definition devb : NameSeg := MkSeg x44 x45 x56 x42.
Definition devc : NameSeg := MkSeg x44 x45 x56 x43.
Definition devd : NameSeg := MkSeg x44 x45 x56 x44.

Definition ini_body : bytes := [x75; x56; x41; x4c; x5f].
Definition ini_stmts : list stmt := [SExpr (EIncrement (SlotName (here val_)))].
Definition sta_body : bytes := [xa4; x56; x41; x4c; x5f].
Definition sta_stmts : list stmt := [SReturn (ESlot (SlotName (here val_)))].

Definition ini_decl : decl := DefMethod (here ini) x00 ini_body.
Definition deva_decl : decl := DefBlock BDevice (here deva) [ini_decl].
Definition devb_decl : decl := DefBlock BDevice (here devb) [DefMethod (here sta) x00 sta_body; ini_decl].
Definition devd_decl : decl := DefBlock BDevice (here devd) [ini_decl].
Definition devc_decl : decl := DefBlock BDevice (here devc) [DefName (here sta) (DInt 0); ini_decl; devd_decl].
Definition devices_decls : list decl := [DefName (here val_) (DInt 14); deva_decl; devb_decl; devc_decl].

Definition ini_bytes : bytes := [x14; x0b; x5f; x49; x4e; x49; x00] ++ ini_body.
Definition deva_bytes : bytes := [x5b; x82; x11; x44; x45; x56; x41] ++ ini_bytes.
Definition devb_bytes : bytes :=
  [x5b; x82; x1d; x44; x45; x56; x42] ++ ([x14; x0b; x5f; x53; x54; x41; x00] ++ sta_body) ++ ini_bytes.
Definition devd_bytes : bytes := [x5b; x82; x11; x44; x45; x56; x44] ++ ini_bytes.
Definition devc_bytes : bytes :=
  [x5b; x82; x2b; x44; x45; x56; x43] ++ [x08; x5f; x53; x54; x41; x0a; x00] ++ ini_bytes ++ devd_bytes.
Definition devices_bytes : bytes :=
  [x08; x56; x41; x4c; x5f; x0a; x0e] ++ deva_bytes ++ devb_bytes ++ devc_bytes.

Lemma method_enc after s code b : b = pkg_bytes 0 (Z.of_nat (1 + length (ref_bytes (here s) ++ x00 :: code))) ++
    ref_bytes (here s) ++ x00 :: code ->
  ref_ok (here s) = true -> pkg_fits 0 (Z.of_nat (1 + length (ref_bytes (here s) ++ x00 :: code))) = true ->
  enc_decl after (DefMethod (here s) x00 code) (DEF_METHOD_OP :: b).
Proof. intros -> Hs Hfits. by apply enc_DefMethod; [|apply (enc_pkg 0)]. Qed.

Lemma device_enc after s body bs b : b = pkg_bytes 0 (Z.of_nat (1 + length (ref_bytes (here s) ++ bs))) ++
    ref_bytes (here s) ++ bs ->
  ref_ok (here s) = true -> pkg_fits 0 (Z.of_nat (1 + length (ref_bytes (here s) ++ bs))) = true ->
  enc_decls after body bs -> enc_decl after (DefBlock BDevice (here s) body) (block_op BDevice ++ b).
Proof. intros -> Hs Hfits Hb. by eapply enc_DefBlock; [| |exact Hb|apply (enc_pkg 0)]. Qed.

Lemma byte_name_enc after s z : ref_ok (here s) = true -> is_u8 z ->
  enc_decl after (DefName (here s) (DInt z)) (DEF_NAME_OP :: ref_bytes (here s) ++ BYTE_CONST :: to_le_bytes 1 z).
Proof. intros Hs Hz. by apply enc_DefName, enc_DInt, enc_byte. Qed.

Lemma ini_enc after : enc_decl after ini_decl ini_bytes.
Proof. by apply method_enc. Qed.
Lemma only_ini_enc after : enc_decls after [ini_decl] ini_bytes.
Proof. apply (enc_decls_cons after _ [] ini_bytes []); [apply ini_enc|constructor]. Qed.

Lemma devices_enc : enc_decls 0 devices_decls devices_bytes.
Proof.
  assert (forall z, 0 <= z < 256 -> is_u8 z) as Hz by (intros z H; exact H).
  apply (enc_decls_cons 0 _ [deva_decl; devb_decl; devc_decl] [x08; x56; x41; x4c; x5f; x0a; x0e]
    (deva_bytes ++ devb_bytes ++ devc_bytes)).
  { apply (byte_name_enc _ val_ 14); [done|]. apply Hz. lia. }
  apply (enc_decls_cons 0 _ [devb_decl; devc_decl] deva_bytes (devb_bytes ++ devc_bytes)).
  { by apply (device_enc _ deva _ ini_bytes); [..|apply only_ini_enc]. }
  apply (enc_decls_cons 0 _ [devc_decl] devb_bytes devc_bytes).
  { apply (device_enc _ devb _ (([x14; x0b; x5f; x53; x54; x41; x00] ++ sta_body) ++ ini_bytes)); [done..|].
    apply (enc_decls_cons _ _ [ini_decl] _ ini_bytes); [by apply method_enc|apply only_ini_enc]. }
  apply (enc_decls_cons 0 _ [] devc_bytes []); [|constructor].
  apply (device_enc _ devc _ ([x08; x5f; x53; x54; x41; x0a; x00] ++ ini_bytes ++ devd_bytes)); [done..|].
  apply (enc_decls_cons _ _ [ini_decl; devd_decl] _ (ini_bytes ++ devd_bytes)).
  { apply (byte_name_enc _ sta 0); [done|]. apply Hz. lia. }
  apply (enc_decls_cons _ _ [devd_decl] ini_bytes devd_bytes); [apply ini_enc|].
  apply (enc_decls_cons _ _ [] devd_bytes []); [|constructor].
  by apply (device_enc _ devd _ ini_bytes); [..|apply only_ini_enc].
Qed.

Lemma devices_encode : Forall2 (encodes 5) [devices_decls] [devices_bytes].
Proof.
  apply Forall2_cons_2; [|constructor].
  split; [apply devices_enc|]. split; [done|]. split; [apply Nat.ltb_lt|]; reflexivity.
Qed.

(** What the table declares, on the maps. *)
Definition devices_declared : sres (world flat) AmlError unit :=
  @declare_all target_debug flat (@flat_ops target_debug) (concat [devices_decls])
    (MkWorld (@predefined env_debug) [] []).
Definition devices_world : world flat :=
  match devices_declared with
  | SOk _ w => w
  | _ => MkWorld flat_empty [] []
  end.
Definition devices : flat := w_names devices_world.

Lemma devices_world_ok : devices_declared = SOk tt devices_world.
Proof.
  assert (match devices_declared with SOk _ _ => true | _ => false end = true) as H
    by (vm_compute; reflexivity).
  unfold devices_world. by destruct devices_declared as [[] w| |].
Qed.

(** The program: [\VAL_] is the fourth object, and the methods of the devices use it. *)
Definition device_method (p : list NameSeg) (code : bytes) (ss : list stmt) : method :=
  MkMethod p (MkMethodFlags x00) 0 code ss {| bindings := [(here val_, 3)]; callees := [] |}.
Definition ini_method (p : list NameSeg) : method := device_method (p ++ [ini]) ini_body ini_stmts.
Definition sta_method (p : list NameSeg) : method := device_method (p ++ [sta]) sta_body sta_stmts.
#[local] Instance devices_program : Program := {|
  p_handles := [3];
  p_methods := [ini_method [deva]; sta_method [devb]; ini_method [devb]; ini_method [devc];
    ini_method [devc; devd]] |}.
Definition val_memory (z : Z) : memory := {[ 3 := NInt z ]}.

Lemma ini_ok {prog : Program} p : @enc_list prog (m_bound (ini_method p)) ini_stmts ini_body.
Proof.
  apply (enc_cons _ [] ini_body []); [|constructor|done]. apply enc_SExpr; [|done].
  by apply (enc_EIncrement (SlotName (here val_))).
Qed.

Lemma sta_ok {prog : Program} p : @enc_list prog (m_bound (sta_method p)) sta_stmts sta_body.
Proof.
  apply (enc_cons _ [] sta_body []); [|constructor|done]. apply enc_SReturn.
  by apply (enc_ESlot (SlotName (here val_))).
Qed.

Lemma devices_program_ok : @program_ok env_debug devices_program.
Proof.
  repeat apply Forall_cons_2; [split; [apply ini_ok || apply sta_ok|split; reflexivity]..|constructor].
Qed.

Lemma device_method_linked p code ss h : h <> 3 ->
  flat_get_handle devices p = Ok h ->
  f_objects devices !! h = Some (VMethod (MkMethodFlags x00) (Aml code)) ->
  f_levels devices !! p = None -> flat_search devices (here val_) p = Ok ([val_], 3) ->
  @flat_method_linked devices_program devices (device_method p code ss).
Proof.
  intros Hh Hg Ho Hl Hv. split_and!; [|exact Hl| |].
  - exists h. split; [exact Hg|]. split; [|exact Ho]. intros E. exact (Hh (proj1 (list_elem_of_singleton h 3) E)).
  - constructor; [|constructor]. split; [left|]. exists [val_]. exact Hv.
  - constructor.
Qed.

Lemma devices_linked : @flat_linked devices_program devices.
Proof.
  split; [constructor; [|constructor]; vm_compute; by eexists|].
  repeat apply Forall_cons_2; [..|constructor].
  - by apply (device_method_linked _ ini_body _ 5); [|vm_compute; reflexivity..].
  - by apply (device_method_linked _ sta_body _ 7); [|vm_compute; reflexivity..].
  - by apply (device_method_linked _ ini_body _ 8); [|vm_compute; reflexivity..].
  - by apply (device_method_linked _ ini_body _ 11); [|vm_compute; reflexivity..].
  - by apply (device_method_linked _ ini_body _ 13); [|vm_compute; reflexivity..].
Qed.

(** The methods run: [_INI] counts, and [_STA] gives the count. *)
Lemma ini_calls p z : ini_method p ∈ @p_methods devices_program -> 0 <= z < 255 ->
  @calls target_debug devices_program devices (val_memory z) (MkCall (p ++ [ini]) []) (Ok (VInteger 0))
    (val_memory (z + 1)).
Proof.
  intros Hp Hz. set (mt := ini_method p).
  apply (@calls_method target_debug devices_program devices (val_memory z) mt [] Normal
    (call_frame [] (val_memory (z + 1)))); [exact Hp|apply Nat.leb_le; reflexivity|].
  eapply exec_cons; [eapply (exec_expr _ []); [apply performed_nil|]|apply exec_nil].
  cbn [eval]. unfold se_bind, slot_get, slot_put, se_lift, se_ret.
  change (@binding _ (here val_)) with (Some (A := AmlHandle) 3). cbn [f_memory call_frame].
  change (recall (val_memory z) 3) with (NInt z).
  change (int (NInt z)) with z. unfold add_w, checked.
  rewrite (proj2 (Z.leb_le 0 (z + 1))) by lia. rewrite (proj2 (Z.ltb_lt (z + 1) _)) by (cbn; lia).
  reflexivity.
Qed.

Lemma sta_calls z :
  @calls target_debug devices_program devices (val_memory z) (MkCall [devb; sta] []) (Ok (VInteger z)) (val_memory z).
Proof.
  apply (@calls_method target_debug devices_program devices (val_memory z) (sta_method [devb]) [] (Returned (NInt z))
    (call_frame [] (val_memory z))); [right; left|apply Nat.leb_le; reflexivity|].
  apply exec_stop; [|done]. apply (exec_return _ []); [apply performed_nil|reflexivity].
Qed.

(** Reading an object. *)
Lemma read_calls mem p v : flat_get (@flat_memory devices_program mem devices) p = Ok v ->
  (forall flags code, v <> VMethod flags code) ->
  @calls target_debug devices_program devices mem (MkCall p []) (Ok v) mem.
Proof. intros Hg Hv. apply calls_object; [exact Hg|exact Hv|apply Nat.leb_le; reflexivity]. Qed.

#[local] Instance debug_bits : BitField := @env_bitfield env_debug.
#[local] Instance debug_build : Target := target_debug.

Lemma walk_scope p ps mem r mem' : f_levels devices !! p = Some LScope ->
  walk devices ps mem r mem' -> walk devices (p :: ps) mem r mem'.
Proof. intros Hp. apply walk_into. by apply (visit_other devices p mem LScope). Qed.

Lemma status_says p mem v st mem' : is_Some (f_names devices !! (p ++ [sta])) ->
  calls devices mem (MkCall (p ++ [sta]) []) (Ok v) mem' -> as_status v = Ok st ->
  status_of devices p mem (Ok st) mem'.
Proof. intros Hs Hc <-. by apply (status_asked devices p mem (Ok v)). Qed.

(** [DEVA] has no [_STA] and is initialized: [VAL_] is 15, which says that [DEVB] is
    present and functional, so it is initialized as well; [DEVC] is not, and so neither
    is [DEVD]. *)
Lemma devices_initialize : initializes devices (val_memory 14) (Ok tt) (val_memory 16).
Proof.
  apply (initializes_all devices (val_memory 14) (Err (ValueDoesNotExist (abs [seg_SB; ini]))) (val_memory 14));
    [apply calls_nothing; [vm_compute; reflexivity|apply Nat.leb_le; reflexivity]|exact I|].
  assert (level_order devices = [[]; [deva]; [devb]; [devc]; [devc; devd]; [seg_GPE]; [seg_PR]; [seg_SB]; [seg_SI]; [seg_TZ]])
    as -> by (vm_compute; reflexivity).
  apply walk_scope; [vm_compute; reflexivity|].
  apply (walk_into _ _ _ _ (val_memory 15)).
  { apply (visit_initialized devices [deva] (val_memory 14) default_status (val_memory 14) (Ok (VInteger 0))).
    - vm_compute. reflexivity.
    - apply status_default. vm_compute. reflexivity.
    - reflexivity.
    - vm_compute. by eexists.
    - apply (ini_calls [deva] 14); [left|lia]. }
  apply (walk_into _ _ _ _ (val_memory 16)).
  { apply (visit_initialized devices [devb] (val_memory 15) (MkStatus true true true true false) (val_memory 15) (Ok (VInteger 0))).
    - vm_compute. reflexivity.
    - apply (status_says [devb] _ (VInteger 15)); [vm_compute; by eexists|apply sta_calls|vm_compute; reflexivity].
    - reflexivity.
    - vm_compute. by eexists.
    - apply (ini_calls [devb] 15); [right; right; left|lia]. }
  apply (walk_past _ _ _ _ (val_memory 16)).
  { apply (visit_device devices [devc] (val_memory 16) (MkStatus false false false false false) (val_memory 16)).
    - vm_compute. reflexivity.
    - apply (status_says [devc] _ (VInteger 0)); [vm_compute; by eexists| |vm_compute; reflexivity].
      apply read_calls; [vm_compute; reflexivity|done].
    - by left. }
  assert (filter (fun q => ¬ [devc] `prefix_of` q) [[devc; devd]; [seg_GPE]; [seg_PR]; [seg_SB]; [seg_SI]; [seg_TZ]] =
    [[seg_GPE]; [seg_PR]; [seg_SB]; [seg_SI]; [seg_TZ]]) as -> by (vm_compute; reflexivity).
  do 5 (apply walk_scope; [vm_compute; reflexivity|]). apply walk_end.
Qed.

(** Then [DEVB._STA] gives 16, [DEVD._INI] counts once more, [VAL_] is 17, and there is
    no [DEVA._STA]. *)
Definition startup_calls : list call :=
  [MkCall [devb; sta] []; MkCall [devc; devd; ini] []; MkCall [val_] []; MkCall [deva; sta] []].
Definition startup_results : list (result AmlError AmlValue) :=
  [Ok (VInteger 16); Ok (VInteger 0); Ok (VInteger 17); Err (ValueDoesNotExist (abs [deva; sta]))].

Lemma startup_session : session devices (val_memory 16) startup_calls startup_results (val_memory 17).
Proof.
  econstructor; [apply sta_calls|].
  econstructor; [apply (ini_calls [devc; devd] 16); [do 4 right; left|lia]|].
  econstructor; [apply read_calls; [vm_compute; reflexivity|done]|].
  econstructor; [apply calls_nothing; [vm_compute; reflexivity|apply Nat.leb_le; reflexivity]|].
  constructor.
Qed.

Lemma devices_hold : holds (val_memory 14) (f_objects devices).
Proof. constructor; [vm_compute; reflexivity|constructor]. Qed.

Lemma start_up_correct_witness : exists c ns N, @new_context env_debug ∅ VbNone = Ok c /\
  models ns (flat_memory (val_memory 17) devices) /\
  forall k, (N <= k)%nat ->
    @start_up env_debug sample_natives 5 [devices_bytes] k startup_calls c =
    SOk startup_results (set_namespace ns (set_buffers (w_buffers devices_world) c)).
Proof.
  pose proof (@start_up_correct env_debug sample_natives devices_program 5 [devices_decls] [devices_bytes] ∅
    devices_world startup_calls startup_results (val_memory 14) (val_memory 16) (val_memory 17) devices_encode
    devices_world_ok devices_program_ok devices_linked devices_hold devices_initialize startup_session) as H.
  exact H.
Defined.

Lemma devices_loaded : exists c : @AmlContext env_debug, quiet c /\
  models (namespace c) (flat_memory (val_memory 14) devices).
Proof.
  destruct (@loaded env_debug sample_natives devices_program 5 _ _ ∅ devices_world (val_memory 14) devices_encode
    devices_world_ok devices_hold) as (c & ns & _ & Hq & Hns & _).
  exists (set_namespace ns c). split; [exact Hq|exact Hns].
Qed.

Lemma initialize_objects_correct_witness : exists (c : @AmlContext env_debug) N ns,
  models (namespace c) (flat_memory (val_memory 14) devices) /\
  models ns (flat_memory (val_memory 16) devices) /\
  forall n, (N <= n)%nat -> @initialize_objects env_debug sample_natives n c = SOk tt (set_namespace ns c).
Proof.
  destruct devices_loaded as (c & Hq & Hm).
  destruct (@initialize_objects_correct env_debug sample_natives devices_program devices devices_program_ok
    devices_linked (val_memory 14) (val_memory 16) (Ok tt) c devices_initialize Hm Hq) as (N & ns & Hns & H).
  exists c, N, ns. split; [exact Hm|]. split; [exact Hns|exact H].
Defined.
