(* ===== verification/Tester.v ===== *)
(** [aml_tester] ([aml_tester/src/main.rs]), the tool that compiles the ASL files of a
    directory and parses the AML files. The file system and [iasl] are those of the
    operating system: a class of the operations that the tool uses. Of what it prints, the
    numbers and the line of each file are modelled; printing itself is taken not to fail. *)
From S2P Require Import Prelude Types Names Namespace Env RustStd Context Value Parser.
From S2P Require Import PkgLength NameObject Interp Flat Program Declarations Denotation Calculus Memory ExecCorrect.
From S2P Require Import DataCorrect TableCorrect Load TestUtils.
#[local] Open Scope Z_scope.

(** * Paths *)

(** What is before and after the last dot of a file name. *)
Fixpoint last_dot (s : bytes) : option (bytes * bytes) :=
  match s with
  | [] => None
  | b :: s =>
      match last_dot s with
      | Some (stem, ext) => Some (b :: stem, ext)
      | None => if bool_decide (b = "."%byte) then Some ([], s) else None
      end
  end.

(** [Path::extension] and [Path::with_extension], on the last component of a path. *)
Definition extension (name : bytes) : option bytes :=
  if bool_decide (name = bstr "..") then None
  else match last_dot name with
       | Some (_ :: _, ext) => Some ext
       | _ => None
       end.
Definition with_extension (name ext : bytes) : bytes :=
  match last_dot name with
  | Some (b :: stem, _) => b :: stem ++ bstr "." ++ ext
  | _ => name ++ bstr "." ++ ext
  end.

(** * aml_tester *)

(** The directory that the tool is given, and [iasl]. Files are named by their names in the
    directory. [iasl_version] is whether [iasl -v] succeeds, [iasl] runs it on a file. *)
Class TesterOs := {
  os : Type;
  io_error : Type;
  read_dir : os -> result io_error (list (result io_error bytes));
  is_file : bytes -> os -> bool;
  entry_modified : bytes -> os -> result io_error Z;
  path_modified : bytes -> os -> result io_error Z;
  read_file : bytes -> os -> result io_error bytes;
  iasl_version : SE os io_error bool;
  iasl : bytes -> SE os io_error bool
}.

(** The entries that could be read, with the extension [ext]. *)
Definition with_ext {E} (ext : bytes) (entries : list (result E bytes)) : list bytes :=
  omap (fun entry => match entry with
                     | Ok name => if bool_decide (extension name = Some ext) then Some name else None
                     | _ => None
                     end) entries.

(** The handler of the tool implements nothing. *)
Definition tester_handler : Handler := TestHandler.

(** What is printed: how many ASL files there were to compile, how many of them compiled
    and how many did not; the line of each AML file, with whether it says [OK]; and the
    numbers of those that passed and failed. *)
Record Report := MkReport {
  compiled : option (Z * Z * Z);
  lines : list (bytes * bool);
  results : Z * Z
}.

(** Files are judged in order, up to the first one that panics. *)
Inductive in_turn (judged : bytes -> result unit bool -> Prop) : list bytes -> result unit (list bool) -> Prop :=
  | in_turn_nil : in_turn judged [] (Ok [])
  | in_turn_next file files b bs : judged file (Ok b) -> in_turn judged files (Ok bs) ->
      in_turn judged (file :: files) (Ok (b :: bs))
  | in_turn_later file files b r : judged file (Ok b) -> in_turn judged files (Fail r) ->
      in_turn judged (file :: files) (Fail r)
  | in_turn_stops file files r : judged file (Fail r) -> in_turn judged (file :: files) (Fail r).

Section Tester.
Context {build : AmlEnv} {natives : @UserNatives (with_handler build tester_handler)} {fs : TesterOs}.

(** What the tool is built against. *)
#[local] Instance tool_env : AmlEnv := with_handler build tester_handler.

Abbreviation T := (SE os io_error).

(** Reading the state of the operating system. *)
Definition asks {A} (f : os -> result io_error A) : T A := let! s := se_get in se_lift (f s).

(** [Result::unwrap] on what an operation returns. *)
Definition unwrapped {A} (m : T A) : T A := fun s =>
  match m s with
  | SOk a s => SOk a s
  | SErr _ _ => SFail Panic
  | SFail r => SFail r
  end.

(** [passed + 1] on the [i32]s of the fold. *)
Definition next_i32 (z : Z) : result io_error Z :=
  if z + 1 <? 2 ^ 31 then Ok (z + 1)
  else if overflow_checks then Fail Panic else Ok (z + 1 - 2 ^ 32).

(** Whether there is an AML file that is as new as the ASL file. *)
Definition up_to_date (file : bytes) : T bool :=
  let aml_path := with_extension file (bstr "aml") in
  let! exists_ := se_gets (is_file aml_path) in
  if exists_ then
    let! asl_last_modified := asks (entry_modified file) in
    let! aml_last_modified := asks (path_modified aml_path) in
    se_ret (asl_last_modified <=? aml_last_modified)
  else se_ret false.

(** The loop of [compile_asl_files] over the ASL files. *)
Fixpoint compile_files (asl_files : list bytes) (passed failed : Z) : T (Z * Z) :=
  match asl_files with
  | [] => se_ret (passed, failed)
  | file :: asl_files =>
      let! skip := up_to_date file in
      if skip then compile_files asl_files passed failed
      else
        do! se_lift (assert_ (utf8_valid file)) in
        let! success := iasl file in
        if success then
          let! passed := se_lift (add_w 32 passed 1) in
          compile_files asl_files passed failed
        else
          let! failed := se_lift (add_w 32 failed 1) in
          compile_files asl_files passed failed
  end.

Definition compile_asl_files : T (Z * Z) :=
  let! entries := asks read_dir in
  let asl_files := with_ext (bstr "asl") entries in
  do! match asl_files with
      | [] => se_ret tt
      | _ =>
          let! success := unwrapped iasl_version in
          se_lift (assert_ success)
      end in
  compile_files asl_files 0 0.

Definition AML_TABLE_HEADER_LENGTH : nat := 36.

(** The step of the fold over the AML files, which prints a line and counts. *)
Definition test_file (fuel : nat) (state : list (bytes * bool) * (Z * Z)) (file : bytes)
    : T (list (bytes * bool) * (Z * Z)) :=
  let '(lines, (passed, failed)) := state in
  let! contents := unwrapped (asks (read_file file)) in
  let! context := se_lift (unwrap_ok (new_context (tt : hw) VbNone)) in
  let! table := se_lift (if (AML_TABLE_HEADER_LENGTH <=? length contents)%nat
                         then Ok (drop AML_TABLE_HEADER_LENGTH contents) else Fail Panic) in
  match parse_table fuel table context with
  | SOk _ _ =>
      let! passed := se_lift (next_i32 passed) in se_ret (lines ++ [(file, true)], (passed, failed))
  | SErr _ _ =>
      let! failed := se_lift (next_i32 failed) in se_ret (lines ++ [(file, false)], (passed, failed))
  | SFail r => se_fail r
  end.

Fixpoint test_files (fuel : nat) (aml_files : list bytes) (state : list (bytes * bool) * (Z * Z))
    : T (list (bytes * bool) * (Z * Z)) :=
  match aml_files with
  | [] => se_ret state
  | file :: aml_files =>
      let! state := test_file fuel state file in
      test_files fuel aml_files state
  end.

(** [main]. *)
Definition tester_main (fuel : nat) (no_compile : bool) : T Report :=
  let! compiled :=
    if no_compile then se_ret None
    else
      let! (passed, failed) := compile_asl_files in
      let! all := se_lift (add_w 32 passed failed) in
      se_ret (Some (all, passed, failed)) in
  let! entries := asks read_dir in
  let! (lines, results) := test_files fuel (with_ext (bstr "aml") entries) ([], (0, 0)) in
  se_ret (MkReport compiled lines results).

(** * What the tool is to do *)

(** The file with a stem and an extension. *)
Definition file_named (ext stem : bytes) : bytes := stem ++ bstr "." ++ ext.

(** The stems of the files of a directory that have the extension, in its order; an entry
    that cannot be read is not listed. *)
Inductive listed (ext : bytes) : list (result io_error bytes) -> list bytes -> Prop :=
  | listed_nil : listed ext [] []
  | listed_file stem entries stems : stem <> [] -> listed ext entries stems ->
      listed ext (Ok (file_named ext stem) :: entries) (stem :: stems)
  | listed_other name entries stems : (forall stem, stem <> [] -> name <> file_named ext stem) ->
      listed ext entries stems -> listed ext (Ok name :: entries) stems
  | listed_unreadable entry entries stems : (forall name, entry <> Ok name) ->
      listed ext entries stems -> listed ext (entry :: entries) stems.

(** The AML file of a stem is missing or older than its ASL file. *)
Definition stale (s : os) (stem : bytes) : bool :=
  match is_file (file_named (bstr "aml") stem) s, entry_modified (file_named (bstr "asl") stem) s,
    path_modified (file_named (bstr "aml") stem) s with
  | false, _, _ => true
  | true, Ok asl, Ok aml => aml <? asl
  | _, _, _ => false
  end.

(** Its name is text, and its dates can be read. *)
Definition legible (s : os) (stem : bytes) : Prop :=
  utf8_valid (file_named (bstr "asl") stem) = true /\
  (is_file (file_named (bstr "aml") stem) s = true -> exists asl aml,
     entry_modified (file_named (bstr "asl") stem) s = Ok asl /\
     path_modified (file_named (bstr "aml") stem) s = Ok aml).

(** [iasl] is run on the files in order; it reports for each whether it compiled, or cannot
    be run, which ends all. *)
Inductive runs : list bytes -> os -> sres os io_error (list bool) -> Prop :=
  | runs_nil s : runs [] s (SOk [] s)
  | runs_next file files s b s1 bs s2 :
      iasl file s = SOk b s1 -> runs files s1 (SOk bs s2) -> runs (file :: files) s (SOk (b :: bs) s2)
  | runs_ends file files s b s1 e s2 :
      iasl file s = SOk b s1 -> runs files s1 (SErr e s2) -> runs (file :: files) s (SErr e s2)
  | runs_error file files s e s1 : iasl file s = SErr e s1 -> runs (file :: files) s (SErr e s1).

Definition count (b : bool) (bs : list bool) : Z := Z.of_nat (count_occ Bool.bool_dec bs b).

(** The stale ASL files are compiled, those that are stale when it begins. If there are ASL
    files at all, [iasl] has to be installed. *)
Inductive compilation (s : os) : sres os io_error (list bool) -> Prop :=
  | compilation_no_directory e : read_dir s = Err e -> compilation s (SErr e s)
  | compilation_nothing entries : read_dir s = Ok entries -> listed (bstr "asl") entries [] ->
      compilation s (SOk [] s)
  | compilation_not_installed entries stems : read_dir s = Ok entries -> listed (bstr "asl") entries stems ->
      stems <> [] -> (exists s1, iasl_version s = SOk false s1) \/ (exists e s1, iasl_version s = SErr e s1) ->
      compilation s (SFail Panic)
  | compilation_runs entries stems s1 r : read_dir s = Ok entries -> listed (bstr "asl") entries stems ->
      stems <> [] -> iasl_version s = SOk true s1 ->
      NoDup stems -> Forall (legible s1) stems -> Z.of_nat (length stems) < 2 ^ 32 ->
      runs (map (file_named (bstr "asl")) (List.filter (stale s1) stems)) s1 r ->
      compilation s r.

(** What the table in a file makes of a new context. A file that cannot be read or does not
    hold a header is a panic. *)
Inductive tested (fuel : nat) (s : os) (file : bytes) : result unit bool -> Prop :=
  | tested_ok header table context c : read_file file s = Ok (header ++ table) -> length header = 36%nat ->
      new_context (tt : hw) VbNone = Ok context -> parse_table fuel table context = SOk tt c ->
      tested fuel s file (Ok true)
  | tested_failed header table context e c : read_file file s = Ok (header ++ table) -> length header = 36%nat ->
      new_context (tt : hw) VbNone = Ok context -> parse_table fuel table context = SErr e c ->
      tested fuel s file (Ok false)
  | tested_stops header table context r : read_file file s = Ok (header ++ table) -> length header = 36%nat ->
      new_context (tt : hw) VbNone = Ok context -> parse_table fuel table context = SFail r ->
      tested fuel s file (Fail r)
  | tested_short contents : read_file file s = Ok contents -> (length contents < 36)%nat ->
      tested fuel s file (Fail Panic)
  | tested_unreadable e : read_file file s = Err e -> tested fuel s file (Fail Panic).

#[local] Unset Elimination Schemes.

(** The report on the AML files of the directory, behind that of the compilation. *)
Inductive reported (fuel : nat) (s : os) (compiled : option (Z * Z * Z)) : sres os io_error Report -> Prop :=
  | reported_no_directory e : read_dir s = Err e -> reported fuel s compiled (SErr e s)
  | reported_all entries stems bs : read_dir s = Ok entries -> listed (bstr "aml") entries stems ->
      Z.of_nat (length stems) < 2 ^ 31 ->
      in_turn (tested fuel s) (map (file_named (bstr "aml")) stems) (Ok bs) ->
      reported fuel s compiled
        (SOk (MkReport compiled (zip (map (file_named (bstr "aml")) stems) bs) (count true bs, count false bs)) s)
  | reported_stops entries stems r : read_dir s = Ok entries -> listed (bstr "aml") entries stems ->
      Z.of_nat (length stems) < 2 ^ 31 ->
      in_turn (tested fuel s) (map (file_named (bstr "aml")) stems) (Fail r) ->
      reported fuel s compiled (SFail r).

(** The whole run. *)
Inductive tool_run (fuel : nat) (s : os) : bool -> sres os io_error Report -> Prop :=
  | run_no_compile r : reported fuel s None r -> tool_run fuel s true r
  | run_compiled bs s1 r : compilation s (SOk bs s1) ->
      reported fuel s1 (Some (Z.of_nat (length bs), count true bs, count false bs)) r ->
      tool_run fuel s false r
  | run_not_compiled e s1 : compilation s (SErr e s1) -> tool_run fuel s false (SErr e s1)
  | run_stopped r : compilation s (SFail r) -> tool_run fuel s false (SFail r).

#[local] Set Elimination Schemes.

(** * Lemmas *)

(** ** Names *)

Lemma last_dot_app s stem ext : last_dot s = Some (stem, ext) -> s = stem ++ bstr "." ++ ext.
Proof.
  revert stem ext. induction s as [|b s IH]; intros stem ext; [done|]. cbn [last_dot].
  destruct (last_dot s) as [[stem' ext']|].
  - intros [= <- <-]. by rewrite (IH stem' ext' eq_refl) at 1.
  - case_bool_decide as E; [|done]. intros [= <- <-]. by rewrite E.
Qed.

Lemma last_dot_none s : "."%byte ∉ s -> last_dot s = None.
Proof.
  induction s as [|b s IH]; intros H; [done|]. apply not_elem_of_cons in H as [Hb H]. cbn.
  by rewrite IH, bool_decide_false by congruence.
Qed.

Lemma last_dot_named stem ext : "."%byte ∉ ext -> last_dot (file_named ext stem) = Some (stem, ext).
Proof.
  intros H. unfold file_named. induction stem as [|b stem IH]; cbn [app last_dot] in *; [|by rewrite IH].
  change (bstr "." ++ ext) with ("."%byte :: ext). cbn [last_dot]. by rewrite last_dot_none.
Qed.

(** An extension: not empty, and without a dot. *)
Definition is_ext (ext : bytes) : Prop := ext <> [] /\ "."%byte ∉ ext.

Lemma is_ext_asl : is_ext (bstr "asl").
Proof. split; [done|]. apply (bool_decide_unpack _). vm_compute. exact I. Qed.
Lemma is_ext_aml : is_ext (bstr "aml").
Proof. split; [done|]. apply (bool_decide_unpack _). vm_compute. exact I. Qed.

Lemma extension_named stem ext : is_ext ext -> stem <> [] -> extension (file_named ext stem) = Some ext.
Proof.
  intros [He Hd] Hs. unfold extension. rewrite last_dot_named by done. rewrite bool_decide_false.
  - by destruct stem.
  - intros E. pose proof (last_dot_named stem ext Hd) as E'. rewrite E in E'. by injection E' as _ <-.
Qed.

Lemma extension_inv name ext : extension name = Some ext -> exists stem, stem <> [] /\ name = file_named ext stem.
Proof.
  unfold extension. case_bool_decide; [done|]. destruct (last_dot name) as [[[|b stem] e]|] eqn:E; try done.
  intros [= <-]. exists (b :: stem). split; [done|]. by apply last_dot_app.
Qed.

Lemma with_extension_named stem ext ext' : "."%byte ∉ ext -> stem <> [] ->
  with_extension (file_named ext stem) ext' = file_named ext' stem.
Proof. intros He Hs. unfold with_extension. rewrite last_dot_named by done. by destruct stem. Qed.

Lemma listed_with_ext ext entries stems : is_ext ext -> listed ext entries stems ->
  with_ext ext entries = map (file_named ext) stems /\ Forall (fun stem => stem <> []) stems.
Proof.
  intros He H. unfold with_ext.
  induction H as [|stem entries stems Hs _ [IH H]|name entries stems Hn _ [IH H]|entry entries stems Hn _ [IH H]]; cbn.
  - done.
  - rewrite bool_decide_true by (by apply extension_named). rewrite IH. by split; [|constructor].
  - rewrite bool_decide_false; [done|]. intros (stem & Hs & E)%extension_inv. by apply (Hn stem).
  - destruct entry; [|done..]. by specialize (Hn a).
Qed.

Lemma with_ext_listed ext entries stems : is_ext ext ->
  with_ext ext entries = map (file_named ext) stems -> Forall (fun stem => stem <> []) stems ->
  listed ext entries stems.
Proof.
  intros He. revert stems. unfold with_ext.
  induction entries as [|entry entries IH]; intros stems E H; cbn in E.
  - apply symmetry, map_eq_nil in E as ->. constructor.
  - destruct entry as [name|e|r]; [|by apply listed_unreadable; [|apply IH]..].
    case_bool_decide as Hx.
    + destruct stems as [|stem stems]; [done|]. injection E as -> E. apply Forall_cons in H as [Hs H].
      constructor; [done|]. by apply IH.
    + apply listed_other; [|by apply IH]. intros stem Hs ->. by apply Hx, extension_named.
Qed.

(** ** Compilation *)

(** The states agree except for the file [p]. *)
Definition same_but (p : bytes) (s s' : os) : Prop := forall q, q <> p ->
  is_file q s' = is_file q s /\ path_modified q s' = path_modified q s /\ entry_modified q s' = entry_modified q s.

Lemma up_to_date_spec s stem : stem <> [] -> legible s stem ->
  up_to_date (file_named (bstr "asl") stem) s = SOk (negb (stale s stem)) s.
Proof.
  intros Hs [_ Hd]. unfold up_to_date. rewrite with_extension_named by (done || apply is_ext_asl).
  unfold asks, se_bind, se_gets, se_get, se_lift, se_ret, stale.
  destruct (is_file (file_named (bstr "aml") stem) s); [|done].
  destruct (Hd eq_refl) as (asl & aml & -> & ->). cbn. by rewrite Z.ltb_antisym, negb_involutive.
Qed.

Lemma stale_same s s' f g : f <> g -> same_but (file_named (bstr "aml") f) s s' ->
  legible s g -> legible s' g /\ stale s' g = stale s g.
Proof.
  intros Hfg Hs Hg.
  destruct (Hs (file_named (bstr "aml") g)) as (E1 & E2 & _); [intros E; by apply app_inv_tail in E|].
  destruct (Hs (file_named (bstr "asl") g)) as (_ & _ & E3).
  { intros E. apply (f_equal (@rev byte)) in E. unfold file_named in E. by rewrite !rev_app_distr in E. }
  unfold legible, stale. by rewrite E1, E2, E3.
Qed.

Lemma stale_same_all s s' f stems : f ∉ stems -> same_but (file_named (bstr "aml") f) s s' ->
  Forall (legible s) stems ->
  Forall (legible s') stems /\ List.filter (stale s') stems = List.filter (stale s) stems.
Proof.
  intros Hf Hs H. induction H as [|g stems Hg _ IH]; [done|]. apply not_elem_of_cons in Hf as [Hfg Hf].
  destruct (IH Hf) as [H1 E]. destruct (stale_same s s' f g Hfg Hs Hg) as [H2 E2].
  split; [by constructor|]. cbn [List.filter]. by rewrite E2, E.
Qed.

Lemma count_cons b b' bs : count b (b' :: bs) = (if eqb b' b then 1 else 0) + count b bs.
Proof. unfold count. cbn [count_occ]. destruct b, b'; cbn [Bool.bool_dec eqb]; cbn; lia. Qed.

Lemma count_both bs : count true bs + count false bs = Z.of_nat (length bs).
Proof. induction bs as [|b bs IH]; [done|]. rewrite !count_cons. cbn [length]. destruct b; cbn [eqb]; lia. Qed.

Lemma runs_length files s bs s' : runs files s (SOk bs s') -> length bs = length files.
Proof.
  revert s bs. induction files as [|file files IH]; intros s bs H; inversion H; subst; [done|].
  cbn. f_equal. by eapply IH.
Qed.

(** [iasl] writes the AML file of the ASL file that it compiles. *)
Definition iasl_framed : Prop := forall stem s, stem <> [] ->
  match iasl (file_named (bstr "asl") stem) s with
  | SOk _ s' | SErr _ s' => same_but (file_named (bstr "aml") stem) s s'
  | SFail _ => True
  end.

(** The loop compiles what is stale when it begins, and counts. *)
Lemma compile_files_spec stems passed failed s r : iasl_framed ->
  NoDup stems -> Forall (fun stem => stem <> []) stems -> Forall (legible s) stems ->
  0 <= passed -> 0 <= failed -> passed + failed + Z.of_nat (length stems) < 2 ^ 32 ->
  runs (map (file_named (bstr "asl")) (List.filter (stale s) stems)) s r ->
  compile_files (map (file_named (bstr "asl")) stems) passed failed s =
  match r with
  | SOk bs s' => SOk (passed + count true bs, failed + count false bs) s'
  | SErr e s' => SErr e s'
  | SFail r => SFail r
  end.
Proof.
  intros Hframe Hnd Hne. revert passed failed s r. induction Hne as [|stem stems Hs _ IH];
    intros passed failed s r Hall H1 H2 H3 Hr.
  - inversion Hr; subst. cbn. unfold count. cbn. by rewrite !Z.add_0_r.
  - apply NoDup_cons in Hnd as [Hf Hnd]. apply Forall_cons in Hall as [Hl Hall]. cbn [length] in H3.
    cbn [map compile_files List.filter] in *. unfold se_bind at 1. rewrite up_to_date_spec by done.
    destruct (stale s stem); cbn [negb map] in *; [|apply IH; try done; lia].
    destruct Hl as [Hu _]. rewrite Hu. unfold se_bind, se_lift, assert_.
    pose proof (Hframe stem s Hs) as Hi.
    inversion Hr as [|file files s0 b s1 bs s2 E Hr'|file files s0 b s1 e s2 E Hr'|file files s0 e s1 E]; subst;
      rewrite E in *; [| |done];
      destruct (stale_same_all s s1 stem stems Hf Hi Hall) as [Hall' Es]; rewrite <-Es in Hr';
      pose proof (fun passed failed P1 P2 P3 => IH Hnd passed failed s1 _ Hall' P1 P2 P3 Hr') as IH';
      unfold add_w; destruct b; rewrite checked_exact by (unfold in_width; lia);
      rewrite IH' by lia; try done; rewrite !count_cons; cbn [eqb]; do 2 f_equal; lia.
Qed.

Lemma compilation_spec s r : iasl_framed -> compilation s r -> compile_asl_files s =
  match r with
  | SOk bs s' => SOk (count true bs, count false bs) s'
  | SErr e s' => SErr e s'
  | SFail r => SFail r
  end.
Proof.
  intros Hframe H. unfold compile_asl_files, asks, unwrapped, se_bind, se_get, se_lift, se_ret.
  destruct H as [e Hd|entries Hd Hl|entries stems Hd Hl Hne Hi|entries stems s1 r Hd Hl Hne Hi Hnd Hleg Hn Hr];
    rewrite Hd; [done|..]; destruct (listed_with_ext _ _ _ is_ext_asl Hl) as [-> Hstems].
  - done.
  - destruct stems; [done|]. cbn [map]. by destruct Hi as [[s1 ->]|(e & s1 & ->)].
  - destruct stems as [|stem stems]; [done|]. cbn [map]. rewrite Hi. cbn [assert_].
    change (file_named (bstr "asl") stem :: map (file_named (bstr "asl")) stems)
      with (map (file_named (bstr "asl")) (stem :: stems)).
    rewrite (compile_files_spec (stem :: stems) 0 0 s1 r) by (done || lia). by destruct r.
Qed.

Lemma compilation_count s bs s' : compilation s (SOk bs s') -> Z.of_nat (length bs) < 2 ^ 32.
Proof.
  intros H. inversion H; subst; [done|]. erewrite runs_length by done. rewrite length_map.
  pose proof (List.filter_length_le (stale s1) stems). lia.
Qed.

(** ** The tests *)

Lemma test_file_spec fuel s file v lines passed failed : tested fuel s file v ->
  0 <= passed -> 0 <= failed -> passed + failed + 1 < 2 ^ 31 ->
  test_file fuel (lines, (passed, failed)) file s =
  match v with
  | Ok b => SOk (lines ++ [(file, b)], (passed + count true [b], failed + count false [b])) s
  | Err _ => SFail Panic
  | Fail r => SFail r
  end.
Proof.
  intros H H1 H2 H3. unfold test_file, asks, unwrapped, se_bind, se_get, se_lift.
  assert (forall header table : bytes, length header = 36%nat ->
    (AML_TABLE_HEADER_LENGTH <=? length (header ++ table))%nat = true /\
    drop AML_TABLE_HEADER_LENGTH (header ++ table) = table) as Hsplit.
  { intros header table Hlen. split; [|by apply drop_app_length'].
    apply Nat.leb_le. rewrite length_app, Hlen. unfold AML_TABLE_HEADER_LENGTH. lia. }
  destruct H as [header table context c Hr Hl Hc E|header table context e c Hr Hl Hc E
    |header table context r Hr Hl Hc E|contents Hr Hl|e Hr]; rewrite Hr; [..|done].
  1-3: destruct (Hsplit header table Hl) as [-> ->]; rewrite Hc; cbn [unwrap_ok]; rewrite E.
  3: done.
  1,2: unfold next_i32; rewrite (proj2 (Z.ltb_lt _ _)) by lia; unfold se_ret, count; cbn; by rewrite Z.add_0_r.
  destruct (@new_context_ok tool_env tt VbNone) as (ns & _ & ->). cbn [unwrap_ok].
  rewrite (proj2 (Nat.leb_gt _ _)) by (unfold AML_TABLE_HEADER_LENGTH; lia). done.
Qed.

Lemma in_turn_length (judged : bytes -> result unit bool -> Prop) files bs :
  in_turn judged files (Ok bs) -> length bs = length files.
Proof. revert bs. induction files; intros bs H; inversion H; subst; [done|]. cbn. f_equal. by auto. Qed.

Lemma test_files_spec fuel s files v lines passed failed : in_turn (tested fuel s) files v ->
  0 <= passed -> 0 <= failed -> passed + failed + Z.of_nat (length files) < 2 ^ 31 ->
  test_files fuel files (lines, (passed, failed)) s =
  match v with
  | Ok bs => SOk (lines ++ zip files bs, (passed + count true bs, failed + count false bs)) s
  | Err _ => SFail Panic
  | Fail r => SFail r
  end.
Proof.
  intros H. revert lines passed failed.
  induction H as [|file files b bs Hf _ IH|file files b r Hf _ IH|file files r Hf];
    intros lines passed failed H1 H2 H3; cbn [test_files length] in *; unfold se_bind.
  - unfold count. cbn. by rewrite app_nil_r, !Z.add_0_r.
  - rewrite (test_file_spec _ _ _ _ _ _ _ Hf) by lia. rewrite IH by (unfold count; destruct b; cbn; lia).
    rewrite <-app_assoc, !count_cons. unfold count. cbn. do 3 f_equal; destruct b; cbn; lia.
  - rewrite (test_file_spec _ _ _ _ _ _ _ Hf) by lia. by rewrite IH by (unfold count; destruct b; cbn; lia).
  - by rewrite (test_file_spec _ _ _ _ _ _ _ Hf) by lia.
Qed.

(** The part of [main] behind the compilation. *)
Lemma reported_spec fuel s compiled r : reported fuel s compiled r ->
  (let! entries := asks read_dir in
   let! (lines, results) := test_files fuel (with_ext (bstr "aml") entries) ([], (0, 0)) in
   se_ret (MkReport compiled lines results)) s = r.
Proof.
  intros H. unfold asks, se_bind, se_get, se_lift, se_ret.
  destruct H as [e Hd|entries stems bs Hd Hl Hn Ht|entries stems r Hd Hl Hn Ht]; rewrite Hd; [done|..];
    destruct (listed_with_ext _ _ _ is_ext_aml Hl) as [-> _];
    rewrite (test_files_spec _ _ _ _ _ _ _ Ht) by (rewrite ?length_map; lia); done.
Qed.

(** C27: A run of [aml_tester], with and without compilation, on any directory. The stale
    ASL files - those without an AML file, or with an older one, when compilation begins -
    are compiled, each once, in the order of the directory, and no others, where there are
    ASL files and [iasl] is installed (it panics if not). Each file with the extension
    [aml] and a name before it is then tested, and no others: its line says OK exactly
    when parsing what follows its header of 36 bytes succeeds in a context of its own, and
    Failed when that is an error; a panic there, a file that is too short or that cannot be
    read stops the run. The numbers are those of the lines. An error of the operating
    system ends the run with it. It is assumed that [iasl] writes no ASL file, and no AML
    file but that of the file it is given; that the stems of the ASL files are distinct and
    text, and their dates can be read; and that there are fewer than 2^31 AML files and
    fewer than 2^32 ASL files. *)
Theorem tester_correct (fuel : nat) (no_compile : bool) (s : os) (r : sres os io_error Report) : iasl_framed ->
  tool_run fuel s no_compile r -> tester_main fuel no_compile s = r.
Proof.
  intros Hframe H. unfold tester_main.
  destruct H as [r H|bs s1 r Hc H|e s1 Hc|r Hc]; [by apply reported_spec|..];
    unfold se_bind at 1, se_bind at 1; rewrite (compilation_spec s _ Hframe Hc); [|done..].
  unfold se_bind at 1, se_lift at 1, add_w. pose proof (compilation_count _ _ _ Hc).
  rewrite checked_exact by (unfold in_width; rewrite count_both; lia). unfold se_ret at 1.
  rewrite count_both. by apply reported_spec.
Qed.

(** A file with a header and a table that encodes declarations: what the declarations are
    on what every context defines. *)
Definition verdict (ds : list decl) : result unit bool :=
  match declare_all ds (MkWorld predefined [] []) with
  | SOk _ _ => Ok true
  | SErr _ _ => Ok false
  | SFail r => Fail r
  end.

Lemma encoding_tested fuel s file header table ds : length header = 36%nat ->
  read_file file s = Ok (header ++ table) -> encodes fuel ds table -> tested fuel s file (verdict ds).
Proof.
  intros Hlen Hread (Hb & Hne & Hn & Hs).
  destruct (@new_context_ok tool_env tt VbNone) as (ns & Hns & Hc). set (c := MkContext tool_env _ _ _ _ _ _ _ _) in *.
  pose proof (parse_table_world ds table fuel c (MkWorld ns [] []) Hb Hne Hn Hs eq_refl) as E.
  change (put (MkWorld ns [] []) c) with c in E. unfold verdict.
  pose proof (world_refines ds c [] predefined eq_refl Hns) as H. cbn [buffers namespace c] in H.
  destruct (declare_all ds (MkWorld predefined [] [])) as [u w|e w|r].
  - destruct H as (ns' & _ & H). rewrite H in E. destruct u. by eapply tested_ok.
  - destruct H as (ns' & _ & H). rewrite H in E. by eapply tested_failed.
  - rewrite H in E. by eapply tested_stops.
Qed.
End Tester.

(** ** A directory *)

(** Files by name, with the time of their last change and their contents. The source of a
    table is what is behind its header; [iasl] compiles it, unless it is empty. *)
Definition sample_dir : Type := list (bytes * (Z * bytes)).

Definition file_in (d : sample_dir) (name : bytes) : option (Z * bytes) :=
  snd <$> List.find (fun '(n, _) => bool_decide (n = name)) d.

Fixpoint write_in (d : sample_dir) (name : bytes) (file : Z * bytes) : sample_dir :=
  match d with
  | [] => [(name, file)]
  | (n, old) :: d => if bool_decide (n = name) then (name, file) :: d else (n, old) :: write_in d name file
  end.

Lemma file_in_write d name file q : q <> name -> file_in (write_in d name file) q = file_in d q.
Proof.
  intros Hq. unfold file_in. induction d as [|[n old] d IH]; cbn [write_in List.find].
  - by rewrite bool_decide_false by congruence.
  - case_bool_decide as E; cbn [List.find]; [subst n; by rewrite !bool_decide_false by congruence|].
    by case_bool_decide.
Qed.

Definition with_header (table : bytes) : bytes := replicate 36 x00 ++ table.

Definition sample_iasl (name : bytes) (d : sample_dir) : sres sample_dir unit bool :=
  match file_in d name with
  | Some (_, b :: source) =>
      SOk true (write_in d (with_extension name (bstr "aml")) (9, with_header (b :: source)))
  | _ => SOk false d
  end.

Definition sample_os : TesterOs := {|
  os := sample_dir;
  io_error := unit;
  read_dir d := Ok (map (fun '(name, _) => Ok name) d);
  is_file name d := bool_decide (is_Some (file_in d name));
  entry_modified name d := ok_or tt (fst <$> file_in d name);
  path_modified name d := ok_or tt (fst <$> file_in d name);
  read_file name d := ok_or tt (snd <$> file_in d name);
  iasl_version := se_ret true;
  iasl := sample_iasl
|}.

Lemma sample_framed : @iasl_framed sample_os.
Proof.
  intros stem d Hs. cbn [iasl sample_os]. unfold sample_iasl.
  destruct (file_in d (file_named (bstr "asl") stem)) as [[t [|b source]]|] eqn:E; try (intros q Hq; done).
  intros q Hq. cbn [is_file path_modified entry_modified sample_os].
  rewrite file_in_write; [done|]. by rewrite with_extension_named by (done || apply is_ext_asl).
Qed.

Definition tester_natives : @UserNatives (with_handler env_debug tester_handler) :=
  {| user_native _ := se_err WrongParser |}.

(** [a.asl] was compiled since its last change, [b.asl] before it, [c.asl] never, which
    does not compile; [d.aml] is not a table. *)
Definition source_dir : sample_dir :=
  [(bstr "a.asl", (1, dsdt_bytes)); (bstr "a.aml", (2, with_header dsdt_bytes)); (bstr "notes.txt", (1, []));
   (bstr "b.asl", (5, ssdt_bytes)); (bstr "b.aml", (3, with_header [xff])); (bstr "c.asl", (1, []));
   (bstr "d.aml", (1, with_header [xff]))].
Definition compiled_dir : sample_dir := write_in source_dir (bstr "b.aml") (9, with_header ssdt_bytes).

Lemma source_compilation : @compilation sample_os source_dir (SOk [true; false] compiled_dir).
Proof.
  apply (@compilation_runs sample_os _ (map (fun '(name, _) => Ok name) source_dir)
    [bstr "a"; bstr "b"; bstr "c"] source_dir); try reflexivity.
  - apply (@with_ext_listed sample_os); [apply is_ext_asl|reflexivity|]. repeat constructor; discriminate.
  - discriminate.
  - apply (bool_decide_unpack _). vm_compute. exact I.
  - repeat apply Forall_cons_2; try apply Forall_nil_2; (split; [reflexivity|]); intros H;
      vm_compute in H; try discriminate H; eexists _, _; split; reflexivity.
  - assert (map (file_named (bstr "asl")) (List.filter (@stale sample_os source_dir)
      [bstr "a"; bstr "b"; bstr "c"]) = [bstr "b.asl"; bstr "c.asl"]) as -> by (vm_compute; reflexivity).
    eapply (@runs_next sample_os); [vm_compute; reflexivity|].
    eapply (@runs_next sample_os); [vm_compute; reflexivity|]. apply (@runs_nil sample_os).
Qed.

Lemma source_tested : in_turn (@tested env_debug tester_natives sample_os 5 compiled_dir)
  [bstr "a.aml"; bstr "b.aml"; bstr "d.aml"] (Ok [true; true; false]).
Proof.
  constructor; [|constructor; [|constructor; [|constructor]]].
  - assert (@verdict env_debug dsdt_decls = Ok true) as <- by (vm_compute; reflexivity).
    apply (@encoding_tested env_debug tester_natives sample_os 5 _ _ (replicate 36 x00) dsdt_bytes dsdt_decls); [reflexivity..|].
    split; [exact dsdt_enc|]. split; [discriminate|]. split; [apply Nat.ltb_lt|]; reflexivity.
  - assert (@verdict env_debug ssdt_decls = Ok true) as <- by (vm_compute; reflexivity).
    apply (@encoding_tested env_debug tester_natives sample_os 5 _ _ (replicate 36 x00) ssdt_bytes ssdt_decls); [reflexivity..|].
    split; [exact ssdt_enc|]. split; [discriminate|]. split; [apply Nat.ltb_lt|]; reflexivity.
  - destruct (@new_context_ok (@tool_env env_debug) tt VbNone) as (ns & _ & Hc).
    eapply (@tested_failed env_debug tester_natives sample_os 5 _ _ (replicate 36 x00) [xff]);
      [reflexivity|reflexivity|exact Hc|]. cbn. reflexivity.
Qed.

Lemma tester_correct_witness :
  @tester_main env_debug tester_natives sample_os 5 false source_dir =
  SOk (MkReport (Some (2, 1, 1)) [(bstr "a.aml", true); (bstr "b.aml", true); (bstr "d.aml", false)] (2, 1))
    compiled_dir.
Proof.
  apply (@tester_correct env_debug tester_natives sample_os 5 false source_dir _ sample_framed).
  eapply (@run_compiled env_debug tester_natives sample_os); [exact source_compilation|].
  apply (@reported_all env_debug tester_natives sample_os 5 compiled_dir (Some (2, 1, 1))
    (map (fun '(name, _) => Ok name) compiled_dir) [bstr "a"; bstr "b"; bstr "d"] [true; true; false]);
    [reflexivity| |reflexivity|exact source_tested].
  apply (@with_ext_listed sample_os); [apply is_ext_aml|reflexivity|]. repeat constructor; discriminate.
Defined.
