(* ===== verification/Dumper.v ===== *)
(** [acpi-dumper] ([acpi-dumper/src/main.rs]), the tool that copies the tables of a running
    system into a directory. The arguments, the file system and the processes are those of
    the operating system: a class of the operations that the tool uses. *)
From S2P Require Import Prelude RustStd.
#[local] Open Scope Z_scope.

(** [lshw_version] is what [lshw -version] writes to its standard error and [lshw] what
    [lshw] writes to its output, if they can be executed. [acpi_tables] are the entries of
    [/sys/firmware/acpi/tables]: those that could be read have a name and, if there are
    metadata, whether they are regular files. *)
Class DumperOs := {
  machine : Type;
  lshw_version : machine -> option bytes;
  geteuid : machine -> Z;
  create_dir : bytes -> machine -> option machine;
  set_permissions : bytes -> Z -> machine -> option machine;
  acpi_tables : machine -> option (list (option (bytes * option bool)));
  read_table : bytes -> machine -> option bytes;
  write_file : bytes -> bytes -> machine -> option machine;
  lshw : machine -> option bytes
}.

(** [PathBuf::push] *)
Definition path_push (base p : bytes) : bytes :=
  match p with
  | "/"%byte :: _ => p
  | _ => base ++ bstr "/" ++ p
  end.

(** All tables have a signature of four letters, apart from the SSDTs. *)
Definition selected {E} (table_signature : bytes) : result E bool :=
  if (length table_signature =? 4)%nat then Ok true
  else let? start := str_slice table_signature 0 4 in Ok (negb (bool_decide (start = bstr "SSDT"))).

Definition table_path (out_path table_signature : bytes) : bytes :=
  path_push out_path (table_signature ++ bstr ".bin").

Section Dumper.
Context {system : DumperOs}.

(** The tool ends, exits with a code, or panics. *)
Abbreviation D := (SE machine Z).

(** [Result::expect] on a question to the system and on a change of it. *)
Definition expects {A} (f : machine -> option A) : D A := let! o := se_gets f in se_lift (unwrap o).
Definition changes (f : machine -> option machine) : D unit := fun m =>
  match f m with
  | Some m => SOk tt m
  | None => SFail Panic
  end.

(** A round of the loop over the tables. *)
Definition dump_entry (out_path : bytes) (entry : bytes * option bool) : D unit :=
  let '(table_signature, metadata) := entry in
  let! regular := se_lift (unwrap metadata) in
  if negb regular then se_ret tt
  else
    do! se_lift (assert_ (utf8_valid table_signature)) in
    let! dump := se_lift (selected table_signature) in
    if dump then
      let! data := expects (read_table table_signature) in
      do! changes (write_file (table_path out_path table_signature) data) in
      changes (set_permissions (table_path out_path table_signature) 438)
    else se_ret tt.

Definition dumper_main (name : option bytes) : D unit :=
  match name with
  | None => se_err (-1)
  | Some name =>
      let! version := se_gets lshw_version in
      match version with
      | None => se_err (-1)
      | Some stderr =>
          do! se_lift (assert_ (utf8_valid stderr)) in
          let! uid := se_gets geteuid in
          if negb (uid =? 0) then se_err (-1)
          else
            let out_path := path_push (bstr "./dumps") name in
            do! changes (create_dir out_path) in
            do! changes (set_permissions out_path 511) in
            let! entries := expects acpi_tables in
            do! se_each (dump_entry out_path) (omap id entries) in
            let! lshw_info := expects lshw in
            do! se_lift (assert_ (utf8_valid lshw_info)) in
            do! changes (write_file (path_push out_path (bstr "lshw.txt")) lshw_info) in
            changes (set_permissions (path_push out_path (bstr "lshw.txt")) 438)
      end
  end.

(** * What is copied *)

(** The contents of files, and what the operations do to them. *)
Context (contents : bytes -> machine -> option bytes).
Context (write_file_spec : forall p data m m', write_file p data m = Some m' ->
  contents p m' = Some data /\
  (forall q, q <> p -> contents q m' = contents q m) /\ (forall t, read_table t m' = read_table t m)).
Context (set_permissions_spec : forall p mode m m', set_permissions p mode m = Some m' ->
  (forall q, contents q m' = contents q m) /\ (forall t, read_table t m' = read_table t m)).

(** The tables that are copied. *)
Definition dumped (entry : bytes * option bool) : bool :=
  match entry with
  | (name, Some true) => match selected (E := Empty_set) name with Ok b => b | _ => false end
  | _ => false
  end.

Lemma selected_same {E F} name :
  match selected (E := E) name with
  | Ok b => selected (E := F) name = Ok b
  | Err _ => False
  | Fail r => selected (E := F) name = Fail r
  end.
Proof. unfold selected, str_slice. destruct (_ =? _)%nat; [done|]. by destruct (_ && _). Qed.

(** A round of the loop copies its table, if it is one to copy, and nothing else. *)
Lemma dump_entry_spec out entry m m' : dump_entry out entry m = SOk tt m' ->
  (forall t, read_table t m' = read_table t m) /\
  (dumped entry = true -> exists data, read_table (fst entry) m = Some data /\
    contents (table_path out (fst entry)) m' = Some data) /\
  (forall q, dumped entry = false \/ q <> table_path out (fst entry) -> contents q m' = contents q m).
Proof.
  destruct entry as [name [[]|]]; cbn [dump_entry dumped fst]; [| |done].
  - unfold se_bind, se_lift, unwrap, assert_, negb. destruct (utf8_valid name); [|done].
    pose proof (selected_same (E := Empty_set) (F := Z) name) as E.
    destruct (selected (E := Empty_set) name) as [[]| |]; [| |done|by rewrite E]; rewrite E.
    + unfold expects, changes, se_bind, se_gets, se_lift, unwrap.
      destruct (read_table name m) as [data|] eqn:Er; [|done].
      destruct (write_file _ data m) as [m1|] eqn:Ew; [|done].
      destruct (set_permissions _ _ m1) as [m2|] eqn:Es; [|done]. intros [= <-].
      apply write_file_spec in Ew as (H1 & H2 & H3). apply set_permissions_spec in Es as [H4 H5].
      split; [intros t; by rewrite H5|]. split; [intros _; exists data; by rewrite H4|].
      intros q [|Hq]; [done|]. by rewrite H4, H2.
    + intros [= <-]. by split_and!.
  - intros [= <-]. by split_and!.
Qed.

(** File names have no separators, so different tables go to different files. *)
Definition file_name (name : bytes) : bool := forallb (fun b => negb (bool_decide (b = "/"%byte))) name.

Lemma table_path_name out s : file_name s = true -> table_path out s = out ++ bstr "/" ++ s ++ bstr ".bin".
Proof.
  intros H. unfold table_path, path_push. destruct s as [|b s]; [done|]. cbn.
  cbn in H. apply andb_prop in H as [H _]. by destruct b.
Qed.

Lemma table_path_inj out s t : file_name s = true -> file_name t = true ->
  table_path out s = table_path out t -> s = t.
Proof.
  intros Hs Ht. rewrite !table_path_name by done. intros E.
  by apply app_inv_head, app_inv_head, app_inv_tail in E.
Qed.

(** [acpi-dumper]: when the loop over the tables ends, every table whose name has four
    bytes, or does not start with SSDT, is copied unchanged to the file of its name in the
    output directory, and no other file is touched. *)
Theorem dump_tables (out_path : bytes) (entries : list (bytes * option bool)) (m m' : machine) :
  NoDup (map fst entries) -> Forall (fun entry => file_name (fst entry) = true) entries ->
  se_each (dump_entry out_path) entries m = SOk tt m' ->
  (forall name, (name, Some true) ∈ entries -> selected (E := Empty_set) name = Ok true ->
    exists data, read_table name m = Some data /\ contents (table_path out_path name) m' = Some data) /\
  (forall path, (forall entry, entry ∈ entries -> dumped entry = true -> path <> table_path out_path (fst entry)) ->
    contents path m' = contents path m).
Proof.
  revert m. induction entries as [|entry entries IH]; intros m Hnd Hnames H.
  { injection H as <-. split; [|done]. by intros name Hin%not_elem_of_nil. }
  cbn [map] in Hnd. apply NoDup_cons in Hnd as [Hfresh Hnd]. apply Forall_cons in Hnames as [Hname Hnames].
  cbn [se_each] in H. unfold se_bind in H.
  destruct (dump_entry out_path entry m) as [[] m1| |] eqn:E1; [|done..].
  destruct (dump_entry_spec _ _ _ _ E1) as (Hread & Hcopy & Hother).
  destruct (IH m1 Hnd Hnames H) as [IH1 IH2]. split.
  - intros name Hin Hsel. apply elem_of_cons in Hin as [<-|Hin].
    + cbn [fst dumped] in *. rewrite Hsel in Hcopy. destruct (Hcopy eq_refl) as (data & Hr & Hc).
      exists data. split; [done|]. rewrite IH2; [done|]. intros entry Hin _ E.
      apply table_path_inj in E; [|done|by eapply Forall_forall in Hnames].
      apply Hfresh. subst. apply list_elem_of_fmap. by eexists.
    + destruct (IH1 name Hin Hsel) as (data & Hr & Hc). exists data. by rewrite <-Hread.
  - intros path Hpath. rewrite IH2 by (intros; apply Hpath; [by right|done]). apply Hother.
    destruct (dumped entry) eqn:Ed; [right; apply Hpath; [by left|done]|by left].
Qed.
End Dumper.

(** * A machine *)

(** The tables in memory and the files that were written. *)
Definition sample_machine : Type := list (bytes * bytes) * list (bytes * bytes).
Definition find_in (l : list (bytes * bytes)) (p : bytes) : option bytes :=
  snd <$> List.find (fun '(n, _) => bool_decide (n = p)) l.

Definition sample_system : DumperOs := {|
  machine := sample_machine;
  lshw_version _ := Some (bstr "B.02.18");
  geteuid _ := 0;
  create_dir _ m := Some m;
  set_permissions _ _ m := Some m;
  acpi_tables m := Some (map (fun '(n, _) => Some (n, Some true)) (fst m));
  read_table n m := find_in (fst m) n;
  write_file p data m := Some (fst m, (p, data) :: snd m);
  lshw _ := Some (bstr "computer")
|}.

Definition some_tables : sample_machine := ([(bstr "DSDT", [x01]); (bstr "SSDT1", [x02]); (bstr "SSDT", [x03])], []).
Definition some_entries : list (bytes * option bool) :=
  [(bstr "DSDT", Some true); (bstr "SSDT1", Some true); (bstr "SSDT", Some true)].

(** The numbered SSDT is left out. *)
Lemma dump_tables_witness : exists m',
  se_each (@dump_entry sample_system (bstr "./dumps/pc")) some_entries some_tables = SOk tt m' /\
  find_in (snd m') (bstr "./dumps/pc/SSDT.bin") = Some [x03] /\
  find_in (snd m') (bstr "./dumps/pc/SSDT1.bin") = None.
Proof.
  eexists. split; [vm_compute; reflexivity|].
  edestruct (@dump_tables sample_system (fun p m => find_in (snd m) p)) with (entries := some_entries)
    (out_path := bstr "./dumps/pc") (m := some_tables) as [H1 H2].
  - intros p data m m' [= <-]. cbn [snd]. unfold find_in. cbn [List.find]. split; [|split].
    + rewrite bool_decide_eq_true_2 by reflexivity. reflexivity.
    + intros q Hq. rewrite bool_decide_eq_false_2 by congruence. reflexivity.
    + reflexivity.
  - intros p mode m m' [= <-]. split; reflexivity.
  - apply (bool_decide_unpack (NoDup (map fst some_entries))). vm_compute. exact I.
  - repeat constructor.
  - vm_compute. reflexivity.
  - split.
    + destruct (H1 (bstr "SSDT")) as (data & Hr & Hc); [|reflexivity|].
      * do 2 apply list_elem_of_further. apply list_elem_of_here.
      * rewrite <-Hr in Hc. exact Hc.
    + rewrite H2; [reflexivity|]. intros entry Hin Hd.
      repeat (apply elem_of_cons in Hin as [->|Hin]; [first [discriminate Hd|vm_compute; discriminate]|]).
      apply elem_of_nil in Hin. contradiction.
Defined.

(** A name of fewer than four bytes panics. *)
Example short_name :
  @dump_entry sample_system (bstr "./dumps/pc") (bstr "XY", Some true) some_tables = SFail Panic.
Proof. reflexivity. Qed.
