(* ===== verification/Resource.v ===== *)
(** Resource descriptors ([aml/src/resource.rs]): the lists of descriptors that [_CRS]
    objects give, and their encoding. *)
From S2P Require Import Prelude Types Names Namespace Env RustStd Context Value.
#[local] Open Scope Z_scope.

(** * Resources *)

Inductive InterruptTrigger := TriggerEdge | TriggerLevel.
Inductive InterruptPolarity := PolarityHigh | PolarityLow.

Inductive AddressSpaceResourceType := MemoryRangeType | IORangeType | BusNumberRangeType.
Inductive AddressSpaceDecodeType := Additive | Subtractive.

Record AddressSpaceDescriptor := MkAddressSpace {
  resource_type : AddressSpaceResourceType;
  is_maximum_address_fixed : bool;
  is_minimum_address_fixed : bool;
  decode_type : AddressSpaceDecodeType;
  granularity : Z;
  address_range : Z * Z;
  translation_offset : Z;
  address_length : Z
}.

Inductive MemoryRangeDescriptor := FixedLocation (is_writable : bool) (base_address range_length : Z).

Record IrqDescriptor := MkIrq {
  is_consumer : bool;
  trigger : InterruptTrigger;
  polarity : InterruptPolarity;
  is_shared : bool;
  is_wake_capable : bool;
  irq : Z
}.

Inductive DMASupportedSpeed := CompatibilityMode | TypeA | TypeB | TypeF.
Inductive DMATransferTypePreference := Only8Bit | Both8And16Bit | Only16Bit.
Record DMADescriptor := MkDMA {
  channel_mask : Z;
  supported_speeds : DMASupportedSpeed;
  is_bus_master : bool;
  transfer_type_preference : DMATransferTypePreference
}.

Record IOPortDescriptor := MkIOPort {
  decodes_full_address : bool;
  memory_range : Z * Z;
  base_alignment : Z;
  range_length : Z
}.

Inductive Resource :=
  | RIrq (d : IrqDescriptor)
  | RAddressSpace (d : AddressSpaceDescriptor)
  | RMemoryRange (d : MemoryRangeDescriptor)
  | RIOPort (d : IOPortDescriptor)
  | RDma (d : DMADescriptor).

(** * Descriptors *)

Section Resource.
Context {env : AmlEnv}.
Abbreviation R := (result AmlError).

(** [bytes[i]], its bits, and the little-endian number of [bytes[a..b]]. *)
Definition byte_at (data : bytes) (i : nat) : R Z :=
  let? b := unwrap (data !! i) in Ok (u8 b).
Definition u16_at (data : bytes) (i : nat) : R Z :=
  let? s := slice data i (i + 2) in Ok (read_u16_le s).
Definition u32_at (data : bytes) (i : nat) : R Z :=
  let? s := slice data i (i + 4) in Ok (read_u32_le s).

Definition fixed_memory_descriptor (data : bytes) : R Resource :=
  if (length data <? 12)%nat then Err ResourceDescriptorTooShort
  else if (12 <? length data)%nat then Err ResourceDescriptorTooLong
  else
    let? information := byte_at data 3 in
    let? base_address := u32_at data 4 in
    let? range_length := u32_at data 8 in
    Ok (RMemoryRange (FixedLocation (get_bit information 0) base_address range_length)).

(** The [i]-th of the [address_fields], the chunks of [size] bytes from the sixth
    byte on. *)
Definition address_field (data : bytes) (size i : nat) : R Z :=
  let? chunk := slice data (6 + size * i) (6 + size * i + size) in Ok (read_uint_le chunk size).

(** [address_space_descriptor::<T>]; [size] is [mem::size_of::<T>()]. *)
Definition address_space_descriptor (size : nat) (data : bytes) : R Resource :=
  if (length data <? 6 + size * 5)%nat then Err ResourceDescriptorTooShort
  else
    let? type_byte := byte_at data 3 in
    let? resource_type :=
      match type_byte with
      | 0 => Ok MemoryRangeType
      | 1 => Ok IORangeType
      | 2 => Ok BusNumberRangeType
      | _ => if type_byte <=? 191 then Err ReservedResourceType else Fail Panic
      end in
    let? general_flags := byte_at data 4 in
    let decode_type := if get_bit general_flags 1 then Subtractive else Additive in
    let? granularity := address_field data size 0 in
    let? address_range_min := address_field data size 1 in
    let? address_range_max := address_field data size 2 in
    let? translation_offset := address_field data size 3 in
    let? length := address_field data size 4 in
    Ok (RAddressSpace (MkAddressSpace resource_type (get_bit general_flags 3)
          (get_bit general_flags 2) decode_type granularity
          (address_range_min, address_range_max) translation_offset length)).

Definition irq_format_descriptor (data : bytes) : R Resource :=
  match length data with
  | 0%nat | 1%nat | 2%nat => Err ResourceDescriptorTooShort
  | 3%nat =>
      let? irq := u16_at data 1 in
      Ok (RIrq (MkIrq false TriggerEdge PolarityHigh false false irq))
  | 4%nat =>
      let? irq := u16_at data 1 in
      let? information := byte_at data 3 in
      let polarity := if get_bit information 3 then PolarityLow else PolarityHigh in
      let trigger := if get_bit information 0 then TriggerEdge else TriggerLevel in
      Ok (RIrq (MkIrq false trigger polarity (get_bit information 4) (get_bit information 5) irq))
  | _ => Err ResourceDescriptorTooLong
  end.

Definition dma_format_descriptor (data : bytes) : R Resource :=
  if (length data <? 3)%nat then Err ResourceDescriptorTooShort
  else if (3 <? length data)%nat then Err ResourceDescriptorTooLong
  else
    let? channel_mask := byte_at data 1 in
    let? options := byte_at data 2 in
    let? supported_speeds :=
      match get_bits options 5 7 with
      | 0 => Ok CompatibilityMode
      | 1 => Ok TypeA
      | 2 => Ok TypeB
      | 3 => Ok TypeF
      | _ => Fail Panic
      end in
    let? transfer_type_preference :=
      match get_bits options 0 2 with
      | 0 => Ok Only8Bit
      | 1 => Ok Both8And16Bit
      | 2 => Ok Only16Bit
      | _ => Fail Panic
      end in
    Ok (RDma (MkDMA channel_mask supported_speeds (get_bit options 2) transfer_type_preference)).

Definition io_port_descriptor (data : bytes) : R Resource :=
  if (length data <? 8)%nat then Err ResourceDescriptorTooShort
  else if (8 <? length data)%nat then Err ResourceDescriptorTooLong
  else
    let? information := byte_at data 1 in
    let? memory_range_min := u16_at data 2 in
    let? memory_range_max := u16_at data 4 in
    let? base_alignment := byte_at data 6 in
    let? range_length := byte_at data 7 in
    Ok (RIOPort (MkIOPort (get_bit information 0) (memory_range_min, memory_range_max)
          base_alignment range_length)).

Definition extended_interrupt_descriptor (data : bytes) : R Resource :=
  if (length data <? 9)%nat then Err ResourceDescriptorTooShort
  else
    let? number_of_interrupts := byte_at data 4 in
    let? _ := assert_ (number_of_interrupts =? 1) in
    let? irq := u32_at data 5 in
    let? flags := byte_at data 3 in
    Ok (RIrq (MkIrq (get_bit flags 0) (if get_bit flags 1 then TriggerEdge else TriggerLevel)
          (if get_bit flags 2 then PolarityLow else PolarityHigh) (get_bit flags 3)
          (get_bit flags 4) irq)).

(** [bytes.split_at(mid)] *)
Definition split_at (data : bytes) (mid : nat) : R (bytes * bytes) :=
  if (mid <=? length data)%nat then Ok (take mid data, drop mid data) else Fail Panic.

(** The matches on the type of a large and of a small item; the types that are not
    implemented panic. *)
Definition large_descriptor (descriptor_type : Z) (data : bytes) : R Resource :=
  match descriptor_type with
  | 0x06 => fixed_memory_descriptor data
  | 0x07 => address_space_descriptor 4 data
  | 0x08 => address_space_descriptor 2 data
  | 0x09 => extended_interrupt_descriptor data
  | 0x0a => address_space_descriptor 8 data
  | _ =>
      if (descriptor_type =? 0) || (0x13 <=? descriptor_type) && (descriptor_type <=? 0x7f)
      then Err ReservedResourceType else Fail Panic
  end.

Definition small_descriptor (descriptor_type : Z) (data : bytes) : R (option Resource) :=
  match descriptor_type with
  | 0x04 => result_map Some (irq_format_descriptor data)
  | 0x05 => result_map Some (dma_format_descriptor data)
  | 0x08 => result_map Some (io_port_descriptor data)
  | 0x0f => Ok None
  | _ =>
      if (descriptor_type <=? 0x03) || (0x0b <=? descriptor_type) && (descriptor_type <=? 0x0d)
      then Err ReservedResourceType else Fail Panic
  end.

(** [resource_descriptor] *)
Definition resource_descriptor (data : bytes) : R (option Resource * bytes) :=
  let? first := byte_at data 0 in
  if get_bit first 7 then
    let descriptor_type := get_bits first 0 7 in
    let? length := u16_at data 1 in
    let? (descriptor_bytes, remaining_bytes) := split_at data (Z.to_nat length + 3) in
    let? descriptor := large_descriptor descriptor_type descriptor_bytes in
    Ok (Some descriptor, remaining_bytes)
  else
    let descriptor_type := get_bits first 3 7 in
    let length := get_bits first 0 3 in
    let? (descriptor_bytes, remaining_bytes) := split_at data (Z.to_nat length + 1) in
    let? descriptor := small_descriptor descriptor_type descriptor_bytes in
    Ok match descriptor with
       | Some descriptor => (Some descriptor, remaining_bytes)
       | None => (None, [])
       end.

(** The loop of [resource_descriptor_list]. *)
Fixpoint descriptor_loop (fuel : nat) (data : bytes) : R (list Resource) :=
  match data with
  | [] => Ok []
  | _ =>
      match fuel with
      | O => Fail OutOfFuel
      | S fuel =>
          let? (descriptor, remaining_bytes) := resource_descriptor data in
          match descriptor with
          | Some descriptor =>
              let? descriptors := descriptor_loop fuel remaining_bytes in
              Ok (descriptor :: descriptors)
          | None => Ok []
          end
      end
  end.

(** [resource_descriptor_list]: every round takes a byte at least. *)
Definition resource_descriptor_list (descriptor : AmlValue) : SE AmlContext AmlError (list Resource) :=
  match descriptor with
  | VBuffer l => with_lock l (fun data => se_lift (descriptor_loop (length data) data))
  | v => se_err (IncompatibleValueConversion (type_of v) TBuffer)
  end.
End Resource.

(** * Encodings *)

(** The bit of a byte of flags. *)
Definition flag (b : byte) (i : Z) : bool := Z.testbit (u8 b) i.

Definition space_type_byte (t : AddressSpaceResourceType) : byte :=
  match t with MemoryRangeType => x00 | IORangeType => x01 | BusNumberRangeType => x02 end.
Definition speed_bits (s : DMASupportedSpeed) : Z :=
  match s with CompatibilityMode => 0 | TypeA => 1 | TypeB => 2 | TypeF => 3 end.
Definition transfer_bits (t : DMATransferTypePreference) : Z :=
  match t with Only8Bit => 0 | Both8And16Bit => 1 | Only16Bit => 2 end.

Definition small_item (tag : byte) (body : bytes) : bytes := tag :: body.
Definition large_item (tag : byte) (body : bytes) : bytes :=
  tag :: to_le_bytes 2 (Z.of_nat (length body)) ++ body.

(** The encodings of a resource: the bits of the flags that are ignored are
    arbitrary, and the address spaces and the extended interrupts may be followed by
    the name of a resource source. *)
Inductive Encodes : Resource -> bytes -> Prop :=
  | enc_irq_no_flags irq : is_u16 irq ->
      Encodes (RIrq (MkIrq false TriggerEdge PolarityHigh false false irq)) (small_item x22 (to_le_bytes 2 irq))
  | enc_irq irq info : is_u16 irq ->
      Encodes (RIrq (MkIrq false (if flag info 0 then TriggerEdge else TriggerLevel)
          (if flag info 3 then PolarityLow else PolarityHigh) (flag info 4) (flag info 5) irq))
        (small_item x23 (to_le_bytes 2 irq ++ [info]))
  | enc_dma mask options speed transfer :
      (u8 options / 32) mod 4 = speed_bits speed -> u8 options mod 4 = transfer_bits transfer ->
      Encodes (RDma (MkDMA (u8 mask) speed (flag options 2) transfer)) (small_item x2a [mask; options])
  | enc_io info low high alignment len : is_u16 low -> is_u16 high ->
      Encodes (RIOPort (MkIOPort (flag info 0) (low, high) (u8 alignment) (u8 len)))
        (small_item x47 ([info] ++ to_le_bytes 2 low ++ to_le_bytes 2 high ++ [alignment; len]))
  | enc_memory info base len : is_u32 base -> is_u32 len ->
      Encodes (RMemoryRange (FixedLocation (flag info 0) base len))
        (large_item x86 ([info] ++ to_le_bytes 4 base ++ to_le_bytes 4 len))
  | enc_interrupt info irq source : is_u32 irq -> Z.of_nat (length source) < 60000 ->
      Encodes (RIrq (MkIrq (flag info 0) (if flag info 1 then TriggerEdge else TriggerLevel)
          (if flag info 2 then PolarityLow else PolarityHigh) (flag info 3) (flag info 4) irq))
        (large_item x89 ([info; x01] ++ to_le_bytes 4 irq ++ source))
  | enc_space tag size t flags specific gra low high translation len source :
      (tag, size) ∈ [(x88, 2%nat); (x87, 4%nat); (x8a, 8%nat)] -> Z.of_nat (length source) < 60000 ->
      Forall (in_width (8 * Z.of_nat size)) [gra; low; high; translation; len] ->
      Encodes (RAddressSpace (MkAddressSpace t (flag flags 3) (flag flags 2)
          (if flag flags 1 then Subtractive else Additive) gra (low, high) translation len))
        (large_item tag ([space_type_byte t; flags; specific] ++
           concat (map (to_le_bytes size) [gra; low; high; translation; len]) ++ source)).

Section Items.
Context {env : AmlEnv}.

Lemma slice_middle {E} (a b c : bytes) : @slice byte E (a ++ b ++ c) (length a) (length a + length b) = Ok b.
Proof.
  unfold slice. rewrite !length_app, (proj2 (Nat.leb_le _ _)), (proj2 (Nat.leb_le _ _)) by lia. cbn [andb].
  rewrite drop_app_length. by replace (length a + length b - length a)%nat with (length b) by lia;
    rewrite take_app_length.
Qed.

Lemma byte_at_middle a b c : byte_at (a ++ b :: c) (length a) = Ok (u8 b).
Proof. unfold byte_at. by rewrite list_lookup_middle. Qed.

Lemma u16_at_middle a z c : is_u16 z -> u16_at (a ++ to_le_bytes 2 z ++ c) (length a) = Ok z.
Proof.
  intros Hz. unfold u16_at. rewrite <-(length_to_le_bytes 2 z) at 2. rewrite slice_middle. cbn [result_bind].
  by rewrite read_u16_le_spec, from_to_le_bytes by (done || apply length_to_le_bytes).
Qed.

Lemma u32_at_middle a z c : is_u32 z -> u32_at (a ++ to_le_bytes 4 z ++ c) (length a) = Ok z.
Proof.
  intros Hz. unfold u32_at. rewrite <-(length_to_le_bytes 4 z) at 2. rewrite slice_middle. cbn [result_bind].
  by rewrite read_u32_le_spec, from_to_le_bytes by (done || apply length_to_le_bytes).
Qed.

Lemma get_flag b i : 0 <= i < 64 -> get_bit (u8 b) i = flag b i.
Proof. intros Hi. pose proof (u8_range b). by rewrite get_bit_spec by lia. Qed.

Lemma split_at_app a c : split_at (a ++ c) (length a) = Ok (a, c).
Proof.
  unfold split_at. rewrite length_app, (proj2 (Nat.leb_le _ _)) by lia.
  by rewrite take_app_length, drop_app_length.
Qed.

Lemma get_bit_large b : get_bit (u8 b) 7 = (128 <=? u8 b).
Proof.
  pose proof (u8_range b). pose proof (get_bit_div (u8 b) 7 ltac:(lia) ltac:(lia)) as H1.
  change (2 ^ 7) with 128 in H1. destruct (Z.leb_spec 128 (u8 b)).
  - replace (u8 b / 128) with 1 in H1 by (Z.to_euclidean_division_equations; lia). by destruct (get_bit _ _).
  - rewrite Z.div_small in H1 by lia. by destruct (get_bit _ _).
Qed.

(** The framing of small and large items. *)
Lemma resource_descriptor_small tag t body rest :
  u8 tag = 8 * t + Z.of_nat (length body) -> (length body < 8)%nat -> 0 <= t < 16 ->
  resource_descriptor (small_item tag body ++ rest) =
  let? d := small_descriptor t (small_item tag body) in
  Ok match d with Some d => (Some d, rest) | None => (None, []) end.
Proof.
  intros Ht Hb H. unfold resource_descriptor, small_item. cbn [app].
  change (byte_at (tag :: body ++ rest) 0) with (@Ok AmlError _ (u8 tag)). cbn [result_bind].
  rewrite get_bit_large, (proj2 (Z.leb_gt _ _)), !get_bits_div by lia.
  replace ((u8 tag / 2 ^ 3) mod 2 ^ (7 - 3)) with t by (change (2 ^ 3) with 8; change (2 ^ (7 - 3)) with 16;
    Z.to_euclidean_division_equations; lia).
  replace ((u8 tag / 2 ^ 0) mod 2 ^ (3 - 0)) with (Z.of_nat (length body))
    by (change (2 ^ 0) with 1; change (2 ^ (3 - 0)) with 8; Z.to_euclidean_division_equations; lia).
  rewrite Nat2Z.id, Nat.add_1_r. change (tag :: body ++ rest) with ((tag :: body) ++ rest).
  change (S (length body)) with (length (tag :: body)). by rewrite split_at_app.
Qed.

Lemma resource_descriptor_large tag t body rest :
  u8 tag = 128 + t -> 0 <= t -> Z.of_nat (length body) < 2 ^ 16 ->
  resource_descriptor (large_item tag body ++ rest) =
  let? d := large_descriptor t (large_item tag body) in Ok (Some d, rest).
Proof.
  intros Ht H0 Hb. pose proof (u8_range tag). unfold resource_descriptor, large_item. cbn [app].
  change (byte_at (tag :: _) 0) with (@Ok AmlError _ (u8 tag)). cbn [result_bind].
  rewrite get_bit_large, (proj2 (Z.leb_le _ _)), get_bits_div by lia.
  replace ((u8 tag / 2 ^ 0) mod 2 ^ (7 - 0)) with t
    by (change (2 ^ 0) with 1; change (2 ^ (7 - 0)) with 128; Z.to_euclidean_division_equations; lia).
  set (len := to_le_bytes 2 _). rewrite <-app_assoc.
  pose proof (u16_at_middle [tag] (Z.of_nat (length body)) (body ++ rest) ltac:(unfold in_width; lia)) as Hu.
  cbn [app length] in Hu. subst len. rewrite Hu. cbn [result_bind]. rewrite Nat2Z.id.
  set (len := to_le_bytes 2 _). replace (tag :: len ++ body ++ rest) with ((tag :: len ++ body) ++ rest) by by rewrite <-app_comm_cons, <-app_assoc.
  replace (length body + 3)%nat with (length (tag :: len ++ body)).
  - by rewrite split_at_app.
  - cbn [length]. rewrite length_app. subst len. rewrite length_to_le_bytes. lia.
Qed.

(** Reading at an offset that is the length of what comes before. *)
Lemma byte_at_eq data a b c i : data = a ++ b :: c -> length a = i -> byte_at data i = Ok (u8 b).
Proof. intros -> <-. apply byte_at_middle. Qed.
Lemma u16_at_eq data a z c i : data = a ++ to_le_bytes 2 z ++ c -> length a = i -> is_u16 z ->
  u16_at data i = Ok z.
Proof. intros -> <-. apply u16_at_middle. Qed.
Lemma u32_at_eq data a z c i : data = a ++ to_le_bytes 4 z ++ c -> length a = i -> is_u32 z ->
  u32_at data i = Ok z.
Proof. intros -> <-. apply u32_at_middle. Qed.

Lemma irq_no_flags_ok irq : is_u16 irq ->
  irq_format_descriptor (small_item x22 (to_le_bytes 2 irq)) =
  Ok (RIrq (MkIrq false TriggerEdge PolarityHigh false false irq)).
Proof.
  intros H. unfold irq_format_descriptor. replace (length _) with 3%nat by reflexivity.
  by rewrite (u16_at_eq _ [x22] irq []).
Qed.

Lemma irq_ok irq info : is_u16 irq ->
  irq_format_descriptor (small_item x23 (to_le_bytes 2 irq ++ [info])) =
  Ok (RIrq (MkIrq false (if flag info 0 then TriggerEdge else TriggerLevel)
          (if flag info 3 then PolarityLow else PolarityHigh) (flag info 4) (flag info 5) irq)).
Proof.
  intros H. unfold irq_format_descriptor. replace (length _) with 4%nat by reflexivity.
  rewrite (u16_at_eq _ [x23] irq [info]), (byte_at_eq _ (x23 :: to_le_bytes 2 irq) info []) by done.
  cbn [result_bind]. by rewrite !get_flag by lia.
Qed.

Lemma dma_ok mask options speed transfer :
  (u8 options / 32) mod 4 = speed_bits speed -> u8 options mod 4 = transfer_bits transfer ->
  dma_format_descriptor (small_item x2a [mask; options]) =
  Ok (RDma (MkDMA (u8 mask) speed (flag options 2) transfer)).
Proof.
  intros H1 H2. pose proof (u8_range options). unfold dma_format_descriptor. cbn [length small_item Nat.ltb Nat.leb].
  rewrite (byte_at_eq _ [x2a] mask [options]), (byte_at_eq _ [x2a; mask] options []) by done.
  cbn [result_bind]. rewrite !get_bits_div, get_flag by lia.
  change (2 ^ 5) with 32. change (2 ^ (7 - 5)) with 4. change (2 ^ 0) with 1. change (2 ^ (2 - 0)) with 4.
  rewrite Z.div_1_r, H1, H2. by destruct speed, transfer.
Qed.

Lemma io_ok info low high alignment len : is_u16 low -> is_u16 high ->
  io_port_descriptor (small_item x47 ([info] ++ to_le_bytes 2 low ++ to_le_bytes 2 high ++ [alignment; len])) =
  Ok (RIOPort (MkIOPort (flag info 0) (low, high) (u8 alignment) (u8 len))).
Proof.
  intros H1 H2. unfold io_port_descriptor. set (data := small_item _ _).
  replace (length data) with 8%nat by reflexivity. cbn [Nat.ltb Nat.leb].
  rewrite (byte_at_eq data [x47] info (to_le_bytes 2 low ++ to_le_bytes 2 high ++ [alignment; len])),
    (u16_at_eq data [x47; info] low (to_le_bytes 2 high ++ [alignment; len])),
    (u16_at_eq data (x47 :: info :: to_le_bytes 2 low) high [alignment; len]),
    (byte_at_eq data (x47 :: info :: to_le_bytes 2 low ++ to_le_bytes 2 high) alignment [len]),
    (byte_at_eq data (x47 :: info :: to_le_bytes 2 low ++ to_le_bytes 2 high ++ [alignment]) len []) by done.
  cbn [result_bind]. by rewrite get_flag by lia.
Qed.

Lemma memory_ok info base len : is_u32 base -> is_u32 len ->
  fixed_memory_descriptor (large_item x86 ([info] ++ to_le_bytes 4 base ++ to_le_bytes 4 len)) =
  Ok (RMemoryRange (FixedLocation (flag info 0) base len)).
Proof.
  intros H1 H2. unfold fixed_memory_descriptor. set (data := large_item _ _).
  replace (length data) with 12%nat by reflexivity. cbn [Nat.ltb Nat.leb].
  rewrite (byte_at_eq data [x86; x09; x00] info (to_le_bytes 4 base ++ to_le_bytes 4 len)),
    (u32_at_eq data [x86; x09; x00; info] base (to_le_bytes 4 len)),
    (u32_at_eq data (x86 :: x09 :: x00 :: info :: to_le_bytes 4 base) len []) by done.
  cbn [result_bind]. by rewrite get_flag by lia.
Qed.

Lemma interrupt_ok info irq source : is_u32 irq ->
  extended_interrupt_descriptor (large_item x89 ([info; x01] ++ to_le_bytes 4 irq ++ source)) =
  Ok (RIrq (MkIrq (flag info 0) (if flag info 1 then TriggerEdge else TriggerLevel)
          (if flag info 2 then PolarityLow else PolarityHigh) (flag info 3) (flag info 4) irq)).
Proof.
  intros H. unfold extended_interrupt_descriptor, large_item. set (len := to_le_bytes 2 _).
  assert (length len = 2%nat) as Hl by apply length_to_le_bytes. clearbody len.
  set (data := x89 :: len ++ _). rewrite (proj2 (Nat.ltb_ge _ _)).
  2: { subst data. cbn [length]. rewrite !length_app, length_to_le_bytes, Hl. cbn. lia. }
  rewrite (byte_at_eq data (x89 :: len ++ [info]) x01 (to_le_bytes 4 irq ++ source)),
    (u32_at_eq data (x89 :: len ++ [info; x01]) irq source),
    (byte_at_eq data (x89 :: len) info (x01 :: to_le_bytes 4 irq ++ source));
    try (subst data; cbn [length app]; rewrite ?length_app, ?Hl; cbn; by rewrite <-?app_assoc).
  change (u8 x01) with 1. cbn [result_bind Z.eqb Pos.eqb assert_]. by rewrite !get_flag by lia.
Qed.

(** The fields of an address space. *)
Lemma address_field_ok data size a b fields c i z : data = a :: b ++ concat (map (to_le_bytes size) fields) ++ c ->
  length b = 5%nat -> fields !! i = Some z -> (1 <= size <= 8)%nat -> in_width (8 * Z.of_nat size) z ->
  address_field data size i = Ok z.
Proof.
  intros -> Hb Hi Hs Hz. unfold address_field.
  pose proof (take_drop_middle _ _ _ Hi) as Ef. apply lookup_lt_Some in Hi.
  rewrite <-Ef, map_app, concat_app. cbn [map concat]. rewrite <-!app_assoc.
  set (pre := concat (map _ (take i fields))). set (post := concat _ ++ c).
  assert (length (a :: b ++ pre) = 6 + size * i)%nat as Hp.
  { cbn [length]. rewrite length_app, Hb. enough (length pre = size * i)%nat by lia. subst pre.
    assert (length (take i fields) = i) as Ht by (rewrite length_take; lia). revert Ht.
    generalize (take i fields). clear. intros l <-. induction l as [|x l IH]; cbn; [lia|].
    rewrite length_app, IH, length_to_le_bytes. lia. }
  pose proof (slice_middle (E := AmlError) (a :: b ++ pre) (to_le_bytes size z) post) as Hm.
  rewrite length_to_le_bytes, Hp, <-app_comm_cons, <-app_assoc in Hm. rewrite Hm. cbn [result_bind].
  by rewrite read_uint_le_spec, from_to_le_bytes by (done || apply length_to_le_bytes).
Qed.

Lemma space_ok tag size t flags specific gra low high translation len source :
  (1 <= size <= 8)%nat ->
  Forall (in_width (8 * Z.of_nat size)) [gra; low; high; translation; len] ->
  address_space_descriptor size (large_item tag ([space_type_byte t; flags; specific] ++
           concat (map (to_le_bytes size) [gra; low; high; translation; len]) ++ source)) =
  Ok (RAddressSpace (MkAddressSpace t (flag flags 3) (flag flags 2)
          (if flag flags 1 then Subtractive else Additive) gra (low, high) translation len)).
Proof.
  intros Hs Hf. unfold address_space_descriptor, large_item. set (lens := to_le_bytes 2 _).
  assert (length lens = 2%nat) as Hl by apply length_to_le_bytes. clearbody lens.
  set (fields := [gra; low; high; translation; len]) in *.
  assert (length (concat (map (to_le_bytes size) fields)) = 5 * size)%nat as Hlen
    by (subst fields; cbn [map concat]; rewrite !length_app, !length_to_le_bytes; cbn; lia).
  set (data := tag :: lens ++ _).
  assert (data = tag :: (lens ++ [space_type_byte t; flags; specific]) ++
    concat (map (to_le_bytes size) fields) ++ source) as Ed by (subst data; by rewrite <-!app_assoc).
  assert (length (lens ++ [space_type_byte t; flags; specific]) = 5%nat) as Hb by (rewrite length_app, Hl; done).
  rewrite (proj2 (Nat.ltb_ge _ _)) by (rewrite Ed; cbn [length]; rewrite !length_app, Hlen, Hl; cbn; lia).
  rewrite (byte_at_eq data (tag :: lens) (space_type_byte t) (flags :: specific :: concat (map (to_le_bytes size) fields) ++ source)),
    (byte_at_eq data (tag :: lens ++ [space_type_byte t]) flags (specific :: concat (map (to_le_bytes size) fields) ++ source));
    try (rewrite ?Ed; cbn [length]; rewrite ?length_app, ?Hl; cbn [app length]; by rewrite <-?app_assoc).
  assert (forall i z, fields !! i = Some z -> address_field data size i = Ok z) as Hfield.
  { intros i z Hi. eapply (address_field_ok data size _ _ fields _ i z Ed Hb Hi Hs).
    by eapply Forall_lookup_1. }
  rewrite (Hfield 0%nat gra), (Hfield 1%nat low), (Hfield 2%nat high), (Hfield 3%nat translation),
    (Hfield 4%nat len) by done.
  cbn [result_bind]. rewrite !get_flag by lia. by destruct t.
Qed.

(** Every encoding is taken from the front of the buffer. *)
Lemma resource_descriptor_ok r data rest : Encodes r data ->
  resource_descriptor (data ++ rest) = Ok (Some r, rest).
Proof.
  intros H. destruct H as [irq H|irq info H|mask options speed transfer H1 H2|info low high alignment len H1 H2
    |info base len H1 H2|info irq source H Hs|tag size t flags specific gra low high translation len source Ht Hs H].
  - rewrite (resource_descriptor_small _ 4) by (cbn; lia). cbn [small_descriptor]. by rewrite irq_no_flags_ok.
  - rewrite (resource_descriptor_small _ 4) by (cbn; lia). cbn [small_descriptor]. by rewrite irq_ok.
  - rewrite (resource_descriptor_small _ 5) by (cbn; lia). cbn [small_descriptor]. by rewrite (dma_ok _ _ speed transfer).
  - rewrite (resource_descriptor_small _ 8) by (cbn; lia). cbn [small_descriptor]. by rewrite io_ok.
  - rewrite (resource_descriptor_large _ 6) by (cbn; lia). cbn [large_descriptor]. by rewrite memory_ok.
  - rewrite (resource_descriptor_large _ 9); [|done|done|].
    + cbn [large_descriptor]. by rewrite interrupt_ok.
    + rewrite !length_app, length_to_le_bytes. cbn [length]. lia.
  - assert (Z.of_nat (length ([space_type_byte t; flags; specific] ++
       concat (map (to_le_bytes size) [gra; low; high; translation; len]) ++ source)) < 2 ^ 16) as Hl.
    { cbn [map concat]. rewrite !length_app, !length_to_le_bytes. cbn [length].
      assert (size <= 8)%nat by (set_unfold; intuition (simplify_eq; lia)). lia. }
    set_unfold in Ht. destruct Ht as [Ht|[Ht|[Ht|[]]]]; injection Ht as -> ->.
    + rewrite (resource_descriptor_large _ 8) by done. cbn [large_descriptor]. by rewrite space_ok by (done || lia).
    + rewrite (resource_descriptor_large _ 7) by done. cbn [large_descriptor]. by rewrite space_ok by (done || lia).
    + rewrite (resource_descriptor_large _ 10) by done. cbn [large_descriptor]. by rewrite space_ok by (done || lia).
Qed.
End Items.

Section Lists.
Context {env : AmlEnv}.

(** A list ends with the buffer or with an end tag, behind which nothing is read. *)
Definition list_end (tail : bytes) : Prop :=
  tail = [] \/ exists tag rest, tail = tag :: rest /\ 0x78 <= u8 tag < 0x80 /\
    u8 tag - 0x78 <= Z.of_nat (length rest).

Lemma Encodes_length r data : Encodes r data -> (1 <= length data)%nat.
Proof. by destruct 1; cbn; lia. Qed.

Lemma descriptor_loop_end fuel tail : list_end tail -> (length tail <= fuel)%nat ->
  descriptor_loop fuel tail = Ok [].
Proof.
  intros [-> |(tag & rest & -> & Ht & Hl)] Hf; [by destruct fuel|].
  destruct fuel as [|fuel]; [cbn in Hf; lia|]. cbn [descriptor_loop].
  rewrite <-(take_drop (Z.to_nat (u8 tag - 0x78)) rest).
  change (tag :: ?a ++ ?b) with (small_item tag a ++ b).
  by rewrite (resource_descriptor_small _ 15) by (rewrite ?length_take; lia).
Qed.

Lemma descriptor_loop_app fuel rs items tail : Forall2 Encodes rs items ->
  (length (concat items ++ tail) <= fuel)%nat -> list_end tail ->
  descriptor_loop fuel (concat items ++ tail) = Ok rs.
Proof.
  intros H. revert fuel. induction H as [|r item rs items Hr _ IH]; intros fuel Hf Ht.
  - by apply descriptor_loop_end.
  - pose proof (Encodes_length r item Hr) as Hl. cbn [concat] in *. rewrite <-app_assoc in *.
    rewrite length_app in Hf. destruct fuel as [|fuel]; [lia|].
    cbn [descriptor_loop]. destruct (item ++ concat items ++ tail) as [|b data] eqn:E;
      [destruct item; [cbn in Hl; lia|done]|]. rewrite <-E, (resource_descriptor_ok r item) by done.
    cbn [result_bind]. by rewrite IH by (done || lia).
Qed.

(** What a descriptor leaves of the buffer. *)
Lemma split_at_rest data n a b : split_at data n = Ok (a, b) -> length b = (length data - n)%nat.
Proof. unfold split_at. destruct (_ <=? _)%nat; [|done]. intros [= <- <-]. apply length_drop. Qed.

Lemma resource_descriptor_consumes data r rest : resource_descriptor data = Ok (Some r, rest) ->
  (length rest < length data)%nat.
Proof.
  unfold resource_descriptor, byte_at. destruct data as [|b data]; [done|]. cbn [lookup list_lookup unwrap result_bind].
  destruct (get_bit (u8 b) 7).
  - destruct (u16_at _ _) as [n|e|f]; cbn [result_bind]; [|done..].
    destruct (split_at _ _) as [[x y]|e|f] eqn:Es; cbn [result_bind]; [|done..].
    apply split_at_rest in Es. destruct (large_descriptor _ _); cbn; [|done..].
    intros [= _ <-]. cbn in Es |- *. lia.
  - destruct (split_at _ _) as [[x y]|e|f] eqn:Es; cbn [result_bind]; [|done..].
    apply split_at_rest in Es. destruct (small_descriptor _ _) as [[d|]|e|f]; cbn; [|done..].
    intros [= _ <-]. cbn in Es |- *. lia.
Qed.

(** Descriptors do not run out of fuel: they panic, at the worst. *)
Definition bounded {A} (r : result AmlError A) : Prop := forall f, r = Fail f -> f = Panic.

Lemma bounded_bind {A B} (m : result AmlError A) (k : A -> result AmlError B) :
  bounded m -> (forall a, bounded (k a)) -> bounded (result_bind m k).
Proof. intros Hm Hk f. destruct m as [a|e|f']; cbn; [apply Hk|done|]. intros [= ->]. by apply Hm. Qed.

Lemma bounded_byte_at data i : bounded (byte_at data i).
Proof. intros f. unfold byte_at. destruct (data !! i); cbn; congruence. Qed.
Lemma bounded_slice data a b : bounded (@slice byte AmlError data a b).
Proof. intros f. unfold slice. destruct (_ && _); congruence. Qed.
Lemma bounded_split_at data n : bounded (split_at data n).
Proof. intros f. unfold split_at. destruct (_ <=? _)%nat; congruence. Qed.

Ltac bounded := repeat first
  [ apply bounded_byte_at | apply bounded_slice | apply bounded_split_at
  | progress unfold u16_at, u32_at, address_field, assert_, result_map
  | apply bounded_bind; [|intros]
  | match goal with |- bounded (match ?x with _ => _ end) => destruct x end
  | by intros ? ?; congruence ].

Lemma bounded_large t data : bounded (large_descriptor t data).
Proof.
  unfold large_descriptor, fixed_memory_descriptor, address_space_descriptor, extended_interrupt_descriptor.
  bounded.
Qed.

Lemma bounded_small t data : bounded (small_descriptor t data).
Proof.
  unfold small_descriptor, irq_format_descriptor, dma_format_descriptor, io_port_descriptor. bounded.
Qed.

Lemma bounded_descriptor data : bounded (resource_descriptor data).
Proof.
  unfold resource_descriptor. apply bounded_bind; [apply bounded_byte_at|intros first].
  destruct (get_bit first 7); bounded; apply bounded_large || apply bounded_small.
Qed.

Lemma bounded_loop fuel data : (length data <= fuel)%nat -> bounded (descriptor_loop fuel data).
Proof.
  revert data. induction fuel as [|fuel IH]; intros [|b data] Hf; try by intros ? ?; simplify_eq.
  - cbn in Hf. lia.
  - cbn [descriptor_loop]. pose proof (bounded_descriptor (b :: data)) as Hb.
    destruct (resource_descriptor (b :: data)) as [[[r|] rest]|e|f] eqn:E; cbn [result_bind]; try by intros ? ?; simplify_eq.
    + apply resource_descriptor_consumes in E. apply bounded_bind; [|by intros ? ? ?; simplify_eq].
      apply IH. cbn in E, Hf. lia.
    + intros f' [= <-]. by apply Hb.
Qed.

(** * Properties *)

(** C15: Lists of resources are read back: whatever encodings of the resources a buffer
    holds, up to its end or an end tag, the list is the resources in order; the lock
    of the buffer is released and the context is as it was. *)
Theorem resource_list_roundtrip l rs items tail c :
  Forall2 Encodes rs items -> list_end tail ->
  buffers c !! l = Some (concat items ++ tail) -> (l ∉ locked c) ->
  resource_descriptor_list (VBuffer l) c = SOk rs c.
Proof.
  intros H Ht Hb Hl. unfold resource_descriptor_list, with_lock, load_buffer.
  rewrite bool_decide_false by done. rewrite Hb. unfold se_lift.
  rewrite (descriptor_loop_app _ rs) by done. by destruct c.
Qed.

(** Reading the list of any value ends without a deadlock or a wild read: a buffer of
    any contents gives resources or an error, or panics, within a round per byte; any
    other value is an error; and only the context of a buffer that is locked or
    missing is excluded. *)
Theorem resource_list_total value c :
  (forall l, value = VBuffer l -> (l ∉ locked c) /\ is_Some (buffers c !! l)) ->
  (exists rs, resource_descriptor_list value c = SOk rs c) \/
  (exists e, resource_descriptor_list value c = SErr e c) \/
  resource_descriptor_list value c = SFail Panic.
Proof.
  intros H. destruct value; try (right; left; by eexists).
  destruct (H _ eq_refl) as [Hl [data Hb]]. cbn [resource_descriptor_list]. unfold with_lock, load_buffer.
  rewrite bool_decide_false by done. rewrite Hb. unfold se_lift.
  pose proof (bounded_loop (length data) data ltac:(lia)) as Hloop.
  destruct (descriptor_loop _ data) as [rs|e|f]; cbn.
  - left. exists rs. by destruct c.
  - right. left. exists e. by destruct c.
  - right. right. f_equal. by apply Hloop.
Qed.
End Lists.

(** * The properties on a concrete buffer *)

(** A port, a bus number range, an interrupt and the end tag. *)
Definition sample_resources : list Resource :=
  [RIOPort (MkIOPort true (0x60, 0x60) 1 1);
   RAddressSpace (MkAddressSpace BusNumberRangeType true true Additive 0 (0, 0xff) 0 0x100);
   RIrq (MkIrq false TriggerEdge PolarityHigh false false 2)].
Definition sample_items : list bytes :=
  [[x47; x01; x60; x00; x60; x00; x01; x01];
   [x88; x0d; x00; x02; x0c; x00; x00; x00; x00; x00; xff; x00; x00; x00; x00; x01];
   [x22; x02; x00]].
Definition resource_context (data : bytes) : @AmlContext env_debug :=
  MkContext env_debug ∅ new_namespace None root 0 VbNone [data] [].

Lemma sample_encodes : Forall2 Encodes sample_resources sample_items.
Proof.
  repeat apply Forall2_cons_2; [| | |apply Forall2_nil_2].
  - exact (enc_io x01 0x60 0x60 x01 x01 ltac:(split; lia) ltac:(split; lia)).
  - apply (enc_space x88 2 BusNumberRangeType x0c x00 0 0 0xff 0 0x100 []).
    + set_solver.
    + done.
    + repeat (apply Forall_cons_2; [split; lia|]). apply Forall_nil_2.
  - exact (enc_irq_no_flags 2 ltac:(split; lia)).
Qed.

Lemma resource_list_roundtrip_witness :
  @resource_descriptor_list env_debug (VBuffer 0) (resource_context (concat sample_items ++ [x79; x00])) =
  SOk sample_resources (resource_context (concat sample_items ++ [x79; x00])).
Proof.
  apply (@resource_list_roundtrip env_debug 0 sample_resources sample_items [x79; x00]
    (resource_context (concat sample_items ++ [x79; x00]))).
  - exact sample_encodes.
  - right. exists x79, [x00]. split; [reflexivity|]. split; [split; reflexivity || discriminate|].
    discriminate.
  - reflexivity.
  - apply not_elem_of_nil.
Defined.

Lemma resource_list_total_witness :
  exists e, @resource_descriptor_list env_debug (VBuffer 0) (resource_context [x86; x00; x00]) =
  SErr e (resource_context [x86; x00; x00]).
Proof.
  assert (match @resource_descriptor_list env_debug (VBuffer 0) (resource_context [x86; x00; x00]) with
    SErr _ _ => true | _ => false end = true) as He by (vm_compute; reflexivity).
  destruct (@resource_list_total env_debug (VBuffer 0) (resource_context [x86; x00; x00])) as [[rs H]|[[e H]|H]].
  - intros l [= <-]. split; [apply not_elem_of_nil|by eexists].
  - rewrite H in He. discriminate.
  - exists e. exact H.
  - rewrite H in He. discriminate.
Defined.
