(* ===== verification/UnitTests.v ===== *)
(** The unit tests of the [aml] crate, as computations that panic when an assertion fails,
    and that all of them pass: the model gives the results that the authors of the code
    expect of it, in debug and in release builds. *)
From S2P Require Import Prelude Types Names Namespace Env RustStd Context Value Parser.
From S2P Require Import PkgLength Opcode NameObject Grammar Expression Statement TermObject.
From S2P Require Import Interp Resource TestUtils.
#[local] Open Scope Z_scope.

#[export] Instance result_eq_dec {E A} `{EqDecision E} `{EqDecision A} : EqDecision (result E A).
Proof. solve_decision. Defined.
#[export] Instance PkgLength_eq_dec : EqDecision PkgLength.
Proof. solve_decision. Defined.
#[export] Instance MemoryRangeDescriptor_eq_dec : EqDecision MemoryRangeDescriptor.
Proof. solve_decision. Defined.
#[export] Instance InterruptTrigger_eq_dec : EqDecision InterruptTrigger.
Proof. solve_decision. Defined.
#[export] Instance InterruptPolarity_eq_dec : EqDecision InterruptPolarity.
Proof. solve_decision. Defined.
#[export] Instance IrqDescriptor_eq_dec : EqDecision IrqDescriptor.
Proof. solve_decision. Defined.
#[export] Instance AddressSpaceResourceType_eq_dec : EqDecision AddressSpaceResourceType.
Proof. solve_decision. Defined.
#[export] Instance AddressSpaceDecodeType_eq_dec : EqDecision AddressSpaceDecodeType.
Proof. solve_decision. Defined.
#[export] Instance AddressSpaceDescriptor_eq_dec : EqDecision AddressSpaceDescriptor.
Proof. solve_decision. Defined.
#[export] Instance IOPortDescriptor_eq_dec : EqDecision IOPortDescriptor.
Proof. solve_decision. Defined.
#[export] Instance DMASupportedSpeed_eq_dec : EqDecision DMASupportedSpeed.
Proof. solve_decision. Defined.
#[export] Instance DMATransferTypePreference_eq_dec : EqDecision DMATransferTypePreference.
Proof. solve_decision. Defined.
#[export] Instance DMADescriptor_eq_dec : EqDecision DMADescriptor.
Proof. solve_decision. Defined.
#[export] Instance Resource_eq_dec : EqDecision Resource.
Proof. solve_decision. Defined.

(** Bytes as the tests write them. *)
Definition b8 (bs : list Z) : bytes := map to_u8 bs.

(** A test ends, or panics. *)
Abbreviation Test := (result AmlError unit).

(** [assert_eq!(r, expected)] on results and on other data. *)
Definition returns {A} `{EqDecision A} (r expected : result AmlError A) : Test :=
  match r with
  | Fail a => Fail a
  | _ => assert_ (bool_decide (r = expected))
  end.
Definition assert_eq {A} `{EqDecision A} (a b : A) : Test := assert_ (bool_decide (a = b)).

(** [AmlName::from_str(s).unwrap()] *)
Definition lit (s : String.string) : result AmlError AmlName := name_lit (bstr s).
Arguments lit s%_string_scope.
Definition seg_lit (s : String.string) : result AmlError NameSeg := unwrap_ok (seg_from_str (bstr s)).
Arguments seg_lit s%_string_scope.

(** * Names *)

Definition seg_SB_ : NameSeg := MkSeg x5f x53 x42 x5f.
Definition seg_PCI0 : NameSeg := MkSeg x50 x43 x49 x30.

Definition test_aml_name_from_str : Test :=
  let? _ := returns (name_from_str (bstr "")) (Err EmptyNamesAreInvalid) in
  let? _ := returns (name_from_str (bstr "\")) (Ok root) in
  let? _ := returns (name_from_str (bstr "\_SB.PCI0")) (Ok [Root; Segment seg_SB_; Segment seg_PCI0]) in
  returns (name_from_str (bstr "\_SB.^^^PCI0"))
    (Ok [Root; Segment seg_SB_; Prefix; Prefix; Prefix; Segment seg_PCI0]).

(** One line of the tests of a predicate on names. *)
Definition name_is (f : AmlName -> bool) (s : String.string) (expected : bool) : Test :=
  let? n := lit s in assert_eq (f n) expected.
Arguments name_is f s%_string_scope expected.

Definition test_is_normal : Test :=
  let? _ := assert_eq (is_normal root) true in
  let? _ := name_is is_normal "\_SB.PCI0.VGA" true in
  let? _ := name_is is_normal "\_SB.^PCI0.VGA" false in
  let? _ := name_is is_normal "\^_SB.^^PCI0.VGA" false in
  let? _ := name_is is_normal "_SB.^^PCI0.VGA" false in
  name_is is_normal "_SB.PCI0.VGA" true.

Definition normalizes (s : String.string) (expected : result AmlError AmlName) : Test :=
  let? n := lit s in returns (normalize n) expected.
Arguments normalizes s%_string_scope expected.

Definition test_normalization : Test :=
  let? _ := normalizes "\_SB.PCI0" (lit "\_SB.PCI0") in
  let? _ := normalizes "\_SB.^PCI0" (lit "\PCI0") in
  let? _ := normalizes "\_SB.PCI0.^^FOO" (lit "\FOO") in
  let? _ := normalizes "_SB.PCI0.^FOO.BAR" (lit "_SB.FOO.BAR") in
  let? n := lit "\^_SB" in
  let? _ := normalizes "\^_SB" (Err (InvalidNormalizedName n)) in
  let? n := lit "\_SB.PCI0.FOO.^^^^BAR" in
  normalizes "\_SB.PCI0.FOO.^^^^BAR" (Err (InvalidNormalizedName n)).

Definition test_is_absolute : Test :=
  let? _ := assert_eq (is_absolute root) true in
  let? _ := name_is is_absolute "\_SB.PCI0.VGA" true in
  let? _ := name_is is_absolute "\_SB.^PCI0.VGA" true in
  let? _ := name_is is_absolute "\^_SB.^^PCI0.VGA" true in
  let? _ := name_is is_absolute "_SB.^^PCI0.VGA" false in
  name_is is_absolute "_SB.PCI0.VGA" false.

Definition test_search_rules_apply : Test :=
  let? _ := assert_eq (search_rules_apply root) false in
  let? _ := name_is search_rules_apply "\_SB" false in
  let? _ := name_is search_rules_apply "^VGA" false in
  let? _ := name_is search_rules_apply "_SB.PCI0.VGA" false in
  let? _ := name_is search_rules_apply "VGA" true in
  name_is search_rules_apply "_SB" true.

Definition test_aml_name_parent : Test :=
  let? n := lit "\" in
  let? _ := returns (parent n) (Err RootHasNoParent) in
  let? n := lit "\_SB" in
  let? _ := returns (parent n) (Ok root) in
  let? n := lit "\_SB.PCI0" in
  let? _ := returns (parent n) (lit "\_SB") in
  let? m := unwrap_ok (parent n) in
  returns (parent m) (Ok root).

Section UnitTests.
Context {build : AmlEnv} {natives : @UserNatives (with_handler build TestHandler)}.

(** What the crate is compiled against, with the handler of the tests. *)
#[local] Instance test_env : AmlEnv := with_handler build TestHandler.

(** * The namespace *)

(** The calls on a namespace that the tests make; a result that is not the expected one
    panics. *)
Definition adds_level (s : String.string) (typ : LevelType) : SE Namespace AmlError unit := fun ns =>
  match lit s with
  | Ok n =>
      match add_level n typ ns with
      | SOk _ ns => SOk tt ns
      | SErr _ _ => SFail Panic
      | SFail r => SFail r
      end
  | Err _ => SFail Panic
  | Fail r => SFail r
  end.
Arguments adds_level s%_string_scope typ.

Definition adds_value (s : String.string) (v : AmlValue) : SE Namespace AmlError unit := fun ns =>
  match lit s with
  | Ok n =>
      match add_value n v ns with
      | SOk _ ns => SOk tt ns
      | SErr _ _ => SFail Panic
      | SFail r => SFail r
      end
  | Err _ => SFail Panic
  | Fail r => SFail r
  end.
Arguments adds_value s%_string_scope v.

(** The values hold no buffers, so they are compared in any context. *)
Definition holds (s : String.string) (expected : AmlValue) (ns : Namespace) : Test :=
  let? n := lit s in
  let? v := unwrap_ok (get_by_path ns n) in
  let? c := make_test_context in
  match crudely_cmp_values v expected c with
  | SOk same _ => assert_ same
  | SErr _ _ => Fail Panic
  | SFail r => Fail r
  end.
Arguments holds s%_string_scope expected ns.

Definition finds (s scope expected : String.string) (ns : Namespace) : Test :=
  let? n := lit s in
  let? scope := lit scope in
  let? (name, _) := unwrap_ok (search ns n scope) in
  let? expected := lit expected in
  assert_eq name expected.
Arguments finds s%_string_scope scope%_string_scope expected%_string_scope ns.

Definition test_namespace : Test :=
  match (do! adds_level "\" LScope in
         do! adds_level "\_SB" LScope in
         do! adds_level "\_SB" LScope in
         do! adds_level "\_SB.PCI0" LDevice in
         do! adds_level "\FOO" LScope in
         do! adds_level "\FOO.BAR" LScope in
         do! adds_level "\FOO.BAR.BAZ" LScope in
         do! adds_level "\FOO.BAR.BAZ" LScope in
         do! adds_level "\FOO.BAR.BAZ.QUX" LScope in
         do! adds_value "\MOO" (VBoolean true) in
         do! adds_value "\FOO.BAR.A" (VInteger 12345) in
         do! adds_value "\FOO.BAR.B" (VInteger 6) in
         adds_value "\FOO.BAR.C" (VString (bstr "hello, world!"))) new_namespace with
  | SOk _ ns =>
      let? _ := holds "\MOO" (VBoolean true) ns in
      let? _ := holds "\FOO.BAR.A" (VInteger 12345) ns in
      let? _ := holds "\FOO.BAR.B" (VInteger 6) ns in
      let? _ := holds "\FOO.BAR.C" (VString (bstr "hello, world!")) ns in
      let? _ := finds "MOO" "\FOO.BAR.BAZ" "\MOO" ns in
      let? _ := finds "A" "\FOO.BAR" "\FOO.BAR.A" ns in
      finds "A" "\FOO.BAR.BAZ.QUX" "\FOO.BAR.A" ns
  | SErr _ _ => Fail Panic
  | SFail r => Fail r
  end.

Definition last_seg_is (s seg : String.string) (ns : Namespace) : Test :=
  let? n := lit s in
  let? (_, last_seg) := unwrap_ok (get_level_for_path ns n) in
  let? expected := seg_lit seg in
  assert_eq last_seg expected.
Arguments last_seg_is s%_string_scope seg%_string_scope ns.

Definition test_get_level_for_path : Test :=
  match (do! adds_level "\FOO" LScope in
         do! adds_level "\FOO.BAR" LScope in
         do! adds_level "\FOO.BAR.BAZ" LScope in
         do! adds_level "\FOO.BAR.BAZ" LScope in
         adds_level "\FOO.BAR.BAZ.QUX" LScope) new_namespace with
  | SOk _ ns =>
      let? _ := last_seg_is "\FOO.BAR.BAZ" "BAZ" ns in
      last_seg_is "\FOO" "FOO" ns
  | SErr _ _ => Fail Panic
  | SFail r => Fail r
  end.

(** * The parsers *)

(** [let mut context = make_test_context();] and the checks that use it. *)
Definition in_test_context (m : SE AmlContext AmlError unit) : Test :=
  let? c := make_test_context in
  match m c with
  | SOk _ _ => Ok tt
  | SErr _ _ => Fail Panic
  | SFail r => Fail r
  end.

Definition test_take_n : Test := in_test_context (
  do! check_err (take_n 1) [] UnexpectedEndOfStream [] in
  do! check_err (take_n 2) (b8 [0xf5]) UnexpectedEndOfStream (b8 [0xf5]) in
  do! check_ok (take_n 1) (b8 [0xff]) (b8 [0xff]) [] in
  do! check_ok (take_n 1) (b8 [0xff; 0xf8]) (b8 [0xff]) (b8 [0xf8]) in
  check_ok (take_n 2) (b8 [0xff; 0xf8]) (b8 [0xff; 0xf8]) []).

Definition test_take_ux : Test := in_test_context (
  do! check_err take_u16 (b8 [0x34]) UnexpectedEndOfStream (b8 [0x34]) in
  do! check_ok take_u16 (b8 [0x34; 0x12]) 0x1234 [] in
  do! check_err take_u32 (b8 [0x34; 0x12]) UnexpectedEndOfStream (b8 [0x34; 0x12]) in
  do! check_ok take_u32 (b8 [0x34; 0x12; 0xf4; 0xc3; 0x3e]) 0xc3f41234 (b8 [0x3e]) in
  do! check_err take_u64 (b8 [0x34]) UnexpectedEndOfStream (b8 [0x34]) in
  check_ok take_u64 (b8 [0x34; 0x12; 0x35; 0x76; 0xd4; 0x43; 0xa3; 0xb6; 0xff; 0x00])
    0xb6a343d476351234 (b8 [0xff; 0x00])).

(** The tests of [opcode.rs], [empty], [simple_opcodes] and [extended_opcodes]. *)
Definition empty_opcodes : Test := in_test_context (
  do! check_err (opcode NULL_NAME) [] UnexpectedEndOfStream [] in
  check_err (ext_opcode EXT_DEF_FIELD_OP) [] UnexpectedEndOfStream []).

Definition simple_opcodes : Test := in_test_context (
  do! check_ok (opcode DEF_SCOPE_OP) [DEF_SCOPE_OP] tt [] in
  check_ok (opcode DEF_NAME_OP) ([DEF_NAME_OP] ++ b8 [0x31; 0x55; 0xf3]) tt (b8 [0x31; 0x55; 0xf3])).

Definition extended_opcodes : Test := in_test_context (
  do! check_err (ext_opcode EXT_DEF_FIELD_OP) [EXT_DEF_FIELD_OP; EXT_DEF_FIELD_OP] WrongParser
    [EXT_DEF_FIELD_OP; EXT_DEF_FIELD_OP] in
  check_ok (ext_opcode EXT_DEF_FIELD_OP) [EXT_OPCODE_PREFIX; EXT_DEF_FIELD_OP] tt []).

Definition test_correct_pkglength (stream : bytes) (expected_raw_length : Z) (expected_leftover : bytes) : Test :=
  let? expected := unwrap_ok (from_raw_length stream expected_raw_length) in
  in_test_context (check_ok pkg_length stream expected expected_leftover).

Definition test_raw_pkg_length : Test := in_test_context (
  do! check_ok raw_pkg_length (b8 [0x45; 0x14]) 325 [] in
  do! check_ok raw_pkg_length (b8 [0x47; 0x14; 0x46]) 327 (b8 [0x46]) in
  check_ok raw_pkg_length (b8 [0x87; 0x14; 0x46]) 287047 []).

Definition test_pkg_length : Test := in_test_context (
  do! check_err pkg_length [] UnexpectedEndOfStream [] in
  do! se_lift (test_correct_pkglength (b8 [0x00]) 0 []) in
  do! se_lift (test_correct_pkglength (b8 [0x05; 0xf5; 0x7f; 0x3e; 0x54; 0x03]) 5 (b8 [0xf5; 0x7f; 0x3e; 0x54; 0x03])) in
  check_ok (p_feed pkg_length take_to_end_of_pkglength)
    (b8 [0x05; 0x01; 0x02; 0x03; 0x04; 0xff; 0xff; 0xff]) (b8 [0x01; 0x02; 0x03; 0x04]) (b8 [0xff; 0xff; 0xff])).

Definition not_enough_pkglength : Test := in_test_context (
  check_err pkg_length (b8 [0xc0; 0xff; 0x4f]) UnexpectedEndOfStream (b8 [0xc0; 0xff; 0x4f])).

Definition not_enough_stream : Test := in_test_context (
  check_err pkg_length (b8 [0x05; 0xf5]) InvalidPkgLength (b8 [0x05; 0xf5])).

Definition test_name_seg : Test := in_test_context (
  do! check_ok name_seg (bstr "AF3Z") (MkSeg x41 x46 x33 x5a) [] in
  do! check_ok name_seg (bstr "AF3Z" ++ b8 [0xff]) (MkSeg x41 x46 x33 x5a) (b8 [0xff]) in
  do! check_err name_seg (b8 [0xff] ++ bstr "EA7") (UnexpectedByte xff) (b8 [0xff] ++ bstr "EA7") in
  check_err name_seg [] UnexpectedEndOfStream []).

Definition test_name_path : Test := in_test_context (
  do! check_err name_path [] UnexpectedEndOfStream [] in
  do! check_ok name_path (b8 [0x00]) [] [] in
  do! check_ok name_path (b8 [0x00; 0x00]) [] (b8 [0x00]) in
  do! check_err name_path (b8 [0x2e] ++ bstr "A") UnexpectedEndOfStream (b8 [0x2e] ++ bstr "A") in
  check_ok name_path (b8 [0x2e] ++ bstr "ABCDE_FG")
    [Segment (MkSeg x41 x42 x43 x44); Segment (MkSeg x45 x5f x46 x47)] []).

Definition test_prefix_path : Test :=
  let? one := lit "^ABCD" in
  let? three := lit "^^^ABCD" in
  in_test_context (
    do! check_ok name_string (bstr "^ABCD") one [] in
    check_ok name_string (bstr "^^^ABCD") three []).

(** * Values *)

Definition test_computational_data (fuel : nat) : Test :=
  let p := @computational_data test_env (grammar fuel) in
  in_test_context (
    do! check_ok_value p (b8 [0x00; 0x34; 0x12]) (VInteger 0) (b8 [0x34; 0x12]) in
    do! check_ok_value p (b8 [0x01; 0x18; 0xf3]) (VInteger 1) (b8 [0x18; 0xf3]) in
    do! check_ok_value p (b8 [0xff; 0x98; 0xc3]) (VInteger (2 ^ 64 - 1)) (b8 [0x98; 0xc3]) in
    do! check_ok_value p (b8 [0x5b; 0x30]) (VInteger AML_INTERPRETER_REVISION) [] in
    do! check_ok_value p (b8 [0x0a; 0xf3; 0x35]) (VInteger 0xf3) (b8 [0x35]) in
    do! check_ok_value p (b8 [0x0b; 0xf3; 0x35]) (VInteger 0x35f3) [] in
    do! check_ok_value p (b8 [0x0c; 0xf3; 0x35; 0x12; 0x65; 0xff; 0x00]) (VInteger 0x651235f3) (b8 [0xff; 0x00]) in
    do! check_ok_value p (b8 [0x0e; 0xf3; 0x35; 0x12; 0x65; 0xff; 0x00; 0x67; 0xde; 0x28])
      (VInteger 0xde6700ff651235f3) (b8 [0x28]) in
    check_ok_value p (b8 [0x0d] ++ bstr "ABCD" ++ b8 [0x00; 0xff; 0xf5]) (VString (bstr "ABCD")) (b8 [0xff; 0xf5])).

(** One line of [test_object_cmp]: [assert_eq!(a.cmp(b, &mut context), Ok(expected))]. *)
Definition compares (fuel : nat) (a b : Z) (expected : comparison) : SE AmlContext AmlError unit :=
  let! r := value_cmp fuel (VInteger a) (VInteger b) in
  se_lift (assert_eq r expected).

Definition test_object_cmp (fuel : nat) : Test := in_test_context (
  do! compares fuel 76 89 Lt in
  do! compares fuel 11 11 Eq in
  compares fuel 8362836690 1 Gt).

(** * Resource descriptors *)

(** [resource_descriptor_list(&AmlValue::Buffer(Arc::new(Spinlock::new(bytes)))).unwrap()] *)
Definition reads_resources (data : list Z) (expected : list Resource) : Test := in_test_context (
  let! l := alloc_buffer (b8 data) in
  let! resources := resource_descriptor_list (VBuffer l) in
  se_lift (assert_eq resources expected)).

Definition test_parses_keyboard_crs : Test :=
  reads_resources
    [0x47; 0x01; 0x60; 0x00; 0x60; 0x00; 0x01; 0x01;
     0x47; 0x01; 0x64; 0x00; 0x64; 0x00; 0x01; 0x01;
     0x22; 0x02; 0x00;
     0x79; 0x00]
    [RIOPort (MkIOPort true (0x60, 0x60) 1 1);
     RIOPort (MkIOPort true (0x64, 0x64) 1 1);
     RIrq (MkIrq false TriggerEdge PolarityHigh false false (Z.shiftl 1 1))].

Definition test_pci_crs : Test :=
  reads_resources
    [0x88; 0x0d; 0x00; 0x02; 0x0c; 0x00; 0x00; 0x00; 0x00; 0x00; 0xff; 0x00; 0x00; 0x00; 0x00; 0x01;
     0x47; 0x01; 0xf8; 0x0c; 0xf8; 0x0c; 0x01; 0x08;
     0x88; 0x0d; 0x00; 0x01; 0x0c; 0x03; 0x00; 0x00; 0x00; 0x00; 0xf7; 0x0c; 0x00; 0x00; 0xf8; 0x0c;
     0x88; 0x0d; 0x00; 0x01; 0x0c; 0x03; 0x00; 0x00; 0x00; 0x0d; 0xff; 0xff; 0x00; 0x00; 0x00; 0xf3;
     0x87; 0x17; 0x00; 0x00; 0x0c; 0x03; 0x00; 0x00; 0x00; 0x00; 0x00; 0x00; 0x0a; 0x00; 0xff; 0xff; 0x0b;
     0x00; 0x00; 0x00; 0x00; 0x00; 0x00; 0x00; 0x02; 0x00;
     0x87; 0x17; 0x00; 0x00; 0x0c; 0x01; 0x00; 0x00; 0x00; 0x00; 0x00; 0x00; 0x00; 0xe0; 0xff; 0xff; 0xbf;
     0xfe; 0x00; 0x00; 0x00; 0x00; 0x00; 0x00; 0xc0; 0x1e;
     0x79; 0x00]
    [RAddressSpace (MkAddressSpace BusNumberRangeType true true Additive 0 (0x00, 0xff) 0 0x100);
     RIOPort (MkIOPort true (0xcf8, 0xcf8) 1 8);
     RAddressSpace (MkAddressSpace IORangeType true true Additive 0 (0x0000, 0x0cf7) 0 0xcf8);
     RAddressSpace (MkAddressSpace IORangeType true true Additive 0 (0x0d00, 0xffff) 0 0xf300);
     RAddressSpace (MkAddressSpace MemoryRangeType true true Additive 0 (0xa0000, 0xbffff) 0 0x20000);
     RAddressSpace (MkAddressSpace MemoryRangeType true true Additive 0 (0xe0000000, 0xfebfffff) 0 0x1ec00000)].

Definition test_fdc_crs : Test :=
  reads_resources
    [0x47; 0x01; 0xf2; 0x03; 0xf2; 0x03; 0x00; 0x04;
     0x47; 0x01; 0xf7; 0x03; 0xf7; 0x03; 0x00; 0x01;
     0x22; 0x40; 0x00;
     0x2a; 0x04; 0x00;
     0x79; 0x00]
    [RIOPort (MkIOPort true (0x03f2, 0x03f2) 0 4);
     RIOPort (MkIOPort true (0x03f7, 0x03f7) 0 1);
     RIrq (MkIrq false TriggerEdge PolarityHigh false false (Z.shiftl 1 6));
     RDma (MkDMA (Z.shiftl 1 2) CompatibilityMode false Only8Bit)].

(** * All of them *)

(** The order of the modules and of the tests in them. *)
Definition unit_tests (fuel : nat) : list Test :=
  [test_name_seg; test_name_path; test_prefix_path;
   test_aml_name_from_str; test_is_normal; test_normalization; test_is_absolute; test_search_rules_apply;
   test_aml_name_parent; test_namespace; test_get_level_for_path;
   empty_opcodes; simple_opcodes; extended_opcodes;
   test_take_n; test_take_ux;
   test_raw_pkg_length; test_pkg_length; not_enough_pkglength; not_enough_stream;
   test_parses_keyboard_crs; test_pci_crs; test_fdc_crs;
   test_computational_data fuel; test_object_cmp fuel].
End UnitTests.

(** The tests as [cargo test] builds them, without native methods of the user. *)
Definition run_unit_tests (build : AmlEnv) : list Test :=
  @unit_tests build {| user_native _ := se_err WrongParser |} 2.

(** The unit tests of the [aml] crate pass, in debug and in release builds, with the
    reference implementations of the crates it uses: every assertion of the authors on
    names, the namespace, the parsers, package lengths, values and resource descriptors
    holds of the definitions here. *)
Theorem unit_tests_pass :
  Forall (fun result => result = Ok tt) (run_unit_tests env_debug) /\
  Forall (fun result => result = Ok tt) (run_unit_tests env_release).
Proof.
  assert (forall l : list Test, forallb (fun r => match r with Ok _ => true | _ => false end) l = true ->
    Forall (fun result => result = Ok tt) l) as H.
  { induction l as [|[[]| |] l IH]; intros Hl; try discriminate; constructor; [done|by apply IH]. }
  split; apply H; vm_compute; reflexivity.
Qed.
