(* ===== verification/PciRouting.v ===== *)
(** PCI interrupt routing ([aml/src/pci_routing.rs]): the tables that [_PRT] objects
    give, and the interrupts they route pins to. *)
From S2P Require Import Prelude Types Names Namespace Env RustStd Context Value.
From S2P Require Import Grammar Interp Sample Resource.
#[local] Open Scope Z_scope.

Inductive Pin := IntA | IntB | IntC | IntD.

#[export] Instance Pin_eq_dec : EqDecision Pin.
Proof. solve_decision. Defined.

Inductive PciRouteType := Gsi (gsi : Z) | LinkObject (name : AmlName).

Record PciRoute := MkRoute { device : Z; function : Z; pin : Pin; route_type : PciRouteType }.

(** [PciRoutingTable] *)
Abbreviation PciRoutingTable := (list PciRoute).

Section PciRouting.
Context {env : AmlEnv} {natives : UserNatives}.
Abbreviation M := (SE AmlContext AmlError).

(** [pin_package[i]] *)
Definition element (package : list AmlValue) (i : nat) : M AmlValue := se_lift (unwrap (package !! i)).

Definition pin_of (z : Z) : result AmlError Pin :=
  match z with
  | 0 => Ok IntA
  | 1 => Ok IntB
  | 2 => Ok IntC
  | 3 => Ok IntD
  | _ => Err PrtInvalidPin
  end.

(** One of the inner packages. *)
Definition pci_route (fuel : nat) (prt_path : AmlName) (value : AmlValue) : M PciRoute :=
  match value with
  | VPackage pin_package =>
      let! value := element pin_package 0 in
      let! address := as_integer fuel value in
      let! device := se_lift (try_into 16 PrtInvalidAddress (get_bits address 16 32)) in
      let! function := se_lift (try_into 16 PrtInvalidAddress (get_bits address 0 16)) in
      let! value := element pin_package 1 in
      let! pin := as_integer fuel value in
      let! pin := se_lift (pin_of pin) in
      let! source := element pin_package 2 in
      match source with
      | VInteger 0 =>
          let! value := element pin_package 3 in
          let! gsi := as_integer fuel value in
          let! gsi := se_lift (try_into 32 PrtInvalidGsi gsi) in
          se_ret (MkRoute device function pin (Gsi gsi))
      | VString name =>
          let! name := se_lift (name_from_str name) in
          let! link_object_name := in_namespace (fun ns => search_for_level ns name prt_path) in
          se_ret (MkRoute device function pin (LinkObject link_object_name))
      | _ => se_err PrtInvalidSource
      end
  | value => se_err (IncompatibleValueConversion (type_of value) TPackage)
  end.

(** The loop over the inner packages. *)
Fixpoint pci_routes (fuel : nat) (prt_path : AmlName) (values : list AmlValue) : M PciRoutingTable :=
  match values with
  | [] => se_ret []
  | value :: values =>
      let! entry := pci_route fuel prt_path value in
      let! entries := pci_routes fuel prt_path values in
      se_ret (entry :: entries)
  end.

(** [PciRoutingTable::from_prt_path] *)
Definition from_prt_path (fuel : nat) (prt_path : AmlName) : M PciRoutingTable :=
  let! prt := invoke fuel prt_path args_empty in
  match prt with
  | VPackage inner_values => pci_routes fuel prt_path inner_values
  | prt => se_err (IncompatibleValueConversion (type_of prt) TPackage)
  end.

(** The condition on the entry of a route. *)
Definition matches (dev func : Z) (p : Pin) (entry : PciRoute) : bool :=
  (device entry =? dev) && ((function entry =? 0xffff) || (function entry =? func))
  && bool_decide (pin entry = p).

(** [PciRoutingTable::route] *)
Definition route (fuel : nat) (table : PciRoutingTable) (device function : Z) (pin : Pin) : M IrqDescriptor :=
  let! entry := se_lift (ok_or PrtNoEntry (List.find (matches device function pin) table)) in
  match route_type entry with
  | Gsi gsi => se_ret (MkIrq true TriggerLevel PolarityLow true false gsi)
  | LinkObject name =>
      let! path := se_lift (name_lit (bstr "_CRS")) in
      let! path := se_lift (resolve path name) in
      let! link_crs := invoke fuel path args_empty in
      let! resources := resource_descriptor_list link_crs in
      match resources with
      | [RIrq descriptor] => se_ret descriptor
      | _ => se_err UnexpectedResourceType
      end
  end.
End PciRouting.

(** * What a table describes *)

Definition pin_number (p : Pin) : Z := match p with IntA => 0 | IntB => 1 | IntC => 2 | IntD => 3 end.

(** The packages that describe a route: the pin is connected to an interrupt, or to
    an interrupt link, whose name follows the search rules. *)
Inductive Describes (ns : Namespace) (prt_path : AmlName) : PciRoute -> AmlValue -> Prop :=
  | describes_gsi dev func p gsi rest : is_u16 dev -> is_u16 func -> is_u32 gsi ->
      Describes ns prt_path (MkRoute dev func p (Gsi gsi))
        (VPackage (VInteger (65536 * dev + func) :: VInteger (pin_number p) :: VInteger 0 ::
           VInteger gsi :: rest))
  | describes_link dev func p s name link rest : is_u16 dev -> is_u16 func ->
      name_from_str s = Ok name -> search_for_level ns name prt_path = Ok link ->
      Describes ns prt_path (MkRoute dev func p (LinkObject link))
        (VPackage (VInteger (65536 * dev + func) :: VInteger (pin_number p) :: VString s :: rest)).

(** The segment [_CRS]. *)
Definition crs : NameSeg := MkSeg x5f x43 x52 x53.

Section Properties.
Context {env : AmlEnv} {natives : UserNatives}.

Lemma try_into_ok w e z : in_width w z -> try_into w e z = Ok z.
Proof. intros H. unfold try_into. by rewrite bool_decide_true. Qed.

Lemma lift_bind {A B} (r : result AmlError A) a (k : A -> SE AmlContext AmlError B) c : r = Ok a ->
  (let! x := se_lift r in k x) c = k a c.
Proof. by intros ->. Qed.

Lemma pin_of_number p : pin_of (pin_number p) = Ok p.
Proof. by destruct p. Qed.

Lemma pci_route_ok fuel prt_path r v c : (0 < fuel)%nat -> Describes (namespace c) prt_path r v ->
  pci_route fuel prt_path v c = SOk r c.
Proof.
  intros Hf H. destruct fuel as [|fuel]; [lia|].
  assert (forall dev func, is_u16 dev -> is_u16 func ->
    get_bits (65536 * dev + func) 16 32 = dev /\ get_bits (65536 * dev + func) 0 16 = func) as Hbits.
  { unfold in_width. intros dev func H1 H2. rewrite !get_bits_div by lia.
    change (2 ^ 16) with 65536. change (2 ^ (32 - 16)) with 65536. change (2 ^ (16 - 0)) with 65536.
    change (2 ^ 0) with 1. split; Z.to_euclidean_division_equations; lia. }
  destruct H as [dev func p gsi rest H1 H2 H3|dev func p s name link rest H1 H2 Hn Hl];
    destruct (Hbits dev func H1 H2) as [Ed Ef];
    unfold pci_route, element, se_bind, se_lift, se_ret; cbn [lookup list_lookup unwrap as_integer];
    unfold se_ret; rewrite Ed, Ef, !try_into_ok, pin_of_number by done.
  - done.
  - rewrite Hn. unfold in_namespace, se_gets, se_bind, se_get, se_ret, se_lift. by rewrite Hl.
Qed.

Lemma pci_routes_ok fuel prt_path routes values c : (0 < fuel)%nat ->
  Forall2 (Describes (namespace c) prt_path) routes values ->
  pci_routes fuel prt_path values c = SOk routes c.
Proof.
  intros Hf H. induction H as [|r v routes values Hr _ IH]; [done|]. cbn [pci_routes].
  unfold se_bind. rewrite (pci_route_ok fuel prt_path r v c Hf Hr). by rewrite IH.
Qed.

(** C16: A routing table is built from what the [_PRT] object gives, the routes in its
    order; and it routes a pin of a function by the first route that is for it, or
    for all functions of the device: to the interrupt of the route, to the interrupt
    that the [_CRS] of the interrupt link encodes, or to an error if there is none. *)
Theorem prt_correct fuel prt_path values routes c c1 : (0 < fuel)%nat ->
  invoke fuel prt_path args_empty c = SOk (VPackage values) c1 ->
  Forall2 (Describes (namespace c1) prt_path) routes values ->
  from_prt_path fuel prt_path c = SOk routes c1 /\
  forall dev func p c2,
    match option_map route_type (List.find (matches dev func p) routes) with
    | None => route fuel routes dev func p c2 = SErr PrtNoEntry c2
    | Some (Gsi gsi) => route fuel routes dev func p c2 = SOk (MkIrq true TriggerLevel PolarityLow true false gsi) c2
    | Some (LinkObject link) =>
        forall path l c3 d item tail, link = Root :: map Segment path ->
        invoke fuel (Root :: map Segment (path ++ [crs])) args_empty c2 = SOk (VBuffer l) c3 ->
        Encodes (RIrq d) item -> list_end tail -> buffers c3 !! l = Some (item ++ tail) -> (l ∉ locked c3) ->
        route fuel routes dev func p c2 = SOk d c3
    end.
Proof.
  intros Hf Hi Hd. split.
  - unfold from_prt_path, se_bind. rewrite Hi. by apply pci_routes_ok.
  - intros dev func p c2. unfold route.
    destruct (List.find _ routes) as [[d f p' t]|]; cbn [option_map ok_or]; [|done].
    rewrite (lift_bind _ _ _ _ eq_refl). cbn [route_type]. destruct t as [gsi|link]; [done|].
    intros path l c3 d0 item tail -> Hc He Ht Hb Hl.
    assert (name_lit (bstr "_CRS") = @Ok AmlError _ [Segment crs]) as Ec by reflexivity.
    rewrite (lift_bind _ _ _ _ Ec).
    pose proof (resolve_prefixes 0 [crs] path) as Er. rewrite Nat.sub_0_r in Er.
    change (resolve [Segment crs] (Root :: map Segment path) =
      Ok (Root :: map Segment (firstn (length path) path ++ [crs]))) in Er. rewrite firstn_all in Er.
    rewrite (lift_bind _ _ _ _ Er). unfold se_bind at 1. rewrite Hc.
    unfold se_bind at 1. unfold resource_descriptor_list, with_lock, load_buffer.
    rewrite bool_decide_false by done. rewrite Hb. unfold se_lift.
    pose proof (descriptor_loop_app (length (item ++ tail)) [RIrq d0] [item] tail) as El.
    cbn [concat] in El. rewrite app_nil_r in El. rewrite El; [by destruct c3|by repeat constructor|done|done].
Qed.
End Properties.

(** * The property on a concrete table *)

(** Invoking an object that is not a method gives the object. *)
Lemma invoke_value {env : AmlEnv} {natives : UserNatives} fuel path v c :
  get_by_path (namespace c) path = Ok v -> (forall flags code, v <> VMethod flags code) ->
  invoke fuel path args_empty c = SOk v c.
Proof.
  intros Hv Hm. unfold invoke, invoke_method, in_namespace, se_bind, se_gets, se_bind, se_get, se_ret, se_lift.
  rewrite Hv. destruct v; try done. by edestruct Hm.
Qed.

(** Pin A of device 1 is connected to interrupt 20, pin B to the link [LNKA], whose
    [_CRS] encodes the interrupt 11. *)
Definition lnka : NameSeg := MkSeg x4c x4e x4b x41.
Definition prt_name : AmlName := [Root; Segment (MkSeg x5f x50 x52 x54)].
Definition sample_prt : list AmlValue :=
  [VPackage [VInteger 0x1ffff; VInteger 0; VInteger 0; VInteger 20];
   VPackage [VInteger 0x1ffff; VInteger 1; VString (bstr "LNKA")]].
Definition sample_routes : list PciRoute :=
  [MkRoute 1 0xffff IntA (Gsi 20); MkRoute 1 0xffff IntB (LinkObject [Root; Segment lnka])].
Definition sample_crs : bytes := [x89; x06; x00; x09; x01; x0b; x00; x00; x00].

Definition prt_namespace : Namespace :=
  match (do! add_level [Root; Segment lnka] LDevice in
         let! _ := @add_value target_debug [Root; Segment lnka; Segment crs] (VBuffer 0) in
         @add_value target_debug prt_name (VPackage sample_prt)) new_namespace with
  | SOk _ ns => ns
  | _ => new_namespace
  end.
Definition prt_context : @AmlContext env_debug :=
  MkContext env_debug ∅ prt_namespace None root 0 VbNone [sample_crs ++ [x79; x00]] [].

Lemma sample_describes : Forall2 (Describes (namespace prt_context) prt_name) sample_routes sample_prt.
Proof.
  repeat apply Forall2_cons_2; [| |apply Forall2_nil_2].
  - apply (describes_gsi _ _ 1 0xffff IntA 20 []); split; lia.
  - eapply (describes_link _ _ 1 0xffff IntB (bstr "LNKA") [Segment lnka] [Root; Segment lnka] []);
      [split; lia|split; lia|reflexivity|vm_compute; reflexivity].
Qed.

Lemma prt_correct_witness :
  @from_prt_path env_debug sample_natives 5 prt_name prt_context = SOk sample_routes prt_context /\
  @route env_debug sample_natives 5 sample_routes 1 3 IntB prt_context =
    SOk (MkIrq true TriggerLevel PolarityHigh true false 11) prt_context /\
  @route env_debug sample_natives 5 sample_routes 1 3 IntC prt_context = SErr PrtNoEntry prt_context.
Proof.
  destruct (@prt_correct env_debug sample_natives 5 prt_name sample_prt sample_routes prt_context prt_context)
    as [H1 H2].
  - apply Nat.ltb_lt. reflexivity.
  - apply invoke_value; [vm_compute; reflexivity|discriminate].
  - exact sample_describes.
  - split; [exact H1|]. split; [|exact (H2 1 3 IntC prt_context)].
    apply (H2 1 3 IntB prt_context [lnka] 0%nat prt_context
      (MkIrq true TriggerLevel PolarityHigh true false 11) sample_crs [x79; x00]).
    + reflexivity.
    + apply invoke_value; [vm_compute; reflexivity|discriminate].
    + exact (enc_interrupt x09 11 [] ltac:(split; lia) eq_refl).
    + right. exists x79, [x00]. split; [reflexivity|]. split; [split; reflexivity || discriminate|discriminate].
    + reflexivity.
    + apply not_elem_of_nil.
Defined.
