(* ===== verification/Physical.v ===== *)
(** Physical memory and its mappings ([rsdp/src/handler.rs]): the interface of the
    [AcpiHandler] that the user of the [rsdp] and [acpi] crates supplies, the
    mappings that are alive, and what can be read through them. *)
From S2P Require Import Prelude.
#[local] Open Scope Z_scope.

(** * Windows of memory *)

(** What a reference may read: [w_len] bytes from the place it points to. *)
Record Window := MkWindow { w_len : Z; w_at : Z -> byte }.

(** The bytes of a window from an offset on. *)
Definition w_bytes (w : Window) (off : Z) (n : nat) : bytes :=
  map (fun i => w_at w (off + Z.of_nat i)) (seq 0 n).

(** A read of [n] bytes at an offset; outside of the window it is undefined. *)
Definition w_read {E} (w : Window) (off : Z) (n : nat) : result E bytes :=
  if (0 <=? off) && (off + Z.of_nat n <=? w_len w)
  then Ok (w_bytes w off n) else Fail UB.

(** A little-endian integer of [n] bytes ([repr(C, packed)] fields on the targets
    that have ACPI). *)
Definition w_uint {E} (w : Window) (off : Z) (n : nat) : result E Z :=
  let? data := w_read w off n in Ok (from_le_bytes data).

(** [&*(ptr.add(off) as *const T)] *)
Definition w_shift (w : Window) (off : Z) : Window :=
  MkWindow (w_len w - off) (fun i => w_at w (off + i)).

(** A copy of the bytes on the stack. *)
Definition w_copy {E} (w : Window) (off : Z) (n : nat) : result E Window :=
  let? data := w_read w off n in
  Ok (MkWindow (Z.of_nat n) (fun i => nth (Z.to_nat i) data x00)).

(** The window on a list of bytes. *)
Definition w_of (data : bytes) : Window :=
  MkWindow (Z.of_nat (length data)) (fun i => nth (Z.to_nat i) data x00).

(** [fold(0u8, |sum, &byte| sum.wrapping_add(byte))] *)
Definition wrapping_sum (data : bytes) : Z :=
  fold_left (fun sum b => wrap 8 (sum + u8 b)) data 0.

(** ** The layout of a packed structure *)

(** The name and the size of a field. *)
Record Field := F { field_name : String.string; field_size : nat }.
Arguments F field_name%_string_scope field_size%_nat_scope.

Abbreviation layout := (list Field).

Fixpoint size_of (l : layout) : nat :=
  match l with [] => 0 | f :: l => field_size f + size_of l end.

(** The offset and the size of a field. *)
Fixpoint offset_of (l : layout) (name : String.string) : option (nat * nat) :=
  match l with
  | [] => None
  | f :: l =>
      if String.eqb (field_name f) name then Some (O, field_size f)
      else match offset_of l name with
           | Some (o, n) => Some ((field_size f + o)%nat, n)
           | None => None
           end
  end.

(** [self.name] for a field of bytes and for an integer field. A name that the
    layout does not have is excluded by the type checker of the code. *)
Definition field_bytes {E} (l : layout) (w : Window) (name : String.string) : result E bytes :=
  match offset_of l name with
  | Some (o, n) => w_read w (Z.of_nat o) n
  | None => Fail UB
  end.
Definition field {E} (l : layout) (w : Window) (name : String.string) : result E Z :=
  let? data := field_bytes l w name in Ok (from_le_bytes data).
Arguments field_bytes {E} l w name%_string_scope.
Arguments field {E} l w name%_string_scope.
Arguments offset_of l name%_string_scope.

(** * The handler *)

(** What the documentation of [AcpiHandler] and of [PhysicalMapping] says: the
    memory behind a physical address; how much is mapped for a request, which is
    at least what was asked for; and whether [unmap_physical_region] takes the
    memory away (it does nothing where all memory stays mapped). *)
Class AcpiHandler := {
  physical : Z -> byte;
  extent : Z -> Z -> Z;
  unmaps : bool;
  extent_ok address size : size <= extent address size
}.

(** [PhysicalMapping]; [virtual_start] is identified by the request that made it. *)
Record PhysicalMapping := MkMapping {
  virtual_start : nat;
  physical_start : Z;
  region_length : Z;
  mapped_length : Z
}.

(** The requests that were made and those that were unmapped. *)
Record Machine := MkMachine { requests : nat; unmapped : list nat }.

Section Handler.
Context {handler : AcpiHandler} {E : Type}.

(** [AcpiHandler::map_physical_region] *)
Definition map_physical_region (address size : Z) : SE Machine E PhysicalMapping := fun m =>
  SOk (MkMapping (requests m) address size (extent address size))
    (MkMachine (S (requests m)) (unmapped m)).

(** [Drop::drop] of a mapping, that is [AcpiHandler::unmap_physical_region]. *)
Definition drop_mapping (p : PhysicalMapping) : SE Machine E unit :=
  se_modify (fun m =>
    if unmaps then MkMachine (requests m) (virtual_start p :: unmapped m) else m).

(** The memory behind a mapping: all that is mapped for it, while it is mapped. *)
Definition deref (p : PhysicalMapping) : SE Machine E Window := fun m =>
  if bool_decide (virtual_start p ∈ unmapped m) then SFail UB
  else SOk (MkWindow (mapped_length p) (fun i => physical (physical_start p + i))) m.

(** [let x = mapping; ..]: the mapping is dropped when its scope is left, on every
    path. *)
Definition scoped {A} (p : PhysicalMapping) (m : SE Machine E A) : SE Machine E A :=
  let! r := se_try m in do! drop_mapping p in se_lift r.
End Handler.

(** * Lemmas *)

Lemma result_bind_ext {E A B} (m m' : result E A) (k k' : A -> result E B) :
  m = m' -> (forall a, k a = k' a) -> result_bind m k = result_bind m' k'.
Proof. intros -> H. destruct m'; cbn; auto. Qed.

Lemma w_read_ok {E} w off n : 0 <= off -> off + Z.of_nat n <= w_len w ->
  @w_read E w off n = Ok (w_bytes w off n).
Proof. intros H1 H2. unfold w_read. by rewrite (proj2 (Z.leb_le _ _) H1), (proj2 (Z.leb_le _ _) H2). Qed.

Lemma w_read_ub {E} w off n : w_len w < off + Z.of_nat n -> @w_read E w off n = Fail UB.
Proof. intros H. unfold w_read. rewrite (proj2 (Z.leb_gt _ _) H). by rewrite andb_false_r. Qed.

Lemma w_bytes_S w off n : w_bytes w off (S n) = w_at w off :: w_bytes w (off + 1) n.
Proof.
  unfold w_bytes. cbn [seq map]. rewrite Z.add_0_r, <-(seq_shift n 0), map_map. f_equal.
  apply map_ext. intros i. f_equal. lia.
Qed.

Lemma w_uint_byte {E} w off : 0 <= off < w_len w -> @w_uint E w off 1 = Ok (u8 (w_at w off)).
Proof.
  intros H. unfold w_uint. rewrite w_read_ok, w_bytes_S by lia. cbn. by rewrite Z.add_0_r.
Qed.

Lemma w_read_length {E} w off n data : @w_read E w off n = Ok data -> length data = n.
Proof.
  unfold w_read. destruct (_ && _); [|done]. intros [= <-]. unfold w_bytes. by rewrite length_map, length_seq.
Qed.

Lemma w_read_not_err {E} w off n e : @w_read E w off n <> Err e.
Proof. unfold w_read. by destruct (_ && _). Qed.

(** Reading the window on a list. *)
Lemma w_read_of {E} data off n : (off + n <= length data)%nat ->
  @w_read E (w_of data) (Z.of_nat off) n = Ok (take n (drop off data)).
Proof.
  intros H. rewrite w_read_ok by (cbn; lia). f_equal. unfold w_bytes. cbn.
  apply list_eq. intros i. rewrite lookup_take.
  change (map ?f ?l) with (f <$> l). rewrite list_lookup_fmap.
  case_decide as Hi.
  - rewrite lookup_seq_lt by done. cbn. rewrite lookup_drop.
    replace (Z.to_nat (Z.of_nat off + Z.of_nat i)) with (off + i)%nat by lia.
    destruct (nth_lookup_or_length data (off + i) x00) as [->|]; [done|lia].
  - by rewrite lookup_seq_ge by lia.
Qed.

(** The wrapping sum of bytes is their sum modulo 256. *)
Fixpoint total (data : bytes) : Z :=
  match data with [] => 0 | b :: data => u8 b + total data end.

Lemma total_app a b : total (a ++ b) = total a + total b.
Proof. induction a as [|x a IH]; cbn; [done|]. rewrite IH. lia. Qed.

Lemma wrapping_sum_total data : wrapping_sum data = total data mod 256.
Proof.
  unfold wrapping_sum. enough (forall acc, fold_left (fun sum b => wrap 8 (sum + u8 b)) data (acc mod 256) =
    (acc + total data) mod 256) as H by exact (H 0).
  induction data as [|b data IH]; intros acc; cbn; [by rewrite Z.add_0_r|].
  unfold wrap at 2. change (2 ^ 8) with 256. rewrite Zplus_mod_idemp_l, IH. f_equal. lia.
Qed.

Lemma w_bytes_of data off n : (off + n <= length data)%nat ->
  w_bytes (w_of data) (Z.of_nat off) n = take n (drop off data).
Proof.
  intros H. pose proof (w_read_of (E := unit) data off n H) as R.
  rewrite w_read_ok in R by (cbn; lia). by injection R.
Qed.

(** A window whose bytes a list gives reads as the list does. *)
Definition w_agrees (w : Window) (data : bytes) : Prop :=
  Z.of_nat (length data) <= w_len w /\ w_bytes w 0 (length data) = data.

Lemma w_agrees_of data : w_agrees (w_of data) data.
Proof.
  split; [cbn; lia|]. rewrite (w_bytes_of data 0) by lia. rewrite drop_0. by rewrite take_ge by lia.
Qed.

Lemma w_bytes_split w off n i k : (i + k <= n)%nat ->
  w_bytes w (off + Z.of_nat i) k = take k (drop i (w_bytes w off n)).
Proof.
  intros H. apply list_eq. intros j. unfold w_bytes. rewrite lookup_take, lookup_drop.
  change (map ?f ?l) with (f <$> l). rewrite !list_lookup_fmap. case_decide as Hj.
  - rewrite !lookup_seq_lt by lia. cbn. do 2 f_equal. lia.
  - by rewrite lookup_seq_ge by lia.
Qed.

Lemma w_read_agrees {E} w data off n : w_agrees w data -> (off + n <= length data)%nat ->
  @w_read E w (Z.of_nat off) n = Ok (take n (drop off data)).
Proof.
  intros [Hl Hd] H. rewrite w_read_ok by lia. f_equal.
  by rewrite <-(Z.add_0_l (Z.of_nat off)), (w_bytes_split w 0 (length data)), Hd by lia.
Qed.

(** ** Equal windows *)

(** Windows of the same length with the same bytes. *)
Definition w_eq (w w' : Window) : Prop :=
  w_len w = w_len w' /\ forall i, 0 <= i < w_len w -> w_at w i = w_at w' i.

#[export] Instance w_eq_equivalence : Equivalence w_eq.
Proof.
  split.
  - by split.
  - intros w w' [Hl H]. split; [done|]. intros i Hi. symmetry. apply H. lia.
  - intros x y z [H1 H2] [H3 H4]. split; [congruence|]. intros i Hi. rewrite H2, H4 by lia. done.
Qed.

#[export] Instance w_read_proper {E} : Proper (w_eq ==> eq ==> eq ==> eq) (@w_read E).
Proof.
  intros w w' [Hl H] o _ <- n _ <-. unfold w_read. rewrite Hl. destruct (_ && _) eqn:B; [|done].
  f_equal. apply map_ext_in. intros i [_ Hi]%in_seq. apply andb_prop in B as [B1 B2]. apply H. lia.
Qed.

#[export] Instance field_bytes_proper {E} : Proper (eq ==> w_eq ==> eq ==> eq) (@field_bytes E).
Proof.
  intros l _ <- w w' H name _ <-. unfold field_bytes.
  destruct (offset_of l name) as [[o n]|]; [by rewrite H|done].
Qed.

#[export] Instance field_proper {E} : Proper (eq ==> w_eq ==> eq ==> eq) (@field E).
Proof. intros l _ <- w w' H name _ <-. unfold field. by rewrite H. Qed.

Lemma w_copy_ok {E} w off n : 0 <= off -> off + Z.of_nat n <= w_len w ->
  exists w', @w_copy E w off n = Ok w' /\
    w_eq w' (MkWindow (Z.of_nat n) (fun i => w_at w (off + i))).
Proof.
  intros H1 H2. unfold w_copy. rewrite w_read_ok by done. eexists. split; [done|].
  split; [done|]. cbn. intros i Hi. unfold w_bytes.
  erewrite nth_lookup_Some; [done|]. change (map ?f ?l) with (f <$> l).
  rewrite list_lookup_fmap, lookup_seq_lt by lia. cbn. do 3 f_equal. lia.
Qed.

(** ** Structures *)

(** The value of a field among the values of the fields. *)
Fixpoint value_of (l : layout) (vals : list bytes) (name : String.string) : option bytes :=
  match l, vals with
  | f :: l, v :: vals =>
      if String.eqb (field_name f) name then Some v else value_of l vals name
  | _, _ => None
  end.
Arguments value_of l vals name%_string_scope.

(** The values have the sizes of the fields. *)
Definition fits (l : layout) (vals : list bytes) : Prop :=
  Forall2 (fun f v => length v = field_size f) l vals.

Lemma fits_length l vals : fits l vals -> length (concat vals) = size_of l.
Proof. intros H. induction H; cbn; [done|]. rewrite length_app. lia. Qed.

Lemma offset_of_value l vals name v : fits l vals -> value_of l vals name = Some v ->
  exists o n, offset_of l name = Some (o, n) /\ (o + n <= length (concat vals))%nat /\
    take n (drop o (concat vals)) = v.
Proof.
  intros H. induction H as [|f x l vals Hx _ IH]; cbn; [done|].
  destruct (String.eqb _ _).
  - intros [= ->]. exists O, (field_size f). rewrite drop_0, length_app, <-Hx, take_app_length.
    split_and!; [done|lia|done].
  - intros Hv. destruct (IH Hv) as (o & n & -> & Hl & Ht).
    exists (field_size f + o)%nat, n. rewrite length_app, <-Hx. split_and!; [done|lia|].
    by rewrite <-drop_drop, drop_app_length.
Qed.

Lemma offset_of_app l l' name o : offset_of l name = Some o -> offset_of (l ++ l') name = Some o.
Proof.
  revert o. induction l as [|f l IH]; intros o; cbn; [done|]. destruct (String.eqb _ _); [done|].
  destruct (offset_of l name) as [[o' n]|]; [|done]. intros [= <-]. by rewrite (IH (o', n)).
Qed.

(** A field of a structure reads as its value, also when only the first fields of
    the structure are in memory. *)
Lemma field_bytes_prefix {E} l l' vals w name v : fits l vals -> w_agrees w (concat vals) ->
  value_of l vals name = Some v -> @field_bytes E (l ++ l') w name = Ok v.
Proof.
  intros Hf Hw Hv. destruct (offset_of_value l vals name v Hf Hv) as (o & n & Ho & Hl & Ht).
  unfold field_bytes. rewrite (offset_of_app l l' name _ Ho).
  by rewrite (w_read_agrees w (concat vals)), Ht.
Qed.

Lemma field_bytes_struct {E} l vals w name v : fits l vals -> w_agrees w (concat vals) ->
  value_of l vals name = Some v -> @field_bytes E l w name = Ok v.
Proof. intros. rewrite <-(app_nil_r l). by eapply field_bytes_prefix. Qed.

Lemma field_struct {E} l vals w name v : fits l vals -> w_agrees w (concat vals) ->
  value_of l vals name = Some v -> @field E l w name = Ok (from_le_bytes v).
Proof. intros Hf Hw Hv. unfold field. by erewrite field_bytes_struct. Qed.

Lemma field_prefix {E} l l' vals w name v : fits l vals -> w_agrees w (concat vals) ->
  value_of l vals name = Some v -> @field E (l ++ l') w name = Ok (from_le_bytes v).
Proof. intros Hf Hw Hv. unfold field. by erewrite field_bytes_prefix. Qed.

Lemma w_agrees_app w a b : w_agrees w (a ++ b) -> w_agrees w a.
Proof.
  intros [Hl Hd]. rewrite length_app in *. split; [lia|].
  rewrite <-(Z.add_0_l 0). change 0 with (Z.of_nat 0) at 2.
  rewrite (w_bytes_split w 0 (length a + length b) 0 (length a)), Hd by lia.
  by rewrite drop_0, take_app_length.
Qed.

(** The byte that makes a sum vanish, in the place of a zero byte. *)
Definition checksum_of (data : bytes) : byte := to_u8 (- total data).

Lemma checksum_ok pre post :
  total (concat (pre ++ [checksum_of (concat (pre ++ [x00] :: post))] :: post)) mod 256 = 0.
Proof.
  rewrite !concat_app. cbn [concat app]. rewrite !total_app. cbn [total].
  unfold checksum_of. rewrite to_u8_val, total_app. cbn [total]. change (u8 x00) with 0.
  rewrite Z.add_0_l, Z.add_assoc, (Z.add_comm (total (concat pre))), <-Z.add_assoc, Zplus_mod_idemp_l.
  by rewrite Z.add_opp_diag_l.
Qed.

(** ** Mappings *)

(** Only mappings that were made were unmapped. *)
Definition tidy (m : Machine) : Prop := Forall (fun k => (k < requests m)%nat) (unmapped m).

Section Mappings.
Context {handler : AcpiHandler} {E : Type}.

(** The memory at an address. *)
Definition memory (address len : Z) : Window := MkWindow len (fun i => physical (address + i)).

(** Mapping a region, computing on what is mapped for it and unmapping it again. *)
Lemma scoped_mapping {A} address size m (k : Window -> SE Machine E A) (f : Window -> result E A) :
  tidy m -> (forall w m, k w m = se_lift (f w) m) ->
  exists m', tidy m' /\
  (let! p := map_physical_region address size in scoped p (let! w := deref p in k w)) m =
  match f (memory address (extent address size)) with
  | Ok a => SOk a m'
  | Err e => SErr e m'
  | Fail r => SFail r
  end.
Proof.
  intros Hm Hk. exists (if unmaps then MkMachine (S (requests m)) (requests m :: unmapped m)
                else MkMachine (S (requests m)) (unmapped m)). split.
  { assert (Forall (fun k => (k < S (requests m))%nat) (unmapped m)) as H.
    { eapply Forall_impl; [exact Hm|]. cbn. lia. }
    destruct unmaps; [|exact H]. constructor; [cbn; lia|exact H]. }
  assert (requests m ∉ unmapped m) as Hn.
  { intros H. pose proof (proj1 (Forall_forall _ _) Hm _ H) as H'. cbn in H'. lia. }
  unfold se_bind, map_physical_region, scoped, se_try, se_bind, deref, drop_mapping, se_modify, se_lift.
  cbn. rewrite bool_decide_false by done. fold (memory address (extent address size)).
  rewrite Hk. unfold se_lift. destruct (f _); cbn; by destruct unmaps.
Qed.
End Mappings.

(** * A concrete handler *)

(** Memory with some regions, and zeros elsewhere. *)
Fixpoint byte_in (regions : list (Z * bytes)) (address : Z) : byte :=
  match regions with
  | [] => x00
  | (start, data) :: regions =>
      if (start <=? address) && (address <? start + Z.of_nat (length data))
      then nth (Z.to_nat (address - start)) data x00 else byte_in regions address
  end.

(** A handler that maps [pad] bytes at least. *)
#[program] Definition sample_handler (regions : list (Z * bytes)) (pad : Z) (unmap : bool) : AcpiHandler := {|
  physical := byte_in regions;
  extent _ size := Z.max size pad;
  unmaps := unmap
|}.
Next Obligation. intros. apply Z.le_max_l. Qed.

Definition new_machine : Machine := MkMachine O [].

Lemma new_machine_tidy : tidy new_machine.
Proof. constructor. Qed.
