(* ===== verification/Rsdp.v ===== *)
(** The root system description pointer ([rsdp/src/lib.rs]): its layout, its
    validation, the areas of memory in which a BIOS may have put it and the search
    through them. *)
From S2P Require Import Prelude RustStd Physical.
#[local] Open Scope Z_scope.

Inductive RsdpError := NoValidRsdp | IncorrectSignature | InvalidOemId | InvalidChecksum.

#[export] Instance RsdpError_eq_dec : EqDecision RsdpError.
Proof. solve_decision. Defined.

(** [struct Rsdp]; a reference to it is a window. *)
Definition Rsdp : layout :=
  [F "signature" 8; F "checksum" 1; F "oem_id" 6; F "revision" 1;
   F "rsdt_address" 4; F "length" 4; F "xsdt_address" 8;
   F "ext_checksum" 1; F "reserved" 3].

Definition RSDP_SIGNATURE : bytes := bstr "RSD PTR ".
Definition EBDA_START_SEGMENT_PTR : Z := 0x40e.
Definition EBDA_EARLIEST_START : Z := 0x80000.
Definition EBDA_END : Z := 0x9ffff.
Definition RSDP_BIOS_AREA_START : Z := 0xe0000.
Definition RSDP_BIOS_AREA_END : Z := 0xfffff.
Definition RSDP_V1_LENGTH : Z := 20.

(** [Rsdp::validate] *)
Definition rsdp_validate (self : Window) : result RsdpError unit :=
  let? signature := field_bytes Rsdp self "signature" in
  if bool_decide (signature <> RSDP_SIGNATURE) then Err IncorrectSignature
  else
    let? oem_id := field_bytes Rsdp self "oem_id" in
    if negb (utf8_valid oem_id) then Err InvalidOemId
    else
      let? revision := field Rsdp self "revision" in
      let? length := if 0 <? revision then field Rsdp self "length" else Ok RSDP_V1_LENGTH in
      let? data := w_read self 0 (Z.to_nat length) in
      if bool_decide (wrapping_sum data <> 0) then Err InvalidChecksum else Ok tt.

(** [Rsdp::oem_id], [Rsdp::revision], [Rsdp::rsdt_address], [Rsdp::xsdt_address] *)
Definition rsdp_oem_id {E} (self : Window) : result E bytes :=
  let? oem_id := field_bytes Rsdp self "oem_id" in
  if utf8_valid oem_id then Ok oem_id else Fail Panic.
Definition rsdp_revision {E} (self : Window) : result E Z := field Rsdp self "revision".
Definition rsdt_address {E} (self : Window) : result E Z := field Rsdp self "rsdt_address".
Definition xsdt_address {E} (self : Window) : result E Z :=
  let? revision := field Rsdp self "revision" in
  let? _ := assert_ (0 <? revision) in
  field Rsdp self "xsdt_address".

Section Search.
Context {handler : AcpiHandler}.

(** [Range<usize>] *)
Record Range := MkRange { range_start : Z; range_end : Z }.

(** [find_search_areas] *)
Definition find_search_areas {E} : SE Machine E (list Range) :=
  let! ebda_start_mapping := map_physical_region EBDA_START_SEGMENT_PTR 2 in
  scoped ebda_start_mapping (
    let! w := deref ebda_start_mapping in
    let! segment := se_lift (w_uint w 0 2) in
    let ebda_start := Z.shiftl segment 4 in
    se_ret [MkRange RSDP_BIOS_AREA_START (RSDP_BIOS_AREA_END + 1);
            if (EBDA_EARLIEST_START <=? ebda_start) && (ebda_start <? EBDA_END)
            then MkRange ebda_start (ebda_start + 1024)
            else MkRange EBDA_EARLIEST_START (EBDA_END + 1)]).

(** The loop over the addresses of an area: [n] more steps of 16, from [address]
    on; [w] is the mapping of the area that starts at [start]. *)
Fixpoint search_addresses (n : nat) (w : Window) (start address : Z) : result RsdpError (option Z) :=
  match n with
  | O => Ok None
  | S n =>
      let? signature := w_read w (address - start) 8 in
      if bool_decide (signature = RSDP_SIGNATURE) then
        let? rsdp := w_copy w (address - start) (size_of Rsdp) in
        match rsdp_validate rsdp with
        | Ok _ => Ok (Some address)
        | Err _ => search_addresses n w start (address + 16)
        | Fail r => Fail r
        end
      else search_addresses n w start (address + 16)
  end.

(** The number of steps of [area.step_by(16)]. *)
Definition steps (area : Range) : nat := Z.to_nat ((range_end area - range_start area + 15) / 16).

Definition search_area (area : Range) : SE Machine RsdpError (option Z) :=
  let! mapping := map_physical_region (range_start area) (range_end area - range_start area) in
  scoped mapping (
    let! w := deref mapping in
    se_lift (search_addresses (steps area) w (range_start area) (range_start area))).

Fixpoint search_areas (areas : list Range) : SE Machine RsdpError (option Z) :=
  match areas with
  | [] => se_ret None
  | area :: areas =>
      let! found := search_area area in
      match found with Some address => se_ret (Some address) | None => search_areas areas end
  end.

(** [Rsdp::search_for_on_bios] *)
Definition search_for_on_bios : SE Machine RsdpError PhysicalMapping :=
  let! areas := find_search_areas in
  let! rsdp_address := search_areas areas in
  match rsdp_address with
  | Some address => map_physical_region address (Z.of_nat (size_of Rsdp))
  | None => se_err NoValidRsdp
  end.
End Search.

(** * Encodings *)

(** The values of the fields of a pointer of version 1, and of the later ones. *)
Definition rsdp_fields1 (checksum : byte) (oem_id : bytes) (revision : byte) (rsdt : Z) : list bytes :=
  [RSDP_SIGNATURE; [checksum]; oem_id; [revision]; to_le_bytes 4 rsdt].
Definition rsdp_fields2 (ext : byte) (xsdt : Z) : list bytes :=
  [to_le_bytes 4 36; to_le_bytes 8 xsdt; [ext]; [x00; x00; x00]].

Definition rsdp_v1 (oem_id : bytes) (rsdt : Z) : list bytes :=
  rsdp_fields1 (checksum_of (concat (rsdp_fields1 x00 oem_id x00 rsdt))) oem_id x00 rsdt.
Definition rsdp_v2 (oem_id : bytes) (revision : byte) (rsdt xsdt : Z) : list bytes :=
  let one := rsdp_fields1 (checksum_of (concat (rsdp_fields1 x00 oem_id revision rsdt)))
    oem_id revision rsdt in
  one ++ rsdp_fields2 (checksum_of (concat (one ++ rsdp_fields2 x00 xsdt))) xsdt.

#[export] Instance rsdp_validate_proper : Proper (w_eq ==> eq) rsdp_validate.
Proof.
  intros w w' H. unfold rsdp_validate. apply result_bind_ext; [by rewrite H|]. intros signature.
  destruct (bool_decide _); [done|]. apply result_bind_ext; [by rewrite H|]. intros oem_id.
  destruct (negb _); [done|]. apply result_bind_ext; [by rewrite H|]. intros revision.
  apply result_bind_ext; [destruct (0 <? revision); by rewrite ?H|]. intros length.
  apply result_bind_ext; [by rewrite H|done].
Qed.

(** A pointer whose bytes add up validates. *)
Lemma rsdp_validate_ok w oem_id revision data :
  field_bytes Rsdp w "signature" = @Ok RsdpError _ RSDP_SIGNATURE ->
  field_bytes Rsdp w "oem_id" = @Ok RsdpError _ oem_id -> utf8_valid oem_id = true ->
  field Rsdp w "revision" = @Ok RsdpError _ revision ->
  (if 0 <? revision then field Rsdp w "length" else Ok RSDP_V1_LENGTH) =
    @Ok RsdpError _ (Z.of_nat (length data)) ->
  w_agrees w data -> total data mod 256 = 0 -> rsdp_validate w = Ok tt.
Proof.
  intros Hs Ho Hu Hr Hl Hw Ht. unfold rsdp_validate. rewrite Hs. cbn [result_bind].
  rewrite bool_decide_false by (by intros ?). rewrite Ho. cbn [result_bind]. rewrite Hu. cbn [negb].
  rewrite Hr. cbn [result_bind]. rewrite Hl. cbn [result_bind].
  rewrite Nat2Z.id. change 0 with (Z.of_nat 0). rewrite (w_read_agrees w data) by (done || lia).
  cbn [result_bind]. rewrite drop_0, take_ge, wrapping_sum_total, Ht by lia. done.
Qed.

(** * Properties *)

(** C30: Table pointers are recognized and read back: a version 1 pointer, of 20 bytes,
    and one of a later version, with the extended fields, validate, and give the
    identifier, the revision and the addresses that were put in. *)
Theorem rsdp_roundtrip w oem_id revision rsdt xsdt :
  length oem_id = 6%nat -> utf8_valid oem_id = true -> is_u32 rsdt -> is_u64 xsdt ->
  (w_agrees w (concat (rsdp_v1 oem_id rsdt)) ->
     rsdp_validate w = Ok tt /\ rsdp_revision (E := unit) w = Ok 0 /\
     rsdp_oem_id (E := unit) w = Ok oem_id /\ rsdt_address (E := unit) w = Ok rsdt) /\
  (revision <> x00 -> w_agrees w (concat (rsdp_v2 oem_id revision rsdt xsdt)) ->
     rsdp_validate w = Ok tt /\ rsdp_revision (E := unit) w = Ok (u8 revision) /\
     rsdp_oem_id (E := unit) w = Ok oem_id /\ rsdt_address (E := unit) w = Ok rsdt /\
     xsdt_address (E := unit) w = Ok xsdt).
Proof.
  intros Ho Hu Hr Hx. split.
  - intros Hw. set (vals := rsdp_v1 oem_id rsdt) in *.
    assert (fits (take 5 Rsdp) vals) as Hf by (repeat constructor; exact Ho).
    pose proof (fun E name v => @field_bytes_prefix E _ (drop 5 Rsdp) vals w name v Hf Hw) as Hb.
    pose proof (fun E name v => @field_prefix E _ (drop 5 Rsdp) vals w name v Hf Hw) as Hi.
    change (take 5 Rsdp ++ drop 5 Rsdp) with Rsdp in *.
    assert (forall E, @field E Rsdp w "revision" = Ok 0) as Hrev by (intros; by apply (Hi _ _ [x00])).
    split_and!.
    + eapply (rsdp_validate_ok w oem_id 0 (concat vals)); try done; try by apply Hb.
      * by rewrite (fits_length _ _ Hf).
      * apply (checksum_ok [RSDP_SIGNATURE] [oem_id; [x00]; to_le_bytes 4 rsdt]).
    + done.
    + unfold rsdp_oem_id. rewrite (Hb _ _ oem_id) by done. cbn. by rewrite Hu.
    + unfold rsdt_address. rewrite (Hi _ _ (to_le_bytes 4 rsdt)) by done.
      by rewrite from_to_le_bytes.
  - intros Hne Hw. set (vals := rsdp_v2 oem_id revision rsdt xsdt) in *.
    assert (fits Rsdp vals) as Hf by (repeat constructor; exact Ho).
    pose proof (fun E name v => @field_bytes_struct E _ vals w name v Hf Hw) as Hb.
    pose proof (fun E name v => @field_struct E _ vals w name v Hf Hw) as Hi.
    assert (forall E, @field E Rsdp w "revision" = Ok (u8 revision)) as Hrev.
    { intros. rewrite (Hi _ _ [revision]) by done. cbn. by rewrite Z.add_0_r. }
    assert (0 < u8 revision) as Hpos.
    { pose proof (u8_range revision). destruct (Z.eq_dec (u8 revision) 0) as [E|]; [|lia].
      by apply (u8_inj _ x00) in E. }
    apply Z.ltb_lt in Hpos. split_and!.
    + eapply (rsdp_validate_ok w oem_id (u8 revision) (concat vals)); try done; try by apply Hb.
      * rewrite Hpos, (fits_length _ _ Hf). by apply (Hi _ _ (to_le_bytes 4 36)).
      * apply (checksum_ok (rsdp_fields1 _ oem_id revision rsdt ++ [to_le_bytes 4 36; to_le_bytes 8 xsdt])
                 [[x00; x00; x00]]).
    + done.
    + unfold rsdp_oem_id. rewrite (Hb _ _ oem_id) by done. cbn. by rewrite Hu.
    + unfold rsdt_address. rewrite (Hi _ _ (to_le_bytes 4 rsdt)) by done.
      by rewrite from_to_le_bytes.
    + unfold xsdt_address. rewrite Hrev. cbn. rewrite Hpos. cbn.
      rewrite (Hi _ _ (to_le_bytes 8 xsdt)) by done. by rewrite from_to_le_bytes.
Qed.

(** ** The search *)

(** A range of whole 16-byte steps. *)
Definition stepped (area : Range) : Prop :=
  exists n, 0 <= n /\ range_end area = range_start area + 16 * n.

(** The addresses at which an area is probed. *)
Definition candidates (area : Range) : list Z :=
  map (fun i => range_start area + 16 * Z.of_nat i) (seq 0 (steps area)).

Section SearchLemmas.
Context {handler : AcpiHandler}.

(** The areas that a segment address in the BIOS data area leads to. *)
Definition areas_of (segment : Z) : list Range :=
  [MkRange 0xe0000 0x100000;
   if (0x80000 <=? 16 * segment) && (16 * segment <? 0x9ffff)
   then MkRange (16 * segment) (16 * segment + 1024) else MkRange 0x80000 0xa0000].

Definition ebda_segment : Z := from_le_bytes (w_bytes (memory 0x40e 2) 0 2).

(** There is a valid pointer at an address. *)
Definition rsdp_at (address : Z) : bool :=
  match rsdp_validate (memory address 36) with Ok _ => true | _ => false end.

Definition signature_at (address : Z) : Prop := w_bytes (memory address 8) 0 8 = RSDP_SIGNATURE.

(** Whatever looks like a pointer in an area is in the area and no longer than the
    structure. *)
Definition area_complete (area : Range) : Prop := forall address, address ∈ candidates area ->
  signature_at address ->
  address + 36 <= range_end area /\ rsdp_validate (memory address 36) <> Fail UB.

Lemma rsdp_validate_fail w r : rsdp_validate w = Fail r -> r = UB.
Proof.
  unfold rsdp_validate, field, field_bytes, result_bind, w_read. cbn [offset_of].
  repeat case_match; congruence.
Qed.

Lemma rsdp_validate_signature w : rsdp_validate w = Ok tt ->
  field_bytes Rsdp w "signature" = @Ok RsdpError _ RSDP_SIGNATURE.
Proof.
  unfold rsdp_validate. destruct (field_bytes _ _ "signature") as [s| |]; cbn [result_bind]; [|done|done].
  case_bool_decide as H; [done|]. intros _. by subst.
Qed.

Lemma rsdp_at_signature address : rsdp_at address = true -> signature_at address.
Proof.
  unfold rsdp_at. destruct (rsdp_validate _) as [[]| |] eqn:E; [|done|done]. intros _.
  apply rsdp_validate_signature in E.
  change (@Ok RsdpError _ (w_bytes (memory address 36) 0 8) = Ok RSDP_SIGNATURE) in E.
  exact (f_equal (fun r => match r with Ok d => d | _ => [] end) E).
Qed.

(** One step of the search. *)
Lemma search_step w start n address :
  (forall i, w_at w i = physical (start + i)) -> start <= address -> address + 8 <= start + w_len w ->
  search_addresses (S n) w start address =
  if bool_decide (signature_at address) then
    let? rsdp := w_copy w (address - start) 36 in
    match rsdp_validate rsdp with
    | Ok _ => Ok (Some address)
    | Err _ => search_addresses n w start (address + 16)
    | Fail r => Fail r
    end
  else search_addresses n w start (address + 16).
Proof.
  intros Hw Ha Hl. cbn [search_addresses]. rewrite w_read_ok by lia. cbn [result_bind].
  assert (w_bytes w (address - start) 8 = w_bytes (memory address 8) 0 8) as ->; [|done].
  unfold w_bytes. apply map_ext. intros i. rewrite Hw. cbn. f_equal. lia.
Qed.

Lemma search_addresses_spec w start n address :
  (forall i, w_at w i = physical (start + i)) -> start <= address ->
  address + 16 * Z.of_nat n <= start + w_len w ->
  (forall i, (i < n)%nat -> signature_at (address + 16 * Z.of_nat i) ->
     address + 16 * Z.of_nat i + 36 <= start + w_len w /\
     rsdp_validate (memory (address + 16 * Z.of_nat i) 36) <> Fail UB) ->
  search_addresses n w start address =
  Ok (List.find rsdp_at (map (fun i => address + 16 * Z.of_nat i) (seq 0 n))).
Proof.
  intros Hw. revert address. induction n as [|n IH]; intros address Ha Hl Hc; [done|].
  assert (search_addresses n w start (address + 16) =
    Ok (List.find rsdp_at (map (fun i => address + 16 * Z.of_nat i) (seq 1 n)))) as Hrest.
  { rewrite IH; [|lia|lia|].
    - do 2 f_equal. rewrite <-(seq_shift n 0), map_map. apply map_ext. intros i. lia.
    - intros i Hi. specialize (Hc (S i) ltac:(lia)).
      replace (address + 16 * Z.of_nat (S i)) with (address + 16 + 16 * Z.of_nat i) in Hc by lia.
      exact Hc. }
  rewrite search_step by (done || lia). cbn [seq map List.find]. rewrite Z.mul_0_r, Z.add_0_r.
  case_bool_decide as Hs.
  - destruct (Hc O ltac:(lia)) as [Hl' Hv]; rewrite Z.mul_0_r, Z.add_0_r in *; [exact Hs|].
    destruct (w_copy_ok (E := RsdpError) w (address - start) 36) as (w' & Ew & He); [lia|lia|].
    rewrite Ew. cbn [result_bind].
    assert (w_eq w' (memory address 36)) as Hw'.
    { etrans; [exact He|]. split; [done|]. intros i _. cbn. rewrite Hw. f_equal. lia. }
    unfold rsdp_at. rewrite Hw'. destruct (rsdp_validate (memory address 36)) as [[]|e|r] eqn:Ev.
    + done.
    + exact Hrest.
    + by rewrite (rsdp_validate_fail _ _ Ev) in Hv.
  - destruct (rsdp_at address) eqn:Er; [|exact Hrest]. by apply rsdp_at_signature in Er.
Qed.

Lemma steps_stepped area n : 0 <= n -> range_end area = range_start area + 16 * n ->
  Z.of_nat (steps area) = n.
Proof.
  intros Hn He. unfold steps. rewrite He.
  replace (_ + 16 * n - _ + 15) with (n * 16 + 15) by lia.
  rewrite Z.div_add_l by lia. change (15 / 16) with 0. lia.
Qed.

Lemma search_area_spec area m : tidy m -> stepped area -> area_complete area ->
  exists m', tidy m' /\ search_area area m = SOk (List.find rsdp_at (candidates area)) m'.
Proof.
  intros Hm (n & Hn & He) Hc. pose proof (steps_stepped area n Hn He) as Hs.
  destruct (scoped_mapping (E := RsdpError) (range_start area) (range_end area - range_start area) m
    _ (fun w => search_addresses (steps area) w (range_start area) (range_start area)) Hm (fun w m => eq_refl))
    as (m' & Hm' & E).
  exists m'. split; [done|]. etrans; [exact E|].
  pose proof (extent_ok (range_start area) (range_end area - range_start area)) as Hx.
  rewrite search_addresses_spec; [done|done|lia|cbn; lia|].
  intros i Hi Hsig. destruct (Hc (range_start area + 16 * Z.of_nat i)) as [H1 H2]; [|done|split; [cbn; lia|done]].
  unfold candidates. apply list_elem_of_In, in_map_iff. exists i. split; [done|]. apply in_seq. lia.
Qed.

(** Wherever the EBDA is, in units of 16 bytes. *)
Lemma areas_of_bounds segment : is_u16 segment ->
  exists s n, 0x8000 <= s /\ 0 < n /\ n <= 0x2000 /\ 16 * (s + n) <= 0xe0000 /\
    areas_of segment = [MkRange 0xe0000 0x100000; MkRange (16 * s) (16 * (s + n))].
Proof.
  intros Hs. unfold areas_of. destruct (_ && _) eqn:B.
  - apply andb_prop in B as [B1 B2]. exists segment, 64. split_and!; [lia..|]. do 3 f_equal. lia.
  - exists 0x8000, 0x2000. by split_and!.
Qed.

Lemma areas_stepped segment : Forall stepped (areas_of segment).
Proof.
  unfold areas_of. repeat constructor.
  - by exists 0x2000.
  - destruct (_ && _); [by exists 64|by exists 0x2000].
Qed.

Lemma find_search_areas_spec m : tidy m ->
  exists m', tidy m' /\ find_search_areas (E := RsdpError) m = SOk (areas_of ebda_segment) m'.
Proof.
  intros Hm.
  pose proof (extent_ok EBDA_START_SEGMENT_PTR 2) as Hx.
  assert (@w_uint RsdpError (memory EBDA_START_SEGMENT_PTR (extent EBDA_START_SEGMENT_PTR 2)) 0 2 =
    Ok ebda_segment) as Hu by (unfold w_uint; by rewrite w_read_ok by (cbn; lia)).
  epose proof (scoped_mapping (E := RsdpError) EBDA_START_SEGMENT_PTR 2 m _
    (fun w => let? segment := w_uint w 0 2 in Ok (areas_of segment)) Hm) as H.
  cbv beta in H. rewrite Hu in H. cbn [result_bind] in H. apply H. clear H.
  intros w m1. unfold se_bind, se_lift. destruct (w_uint w 0 2) as [segment| |]; [|done|done].
  cbn [result_bind]. unfold se_ret, areas_of. by rewrite Z.shiftl_mul_pow2, (Z.mul_comm 16) by lia.
Qed.
End SearchLemmas.

Lemma find_app {A} (f : A -> bool) l l' : List.find f (l ++ l') =
  match List.find f l with Some a => Some a | None => List.find f l' end.
Proof. induction l as [|x l IH]; cbn; [done|]. by destruct (f x). Qed.

(** A signature whose structure does not fit. *)
Lemma search_addresses_overrun {handler : AcpiHandler} w start n i address :
  (forall i, w_at w i = physical (start + i)) -> start <= address ->
  address + 16 * Z.of_nat i + 8 <= start + w_len w ->
  (forall j, (j < i)%nat -> ¬ signature_at (address + 16 * Z.of_nat j)) ->
  signature_at (address + 16 * Z.of_nat i) ->
  start + w_len w < address + 16 * Z.of_nat i + 36 ->
  search_addresses (S i + n) w start address = Fail UB.
Proof.
  intros Hw. revert address. induction i as [|i IH]; intros address Ha Hl Hn Hs Ho;
    rewrite Nat.add_succ_l, search_step by (done || lia).
  - rewrite Z.mul_0_r, Z.add_0_r in *. rewrite bool_decide_true by done.
    unfold w_copy. by rewrite w_read_ub by lia.
  - rewrite bool_decide_false.
    2: { specialize (Hn O ltac:(lia)). by rewrite Z.mul_0_r, Z.add_0_r in Hn. }
    rewrite (IH (address + 16)); [done|lia|lia| | |lia].
    + intros j Hj. specialize (Hn (S j) ltac:(lia)).
      by replace (address + 16 + 16 * Z.of_nat j) with (address + 16 * Z.of_nat (S j)) by lia.
    + by replace (address + 16 + 16 * Z.of_nat i) with (address + 16 * Z.of_nat (S i)) by lia.
Qed.

Section Properties.
Context {handler : AcpiHandler}.

Lemma search_areas_spec areas m : tidy m -> Forall stepped areas -> Forall area_complete areas ->
  exists m', tidy m' /\
  search_areas areas m = SOk (List.find rsdp_at (concat (map candidates areas))) m'.
Proof.
  intros Hm Hs Hc. revert m Hm. induction Hc as [|area areas Ha _ IH]; intros m Hm; cbn.
  - by exists m.
  - apply Forall_cons in Hs as [Hs1 Hs2].
    destruct (search_area_spec area m Hm Hs1 Ha) as (m1 & Hm1 & E). rewrite find_app.
    destruct (List.find rsdp_at (candidates area)) as [a|].
    + exists m1. split; [done|]. unfold se_bind. by rewrite E.
    + destruct (IH Hs2 m1 Hm1) as (m2 & Hm2 & E2). exists m2. split; [done|].
      unfold se_bind at 1. rewrite E. exact E2.
Qed.

(** C11: The search: when whatever looks like a pointer in the two areas is complete, the
    search maps the first valid pointer at a multiple of 16 bytes, looking through
    the BIOS area first and then through the first KiB of the EBDA - or through all
    of the memory where it may be when its segment makes no sense -, and reports
    that there is none otherwise. *)
Theorem search_for_on_bios_spec m : tidy m -> Forall area_complete (areas_of ebda_segment) ->
  exists k m', search_for_on_bios m =
  match List.find rsdp_at (concat (map candidates (areas_of ebda_segment))) with
  | Some address => SOk (MkMapping k address 36 (extent address 36)) m'
  | None => SErr NoValidRsdp m'
  end.
Proof.
  intros Hm Hc. destruct (find_search_areas_spec m Hm) as (m1 & Hm1 & E1).
  destruct (search_areas_spec _ m1 Hm1 (areas_stepped ebda_segment) Hc) as (m2 & Hm2 & E2).
  unfold search_for_on_bios, se_bind at 1. rewrite E1. unfold se_bind. rewrite E2.
  destruct (List.find _ _) as [a|].
  - eexists _, _. reflexivity.
  - by exists O, m2.
Qed.

(** C23: A pointer that the end of the mapped memory cuts off is read nevertheless: when the
    first signature in an area is so near to the end of what is mapped that the 36 bytes of
    the structure reach past it, the search reads outside of the mapping. In an area that is
    mapped exactly these are its last two places. *)
Theorem search_reads_past_area area i m : tidy m -> stepped area -> (i < steps area)%nat ->
  (forall j, (j < i)%nat -> ¬ signature_at (range_start area + 16 * Z.of_nat j)) ->
  signature_at (range_start area + 16 * Z.of_nat i) ->
  extent (range_start area) (range_end area - range_start area) < 16 * Z.of_nat i + 36 ->
  search_area area m = SFail UB.
Proof.
  intros Hm (k & Hk & He) Hi Hbefore Hs Hcut. pose proof (steps_stepped area k Hk He) as Hsteps.
  pose proof (extent_ok (range_start area) (range_end area - range_start area)) as Hx.
  epose proof (scoped_mapping (E := RsdpError) (range_start area) (range_end area - range_start area) m
    _ (fun w => search_addresses (steps area) w (range_start area) (range_start area)) Hm
    (fun w m => eq_refl)) as (m' & _ & E).
  etrans; [exact E|]. clear E. cbv beta.
  replace (steps area) with (S i + (steps area - S i))%nat by lia.
  by rewrite search_addresses_overrun by (cbn; done || lia).
Qed.

(** What a search over an area finds is one of the addresses that it probes. *)
Lemma search_addresses_found w start n address a : search_addresses n w start address = Ok (Some a) ->
  exists i, (i < n)%nat /\ a = address + 16 * Z.of_nat i.
Proof.
  revert address. induction n as [|n IH]; intros address; cbn [search_addresses]; [done|].
  assert (search_addresses n w start (address + 16) = Ok (Some a) ->
    exists i, (i < S n)%nat /\ a = address + 16 * Z.of_nat i) as Hrest.
  { intros (i & Hi & ->)%IH. exists (S i). lia. }
  destruct (w_read w _ 8) as [s| |]; cbn [result_bind]; [|done|done]. case_bool_decide; [|exact Hrest].
  destruct (w_copy w _ _) as [r| |]; cbn [result_bind]; [|done|done].
  destruct (rsdp_validate r); [|exact Hrest|done]. intros [= <-]. exists O. lia.
Qed.

Lemma search_area_found area m r m' : tidy m -> search_area area m = SOk r m' ->
  tidy m' /\ forall a, r = Some a -> exists i, (i < steps area)%nat /\ a = range_start area + 16 * Z.of_nat i.
Proof.
  intros Hm. destruct (scoped_mapping (E := RsdpError) (range_start area) (range_end area - range_start area) m
    _ (fun w => search_addresses (steps area) w (range_start area) (range_start area)) Hm (fun w m => eq_refl))
    as (m1 & Hm1 & E).
  intros H. pose proof (eq_trans (eq_sym E) H) as H'. cbv beta in H'. clear E H.
  destruct (search_addresses _ _ _ _) as [r1| |] eqn:Es; [|done|done].
  injection H' as <- <-. split; [done|]. intros a ->. by eapply search_addresses_found.
Qed.

Lemma search_areas_found areas m a m' : tidy m -> search_areas areas m = SOk (Some a) m' ->
  exists area i, area ∈ areas /\ (i < steps area)%nat /\ a = range_start area + 16 * Z.of_nat i.
Proof.
  revert m. induction areas as [|area areas IH]; intros m Hm; cbn [search_areas]; [done|].
  unfold se_bind at 1. destruct (search_area area m) as [[b|] m1| |] eqn:Ea; [| |done|done];
    destruct (search_area_found area m _ m1 Hm Ea) as [Hm1 Hb].
  - intros [= -> _]. destruct (Hb a eq_refl) as (i & Hi & ->). exists area, i. by split; [left|].
  - intros H. destruct (IH m1 Hm1 H) as (area' & i & Hin & Hi). exists area', i. by split; [right|].
Qed.
End Properties.

(** ** What the search depends on *)

(** The search over an area reads nothing else than the area and the 20 bytes behind it. *)
Lemma search_addresses_same w w' start n address : w_len w = w_len w' ->
  (forall a, address <= a < address + 16 * Z.of_nat n + 20 -> w_at w (a - start) = w_at w' (a - start)) ->
  search_addresses n w start address = search_addresses n w' start address.
Proof.
  intros Hl. revert address. induction n as [|n IH]; intros address Ha; cbn [search_addresses]; [done|].
  assert (forall E k, (k <= 36)%nat -> @w_read E w (address - start) k = w_read w' (address - start) k) as Hread.
  { intros E k Hk. unfold w_read. rewrite Hl. destruct (_ && _); [|done]. f_equal.
    apply map_ext_in. intros i [_ Hi]%in_seq. specialize (Ha (address + Z.of_nat i) ltac:(lia)).
    by replace (address + Z.of_nat i - start) with (address - start + Z.of_nat i) in Ha by lia. }
  rewrite Hread by lia. rewrite IH by (intros a Hr; apply Ha; lia). unfold w_copy. by rewrite Hread by (cbn; lia).
Qed.

Section Dependence.
Context (handler handler' : AcpiHandler).

(** The handlers map regions alike. *)
Definition maps_alike : Prop :=
  (forall address size, @extent handler address size = @extent handler' address size) /\
  @unmaps handler = @unmaps handler'.
Context (Halike : maps_alike).

(** Computing on a region that is mapped. *)
Lemma scoped_same {E A} address size m (f f' : Window -> result E A) :
  f (@memory handler address (@extent handler address size)) =
    f' (@memory handler' address (@extent handler' address size)) ->
  (let! p := @map_physical_region handler E address size in
   @scoped handler E A p (let! w := @deref handler E p in se_lift (f w))) m =
  (let! p := @map_physical_region handler' E address size in
   @scoped handler' E A p (let! w := @deref handler' E p in se_lift (f' w))) m.
Proof.
  intros Hf. destruct Halike as [Hx Hu].
  unfold se_bind, map_physical_region, scoped, se_try, se_bind, deref, drop_mapping, se_modify, se_lift.
  cbn [virtual_start mapped_length physical_start unmapped requests]. case_bool_decide; [done|].
  unfold memory in Hf. rewrite Hf. destruct (f' _); cbn; by rewrite ?Hu.
Qed.

Lemma search_area_same area m : stepped area ->
  (forall a, range_start area <= a < range_end area + 20 -> @physical handler a = @physical handler' a) ->
  @search_area handler area m = @search_area handler' area m.
Proof.
  intros (n & Hn & He) Ha. pose proof (steps_stepped area n Hn He) as Hs. unfold search_area.
  apply (scoped_same _ _ m (fun w => search_addresses (steps area) w (range_start area) (range_start area))
    (fun w => search_addresses (steps area) w (range_start area) (range_start area))).
  apply search_addresses_same; [by apply Halike|]. intros a Hr. cbn.
  replace (range_start area + (a - range_start area)) with a by lia. apply Ha.
  lia.
Qed.

Lemma find_search_areas_same m :
  (forall a, 0x40e <= a < 0x410 -> @physical handler a = @physical handler' a) ->
  @find_search_areas handler RsdpError m = @find_search_areas handler' RsdpError m.
Proof.
  intros Ha.
  set (k := fun w : Window => let? segment := w_uint (E := RsdpError) w 0 2 in Ok (areas_of segment)).
  assert (forall h : AcpiHandler, @find_search_areas h RsdpError m =
    (let! p := @map_physical_region h RsdpError 0x40e 2 in
     @scoped h RsdpError _ p (let! w := @deref h RsdpError p in se_lift (k w))) m) as E.
  { intros h. unfold find_search_areas, scoped, se_bind, map_physical_region, se_try, se_bind, deref, se_lift.
    cbn [virtual_start mapped_length physical_start unmapped requests]. case_bool_decide; [done|]. unfold k.
    destruct (w_uint _ 0 2) as [segment| |]; [|done|done].
    cbn [result_bind]. unfold se_ret, areas_of. by rewrite Z.shiftl_mul_pow2, (Z.mul_comm 16) by lia. }
  rewrite !E. apply scoped_same. unfold k. f_equal. unfold w_uint. f_equal. destruct Halike as [-> _].
  unfold w_read. cbn [memory w_len]. destruct (_ && _); [|done]. f_equal.
  apply map_ext_in. intros i [_ Hi]%in_seq. cbn. apply Ha. lia.
Qed.

Lemma search_areas_same areas m : Forall (fun area => stepped area /\
    forall a, range_start area <= a < range_end area + 20 -> @physical handler a = @physical handler' a) areas ->
  @search_areas handler areas m = @search_areas handler' areas m.
Proof.
  intros H. revert m. induction H as [|area areas [Hl Ha] _ IH]; intros m; [done|]. cbn [search_areas].
  unfold se_bind. rewrite (search_area_same area m Hl Ha).
  destruct (@search_area handler' area m) as [[a|] m1| |]; [done|apply IH|done|done].
Qed.

(** C31: The memory that the search looks at. The areas are the BIOS area of 128 KiB below
    1 MiB and, wherever the BIOS says the EBDA is, an area below it that starts at 512 KiB or
    later; they begin and end at multiples of 16. What the search returns is at a multiple of
    16 in one of them. And the search depends on nothing else than the segment of the EBDA
    and the memory between 512 KiB and 1 MiB and the 20 bytes behind it, into which the
    structure at the last probed address reaches: on handlers that map regions alike and
    have the same memory there, it does the same. *)
Theorem search_bounds (m : Machine) : tidy m ->
  (exists ebda m', @find_search_areas handler RsdpError m = SOk [MkRange 0xe0000 0x100000; ebda] m' /\
     0x80000 <= range_start ebda < range_end ebda /\ range_end ebda <= 0xe0000 /\
     range_start ebda mod 16 = 0 /\ range_end ebda mod 16 = 0) /\
  (forall p m', @search_for_on_bios handler m = SOk p m' ->
     0x80000 <= physical_start p /\ physical_start p + 16 <= 0x100000 /\ physical_start p mod 16 = 0) /\
  ((forall a, 0x40e <= a < 0x410 \/ 0x80000 <= a < 0x100014 -> @physical handler a = @physical handler' a) ->
     @search_for_on_bios handler m = @search_for_on_bios handler' m).
Proof.
  intros Hm. destruct (@find_search_areas_spec handler m Hm) as (m1 & Hm1 & E).
  destruct (areas_of_bounds (@ebda_segment handler)) as (s & n & H1 & H2 & H3 & H4 & Ea);
    [apply from_le_bytes_in_width; discriminate|].
  split_and!.
  - exists (MkRange (16 * s) (16 * (s + n))), m1. rewrite E, Ea. split; [done|]. cbn.
    rewrite !(Z.mul_comm 16), !Z.mod_mul by lia. split_and!; lia || done.
  - unfold search_for_on_bios, se_bind. rewrite E, Ea. intros p m'.
    destruct (search_areas _ m1) as [[a|] m2| |] eqn:Es; [|done..]. intros [= <- _]. cbn.
    destruct (search_areas_found _ _ _ _ Hm1 Es) as (area & i & Hin & Hi & ->).
    assert (exists q k, area = MkRange (16 * q) (16 * (q + k)) /\ 0x8000 <= q /\ 0 <= k /\ q + k <= 0x10000)
      as (q & k & -> & Hq & Hk & Hqk).
    { apply elem_of_cons in Hin as [->|Hin%list_elem_of_singleton].
      - by exists 0xe000, 0x2000.
      - exists s, n. split; [done|lia]. }
    pose proof (steps_stepped (MkRange (16 * q) (16 * (q + k))) k Hk ltac:(cbn; lia)) as Hs. cbn [range_start].
    replace (16 * q + 16 * Z.of_nat i) with ((q + Z.of_nat i) * 16) by lia. rewrite Z.mod_mul by lia. lia.
  - intros Ha. unfold search_for_on_bios, se_bind.
    rewrite <-(find_search_areas_same m) by (intros a Hr; apply Ha; lia). rewrite E, Ea.
    rewrite (search_areas_same _ m1).
    { destruct (@search_areas handler' _ m1) as [[a|] m2| |]; [|done..].
      unfold map_physical_region. by rewrite (proj1 Halike). }
    repeat apply Forall_cons_2; [| |constructor]; cbn [range_start range_end].
    + split; [by exists 0x2000|]. intros a Hr. apply Ha. lia.
    + split; [exists n; cbn; lia|]. intros a Hr. apply Ha. lia.
Qed.
End Dependence.


(** * The properties on a concrete memory *)

Definition sample_oem : bytes := bstr "SAMPLE".
Definition sample_rsdp : bytes := concat (rsdp_v2 sample_oem x02 0x7fe0000 0x7fe1000).

(** A pointer at the start of the BIOS area, and one that the area cuts off. *)
Definition bios_handler : AcpiHandler := sample_handler [(0xe0000, sample_rsdp)] 0 true.
Definition cut_handler : AcpiHandler := sample_handler [(0xffff0, sample_rsdp)] 0 true.

Lemma rsdp_roundtrip_witness :
  rsdp_validate (w_of sample_rsdp) = Ok tt /\ xsdt_address (E := unit) (w_of sample_rsdp) = Ok 0x7fe1000.
Proof.
  destruct (rsdp_roundtrip (w_of sample_rsdp) sample_oem x02 0x7fe0000 0x7fe1000) as [_ H].
  - reflexivity.
  - reflexivity.
  - vm_compute. split; congruence.
  - vm_compute. split; congruence.
  - destruct H as (H1 & _ & _ & _ & H2); [discriminate|apply w_agrees_of|]. split; [exact H1|exact H2].
Defined.

(** The same pointer, in a memory with something else at 4 KiB. *)
Definition other_handler : AcpiHandler := sample_handler [(0x1000, [xff; xfe]); (0xe0000, sample_rsdp)] 0 true.

Lemma search_bounds_witness :
  @search_for_on_bios bios_handler new_machine = @search_for_on_bios other_handler new_machine.
Proof.
  assert (maps_alike bios_handler other_handler) as Ha by (split; reflexivity).
  destruct (@search_bounds bios_handler other_handler Ha new_machine new_machine_tidy) as (_ & _ & H).
  apply H. intros a Hr. cbn. destruct (_ && _) eqn:B at 2; [|done]. apply andb_prop in B as [B1 B2].
  apply Z.leb_le in B1. apply Z.ltb_lt in B2. lia.
Defined.

Lemma bios_complete : Forall (@area_complete bios_handler) (areas_of (@ebda_segment bios_handler)).
Proof.
  assert (forall a, @signature_at bios_handler a -> a mod 16 = 0 -> a = 0xe0000) as H.
  { intros a Hs Ha. assert (byte_in [(0xe0000, sample_rsdp)] (a + 0) = "R"%byte) as Hr.
    { exact (f_equal (fun l => nth 0 l x00) Hs). }
    cbn in Hr. rewrite Z.add_0_r in Hr. destruct (_ && _) eqn:B; [|done].
    apply andb_prop in B as [B1 B2]. change (Z.of_nat (length sample_rsdp)) with 36 in B2.
    assert (a = 0xe0000 \/ a = 0xe0010 \/ a = 0xe0020) as [->|[->| ->]]; [|done|..].
    - clear Hr Hs. apply Z.leb_le in B1. apply Z.ltb_lt in B2. cbn in B2.
      pose proof (Z.div_mod a 16 ltac:(done)). lia.
    - by vm_compute in Hr.
    - by vm_compute in Hr. }
  change (areas_of (@ebda_segment bios_handler)) with [MkRange 0xe0000 0x100000; MkRange 0x80000 0xa0000].
  rewrite !Forall_cons. split_and!; [| |by apply Forall_nil];
    intros a (i & <- & Hi%in_seq)%list_elem_of_In%in_map_iff Hs; cbn [range_start range_end] in *;
    (apply H in Hs; [|apply Z.mod_divide; [done|]]).
  - rewrite Hs. split; [done|]. vm_compute. discriminate.
  - exists (0xe000 + Z.of_nat i). lia.
  - change (steps _) with 0x2000%nat in Hi. lia.
  - exists (0x8000 + Z.of_nat i). lia.
Qed.

Lemma search_for_on_bios_spec_witness : exists k m',
  @search_for_on_bios bios_handler new_machine = SOk (MkMapping k 0xe0000 36 36) m'.
Proof.
  destruct (@search_for_on_bios_spec bios_handler new_machine new_machine_tidy bios_complete)
    as (k & m' & H).
  exists k, m'.
  assert (List.find (@rsdp_at bios_handler)
    (concat (map candidates (areas_of (@ebda_segment bios_handler)))) = Some 0xe0000) as E
    by (vm_compute; reflexivity).
  rewrite E in H. exact H.
Defined.

Lemma search_reads_past_area_witness :
  @search_area cut_handler (MkRange 0xe0000 0x100000) new_machine = SFail UB.
Proof.
  apply (@search_reads_past_area cut_handler (MkRange 0xe0000 0x100000) (Z.to_nat 8191) new_machine).
  - apply new_machine_tidy.
  - exists 0x2000. split; [discriminate|reflexivity].
  - apply Nat.ltb_lt. vm_compute. reflexivity.
  - intros j Hj Hs.
    assert (byte_in [(0xffff0, sample_rsdp)] (0xe0000 + 16 * Z.of_nat j + 0) = "R"%byte) as Hr
      by exact (f_equal (fun l => nth 0 l x00) Hs).
    cbn in Hr. rewrite (proj2 (Z.leb_gt _ _)) in Hr by lia. discriminate Hr.
  - vm_compute. reflexivity.
  - vm_compute. reflexivity.
Defined.
