(* ===== verification/Sdt.v ===== *)
(** The header that all system description tables share ([acpi/src/sdt.rs]), its
    validation, the errors of the [acpi] crate and the fields that depend on the
    revision of a table. *)
From S2P Require Import Prelude RustStd Physical Rsdp.
#[local] Open Scope Z_scope.

(** * Signatures *)

(** [Signature] and its constants. *)
Abbreviation Signature := bytes.
Module Signature.
Definition RSDT : Signature := bstr "RSDT".
Definition XSDT : Signature := bstr "XSDT".
Definition FADT : Signature := bstr "FACP".
Definition HPET : Signature := bstr "HPET".
Definition MADT : Signature := bstr "APIC".
Definition MCFG : Signature := bstr "MCFG".
Definition SSDT : Signature := bstr "SSDT".
Definition BERT : Signature := bstr "BERT".
Definition BGRT : Signature := bstr "BGRT".
Definition CPEP : Signature := bstr "CPEP".
Definition DSDT : Signature := bstr "DSDT".
Definition ECDT : Signature := bstr "ECDT".
Definition EINJ : Signature := bstr "EINJ".
Definition ERST : Signature := bstr "ERST".
Definition FACS : Signature := bstr "FACS".
Definition FPDT : Signature := bstr "FPDT".
Definition GTDT : Signature := bstr "GTDT".
Definition HEST : Signature := bstr "HEST".
Definition MSCT : Signature := bstr "MSCT".
Definition MPST : Signature := bstr "MPST".
Definition NFIT : Signature := bstr "NFIT".
Definition PCCT : Signature := bstr "PCCT".
Definition PHAT : Signature := bstr "PHAT".
Definition PMTT : Signature := bstr "PMTT".
Definition PSDT : Signature := bstr "PSDT".
Definition RASF : Signature := bstr "RASF".
Definition SBST : Signature := bstr "SBST".
Definition SDEV : Signature := bstr "SDEV".
Definition SLIT : Signature := bstr "SLIT".
Definition SRAT : Signature := bstr "SRAT".
Definition AEST : Signature := bstr "AEST".
Definition BDAT : Signature := bstr "BDAT".
Definition CDIT : Signature := bstr "CDIT".
Definition CEDT : Signature := bstr "CEDT".
Definition CRAT : Signature := bstr "CRAT".
Definition CSRT : Signature := bstr "CSRT".
Definition DBGP : Signature := bstr "DBGP".
Definition DBG2 : Signature := bstr "DBG2".
Definition DMAR : Signature := bstr "DMAR".
Definition DRTM : Signature := bstr "DRTM".
Definition ETDT : Signature := bstr "ETDT".
Definition IBFT : Signature := bstr "IBFT".
Definition IORT : Signature := bstr "IORT".
Definition IVRS : Signature := bstr "IVRS".
Definition LPIT : Signature := bstr "LPIT".
Definition MCHI : Signature := bstr "MCHI".
Definition MPAM : Signature := bstr "MPAM".
Definition MSDM : Signature := bstr "MSDM".
Definition PRMT : Signature := bstr "PRMT".
Definition RGRT : Signature := bstr "RGRT".
Definition SDEI : Signature := bstr "SDEI".
Definition SLIC : Signature := bstr "SLIC".
Definition SPCR : Signature := bstr "SPCR".
Definition SPMI : Signature := bstr "SPMI".
Definition STAO : Signature := bstr "STAO".
Definition SVKL : Signature := bstr "SVKL".
Definition TCPA : Signature := bstr "TCPA".
Definition TPM2 : Signature := bstr "TPM2".
Definition UEFI : Signature := bstr "UEFI".
Definition WAET : Signature := bstr "WAET".
Definition WDAT : Signature := bstr "WDAT".
Definition WDRT : Signature := bstr "WDRT".
Definition WPBT : Signature := bstr "WPBT".
Definition WSMT : Signature := bstr "WSMT".
Definition XENV : Signature := bstr "XENV".

Definition all : list Signature :=
  [RSDT; XSDT; FADT; HPET; MADT; MCFG; SSDT; BERT; BGRT; CPEP; DSDT; ECDT; EINJ; ERST; FACS; FPDT;
   GTDT; HEST; MSCT; MPST; NFIT; PCCT; PHAT; PMTT; PSDT; RASF; SBST; SDEV; SLIT; SRAT; AEST; BDAT;
   CDIT; CEDT; CRAT; CSRT; DBGP; DBG2; DMAR; DRTM; ETDT; IBFT; IORT; IVRS; LPIT; MCHI; MPAM; MSDM;
   PRMT; RGRT; SDEI; SLIC; SPCR; SPMI; STAO; SVKL; TCPA; TPM2; UEFI; WAET; WDAT; WDRT; WPBT; WSMT;
   XENV].
End Signature.

(** [Signature::as_str] *)
Definition signature_as_str {E} (s : Signature) : result E bytes :=
  if utf8_valid s then Ok s else Fail Panic.

(** The constants are different signatures, and [as_str] does not panic on them. *)
Lemma signatures_distinct {E} :
  NoDup Signature.all /\ Forall (fun s => signature_as_str s = (Ok s : result E bytes)) Signature.all.
Proof.
  split; [apply (bool_decide_unpack (NoDup Signature.all)); vm_compute; exact I|].
  repeat constructor.
Qed.

(** * Errors *)

Inductive MadtError :=
  | UnexpectedEntry
  | InterruptOverrideEntryHasInvalidBus
  | InvalidLocalNmiLine
  | MpsIntiInvalidPolarity
  | MpsIntiInvalidTriggerMode.

Inductive AcpiError :=
  | RsdpErr (e : RsdpError)
  | SdtInvalidSignature (s : Signature)
  | SdtInvalidOemId (s : Signature)
  | SdtInvalidTableId (s : Signature)
  | SdtInvalidChecksum (s : Signature)
  | TableMissing (s : Signature)
  | InvalidFacsAddress
  | InvalidDsdtAddress
  | InvalidMadt (e : MadtError)
  | InvalidGenericAddress
  | AllocError.

Abbreviation AcpiResult := (result AcpiError).

(** * The header *)

Definition SdtHeader : layout :=
  [F "signature" 4; F "length" 4; F "revision" 1; F "checksum" 1; F "oem_id" 6;
   F "oem_table_id" 8; F "oem_revision" 4; F "creator_id" 4; F "creator_revision" 4].

Definition sdt_length {E} (self : Window) : result E Z := field SdtHeader self "length".
Definition sdt_revision {E} (self : Window) : result E Z := field SdtHeader self "revision".

(** The loop of the checksum, from an offset on, over [n] more bytes. *)
Fixpoint sum_bytes {E} (n : nat) (self : Window) (offset sum : Z) : result E Z :=
  match n with
  | O => Ok sum
  | S n =>
      let? b := w_uint self offset 1 in
      sum_bytes n self (offset + 1) (wrap 8 (sum + b))
  end.

(** [SdtHeader::validate] *)
Definition sdt_validate (self : Window) (signature : Signature) : AcpiResult unit :=
  let? own := field_bytes SdtHeader self "signature" in
  if bool_decide (own <> signature) then Err (SdtInvalidSignature signature)
  else
    let? oem_id := field_bytes SdtHeader self "oem_id" in
    if negb (utf8_valid oem_id) then Err (SdtInvalidOemId signature)
    else
      let? oem_table_id := field_bytes SdtHeader self "oem_table_id" in
      if negb (utf8_valid oem_table_id) then Err (SdtInvalidTableId signature)
      else
        let? length := sdt_length self in
        let? sum := sum_bytes (Z.to_nat length) self 0 0 in
        if 0 <? sum then Err (SdtInvalidChecksum signature) else Ok tt.

(** [SdtHeader::oem_id], [SdtHeader::oem_table_id] *)
Definition sdt_oem_id {E} (self : Window) : result E bytes :=
  let? oem_id := field_bytes SdtHeader self "oem_id" in
  if utf8_valid oem_id then Ok oem_id else Fail Panic.
Definition sdt_oem_table_id {E} (self : Window) : result E bytes :=
  let? oem_table_id := field_bytes SdtHeader self "oem_table_id" in
  if utf8_valid oem_table_id then Ok oem_table_id else Fail Panic.

(** [ExtendedField::access] on the field that [read] reads. *)
Definition access {E A} (min_revision revision : Z) (read : result E A) : result E (option A) :=
  if min_revision <=? revision then result_map Some read else Ok None.

(** * Lemmas *)

Lemma sum_bytes_ok {E} n self offset sum : 0 <= offset -> offset + Z.of_nat n <= w_len self ->
  @sum_bytes E n self offset (sum mod 256) = Ok ((sum + total (w_bytes self offset n)) mod 256).
Proof.
  revert offset sum. induction n as [|n IH]; intros offset sum H0 Hn; cbn [sum_bytes].
  - by rewrite Z.add_0_r.
  - rewrite w_uint_byte by lia. cbn [result_bind]. unfold wrap. change (2 ^ 8) with 256.
    rewrite Zplus_mod_idemp_l, IH, w_bytes_S by lia. cbn [total]. by rewrite Z.add_assoc.
Qed.

Lemma sum_bytes_ub {E} n self offset sum : 0 <= offset <= w_len self ->
  w_len self < offset + Z.of_nat n -> @sum_bytes E n self offset sum = Fail UB.
Proof.
  revert offset sum. induction n as [|n IH]; intros offset sum H0 Hn; cbn [sum_bytes]; [lia|].
  destruct (Z.eq_dec offset (w_len self)) as [->|Hne].
  - unfold w_uint. by rewrite w_read_ub by lia.
  - rewrite w_uint_byte by lia. cbn [result_bind]. apply IH; lia.
Qed.

(** The outcome of a validation, when the header is there: the first check that
    fails is reported; the checksum reads as many bytes as the header says, and is
    undefined when they are not there. *)
Lemma sdt_validate_eq self signature : 36 <= w_len self ->
  sdt_validate self signature =
  if bool_decide (w_bytes self 0 4 <> signature) then Err (SdtInvalidSignature signature)
  else if negb (utf8_valid (w_bytes self 10 6)) then Err (SdtInvalidOemId signature)
  else if negb (utf8_valid (w_bytes self 16 8)) then Err (SdtInvalidTableId signature)
  else
    let length := from_le_bytes (w_bytes self 4 4) in
    if w_len self <? length then Fail UB
    else if bool_decide (total (w_bytes self 0 (Z.to_nat length)) mod 256 = 0) then Ok tt
    else Err (SdtInvalidChecksum signature).
Proof.
  intros Hl. unfold sdt_validate, sdt_length, field, field_bytes.
  cbn [offset_of SdtHeader String.eqb field_name field_size Ascii.eqb Bool.eqb Nat.add].
  rewrite !w_read_ok by lia. cbn [result_bind]. destruct (bool_decide _); [done|].
  destruct (negb (utf8_valid _)); [done|]. destruct (negb (utf8_valid _)); [done|].
  change (Z.of_nat 4) with 4.
  pose proof (from_le_bytes_range (w_bytes self 4 4)) as Hlen.
  set (len := from_le_bytes (w_bytes self 4 4)) in *. cbv zeta.
  destruct (Z.ltb_spec (w_len self) len) as [Hub|Hok].
  - by rewrite sum_bytes_ub by lia.
  - rewrite (sum_bytes_ok _ self 0 0) by lia. cbn [result_bind]. rewrite Z.add_0_l.
    pose proof (Z.mod_pos_bound (total (w_bytes self 0 (Z.to_nat len))) 256 eq_refl).
    destruct (Z.ltb_spec 0 (total (w_bytes self 0 (Z.to_nat len)) mod 256)).
    + by rewrite bool_decide_false by lia.
    + by rewrite bool_decide_true by lia.
Qed.

(** * Encodings *)

(** What identifies a table. *)
Record SdtId := MkSdtId {
  id_signature : Signature;
  id_revision : byte;
  id_oem : bytes;
  id_oem_table : bytes;
  id_oem_revision : Z;
  id_creator : Z;
  id_creator_revision : Z
}.

Definition id_ok (h : SdtId) : Prop :=
  length (id_signature h) = 4%nat /\ length (id_oem h) = 6%nat /\ length (id_oem_table h) = 8%nat /\
  utf8_valid (id_oem h) = true /\ utf8_valid (id_oem_table h) = true.

Definition sdt_header (h : SdtId) (len : Z) (checksum : byte) : list bytes :=
  [id_signature h; to_le_bytes 4 len; [id_revision h]; [checksum]; id_oem h; id_oem_table h;
   to_le_bytes 4 (id_oem_revision h); to_le_bytes 4 (id_creator h);
   to_le_bytes 4 (id_creator_revision h)].

(** A table with a body, and with its length and checksum. *)
Definition sdt_encode (h : SdtId) (body : bytes) : bytes :=
  let len := 36 + Z.of_nat (length body) in
  concat (sdt_header h len (checksum_of (concat (sdt_header h len x00 ++ [body]))) ++ [body]).

Lemma sdt_header_fits h len checksum : id_ok h -> fits SdtHeader (sdt_header h len checksum).
Proof. intros (H1 & H2 & H3 & _). by repeat constructor. Qed.

Lemma sdt_encode_length h body : id_ok h -> length (sdt_encode h body) = (36 + length body)%nat.
Proof.
  intros H. unfold sdt_encode. rewrite concat_app, length_app. cbn [concat]. rewrite app_nil_r.
  by rewrite (fits_length _ _ (sdt_header_fits h _ _ H)).
Qed.

Lemma sdt_encode_total h body : total (sdt_encode h body) mod 256 = 0.
Proof.
  apply (checksum_ok [id_signature h; to_le_bytes 4 (36 + Z.of_nat (length body)); [id_revision h]]
    [id_oem h; id_oem_table h; to_le_bytes 4 (id_oem_revision h); to_le_bytes 4 (id_creator h);
     to_le_bytes 4 (id_creator_revision h); body]).
Qed.

(** The checks that a header passes, whatever its body. *)
Lemma sdt_validate_header h len checksum w body : id_ok h -> is_u32 len ->
  w_agrees w (concat (sdt_header h len checksum) ++ body) ->
  len = 36 + Z.of_nat (length body) ->
  sdt_validate w (id_signature h) =
  if bool_decide (total (concat (sdt_header h len checksum) ++ body) mod 256 = 0) then Ok tt
  else Err (SdtInvalidChecksum (id_signature h)).
Proof.
  intros H Hlen Hw El. pose proof (sdt_header_fits h len checksum H) as Hf.
  pose proof (fun E name v => @field_bytes_struct E _ _ w name v Hf (w_agrees_app _ _ _ Hw)) as Hb.
  pose proof (fun E name v => @field_struct E _ _ w name v Hf (w_agrees_app _ _ _ Hw)) as Hi.
  unfold sdt_validate. rewrite (Hb _ _ (id_signature h)) by done. cbn [result_bind].
  rewrite bool_decide_false by (by intros ?). destruct H as (H1 & H2 & H3 & H4 & H5).
  rewrite (Hb _ _ (id_oem h)) by done. cbn [result_bind]. rewrite H4. cbn [negb].
  rewrite (Hb _ _ (id_oem_table h)) by done. cbn [result_bind]. rewrite H5. cbn [negb].
  unfold sdt_length. rewrite (Hi _ _ (to_le_bytes 4 len)) by done. cbn [result_bind].
  rewrite from_to_le_bytes by exact Hlen.
  assert (length (concat (sdt_header h len checksum) ++ body) = Z.to_nat len) as Hn.
  { rewrite length_app, (fits_length _ _ Hf). cbn. lia. }
  pose proof (proj1 Hw) as Hwl. rewrite Hn in Hwl.
  rewrite (sum_bytes_ok _ w 0 0) by lia. cbn [result_bind]. rewrite Z.add_0_l.
  rewrite <-Hn, (proj2 Hw). set (t := total _).
  pose proof (Z.mod_pos_bound t 256 eq_refl). destruct (Z.ltb_spec 0 (t mod 256)).
  - by rewrite bool_decide_false by lia.
  - by rewrite bool_decide_true by lia.
Qed.

Lemma total_insert data i b old : data !! i = Some old ->
  total (<[i := b]> data) = total data - u8 old + u8 b.
Proof.
  intros H. rewrite (insert_take_drop data i b) by by eapply lookup_lt_Some.
  rewrite <-(take_drop_middle data i old H) at 3. rewrite !total_app. cbn. lia.
Qed.

(** * Properties *)

(** C28: A table is recognized: with its length and checksum in place a table of any
    body passes the validation for its signature, its fields read back, and it is
    refused for every other signature. *)
Theorem sdt_roundtrip h body w signature : id_ok h -> 36 + Z.of_nat (length body) < 2 ^ 32 ->
  w_agrees w (sdt_encode h body) ->
  sdt_validate w signature =
    (if bool_decide (signature = id_signature h) then Ok tt else Err (SdtInvalidSignature signature)) /\
  sdt_length (E := unit) w = Ok (Z.of_nat (length (sdt_encode h body))) /\
  sdt_revision (E := unit) w = Ok (u8 (id_revision h)) /\
  sdt_oem_id (E := unit) w = Ok (id_oem h) /\ sdt_oem_table_id (E := unit) w = Ok (id_oem_table h).
Proof.
  intros H Hlen Hw. set (data := sdt_encode h body) in *.
  assert (data = sdt_encode h body) as Ed by done. unfold sdt_encode in Ed.
  rewrite concat_app in Ed. cbn [concat] in Ed. rewrite app_nil_r in Ed.
  set (checksum := checksum_of _) in Ed. rewrite Ed in Hw.
  pose proof (sdt_header_fits h (36 + Z.of_nat (length body)) checksum H) as Hf.
  pose proof (fun E name v => @field_bytes_struct E _ _ w name v Hf (w_agrees_app _ _ _ Hw)) as Hb.
  pose proof (fun E name v => @field_struct E _ _ w name v Hf (w_agrees_app _ _ _ Hw)) as Hi.
  split_and!.
  - case_bool_decide as Hs.
    + subst. rewrite (sdt_validate_header h (36 + Z.of_nat (length body)) checksum w body) by (done || split; lia).
      rewrite <-Ed. by rewrite bool_decide_true by apply sdt_encode_total.
    + unfold sdt_validate. rewrite (Hb _ _ (id_signature h)) by done. cbn.
      by rewrite bool_decide_true by congruence.
  - unfold sdt_length. rewrite (Hi _ _ (to_le_bytes 4 (36 + Z.of_nat (length body)))) by done.
    rewrite from_to_le_bytes by (cbn; lia). subst data. by rewrite sdt_encode_length, Nat2Z.inj_add by done.
  - unfold sdt_revision. rewrite (Hi _ _ [id_revision h]) by done. cbn. by rewrite Z.add_0_r.
  - unfold sdt_oem_id. rewrite (Hb _ _ (id_oem h)) by done. cbn. by destruct H as (_ & _ & _ & -> & _).
  - unfold sdt_oem_table_id. rewrite (Hb _ _ (id_oem_table h)) by done. cbn.
    by destruct H as (_ & _ & _ & _ & ->).
Qed.

(** C29: The checksum protects the body: a table of which one byte behind the header was
    changed is refused. *)
Theorem sdt_detects_corruption h body w i old new : id_ok h -> 36 + Z.of_nat (length body) < 2 ^ 32 ->
  body !! i = Some old -> new <> old ->
  w_agrees w (<[(36 + i)%nat := new]> (sdt_encode h body)) ->
  sdt_validate w (id_signature h) = Err (SdtInvalidChecksum (id_signature h)).
Proof.
  intros H Hlen Hi Hne Hw. pose proof (sdt_encode_total h body) as Ht. unfold sdt_encode in *.
  rewrite concat_app in *. cbn [concat] in *. rewrite app_nil_r in *.
  set (checksum := checksum_of _) in *. set (len := 36 + Z.of_nat (length body)) in *.
  pose proof (fits_length _ _ (sdt_header_fits h len checksum H)) as Hh. cbn [size_of SdtHeader] in Hh.
  rewrite insert_app_r_alt in Hw by (rewrite Hh; cbn; lia).
  rewrite (sdt_validate_header h len checksum w (<[i := new]> body)).
  - rewrite bool_decide_false; [done|]. rewrite total_app, (total_insert _ _ _ _ Hi).
    rewrite total_app in Ht. pose proof (u8_range old). pose proof (u8_range new).
    assert (u8 new <> u8 old) by (intros E; by apply u8_inj in E).
    set (t := total (concat _)) in *. intros Ht'.
    apply Z.mod_divide in Ht, Ht'; [|done|done]. destruct Ht as [q Hq], Ht' as [q' Hq']. nia.
  - done.
  - split; lia.
  - by replace i with (36 + i - length (concat (sdt_header h len checksum)))%nat by (rewrite Hh; cbn; lia).
  - by rewrite length_insert.
Qed.

(** * The properties on a concrete table *)

Definition sample_id (signature : Signature) (revision : byte) : SdtId :=
  MkSdtId signature revision (bstr "SAMPLE") (bstr "SAMPLETB") 1 2 3.

Lemma sample_id_ok signature revision : length signature = 4%nat -> id_ok (sample_id signature revision).
Proof. intros H. by repeat split. Qed.

Lemma sdt_roundtrip_witness :
  sdt_validate (w_of (sdt_encode (sample_id Signature.HPET x01) [x05; x06])) Signature.HPET = Ok tt.
Proof.
  destruct (sdt_roundtrip (sample_id Signature.HPET x01) [x05; x06]
    (w_of (sdt_encode (sample_id Signature.HPET x01) [x05; x06])) Signature.HPET) as [H _].
  - apply sample_id_ok. reflexivity.
  - reflexivity.
  - apply w_agrees_of.
  - exact H.
Defined.

Lemma sdt_detects_corruption_witness :
  sdt_validate (w_of (<[37%nat := x07]> (sdt_encode (sample_id Signature.HPET x01) [x05; x06]))) Signature.HPET
  = Err (SdtInvalidChecksum Signature.HPET).
Proof.
  apply (sdt_detects_corruption (sample_id Signature.HPET x01) [x05; x06] _ 1 x06 x07).
  - apply sample_id_ok. reflexivity.
  - reflexivity.
  - reflexivity.
  - discriminate.
  - apply w_agrees_of.
Defined.
