(* ===== verification/Address.v ===== *)
(** Generic address structures ([acpi/src/address.rs]). *)
From S2P Require Import Prelude RustStd Physical Rsdp Sdt.
#[local] Open Scope Z_scope.

(** [RawGenericAddress] *)
Record RawGenericAddress := MkRaw {
  raw_address_space : Z;
  raw_bit_width : Z;
  raw_bit_offset : Z;
  raw_access_size : Z;
  raw_address : Z
}.

Definition RawGenericAddress_layout : layout :=
  [F "address_space" 1; F "bit_width" 1; F "bit_offset" 1; F "access_size" 1; F "address" 8].

(** Reading a structure. *)
Definition read_raw {E} (w : Window) : result E RawGenericAddress :=
  let? address_space := field RawGenericAddress_layout w "address_space" in
  let? bit_width := field RawGenericAddress_layout w "bit_width" in
  let? bit_offset := field RawGenericAddress_layout w "bit_offset" in
  let? access_size := field RawGenericAddress_layout w "access_size" in
  let? address := field RawGenericAddress_layout w "address" in
  Ok (MkRaw address_space bit_width bit_offset access_size address).

Inductive AddressSpace :=
  | SystemMemory
  | SystemIo
  | PciConfigSpace
  | EmbeddedController
  | SMBus
  | SystemCmos
  | PciBarTarget
  | Ipmi
  | GeneralIo
  | GenericSerialBus
  | PlatformCommunicationsChannel
  | FunctionalFixedHardware
  | OemDefined (n : Z).

Inductive AccessSize := Undefined | ByteAccess | WordAccess | DWordAccess | QWordAccess.

Record GenericAddress := MkAddress {
  address_space : AddressSpace;
  bit_width : Z;
  bit_offset : Z;
  access_size : AccessSize;
  address : Z
}.

#[export] Instance AddressSpace_eq_dec : EqDecision AddressSpace.
Proof. solve_decision. Defined.
#[export] Instance AccessSize_eq_dec : EqDecision AccessSize.
Proof. solve_decision. Defined.

(** [AccessSize::try_from] *)
Definition access_size_try_from (size : Z) : AcpiResult AccessSize :=
  match size with
  | 0 => Ok Undefined
  | 1 => Ok ByteAccess
  | 2 => Ok WordAccess
  | 3 => Ok DWordAccess
  | 4 => Ok QWordAccess
  | _ => Err InvalidGenericAddress
  end.

(** The match on [raw.address_space]. *)
Definition address_space_of (n : Z) : AcpiResult AddressSpace :=
  match n with
  | 0x00 => Ok SystemMemory
  | 0x01 => Ok SystemIo
  | 0x02 => Ok PciConfigSpace
  | 0x03 => Ok EmbeddedController
  | 0x04 => Ok SMBus
  | 0x05 => Ok SystemCmos
  | 0x06 => Ok PciBarTarget
  | 0x07 => Ok Ipmi
  | 0x08 => Ok GeneralIo
  | 0x09 => Ok GenericSerialBus
  | 0x0a => Ok PlatformCommunicationsChannel
  | 0x7f => Ok FunctionalFixedHardware
  | n => if 0xc0 <=? n then Ok (OemDefined n) else Err InvalidGenericAddress
  end.

(** [GenericAddress::from_raw] *)
Definition from_raw (raw : RawGenericAddress) : AcpiResult GenericAddress :=
  let? space := address_space_of (raw_address_space raw) in
  let? access := access_size_try_from (raw_access_size raw) in
  Ok (MkAddress space (raw_bit_width raw) (raw_bit_offset raw) access (raw_address raw)).

(** * Encodings *)

Definition space_byte (s : AddressSpace) : Z :=
  match s with
  | SystemMemory => 0 | SystemIo => 1 | PciConfigSpace => 2 | EmbeddedController => 3
  | SMBus => 4 | SystemCmos => 5 | PciBarTarget => 6 | Ipmi => 7 | GeneralIo => 8
  | GenericSerialBus => 9 | PlatformCommunicationsChannel => 10
  | FunctionalFixedHardware => 0x7f | OemDefined n => n
  end.

Definition access_byte (a : AccessSize) : Z :=
  match a with
  | Undefined => 0 | ByteAccess => 1 | WordAccess => 2 | DWordAccess => 3 | QWordAccess => 4
  end.

Definition address_fields (a : GenericAddress) : list bytes :=
  [to_le_bytes 1 (space_byte (address_space a)); to_le_bytes 1 (bit_width a);
   to_le_bytes 1 (bit_offset a); to_le_bytes 1 (access_byte (access_size a));
   to_le_bytes 8 (address a)].

Definition address_ok (a : GenericAddress) : Prop :=
  is_u8 (bit_width a) /\ is_u8 (bit_offset a) /\ is_u64 (address a) /\
  match address_space a with OemDefined n => 0xc0 <= n < 0x100 | _ => True end.

Definition raw_of (a : GenericAddress) : RawGenericAddress :=
  MkRaw (space_byte (address_space a)) (bit_width a) (bit_offset a)
    (access_byte (access_size a)) (address a).

Lemma address_fits a : fits RawGenericAddress_layout (address_fields a).
Proof. repeat constructor. Qed.

Lemma read_raw_encoded {E} w a : address_ok a -> w_agrees w (concat (address_fields a)) ->
  @read_raw E w = Ok (raw_of a).
Proof.
  intros (H1 & H2 & H3 & H4) Hw. unfold read_raw.
  pose proof (fun name v => @field_struct E _ _ w name v (address_fits a) Hw) as Hi.
  assert (is_u8 (space_byte (address_space a))) as Hs.
  { destruct (address_space a); unfold in_width; cbn; lia. }
  assert (is_u8 (access_byte (access_size a))) as Ha.
  { destruct (access_size a); unfold in_width; cbn; lia. }
  rewrite (Hi _ (to_le_bytes 1 (space_byte (address_space a)))) by done. cbn [result_bind].
  rewrite (Hi _ (to_le_bytes 1 (bit_width a))) by done. cbn [result_bind].
  rewrite (Hi _ (to_le_bytes 1 (bit_offset a))) by done. cbn [result_bind].
  rewrite (Hi _ (to_le_bytes 1 (access_byte (access_size a)))) by done. cbn [result_bind].
  rewrite (Hi _ (to_le_bytes 8 (address a))) by done. cbn [result_bind].
  by rewrite !from_to_le_bytes by assumption.
Qed.

Lemma from_raw_of a : address_ok a -> from_raw (raw_of a) = Ok a.
Proof.
  destruct a as [s w o x d]. intros (_ & _ & _ & H). cbn in H. unfold from_raw. cbn.
  assert (address_space_of (space_byte s) = Ok s) as ->.
  { destruct s as [| | | | | | | | | | | |n]; try done. cbn. unfold address_space_of.
    assert ((0xc0 <=? n) = true) as -> by (apply Z.leb_le; lia).
    repeat (match goal with |- context [match ?n with _ => _ end] => destruct n end; try lia; try done). }
  by destruct x.
Qed.

(** Decoding accepts the structures of addresses only. *)
Lemma from_raw_inv raw a : is_u8 (raw_address_space raw) -> from_raw raw = Ok a -> raw = raw_of a.
Proof.
  destruct raw as [s w o x d]. intros Hs. unfold from_raw. cbn in *.
  destruct (address_space_of s) as [sp| |] eqn:Es; cbn; [|done|done].
  destruct (access_size_try_from x) as [ac| |] eqn:Ea; cbn; [|done|done].
  intros [= <-]. unfold raw_of. cbn. f_equal.
  - unfold address_space_of in Es. repeat case_match; by simplify_eq.
  - unfold access_size_try_from in Ea. repeat case_match; by simplify_eq.
Qed.

Lemma from_raw_error raw : match from_raw raw with Ok _ => True | Err e => e = InvalidGenericAddress | Fail _ => False end.
Proof.
  unfold from_raw. destruct (address_space_of _) as [s|e|r] eqn:Es; cbn [result_bind].
  - destruct (access_size_try_from _) as [x|e|r] eqn:Ex; cbn [result_bind]; [done|..];
      unfold access_size_try_from in Ex; repeat case_match; by simplify_eq.
  - unfold address_space_of in Es. repeat case_match; by simplify_eq.
  - unfold address_space_of in Es. repeat case_match; by simplify_eq.
Qed.

Lemma space_range n s : is_u8 n -> address_space_of n = Ok s ->
  match s with OemDefined n => 0xc0 <= n < 0x100 | _ => True end.
Proof.
  unfold in_width, address_space_of. change (2 ^ 8) with 0x100. intros Hn Es.
  repeat case_match; simplify_eq; try done;
    match goal with H : (_ <=? _) = true |- _ => apply Z.leb_le in H end; lia.
Qed.

(** Twelve bytes are read as the address that they encode, if they encode one. *)
Lemma read_raw_decodes {E} w : 12 <= w_len w -> exists raw, @read_raw E w = Ok raw /\
  raw_address raw = from_le_bytes (w_bytes w 4 8) /\
  match from_raw raw with
  | Ok a => address_ok a /\ w_bytes w 0 12 = concat (address_fields a)
  | Err e => e = InvalidGenericAddress /\ forall a, address_ok a -> w_bytes w 0 12 <> concat (address_fields a)
  | Fail _ => False
  end.
Proof.
  intros Hw. set (byte_at i := from_le_bytes (w_bytes w i 1)).
  set (raw := MkRaw (byte_at 0) (byte_at 1) (byte_at 2) (byte_at 3) (from_le_bytes (w_bytes w 4 8))).
  assert (@read_raw E w = Ok raw) as Hr.
  { unfold read_raw, field, field_bytes. cbn. by rewrite !w_read_ok by (cbn; lia). }
  exists raw. split; [exact Hr|]. split; [done|].
  assert (forall i, is_u8 (byte_at i)) as H8 by (intros; apply from_le_bytes_in_width; discriminate).
  pose proof (from_raw_error raw) as Herr. destruct (from_raw raw) as [a|e|r] eqn:Ea; [|split; [done|]|done].
  - pose proof (from_raw_inv raw a (H8 0) Ea) as Hraw.
    assert (byte_at 0 = space_byte (address_space a)) as E0 by exact (f_equal raw_address_space Hraw).
    assert (byte_at 1 = bit_width a) as E1 by exact (f_equal raw_bit_width Hraw).
    assert (byte_at 2 = bit_offset a) as E2 by exact (f_equal raw_bit_offset Hraw).
    assert (byte_at 3 = access_byte (access_size a)) as E3 by exact (f_equal raw_access_size Hraw).
    assert (from_le_bytes (w_bytes w 4 8) = address a) as E4 by exact (f_equal raw_address Hraw).
    split.
    + unfold address_ok. rewrite <-E1, <-E2, <-E4. split_and!; [apply H8..| |].
      * apply from_le_bytes_in_width. discriminate.
      * specialize (H8 0). unfold from_raw in Ea. cbn [raw raw_address_space raw_access_size] in Ea.
        destruct (address_space_of (byte_at 0)) as [sp| |] eqn:Es; cbn in Ea; [|done|done].
        destruct (access_size_try_from _); [|done|done]. injection Ea as <-. cbn.
        by apply (space_range (byte_at 0)).
    + unfold address_fields. rewrite <-E0, <-E1, <-E2, <-E3, <-E4. cbn [concat]. rewrite app_nil_r.
      assert (forall i k, to_le_bytes k (from_le_bytes (w_bytes w i k)) = w_bytes w i k) as Hb.
      { intros i k. rewrite <-(to_from_le_bytes (w_bytes w i k)) at 2. unfold w_bytes at 2.
        by rewrite length_map, length_seq. }
      unfold byte_at. by rewrite !Hb.
  - intros a Ha Hb. assert (w_agrees w (concat (address_fields a))) as Hag.
    { split; [cbn; lia|exact Hb]. }
    pose proof (@read_raw_encoded E w a Ha Hag) as Hr'. rewrite Hr in Hr'.
    assert (raw = raw_of a) as E' by congruence. rewrite E' in Ea. by rewrite from_raw_of in Ea.
Qed.

(** * Property *)

(** C22: Generic addresses are decoded: the structure in memory of an address gives the address
    back; and whatever twelve bytes there are, they are read as the address whose structure
    they are, or refused as an InvalidGenericAddress when they are not that of any, because
    of an unknown address space or access size. So no two structures are confused. *)
Theorem generic_address_roundtrip :
  (forall w a, address_ok a -> w_agrees w (concat (address_fields a)) ->
     (let? raw := read_raw w in from_raw raw) = Ok a) /\
  (forall w, 12 <= w_len w ->
     match (let? raw := read_raw w in from_raw raw) with
     | Ok a => address_ok a /\ w_bytes w 0 12 = concat (address_fields a)
     | Err e => e = InvalidGenericAddress /\ forall a, address_ok a -> w_bytes w 0 12 <> concat (address_fields a)
     | Fail _ => False
     end).
Proof.
  split.
  - intros w a Ha Hw. rewrite (read_raw_encoded w a Ha Hw). by apply from_raw_of.
  - intros w Hw. by destruct (@read_raw_decodes AcpiError w Hw) as (raw & -> & _ & H).
Qed.

Lemma generic_address_roundtrip_witness :
  let a := MkAddress SystemIo 32 0 DWordAccess 0x608 in
  (let? raw := read_raw (w_of (concat (address_fields a))) in from_raw raw) = Ok a.
Proof.
  cbv zeta. destruct generic_address_roundtrip as [H _]. apply H; [|apply w_agrees_of].
  split_and!; try done; vm_compute; split; congruence.
Defined.
