(* ===== verification/Fadt.v ===== *)
(** The fixed description table ([acpi/src/fadt.rs]): its layout, the addresses of
    the tables and the register blocks it describes, and its flags. *)
From S2P Require Import Prelude Env RustStd Physical Rsdp Sdt Address.
#[local] Open Scope Z_scope.

(** * The table *)

Inductive PowerProfile :=
  | Unspecified
  | Desktop
  | Mobile
  | Workstation
  | EnterpriseServer
  | SohoServer
  | AppliancePc
  | PerformanceServer
  | Tablet
  | Reserved (n : Z).

(** [struct Fadt]; the extended fields are present from revision 2 of the table on. *)
Definition Fadt : layout :=
  [F "header" 36; F "firmware_ctrl" 4; F "dsdt_address" 4; F "_reserved" 1;
   F "preferred_pm_profile" 1; F "sci_interrupt" 2; F "smi_cmd_port" 4; F "acpi_enable" 1;
   F "acpi_disable" 1; F "s4bios_req" 1; F "pstate_control" 1; F "pm1a_event_block" 4;
   F "pm1b_event_block" 4; F "pm1a_control_block" 4; F "pm1b_control_block" 4;
   F "pm2_control_block" 4; F "pm_timer_block" 4; F "gpe0_block" 4; F "gpe1_block" 4;
   F "pm1_event_length" 1; F "pm1_control_length" 1; F "pm2_control_length" 1;
   F "pm_timer_length" 1; F "gpe0_block_length" 1; F "gpe1_block_length" 1; F "gpe1_base" 1;
   F "c_state_control" 1; F "worst_c2_latency" 2; F "worst_c3_latency" 2; F "flush_size" 2;
   F "flush_stride" 2; F "duty_offset" 1; F "duty_width" 1; F "day_alarm" 1; F "month_alarm" 1;
   F "century" 1; F "iapc_boot_arch" 2; F "_reserved2" 1; F "flags" 4; F "reset_reg" 12;
   F "reset_value" 1; F "arm_boot_arch" 2; F "fadt_minor_version" 1; F "x_firmware_ctrl" 8;
   F "x_dsdt_address" 8; F "x_pm1a_event_block" 12; F "x_pm1b_event_block" 12;
   F "x_pm1a_control_block" 12; F "x_pm1b_control_block" 12; F "x_pm2_control_block" 12;
   F "x_pm_timer_block" 12; F "x_gpe0_block" 12; F "x_gpe1_block" 12; F "sleep_control_reg" 12;
   F "sleep_status_reg" 12; F "hypervisor_vendor_id" 8].

(** A field that holds a generic address structure. *)
Definition raw_field {E} (self : Window) (name : String.string) : result E RawGenericAddress :=
  match offset_of Fadt name with
  | Some (o, _) => read_raw (w_shift self (Z.of_nat o))
  | None => Fail UB
  end.
Arguments raw_field {E} self name%_string_scope.

(** [{ self.name }.access(self.header.revision)]: the field is copied before the
    revision is looked at. *)
Definition copied_access {E} (self : Window) (name : String.string) : result E (option Z) :=
  let? value := field Fadt self name in
  let? revision := sdt_revision self in
  access 2 revision (Ok value).
Arguments copied_access {E} self name%_string_scope.

(** [self.name.access(self.header().revision)] for a field that holds an address. *)
Definition raw_access {E} (self : Window) (name : String.string)
    : result E (option RawGenericAddress) :=
  let? revision := sdt_revision self in
  access 2 revision (raw_field self name).
Arguments raw_access {E} self name%_string_scope.

(** [.filter(|&p| p != 0)] *)
Definition nonzero (o : option Z) : option Z :=
  match o with Some p => if p =? 0 then None else Some p | None => None end.
Definition or_else {A} (o o' : option A) : option A :=
  match o with Some a => Some a | None => o' end.

Section Fadt.
Context {tgt : Target}.

(** [Fadt::facs_address], [Fadt::dsdt_address] *)
Definition facs_address (self : Window) : AcpiResult Z :=
  let? x := copied_access self "x_firmware_ctrl" in
  let? legacy := field Fadt self "firmware_ctrl" in
  ok_or InvalidFacsAddress (as_usize <$> nonzero (or_else (nonzero x) (Some legacy))).
Definition dsdt_address (self : Window) : AcpiResult Z :=
  let? x := copied_access self "x_dsdt_address" in
  let? legacy := field Fadt self "dsdt_address" in
  ok_or InvalidDsdtAddress (as_usize <$> nonzero (or_else (nonzero x) (Some legacy))).

(** [Fadt::power_profile] *)
Definition power_profile {E} (self : Window) : result E PowerProfile :=
  let? n := field Fadt self "preferred_pm_profile" in
  Ok match n with
     | 0 => Unspecified
     | 1 => Desktop
     | 2 => Mobile
     | 3 => Workstation
     | 4 => EnterpriseServer
     | 5 => SohoServer
     | 6 => AppliancePc
     | 7 => PerformanceServer
     | 8 => Tablet
     | other => Reserved other
     end.

(** The address of a block in the system I/O space, of [length * 8] bits: a product
    of two [u8]s. *)
Definition io_block (length address : Z) : AcpiResult GenericAddress :=
  let? bit_width := mul_w 8 length 8 in
  Ok (MkAddress SystemIo bit_width 0 Undefined address).

(** The block that an extended field describes, if it has an address. *)
Definition extended_block (self : Window) (name : String.string) : AcpiResult (option GenericAddress) :=
  let? raw := raw_access self name in
  match raw with
  | Some raw =>
      if negb (raw_address raw =? 0) then let? a := from_raw raw in Ok (Some a) else Ok None
  | None => Ok None
  end.
Arguments extended_block self name%_string_scope.

(** [Fadt::pm1a_event_block], [Fadt::pm1a_control_block]: the block has to exist. *)
Definition pm1a_event_block (self : Window) : AcpiResult GenericAddress :=
  let? x := extended_block self "x_pm1a_event_block" in
  match x with
  | Some a => Ok a
  | None =>
      let? length := field Fadt self "pm1_event_length" in
      let? address := field Fadt self "pm1a_event_block" in
      io_block length address
  end.
Definition pm1a_control_block (self : Window) : AcpiResult GenericAddress :=
  let? x := extended_block self "x_pm1a_control_block" in
  match x with
  | Some a => Ok a
  | None =>
      let? length := field Fadt self "pm1_control_length" in
      let? address := field Fadt self "pm1a_control_block" in
      io_block length address
  end.

(** An optional block: the extended field, the legacy field, or none. *)
Definition optional_block (self : Window) (x_name name length_name : String.string)
    : AcpiResult (option GenericAddress) :=
  let? x := extended_block self x_name in
  match x with
  | Some a => Ok (Some a)
  | None =>
      let? address := field Fadt self name in
      if negb (address =? 0) then
        let? length := field Fadt self length_name in
        let? a := io_block length address in Ok (Some a)
      else Ok None
  end.
Arguments optional_block self x_name%_string_scope name%_string_scope length_name%_string_scope.

Definition pm1b_event_block (self : Window) : AcpiResult (option GenericAddress) :=
  optional_block self "x_pm1b_event_block" "pm1b_event_block" "pm1_event_length".
Definition pm1b_control_block (self : Window) : AcpiResult (option GenericAddress) :=
  optional_block self "x_pm1b_control_block" "pm1b_control_block" "pm1_control_length".
Definition pm2_control_block (self : Window) : AcpiResult (option GenericAddress) :=
  optional_block self "x_pm2_control_block" "pm2_control_block" "pm2_control_length".
Definition gpe0_block (self : Window) : AcpiResult (option GenericAddress) :=
  optional_block self "x_gpe0_block" "gpe0_block" "gpe0_block_length".
Definition gpe1_block (self : Window) : AcpiResult (option GenericAddress) :=
  optional_block self "x_gpe1_block" "gpe1_block" "gpe1_block_length".

(** [Fadt::pm_timer_block] *)
Definition pm_timer_block (self : Window) : AcpiResult (option GenericAddress) :=
  let? length := field Fadt self "pm_timer_length" in
  if negb (length =? 4) then Ok None
  else
    let? x := extended_block self "x_pm_timer_block" in
    match x with
    | Some a => Ok (Some a)
    | None =>
        let? address := field Fadt self "pm_timer_block" in
        if negb (address =? 0) then Ok (Some (MkAddress SystemIo 32 0 Undefined address))
        else Ok None
    end.

(** [Fadt::reset_register], [Fadt::sleep_control_register],
    [Fadt::sleep_status_register] *)
Definition reset_register (self : Window) : AcpiResult GenericAddress :=
  let? raw := raw_field self "reset_reg" in from_raw raw.
Definition sleep_control_register (self : Window) : AcpiResult (option GenericAddress) :=
  let? raw := raw_access self "sleep_control_reg" in
  match raw with Some raw => let? a := from_raw raw in Ok (Some a) | None => Ok None end.
Definition sleep_status_register (self : Window) : AcpiResult (option GenericAddress) :=
  let? raw := raw_access self "sleep_status_reg" in
  match raw with Some raw => let? a := from_raw raw in Ok (Some a) | None => Ok None end.
End Fadt.

(** * Flags *)

Section Flags.
Context {bitfield : BitField}.

(** [FixedFeatureFlags] *)
Definition supports_equivalent_to_wbinvd (flags : Z) : bool := get_bit flags 0.
Definition wbinvd_flushes_all_caches (flags : Z) : bool := get_bit flags 1.
Definition all_procs_support_c1_power_state (flags : Z) : bool := get_bit flags 2.
Definition c2_configured_for_mp_system (flags : Z) : bool := get_bit flags 3.
Definition power_button_is_control_method (flags : Z) : bool := get_bit flags 4.
Definition sleep_button_is_control_method (flags : Z) : bool := get_bit flags 5.
Definition no_rtc_wake_in_fixed_register_space (flags : Z) : bool := get_bit flags 6.
Definition rtc_wakes_system_from_s4 (flags : Z) : bool := get_bit flags 7.
Definition pm_timer_is_32_bit (flags : Z) : bool := get_bit flags 8.
Definition supports_docking (flags : Z) : bool := get_bit flags 9.
Definition supports_system_reset_via_fadt (flags : Z) : bool := get_bit flags 10.
Definition case_is_sealed (flags : Z) : bool := get_bit flags 11.
Definition system_is_headless (flags : Z) : bool := get_bit flags 12.
Definition use_instr_after_write_to_slp_typx (flags : Z) : bool := get_bit flags 13.
Definition supports_pciexp_wake_in_pm1 (flags : Z) : bool := get_bit flags 14.
Definition use_pm_or_hpet_for_monotonically_decreasing_timers (flags : Z) : bool := get_bit flags 15.
Definition rtc_sts_is_valid_after_wakeup_from_s4 (flags : Z) : bool := get_bit flags 16.
Definition ospm_may_leave_gpe_wake_events_armed_before_s5 (flags : Z) : bool := get_bit flags 17.
Definition lapics_must_use_cluster_model_for_logical_mode (flags : Z) : bool := get_bit flags 18.
Definition local_xapics_must_use_physical_destination_mode (flags : Z) : bool := get_bit flags 19.
Definition system_is_hw_reduced_acpi (flags : Z) : bool := get_bit flags 20.
Definition no_benefit_to_s3 (flags : Z) : bool := get_bit flags 21.

(** [IaPcBootArchFlags] *)
Definition legacy_devices_are_accessible (flags : Z) : bool := get_bit flags 0.
Definition motherboard_implements_8042 (flags : Z) : bool := get_bit flags 1.
Definition dont_probe_vga (flags : Z) : bool := get_bit flags 2.
Definition dont_enable_msi (flags : Z) : bool := get_bit flags 3.
Definition dont_enable_pcie_aspm (flags : Z) : bool := get_bit flags 4.
Definition use_time_and_alarm_namespace_for_rtc (flags : Z) : bool := get_bit flags 5.

(** [ArmBootArchFlags] *)
Definition implements_psci (flags : Z) : bool := get_bit flags 0.
Definition use_hvc_as_psci_conduit (flags : Z) : bool := get_bit flags 1.
End Flags.

(** * Properties *)

Lemma field_ok {E} l w name o n : offset_of l name = Some (o, n) -> Z.of_nat (o + n) <= w_len w ->
  @field E l w name = Ok (from_le_bytes (w_bytes w (Z.of_nat o) n)).
Proof. intros Ho Hw. unfold field, field_bytes. by rewrite Ho, w_read_ok by lia. Qed.

Arguments field_ok {E} l w name%_string_scope o n.

(** The value of a field of a table that is in memory. *)
Definition fadt_value (w : Window) (name : String.string) : Z :=
  match offset_of Fadt name with
  | Some (o, n) => from_le_bytes (w_bytes w (Z.of_nat o) n)
  | None => 0
  end.
Arguments fadt_value w name%_string_scope.
Definition fadt_revision (w : Window) : Z := from_le_bytes (w_bytes w 8 1).

Lemma fadt_field {E} w name on : w_len w = 276 -> offset_of Fadt name = Some on ->
  (on.1 + on.2 <=? 276)%nat = true -> @field E Fadt w name = Ok (fadt_value w name).
Proof.
  intros Hw Ho Hn%Nat.leb_le. destruct on as [o n]. rewrite (field_ok _ _ _ o n Ho) by (cbn in Hn; lia).
  unfold fadt_value. by rewrite Ho.
Qed.

Arguments fadt_field {E} w name%_string_scope on.

Section Properties.
Context {tgt : Target}.

(** C32: The address of the DSDT: the 64-bit field is preferred where the table has it
    and it is not zero, then the 32-bit field; it is an error exactly when there is
    neither. A 64-bit address is cut to the width of [usize]. *)
Theorem dsdt_address_spec w : w_len w = 276 ->
  let x := if 2 <=? fadt_revision w then fadt_value w "x_dsdt_address" else 0 in
  let legacy := fadt_value w "dsdt_address" in
  dsdt_address w =
    if negb (x =? 0) then Ok (as_usize x)
    else if negb (legacy =? 0) then Ok legacy
    else Err InvalidDsdtAddress.
Proof.
  intros Hw x legacy. unfold dsdt_address, copied_access.
  rewrite (fadt_field w "x_dsdt_address" _ Hw eq_refl eq_refl).
  rewrite (fadt_field w "dsdt_address" _ Hw eq_refl eq_refl).
  unfold sdt_revision. rewrite (field_ok SdtHeader w "revision" 8%nat 1%nat eq_refl) by (cbn; lia). cbn [result_bind].
  change (from_le_bytes (w_bytes w (Z.of_nat 8) 1)) with (fadt_revision w).
  fold legacy. subst x. unfold access.
  assert (as_usize legacy = legacy) as Hl.
  { apply wrap_id, (in_width_mono 32); [destruct usize_bits_ok; lia|].
    apply from_le_bytes_in_width. discriminate. }
  clearbody legacy. generalize (fadt_value w "x_dsdt_address") as v. intros v.
  destruct (2 <=? fadt_revision w); cbn; [destruct (v =? 0) eqn:Ev; cbn|];
    rewrite ?Ev; try done; destruct (legacy =? 0); cbn; by rewrite ?Hl.
Qed.

(** C33: The register blocks of the legacy fields: a block in the I/O space of at most 31
    bytes is described with its width in bits; the width of a longer one does not
    fit into a byte, and a build that checks arithmetic panics while another one
    gives a width that is too small. *)
Theorem legacy_block_bounds w x_name name length_name length address :
  extended_block w x_name = Ok None -> field Fadt w name = @Ok AcpiError _ address ->
  field Fadt w length_name = @Ok AcpiError _ length -> address <> 0 -> is_u8 length ->
  optional_block w x_name name length_name =
    if length <? 32 then Ok (Some (MkAddress SystemIo (8 * length) 0 Undefined address))
    else if overflow_checks then Fail Panic
    else Ok (Some (MkAddress SystemIo ((8 * length) mod 256) 0 Undefined address)).
Proof.
  intros Hx Ha Hl Hz H8. unfold optional_block. rewrite Hx. cbn [result_bind]. rewrite Ha.
  cbn [result_bind]. apply Z.eqb_neq in Hz. rewrite Hz. cbn [negb]. rewrite Hl. cbn [result_bind].
  unfold io_block, mul_w, checked. rewrite (Z.mul_comm length). unfold in_width in H8.
  destruct (Z.ltb_spec length 32) as [Hs|Hs].
  - by rewrite (proj2 (Z.leb_le _ _)), (proj2 (Z.ltb_lt _ _)) by (cbn; lia).
  - rewrite (proj2 (Z.ltb_ge (8 * length) _)) by (cbn; lia). rewrite andb_false_r.
    by destruct overflow_checks.
Qed.
End Properties.

(** * The properties on a concrete table *)

(** A table of revision 1 with a DSDT, and a GPE0 block of 32 bytes at port [0x420]. *)
Definition sample_fadt_body : bytes :=
  to_le_bytes 4 0 ++ to_le_bytes 4 0x7fe2000 ++ replicate 36 x00 ++ to_le_bytes 4 0x420 ++
  replicate 8 x00 ++ [x20] ++ replicate 183 x00.
Definition sample_fadt : bytes := sdt_encode (sample_id Signature.FADT x01) sample_fadt_body.

Lemma dsdt_address_spec_witness : @dsdt_address target_debug (w_of sample_fadt) = Ok 0x7fe2000.
Proof.
  rewrite (@dsdt_address_spec target_debug (w_of sample_fadt)); [|vm_compute; reflexivity].
  vm_compute. reflexivity.
Defined.

Lemma legacy_block_bounds_witness : @gpe0_block target_debug (w_of sample_fadt) = Fail Panic.
Proof.
  apply (@legacy_block_bounds target_debug (w_of sample_fadt) _ _ _ 32 0x420).
  - vm_compute. reflexivity.
  - vm_compute. reflexivity.
  - vm_compute. reflexivity.
  - discriminate.
  - vm_compute. split; congruence.
Defined.
