(* ===== verification/Tables.v ===== *)
(** The enumeration of the tables ([acpi/src/lib.rs]): from the root pointer to the
    root table, finding a table by its signature, and the tables with AML code. *)
From S2P Require Import Prelude RustStd Physical Rsdp Sdt Address Fadt.
#[local] Open Scope Z_scope.

(** [AcpiTables] *)
Record AcpiTables := MkTables { mapping : PhysicalMapping; revision : Z }.

(** [AmlTable] *)
Record AmlTable := MkAmlTable { aml_address : Z; aml_length : Z }.

(** [size_of::<SdtHeader>()] *)
Definition header_size : Z := Z.of_nat (size_of SdtHeader).

Section Tables.
Context {tgt : Target} {handler : AcpiHandler}.
Abbreviation M := (SE Machine AcpiError).

(** A mapping that is returned on success, and dropped when [m] fails. *)
Definition kept {A} (p : PhysicalMapping) (m : M A) : M A :=
  let! r := se_try m in
  match r with
  | Ok a => se_ret a
  | Err e => do! drop_mapping p in se_err e
  | Fail f => se_fail f
  end.

(** Mapping and validating the root table. *)
Definition root_table (address : Z) (signature : Signature) (revision : Z) : M AcpiTables :=
  let! mapping := map_physical_region address header_size in
  kept mapping (
    let! header := deref mapping in
    do! se_lift (sdt_validate header signature) in
    se_ret (MkTables mapping revision)).

(** [AcpiTables::from_validated_rsdp]; [rsdp_mapping] is dropped when it returns. *)
Definition from_validated_rsdp (rsdp_mapping : PhysicalMapping) : M AcpiTables :=
  scoped rsdp_mapping (
    let! rsdp := deref rsdp_mapping in
    let! revision := se_lift (rsdp_revision rsdp) in
    if revision =? 0 then
      let! address := se_lift (rsdt_address rsdp) in
      root_table (as_usize address) Signature.RSDT revision
    else
      let! address := se_lift (xsdt_address rsdp) in
      root_table (as_usize address) Signature.XSDT revision).

(** [AcpiTables::from_rsdp] *)
Definition from_rsdp (address : Z) : M AcpiTables :=
  let! rsdp_mapping := map_physical_region address (Z.of_nat (size_of Rsdp)) in
  do! kept rsdp_mapping (
    let! rsdp := deref rsdp_mapping in
    se_lift (result_map_err RsdpErr (rsdp_validate rsdp))) in
  from_validated_rsdp rsdp_mapping.

(** [AcpiTables::search_for_rsdp_bios] *)
Definition search_for_rsdp_bios : M AcpiTables :=
  let! rsdp_mapping := se_map_err RsdpErr search_for_on_bios in
  from_validated_rsdp rsdp_mapping.

(** [read_table]: the header is mapped and validated. When all of the table is
    already mapped the result is made from that mapping; otherwise the table is
    mapped again. In both cases the first mapping is dropped: explicitly in the
    second one, and at the end of its scope in the first. *)
Definition read_table (signature : Signature) (address : Z) : M PhysicalMapping :=
  let! mapping := map_physical_region address header_size in
  let! length := kept mapping (
    let! header := deref mapping in
    do! se_lift (sdt_validate header signature) in
    se_lift (sdt_length header)) in
  if length <=? mapped_length mapping then
    do! drop_mapping mapping in
    se_ret (MkMapping (virtual_start mapping) (physical_start mapping)
      (region_length mapping) (mapped_length mapping))
  else
    do! drop_mapping mapping in
    map_physical_region address length.

(** The loop over the addresses of the root table: [n] more entries of [size] bytes,
    from the entry [offset] on. *)
Fixpoint find_entry (n : nat) (root : Window) (size : nat) (offset : Z) (signature : Signature)
    : M PhysicalMapping :=
  match n with
  | O => se_err (TableMissing signature)
  | S n =>
      let! address := se_lift (w_uint root (header_size + Z.of_nat size * offset) size) in
      let! table_result := se_try (read_table signature (as_usize address)) in
      match table_result with
      | Ok table => se_ret table
      | Err _ => find_entry n root size (offset + 1) signature
      | Fail r => se_fail r
      end
  end.

(** [AcpiTables::find_table] *)
Definition find_table (signature : Signature) (tables : AcpiTables) : M PhysicalMapping :=
  let! root := deref (mapping tables) in
  let! length := se_lift (sdt_length root) in
  let! length := se_lift (sub_w usize_bits length header_size) in
  let size := if revision tables =? 0 then 4%nat else 8%nat in
  find_entry (Z.to_nat (length / Z.of_nat size)) root size 0 signature.

(** [AmlTable::new] *)
Definition aml_table_new (address length : Z) : AcpiResult AmlTable :=
  let? address := add_w usize_bits address header_size in
  let? length := sub_w 32 length header_size in
  Ok (MkAmlTable address length).

(** [AcpiTables::dsdt] *)
Definition dsdt (tables : AcpiTables) : M AmlTable :=
  let! fadt := find_table Signature.FADT tables in
  scoped fadt (
    let! fadt := deref fadt in
    let! dsdt_address := se_lift (dsdt_address fadt) in
    let! dsdt := read_table Signature.DSDT dsdt_address in
    scoped dsdt (
      let! header := deref dsdt in
      let! length := se_lift (sdt_length header) in
      se_lift (aml_table_new dsdt_address length))).

(** * The SSDTs *)

(** [SsdtIterator]; [current_sdt_ptr] is a pointer into the mapping of the root
    table, given by the mapping and an offset. *)
Record SsdtIterator := MkSsdt { current_sdt_ptr : PhysicalMapping * Z; remaining : Z }.

Definition pointer_size : Z := usize_bits / 8.

(** [AcpiTables::ssdts] *)
Definition ssdts (tables : AcpiTables) : M SsdtIterator :=
  let! root := deref (mapping tables) in
  let! length := se_lift (sdt_length root) in
  let! length := se_lift (sub_w usize_bits length header_size) in
  se_ret (MkSsdt (mapping tables, header_size) (length / pointer_size)).

(** The loop of [SsdtIterator::next]. The alignment of the pointer, which the read
    needs, is not modelled. *)
Fixpoint ssdt_loop (fuel : nat) (it : SsdtIterator) : M (option AmlTable * SsdtIterator) :=
  match fuel with
  | O => se_fail OutOfFuel
  | S fuel =>
      let '(p, offset) := current_sdt_ptr it in
      let! root := deref p in
      let! address := se_lift (w_uint root offset (Z.to_nat pointer_size)) in
      let! sdt_header := map_physical_region address header_size in
      let! remaining := se_lift (sub_w usize_bits (remaining it) 1) in
      let it := MkSsdt (current_sdt_ptr it) remaining in
      let! header := deref sdt_header in
      let! result := se_try (se_lift (sdt_validate header Signature.SSDT)) in
      match result with
      | Ok _ =>
          let! length := se_lift (sdt_length header) in
          do! drop_mapping sdt_header in
          se_ret (Some (MkAmlTable (physical_start sdt_header) length), it)
      | Err _ =>
          do! drop_mapping sdt_header in
          ssdt_loop fuel it
      | Fail r => se_fail r
      end
  end.

(** [SsdtIterator::next] *)
Definition ssdt_next (fuel : nat) (it : SsdtIterator) : M (option AmlTable * SsdtIterator) :=
  if remaining it =? 0 then se_ret (None, it) else ssdt_loop fuel it.
End Tables.

(** * Lemmas *)

(** A mapping that can be read. *)
Definition live (m : Machine) (p : PhysicalMapping) : Prop :=
  (virtual_start p < requests m)%nat /\ virtual_start p ∉ unmapped m.

Section Lemmas.
Context {tgt : Target} {handler : AcpiHandler}.

Lemma deref_live {E} p m : live m p ->
  @deref handler E p m = SOk (memory (physical_start p) (mapped_length p)) m.
Proof. intros [_ H]. unfold deref. by rewrite bool_decide_false. Qed.

(** The machine after a mapping was made and dropped again. *)
Definition dropped (m : Machine) : Machine :=
  MkMachine (S (requests m)) (if unmaps then requests m :: unmapped m else unmapped m).

Lemma fresh_not_unmapped m : tidy m -> requests m ∉ unmapped m.
Proof.
  intros Hm H. pose proof (proj1 (Forall_forall _ _) Hm _ H) as H'. cbn in H'. lia.
Qed.

Lemma dropped_tidy m : tidy m -> tidy (dropped m).
Proof.
  intros Hm. assert (Forall (fun k => (k < S (requests m))%nat) (unmapped m)) as H.
  { eapply Forall_impl; [exact Hm|]. cbn. lia. }
  unfold tidy, dropped. cbn. destruct unmaps; [|exact H]. constructor; [lia|exact H].
Qed.

Lemma dropped_live m p : live m p -> live (dropped m) p.
Proof.
  intros [H1 H2]. split; cbn; [lia|]. destruct unmaps; [|done]. set_unfold. intros [E|E]; [lia|done].
Qed.

Lemma drop_mapping_eq {E} m a s x : @drop_mapping handler E (MkMapping (requests m) a s x)
  (MkMachine (S (requests m)) (unmapped m)) = SOk tt (dropped m).
Proof. unfold drop_mapping, se_modify, dropped. cbn. by destruct unmaps. Qed.

Lemma sdt_validate_length w signature : 36 <= w_len w -> sdt_validate w signature = Ok tt ->
  exists length, (forall E, @sdt_length E w = Ok length) /\ 0 <= length <= w_len w.
Proof.
  intros Hl. rewrite sdt_validate_eq by done. repeat (case_match; [done|]). cbv zeta.
  destruct (Z.ltb_spec (w_len w) (from_le_bytes (w_bytes w 4 4))) as [|Hlen]; [done|]. intros _.
  exists (from_le_bytes (w_bytes w 4 4)). split.
  - intros E. unfold sdt_length. exact (field_ok SdtHeader w "length" 4%nat 4%nat eq_refl ltac:(cbn; lia)).
  - pose proof (from_le_bytes_range (w_bytes w 4 4)). lia.
Qed.

(** What is mapped for the header at an address. *)
Definition header_at (address : Z) : Window := memory address (extent address 36).

Lemma header_at_length address : 36 <= w_len (header_at address).
Proof. apply extent_ok. Qed.

(** Reading a table: the validation decides; the second mapping of the code is never
    made, because the validation has read the whole table. *)
Lemma read_table_eq signature address m : tidy m ->
  read_table signature address m =
  match sdt_validate (header_at address) signature with
  | Ok _ => SOk (MkMapping (requests m) address 36 (extent address 36)) (dropped m)
  | Err e => SErr e (dropped m)
  | Fail r => SFail r
  end.
Proof.
  intros Hm. unfold read_table, se_bind at 1, map_physical_region.
  change header_size with 36. unfold kept, se_bind at 1 2, se_try, se_bind at 1, deref at 1.
  cbn [virtual_start unmapped requests].
  rewrite bool_decide_false by by apply fresh_not_unmapped.
  cbn [mapped_length physical_start]. change (MkWindow _ _) with (header_at address).
  unfold se_bind at 1, se_lift at 1.
  destruct (sdt_validate (header_at address) signature) as [[]|e|r] eqn:Ev.
  - destruct (sdt_validate_length _ _ (header_at_length address) Ev) as (length & Hlen & H0 & Hle).
    unfold se_lift at 1. rewrite Hlen. unfold se_ret at 1. cbn [mapped_length].
    change (w_len (header_at address)) with (extent address 36) in Hle.
    rewrite (proj2 (Z.leb_le _ _) Hle). unfold se_bind. by rewrite drop_mapping_eq.
  - unfold se_bind. by rewrite drop_mapping_eq.
  - done.
Qed.

(** The mapping of a table that was read is unmapped, if unmapping does anything. *)
Lemma deref_read {E} m a s x : tidy m ->
  @deref handler E (MkMapping (requests m) a s x) (dropped m) =
  if unmaps then SFail UB else SOk (memory a x) (dropped m).
Proof.
  intros Hm. unfold deref, dropped. cbn. destruct unmaps.
  - by rewrite bool_decide_true by set_solver.
  - by rewrite bool_decide_false by by apply fresh_not_unmapped.
Qed.

(** ** The entries of the root table *)

Definition entry (root : Window) (size : nat) (i : Z) : Z :=
  as_usize (from_le_bytes (w_bytes root (36 + Z.of_nat size * i) size)).

Definition is_table (signature : Signature) (address : Z) : bool :=
  match sdt_validate (header_at address) signature with Ok _ => true | _ => false end.

(** What is mapped for the header at an address is enough to validate the table. *)
Definition covered (signature : Signature) (address : Z) : Prop :=
  sdt_validate (header_at address) signature <> Fail UB.

Lemma sdt_validate_fail w signature r : 36 <= w_len w -> sdt_validate w signature = Fail r -> r = UB.
Proof. intros Hl. rewrite sdt_validate_eq by done. cbv zeta. repeat case_match; congruence. Qed.

Lemma find_entry_eq n root size offset signature m : tidy m -> 0 <= offset ->
  36 + Z.of_nat size * (offset + Z.of_nat n) <= w_len root ->
  Forall (covered signature) (map (fun i => entry root size (offset + Z.of_nat i)) (seq 0 n)) ->
  exists m1, tidy m1 /\ (forall p, live m p -> live m1 p) /\
  find_entry n root size offset signature m =
  match List.find (is_table signature) (map (fun i => entry root size (offset + Z.of_nat i)) (seq 0 n)) with
  | Some a => SOk (MkMapping (requests m1) a 36 (extent a 36)) (dropped m1)
  | None => SErr (TableMissing signature) m1
  end.
Proof.
  intros Hm. revert offset m Hm. induction n as [|n IH]; intros offset m Hm H0 Hl Hc; [by exists m|].
  cbn [seq map List.find find_entry] in *. rewrite Z.add_0_r in *.
  apply Forall_cons in Hc as [Hc1 Hc2].
  assert (map (fun i => entry root size (offset + Z.of_nat i)) (seq 1 n) =
    map (fun i => entry root size (offset + 1 + Z.of_nat i)) (seq 0 n)) as Eshift.
  { rewrite <-(seq_shift n 0), map_map. apply map_ext. intros i. f_equal. lia. }
  rewrite Eshift in *. unfold se_bind at 1, se_lift, w_uint. change header_size with 36.
  rewrite w_read_ok by nia. cbn [result_bind]. fold (entry root size offset).
  unfold se_bind at 1, se_try. rewrite read_table_eq by done. unfold is_table at 1. unfold covered in Hc1.
  destruct (sdt_validate (header_at (entry root size offset)) signature) as [[]|e|r] eqn:Ev.
  - by exists m.
  - destruct (IH (offset + 1) (dropped m) (dropped_tidy m Hm) ltac:(lia) ltac:(nia) Hc2)
      as (m1 & Hm1 & Hlive & E).
    exists m1. split_and!; [done| |exact E]. intros p Hp. by apply Hlive, dropped_live.
  - by apply sdt_validate_fail in Ev as ->; [|apply header_at_length].
Qed.

(** The addresses in a root table of a length and revision. *)
Definition entries (root : Window) (length revision : Z) : list Z :=
  let size := if revision =? 0 then 4%nat else 8%nat in
  map (fun i => entry root size (Z.of_nat i)) (seq 0 (Z.to_nat ((length - 36) / Z.of_nat size))).

Definition root_of (tables : AcpiTables) : Window :=
  memory (physical_start (mapping tables)) (mapped_length (mapping tables)).

(** The root table is mapped, all of it, and the length in its header is sane. *)
Definition root_ok (m : Machine) (tables : AcpiTables) (length : Z) : Prop :=
  live m (mapping tables) /\ (forall E, @sdt_length E (root_of tables) = Ok length) /\
  36 <= length <= w_len (root_of tables) /\ length < 2 ^ 32.

Lemma find_table_eq signature tables length m : tidy m -> root_ok m tables length ->
  Forall (covered signature) (entries (root_of tables) length (revision tables)) ->
  exists m1, tidy m1 /\ (forall p, live m p -> live m1 p) /\
  find_table signature tables m =
  match List.find (is_table signature) (entries (root_of tables) length (revision tables)) with
  | Some a => SOk (MkMapping (requests m1) a 36 (extent a 36)) (dropped m1)
  | None => SErr (TableMissing signature) m1
  end.
Proof.
  intros Hm (Hlive & Hlen & Hl & H32) Hc. unfold find_table, se_bind, se_lift.
  rewrite (deref_live _ _ Hlive). fold (root_of tables). rewrite Hlen.
  change header_size with 36. unfold sub_w. rewrite checked_exact.
  2: { split; [lia|]. assert (2 ^ 32 <= 2 ^ usize_bits); [|lia].
       apply Z.pow_le_mono_r; [lia|]. destruct usize_bits_ok; lia. }
  unfold entries in *. set (size := if revision tables =? 0 then 4%nat else 8%nat) in *.
  assert (0 < Z.of_nat size) as Hs by (subst size; destruct (revision tables =? 0); lia).
  pose proof (Z.mul_div_le (length - 36) (Z.of_nat size) Hs).
  pose proof (Z.div_pos (length - 36) (Z.of_nat size) ltac:(lia) Hs).
  apply find_entry_eq; [done|lia| |exact Hc]. nia.
Qed.
End Lemmas.

(** ** From the root pointer *)

Section Root.
Context {tgt : Target} {handler : AcpiHandler}.

Lemma map_live m address size x : live (MkMachine (S (requests m)) (unmapped m))
  (MkMapping (requests m) address size x) <-> requests m ∉ unmapped m.
Proof. unfold live. cbn. split; [by intros []|]. split; [lia|done]. Qed.

Lemma root_table_eq address signature revision m : tidy m ->
  exists m', tidy m' /\ (forall p, live m p -> live m' p) /\
  root_table address signature revision m =
  match sdt_validate (header_at address) signature with
  | Ok _ => SOk (MkTables (MkMapping (requests m) address 36 (extent address 36)) revision) m'
  | Err e => SErr e m'
  | Fail r => SFail r
  end /\
  (sdt_validate (header_at address) signature = Ok tt ->
   live m' (MkMapping (requests m) address 36 (extent address 36))).
Proof.
  intros Hm. pose proof (fresh_not_unmapped m Hm) as Hf.
  exists (match sdt_validate (header_at address) signature with
     | Ok _ => MkMachine (S (requests m)) (unmapped m) | _ => dropped m end).
  split_and!.
  - destruct (sdt_validate _ _); [|by apply dropped_tidy..].
    eapply Forall_impl; [exact Hm|]. cbn. lia.
  - intros p [H1 H2]. destruct (sdt_validate _ _); [|by apply dropped_live..].
    split; cbn; [lia|done].
  - unfold root_table, se_bind at 1, map_physical_region. change header_size with 36.
    unfold kept, se_bind at 1, se_try, se_bind at 1.
    rewrite deref_live by by apply map_live. cbn [physical_start mapped_length].
    change (memory address (extent address 36)) with (header_at address).
    unfold se_bind at 1, se_lift. destruct (sdt_validate _ _) as [[]|e|r]; [done| |done].
    unfold se_bind. by rewrite drop_mapping_eq.
  - intros ->. by apply map_live.
Qed.

(** The revision in a root pointer, and the table it leads to. *)
Definition rsdp_rev (rsdp : Window) : Z := from_le_bytes (w_bytes rsdp 15 1).
Definition root_address (rsdp : Window) : Z :=
  as_usize (if rsdp_rev rsdp =? 0 then from_le_bytes (w_bytes rsdp 16 4)
            else from_le_bytes (w_bytes rsdp 24 8)).
Definition root_signature (rsdp : Window) : Signature :=
  if rsdp_rev rsdp =? 0 then Signature.RSDT else Signature.XSDT.

Lemma rsdp_fields w : 36 <= w_len w ->
  (forall E, rsdp_revision (E := E) w = Ok (rsdp_rev w)) /\
  (forall E, rsdt_address (E := E) w = Ok (from_le_bytes (w_bytes w 16 4))) /\
  (forall E, rsdp_rev w <> 0 -> xsdt_address (E := E) w = Ok (from_le_bytes (w_bytes w 24 8))).
Proof.
  intros Hw.
  assert (forall E, field (E := E) Rsdp w "revision" = Ok (rsdp_rev w)) as Hr.
  { intros E. exact (field_ok Rsdp w "revision" 15%nat 1%nat eq_refl ltac:(cbn; lia)). }
  split_and!; [done|..]; intros E.
  - exact (field_ok Rsdp w "rsdt_address" 16%nat 4%nat eq_refl ltac:(cbn; lia)).
  - intros Hne. unfold xsdt_address. rewrite Hr. cbn [result_bind].
    pose proof (from_le_bytes_range (w_bytes w 15 1)). fold (rsdp_rev w) in *.
    assert ((0 <? rsdp_rev w) = true) as -> by (apply Z.ltb_lt; lia). cbn [assert_ result_bind].
    exact (field_ok Rsdp w "xsdt_address" 24%nat 8%nat eq_refl ltac:(cbn; lia)).
Qed.

Lemma from_validated_eq p m : tidy m -> live m p -> 36 <= mapped_length p ->
  let rsdp := memory (physical_start p) (mapped_length p) in
  exists m', from_validated_rsdp p m =
    match sdt_validate (header_at (root_address rsdp)) (root_signature rsdp) with
    | Ok _ => SOk (MkTables (MkMapping (requests m) (root_address rsdp) 36 (extent (root_address rsdp) 36))
                     (rsdp_rev rsdp)) m'
    | Err e => SErr e m'
    | Fail r => SFail r
    end /\
  (sdt_validate (header_at (root_address rsdp)) (root_signature rsdp) = Ok tt ->
   live m' (MkMapping (requests m) (root_address rsdp) 36 (extent (root_address rsdp) 36))) /\ tidy m'.
Proof.
  intros Hm Hp Hl rsdp. destruct (rsdp_fields rsdp Hl) as (Hrev & Hrsdt & Hxsdt).
  destruct (root_table_eq (root_address rsdp) (root_signature rsdp) (rsdp_rev rsdp) m Hm)
    as (m1 & Hm1 & Hlive & E & Hnew).
  assert (exists m', drop_mapping (E := AcpiError) p m1 = SOk tt m' /\ tidy m' /\
    forall q, virtual_start q <> virtual_start p -> live m1 q -> live m' q) as (m' & Ed & Hm' & Hq).
  { unfold drop_mapping, se_modify. eexists. split; [done|]. destruct unmaps; [|done].
    destruct (Hlive p Hp) as [Hp1 _]. split; [by constructor|].
    intros q Hne [H1 H2]. split; [done|]. cbn. intros Hin%elem_of_cons. by destruct Hin. }
  assert (from_validated_rsdp p m =
    (let! r := se_try (root_table (root_address rsdp) (root_signature rsdp) (rsdp_rev rsdp)) in
     do! drop_mapping p in se_lift r) m) as ->.
  { unfold from_validated_rsdp, scoped, se_bind, se_try. rewrite (deref_live p m Hp). fold rsdp.
    unfold se_lift. rewrite Hrev. unfold root_address, root_signature.
    destruct (Z.eqb_spec (rsdp_rev rsdp) 0) as [E0|E0]; [by rewrite Hrsdt|by rewrite Hxsdt]. }
  exists m'. unfold se_bind, se_try. rewrite E. split_and!; [..|done].
  - destruct (sdt_validate _ _); cbn beta iota; by rewrite ?Ed.
  - intros Ev. apply Hq; [|by apply Hnew]. cbn. destruct Hp. lia.
Qed.
End Root.

(** ** The iterator over the SSDTs *)

Section Ssdts.
Context {tgt : Target} {handler : AcpiHandler}.

(** The memory that the iterator reads the next address from. *)
Definition ssdt_root (it : SsdtIterator) : Window :=
  memory (physical_start (current_sdt_ptr it).1) (mapped_length (current_sdt_ptr it).1).
Definition ssdt_address (it : SsdtIterator) : Z :=
  from_le_bytes (w_bytes (ssdt_root it) (current_sdt_ptr it).2 (Z.to_nat pointer_size)).

(** The iterator points to memory that is mapped. *)
Definition ssdt_ok (m : Machine) (it : SsdtIterator) : Prop :=
  tidy m /\ live m (current_sdt_ptr it).1 /\ 0 <= (current_sdt_ptr it).2 /\
  (current_sdt_ptr it).2 + pointer_size <= w_len (ssdt_root it).

Lemma ssdt_loop_step fuel it m : ssdt_ok m it ->
  ssdt_loop (S fuel) it m =
  match sub_w (E := AcpiError) usize_bits (remaining it) 1 with
  | Ok n =>
      let it := MkSsdt (current_sdt_ptr it) n in
      match sdt_validate (header_at (ssdt_address it)) Signature.SSDT with
      | Ok _ =>
          match sdt_length (header_at (ssdt_address it)) with
          | Ok length => SOk (Some (MkAmlTable (ssdt_address it) length), it) (dropped m)
          | Err e => SErr e (MkMachine (S (requests m)) (unmapped m))
          | Fail r => SFail r
          end
      | Err _ => ssdt_loop fuel it (dropped m)
      | Fail r => SFail r
      end
  | Err e => SErr e (MkMachine (S (requests m)) (unmapped m))
  | Fail r => SFail r
  end.
Proof.
  destruct it as [[p offset] n]. intros (Hm & Hp & H0 & Hl). cbn in Hp, H0, Hl. cbn [ssdt_loop current_sdt_ptr].
  unfold se_bind at 1. rewrite (deref_live p m Hp). unfold se_bind at 1, se_lift at 1, w_uint.
  assert (0 <= pointer_size) as Hps by (unfold pointer_size; apply Z.div_pos; destruct usize_bits_ok; lia).
  rewrite w_read_ok by (cbn; lia). cbn [result_bind]. unfold se_bind at 1, map_physical_region.
  unfold ssdt_address, ssdt_root. cbn [current_sdt_ptr fst snd remaining].
  set (a := from_le_bytes _). unfold se_bind at 1, se_lift at 1.
  destruct (sub_w usize_bits n 1) as [n'|e|r]; [|done|done]. unfold se_bind at 1.
  change header_size with 36. rewrite deref_live by by apply map_live, fresh_not_unmapped.
  cbn [physical_start mapped_length]. change (memory a (extent a 36)) with (header_at a).
  unfold se_bind at 1, se_try, se_lift at 1.
  destruct (sdt_validate (header_at a) Signature.SSDT) as [[]|e|r]; [| |done].
  - unfold se_bind at 1, se_lift. destruct (sdt_length (header_at a)) as [len|e|r]; [|done|done].
    unfold se_bind. by rewrite drop_mapping_eq.
  - unfold se_bind. by rewrite drop_mapping_eq.
Qed.

Lemma dropped_ssdt_ok m p n n' : ssdt_ok m (MkSsdt p n) -> ssdt_ok (dropped m) (MkSsdt p n').
Proof.
  intros (Hm & Hp & H0 & Hl). split_and!; [by apply dropped_tidy|by apply dropped_live|done|done].
Qed.

Lemma ssdt_loop_panics fuel p n m : overflow_checks = true -> ssdt_ok m (MkSsdt p n) ->
  0 <= n < 2 ^ usize_bits -> n < Z.of_nat fuel ->
  covered Signature.SSDT (ssdt_address (MkSsdt p n)) ->
  is_table Signature.SSDT (ssdt_address (MkSsdt p n)) = false ->
  ssdt_loop fuel (MkSsdt p n) m = SFail Panic.
Proof.
  intros Hc. revert n m. induction fuel as [|fuel IH]; intros n m Hok Hn Hf Hcov Ht; [lia|].
  rewrite ssdt_loop_step by done. cbn [remaining current_sdt_ptr]. unfold sub_w.
  destruct (Z.eq_dec n 0) as [->|Hne].
  - unfold checked. cbn. by rewrite Hc.
  - rewrite checked_exact by (unfold in_width; lia). cbv zeta.
    unfold is_table, covered in Ht, Hcov.
    change (ssdt_address (MkSsdt p (n - 1))) with (ssdt_address (MkSsdt p n)).
    destruct (sdt_validate _ _) as [[]|e|r] eqn:Ev; [done| |].
    + apply IH; try done; [by eapply dropped_ssdt_ok|lia|lia|..].
      * unfold covered. change (ssdt_address (MkSsdt p (n - 1))) with (ssdt_address (MkSsdt p n)).
        by rewrite Ev.
      * unfold is_table. change (ssdt_address (MkSsdt p (n - 1))) with (ssdt_address (MkSsdt p n)).
        by rewrite Ev.
    + by apply sdt_validate_fail in Ev as ->; [|apply header_at_length].
Qed.
End Ssdts.

(** * Properties *)

Section Properties.
Context {tgt : Target} {handler : AcpiHandler}.

(** C12: Finding a table: when the mappings of the headers cover the tables, the first
    table of the root table that has the signature and is valid is returned, with
    32-bit entries for revision 0 and 64-bit entries otherwise; tables that are not
    valid are passed over, and the table is reported missing if there is none. *)
Theorem find_table_spec signature tables length m : tidy m -> root_ok m tables length ->
  Forall (covered signature) (entries (root_of tables) length (revision tables)) ->
  exists m' table, find_table signature tables m =
    match List.find (is_table signature) (entries (root_of tables) length (revision tables)) with
    | Some _ => SOk table m'
    | None => SErr (TableMissing signature) m'
    end /\
  forall a, List.find (is_table signature) (entries (root_of tables) length (revision tables)) = Some a ->
    physical_start table = a /\ (unmaps = false -> forall E, deref (E := E) table m' = SOk (header_at a) m').
Proof.
  intros Hm Hroot Hc. destruct (find_table_eq signature tables length m Hm Hroot Hc)
    as (m1 & Hm1 & _ & E). rewrite E. destruct (List.find _ _) as [a|].
  - eexists _, _. split; [done|]. intros a' [= <-]. split; [done|]. intros Hu E'.
    rewrite deref_read by done. by rewrite Hu.
  - exists m1, (mapping tables). by split.
Qed.

(** C37: Where unmapping takes the memory away, no table that is read can be used: the
    mapping that is returned was unmapped by the drop of the one it was made from. *)
Theorem read_table_use_after_unmap signature address table m m' : tidy m -> unmaps = true ->
  read_table signature address m = SOk table m' ->
  forall E, deref (E := E) table m' = SFail UB.
Proof.
  intros Hm Hu. rewrite read_table_eq by done.
  destruct (sdt_validate _ _) as [[]|e|r]; [|done|done]. intros [= <- <-] E.
  rewrite deref_read by done. by rewrite Hu.
Qed.

(** C18: From the root pointer: a pointer that is not valid is reported; otherwise its
    revision decides between the 32-bit address of an RSDT and the 64-bit address of
    an XSDT, that table is validated, and it stays mapped. *)
Theorem from_rsdp_spec address m : tidy m ->
  let rsdp := memory address (extent address 36) in
  let root := root_address rsdp in
  exists m', from_rsdp address m =
    match rsdp_validate rsdp with
    | Ok _ =>
        match sdt_validate (header_at root) (root_signature rsdp) with
        | Ok _ => SOk (MkTables (MkMapping (S (requests m)) root 36 (extent root 36)) (rsdp_rev rsdp)) m'
        | Err e => SErr e m'
        | Fail r => SFail r
        end
    | Err e => SErr (RsdpErr e) m'
    | Fail r => SFail r
    end /\
  forall tables, from_rsdp address m = SOk tables m' -> live m' (mapping tables).
Proof.
  intros Hm rsdp root. set (p := MkMapping (requests m) address 36 (extent address 36)).
  set (m1 := MkMachine (S (requests m)) (unmapped m)).
  assert (live m1 p) as Hp by by apply map_live, fresh_not_unmapped.
  assert (tidy m1) as Hm1 by (eapply Forall_impl; [exact Hm|cbn; lia]).
  destruct (from_validated_eq p m1 Hm1 Hp) as (m' & E & Hlive & _); [apply extent_ok|].
  cbn [physical_start mapped_length p] in E, Hlive. fold rsdp in E, Hlive. fold root in E, Hlive.
  assert (from_rsdp address m =
    match rsdp_validate rsdp with
    | Ok _ => from_validated_rsdp p m1
    | Err e => SErr (RsdpErr e) (dropped m)
    | Fail r => SFail r
    end) as ->.
  { unfold from_rsdp, se_bind at 1, map_physical_region. change (Z.of_nat (size_of Rsdp)) with 36.
    fold p m1. unfold kept, se_bind at 1 2, se_try, se_bind at 1. rewrite (deref_live p m1 Hp).
    cbn [physical_start mapped_length p]. fold rsdp. unfold se_lift.
    assert (drop_mapping (E := AcpiError) p m1 = SOk tt (dropped m)) as Hd by apply drop_mapping_eq.
    destruct (rsdp_validate rsdp) as [[]|e|r]; [done| |done].
    cbn [result_map_err]. unfold se_bind. by rewrite Hd. }
  destruct (rsdp_validate rsdp) as [[]|e|r].
  - exists m'. split; [exact E|]. intros tables. rewrite E.
    destruct (sdt_validate _ _) as [[]|e|r]; [|done|done]. intros [= <-]. by apply Hlive.
  - by exists (dropped m).
  - by exists m.
Qed.

(** C34: The DSDT: the FADT of the root table leads to it, and its code is what follows
    its header - unless unmapping takes the memory away, when the FADT that was
    found can no longer be read. *)
Theorem dsdt_spec tables length fadt address len m : tidy m -> root_ok m tables length ->
  Forall (covered Signature.FADT) (entries (root_of tables) length (revision tables)) ->
  List.find (is_table Signature.FADT) (entries (root_of tables) length (revision tables)) = Some fadt ->
  dsdt_address (header_at fadt) = Ok address ->
  sdt_validate (header_at address) Signature.DSDT = Ok tt ->
  sdt_length (E := AcpiError) (header_at address) = Ok len -> 36 <= len < 2 ^ 32 ->
  0 <= address -> address + 36 < 2 ^ usize_bits ->
  if unmaps then dsdt tables m = SFail UB
  else exists m', dsdt tables m = SOk (MkAmlTable (address + 36) (len - 36)) m'.
Proof.
  intros Hm Hroot Hc Hf Hd Hv Hlen Hl H0 H1.
  destruct (find_table_eq Signature.FADT tables length m Hm Hroot Hc) as (m1 & Hm1 & _ & E).
  rewrite Hf in E. destruct unmaps eqn:Hu; unfold dsdt, se_bind at 1; rewrite E;
    unfold scoped at 1, se_bind at 1, se_try, se_bind at 1; rewrite deref_read, Hu by done; [done|].
  change (memory fadt (extent fadt 36)) with (header_at fadt).
  unfold se_bind at 1, se_lift at 1. rewrite Hd. unfold se_bind at 1.
  pose proof (dropped_tidy m1 Hm1) as Hm2. rewrite read_table_eq, Hv by done.
  unfold scoped, se_bind at 1, se_try, se_bind at 1. rewrite deref_read, Hu by done.
  change (memory address (extent address 36)) with (header_at address).
  unfold se_bind at 1, se_lift at 1. rewrite Hlen. unfold se_lift at 1.
  unfold aml_table_new, add_w, sub_w. change header_size with 36.
  rewrite !checked_exact by (unfold in_width; lia). cbn [result_bind].
  eexists. unfold se_bind, drop_mapping, se_modify. rewrite Hu. reflexivity.
Qed.

(** C38: The iterator over the SSDTs never leaves the first entry of the root table: a
    valid SSDT there is returned by every step, header included; anything else is
    looked at again until the count of the remaining entries underflows, at which
    a build that checks arithmetic panics. *)
Theorem ssdt_next_stuck it m : ssdt_ok m it -> 0 < remaining it < 2 ^ usize_bits ->
  covered Signature.SSDT (ssdt_address it) ->
  if is_table Signature.SSDT (ssdt_address it) then
    forall fuel, exists length m', sdt_length (E := unit) (header_at (ssdt_address it)) = Ok length /\
    ssdt_next (S fuel) it m =
      SOk (Some (MkAmlTable (ssdt_address it) length), MkSsdt (current_sdt_ptr it) (remaining it - 1)) m'
  else overflow_checks = true ->
    forall fuel, remaining it < Z.of_nat fuel -> ssdt_next fuel it m = SFail Panic.
Proof.
  destruct it as [p n]. cbn [remaining current_sdt_ptr]. intros Hok Hn Hcov. unfold ssdt_next.
  cbn [remaining]. rewrite (proj2 (Z.eqb_neq n 0)) by lia.
  destruct (is_table _ _) eqn:Ht.
  - intros fuel. rewrite ssdt_loop_step by done. cbn [remaining current_sdt_ptr]. unfold sub_w.
    rewrite checked_exact by (unfold in_width; lia). cbv zeta. unfold is_table in Ht.
    change (ssdt_address (MkSsdt p (n - 1))) with (ssdt_address (MkSsdt p n)).
    destruct (sdt_validate _ _) as [[]|e|r] eqn:Ev; [|done|done].
    destruct (sdt_validate_length _ _ (header_at_length _) Ev) as (length & Hlen & _).
    exists length, (dropped m). by rewrite !Hlen.
  - intros Hc fuel Hf. by apply ssdt_loop_panics; try done; lia.
Qed.
End Properties.

(** * The properties on a concrete firmware *)

(** A root pointer, an XSDT with an SSDT and the FADT, the DSDT and an SSDT. *)
Definition sample_table (signature : Signature) (body : bytes) : bytes :=
  sdt_encode (sample_id signature x01) body.
Definition firmware : list (Z * bytes) :=
  [(0xe0000, sample_rsdp);
   (0x7fe1000, sample_table Signature.XSDT (to_le_bytes 8 0x7fe4000 ++ to_le_bytes 8 0x7fe3000));
   (0x7fe2000, sample_table Signature.DSDT [xa3; xa3]);
   (0x7fe3000, sample_fadt);
   (0x7fe4000, sample_table Signature.SSDT [xa3])].

(** Pages stay mapped, and are taken away. *)
Definition identity_handler : AcpiHandler := sample_handler firmware 4096 false.
Definition paging_handler : AcpiHandler := sample_handler firmware 4096 true.

Definition sample_tables : AcpiTables := MkTables (MkMapping 1 0x7fe1000 36 4096) 2.
Definition sample_machine : Machine := MkMachine 2 [].

Lemma sample_tidy : tidy sample_machine.
Proof. constructor. Qed.

Lemma sample_live p : (virtual_start p < 2)%nat -> live sample_machine p.
Proof. intros H. split; [done|apply not_elem_of_nil]. Qed.

Lemma sample_root_ok : @root_ok identity_handler sample_machine sample_tables 52.
Proof.
  split; [apply sample_live, Nat.ltb_lt; reflexivity|]. split; [intros E; vm_compute; reflexivity|].
  split; [|reflexivity]. split; vm_compute; discriminate.
Qed.

Lemma sample_covered signature :
  signature = Signature.FADT \/ signature = Signature.HPET ->
  Forall (@covered identity_handler signature)
    (@entries target_debug (@root_of identity_handler sample_tables) 52 2).
Proof.
  assert (@entries target_debug (@root_of identity_handler sample_tables) 52 2 = [0x7fe4000; 0x7fe3000])
    as -> by (vm_compute; reflexivity).
  intros [-> | ->]; repeat apply Forall_cons_2; try apply Forall_nil_2; vm_compute; discriminate.
Qed.

Lemma find_table_spec_witness : exists table m',
  @find_table target_debug identity_handler Signature.FADT sample_tables sample_machine = SOk table m' /\
  physical_start table = 0x7fe3000.
Proof.
  destruct (@find_table_spec target_debug identity_handler Signature.FADT sample_tables 52 sample_machine
    sample_tidy sample_root_ok (sample_covered _ (or_introl eq_refl))) as (m' & table & E & H).
  assert (List.find (@is_table identity_handler Signature.FADT)
    (@entries target_debug (@root_of identity_handler sample_tables) 52 (revision sample_tables)) = Some 0x7fe3000)
    as Hf by (vm_compute; reflexivity).
  rewrite Hf in E, H. exists table, m'. split; [exact E|]. apply H. reflexivity.
Defined.

Lemma read_table_use_after_unmap_witness :
  exists table m', @read_table paging_handler Signature.DSDT 0x7fe2000 sample_machine = SOk table m' /\
  @deref paging_handler unit table m' = SFail UB.
Proof.
  eexists _, _. split; [vm_compute; reflexivity|].
  eapply (@read_table_use_after_unmap paging_handler Signature.DSDT 0x7fe2000 _ sample_machine _ sample_tidy).
  - reflexivity.
  - vm_compute. reflexivity.
Defined.

Lemma from_rsdp_spec_witness : exists m',
  @from_rsdp target_debug identity_handler 0xe0000 new_machine = SOk sample_tables m'.
Proof.
  destruct (@from_rsdp_spec target_debug identity_handler 0xe0000 new_machine new_machine_tidy)
    as (m' & E & _).
  set (rsdp := @memory identity_handler 0xe0000 (@extent identity_handler 0xe0000 36)) in *.
  assert (rsdp_validate rsdp = Ok tt) as Ev by (vm_compute; reflexivity).
  assert (@root_address target_debug rsdp = 0x7fe1000) as Er by (vm_compute; reflexivity).
  assert (sdt_validate (@header_at identity_handler 0x7fe1000) (root_signature rsdp) = Ok tt) as Es
    by (vm_compute; reflexivity).
  rewrite Ev, Er, Es in E. exists m'. exact E.
Defined.

Lemma dsdt_spec_witness : exists m',
  @dsdt target_debug identity_handler sample_tables sample_machine = SOk (MkAmlTable 0x7fe2024 2) m'.
Proof.
  apply (@dsdt_spec target_debug identity_handler sample_tables 52 0x7fe3000 0x7fe2000 38 sample_machine).
  - exact sample_tidy.
  - exact sample_root_ok.
  - exact (sample_covered _ (or_introl eq_refl)).
  - vm_compute. reflexivity.
  - vm_compute. reflexivity.
  - vm_compute. reflexivity.
  - vm_compute. reflexivity.
  - split; [discriminate|reflexivity].
  - discriminate.
  - reflexivity.
Defined.

Lemma ssdt_next_stuck_witness : exists length m',
  sdt_length (E := unit) (@header_at identity_handler 0x7fe4000) = Ok length /\
  @ssdt_next target_debug identity_handler 1 (MkSsdt (mapping sample_tables, 36) 2) sample_machine =
  SOk (Some (MkAmlTable 0x7fe4000 length), MkSsdt (mapping sample_tables, 36) 1) m'.
Proof.
  pose proof (@ssdt_next_stuck target_debug identity_handler (MkSsdt (mapping sample_tables, 36) 2) sample_machine)
    as H.
  assert (@ssdt_address target_debug identity_handler (MkSsdt (mapping sample_tables, 36) 2) = 0x7fe4000)
    as Ea by (vm_compute; reflexivity).
  rewrite Ea in H.
  assert (@is_table identity_handler Signature.SSDT 0x7fe4000 = true) as Et by (vm_compute; reflexivity).
  rewrite Et in H. apply H.
  - split_and!; [exact sample_tidy|apply sample_live; apply Nat.ltb_lt; reflexivity|discriminate|vm_compute; discriminate].
  - split; reflexivity.
  - vm_compute. discriminate.
Defined.
