(* ===== verification/Slice.v ===== *)
(** Slices in the memory of an allocator ([acpi/src/managed_slice.rs]). *)
From S2P Require Import Prelude RustStd Physical Rsdp Sdt.
#[local] Open Scope Z_scope.

(** [core::alloc::Allocator], as the slices use it: whether the [n]-th request of an
    operation, for the memory of [len] elements, succeeds, and how many elements
    the block it gives has room for - the documentation allows more than was
    asked for. *)
Class Allocator := {
  allocate : nat -> nat -> option nat;
  allocate_ok n len slots : allocate n len = Some slots -> (len <= slots)%nat
}.

(** An allocator that gives out what it is asked for. *)
Definition exact_allocator : Allocator := {|
  allocate _ len := Some len;
  allocate_ok n len slots H := eq_ind len (fun s => len <= s)%nat (le_n len) slots (f_equal (default O) H)
|}.

(** [ManagedSlice]: the elements, those that were not written yet uninitialised. *)
Abbreviation ManagedSlice A := (list (option A)).

Section Slice.
Context {allocator : Allocator}.

(** [ManagedSlice::new_in]; the size in bytes is taken not to overflow. *)
Definition new_in {A} (request len : nat) : AcpiResult (ManagedSlice A) :=
  match allocate request len with
  | Some slots => Ok (replicate slots None)
  | None => Err AllocError
  end.

(** [slice[index] = value] *)
Definition set_at {A} (slice : ManagedSlice A) (index : nat) (value : A) : AcpiResult (ManagedSlice A) :=
  if (index <? length slice)%nat then Ok (<[index := Some value]> slice) else Fail Panic.

(** [slice.copy_from_slice(values)] *)
Definition copy_from_slice {A} (slice : ManagedSlice A) (values : list A) : AcpiResult (ManagedSlice A) :=
  if (length slice =? length values)%nat then Ok (map Some values) else Fail Panic.
End Slice.

(** [core::alloc::Layout] *)
Record Layout := MkLayout { layout_size : nat; layout_align : nat }.

(** [ManagedSlice::drop]: the layout with which the block of a slice is given back, for
    elements of a type of that size and alignment. *)
Definition drop_layout {A} (size_of align_of : nat) (slice : ManagedSlice A) : Layout :=
  MkLayout (size_of * length slice) align_of.

(** The layout fits the block: it is at least what was asked for, and at most what the
    block has room for; the documentation of [deallocate] asks for that. *)
Lemma drop_layout_fits {allocator : Allocator} {A} (request len size_of align_of block : nat)
    (slice : ManagedSlice A) :
  new_in request len = Ok slice ->
  (forall slots, allocate request len = Some slots -> size_of * slots <= block)%nat ->
  (size_of * len <= layout_size (drop_layout size_of align_of slice) <= block)%nat /\
  layout_align (drop_layout size_of align_of slice) = align_of.
Proof.
  unfold new_in. intros H Hb. destruct (allocate request len) as [slots|] eqn:E; [|done]. injection H as <-.
  cbn. rewrite length_replicate. split; [|done]. split; [|by apply Hb].
  apply Nat.mul_le_mono_l. by eapply allocate_ok.
Qed.

(** * Lemmas *)

Lemma set_at_next {A} (done : list A) n x :
  set_at (map Some done ++ replicate (S n) None) (length done) x =
  Ok (map Some (done ++ [x]) ++ replicate n None).
Proof.
  unfold set_at. rewrite length_app, length_map, length_replicate.
  rewrite (proj2 (Nat.ltb_lt _ _)) by lia. f_equal.
  rewrite insert_app_r_alt by (rewrite length_map; lia). rewrite length_map, Nat.sub_diag.
  rewrite map_app, <-app_assoc. done.
Qed.

Lemma set_at_full {A} (done : list A) x : set_at (map Some done) (length done) x = Fail Panic.
Proof. unfold set_at. by rewrite length_map, Nat.ltb_irrefl. Qed.
