(* ===== verification/Mcfg.v ===== *)
(** The memory-mapped PCIe configuration space ([acpi/src/mcfg.rs]). *)
From S2P Require Import Prelude RustStd Physical Rsdp Sdt Address Fadt Tables Slice.
#[local] Open Scope Z_scope.

(** [McfgEntry] *)
Record McfgEntry := MkMcfg {
  base_address : Z;
  pci_segment_group : Z;
  bus_number_start : Z;
  bus_number_end : Z
}.

Definition Mcfg : layout := SdtHeader ++ [F "_reserved" 8].
Definition McfgEntry_layout : layout :=
  [F "base_address" 8; F "pci_segment_group" 2; F "bus_number_start" 1; F "bus_number_end" 1;
   F "_reserved" 4].

(** [PciConfigEntry], the item of the iterator. *)
Record PciConfigEntry := MkPci { segment_group : Z; bus_range : Z * Z; physical_address_ : Z }.

Section Mcfg.
Context {tgt : Target}.

(** Reading an entry. *)
Definition read_entry {E} (w : Window) : result E McfgEntry :=
  let? base_address := field McfgEntry_layout w "base_address" in
  let? pci_segment_group := field McfgEntry_layout w "pci_segment_group" in
  let? bus_number_start := field McfgEntry_layout w "bus_number_start" in
  let? bus_number_end := field McfgEntry_layout w "bus_number_end" in
  Ok (MkMcfg base_address pci_segment_group bus_number_start bus_number_end).

Fixpoint read_entries {E} (n : nat) (self : Window) (offset : Z) : result E (list McfgEntry) :=
  match n with
  | O => Ok []
  | S n =>
      let? entry := read_entry (w_shift self offset) in
      let? rest := read_entries n self (offset + Z.of_nat (size_of McfgEntry_layout)) in
      Ok (entry :: rest)
  end.

(** [Mcfg::entries] *)
Definition mcfg_entries {E} (self : Window) : result E (list McfgEntry) :=
  let? length := sdt_length self in
  let? length := sub_w usize_bits length (Z.of_nat (size_of Mcfg)) in
  let num_entries := length / Z.of_nat (size_of McfgEntry_layout) in
  read_entries (Z.to_nat num_entries) self (Z.of_nat (size_of Mcfg)).

(** [PciConfigRegions::new_in] *)
Definition pci_config_regions {handler : AcpiHandler} {allocator : Allocator} (tables : AcpiTables)
    : SE Machine AcpiError (ManagedSlice McfgEntry) :=
  let! mcfg := find_table Signature.MCFG tables in
  scoped mcfg (
    let! self := deref mcfg in
    let! entries := se_lift (mcfg_entries self) in
    let! regions := se_lift (new_in 0 (length entries)) in
    se_lift (copy_from_slice regions entries)).

(** The region that handles a bus. *)
Definition handles (segment_group_no bus : Z) (region : McfgEntry) : bool :=
  (pci_segment_group region =? segment_group_no) &&
  ((bus_number_start region <=? bus) && (bus <=? bus_number_end region)).

(** [PciConfigRegions::physical_address] *)
Definition physical_address {E} (regions : list McfgEntry) (segment_group_no bus device function : Z)
    : result E (option Z) :=
  match List.find (handles segment_group_no bus) regions with
  | None => Ok None
  | Some region =>
      let? bus := sub_w 8 bus (bus_number_start region) in
      let? address := add_w 64 (base_address region)
        (Z.lor (Z.lor (Z.shiftl bus 20) (Z.shiftl device 15)) (Z.shiftl function 12)) in
      Ok (Some address)
  end.

(** [PciConfigEntryIterator]: the entries and an index. *)
Definition pci_config_next (entries : list McfgEntry) (index : nat) : option PciConfigEntry * nat :=
  match entries !! index with
  | None => (None, index)
  | Some entry =>
      (Some (MkPci (pci_segment_group entry) (bus_number_start entry, bus_number_end entry)
               (as_usize (base_address entry))), S index)
  end.
End Mcfg.

(** * Properties *)

(** The parts of the offset of a function do not overlap. *)
Lemma offset_sum b d f : 0 <= b -> 0 <= d < 32 -> 0 <= f < 8 ->
  Z.lor (Z.lor (Z.shiftl b 20) (Z.shiftl d 15)) (Z.shiftl f 12) = b * 2 ^ 20 + d * 2 ^ 15 + f * 2 ^ 12.
Proof.
  intros Hb Hd Hf. rewrite !Z.shiftl_mul_pow2 by lia.
  assert (forall x y n, 0 <= n -> 0 <= y < 2 ^ n -> Z.lor (x * 2 ^ n) y = x * 2 ^ n + y) as Hor.
  { intros x y n Hn Hy. rewrite <-Z.add_lor_land.
    enough (Z.land (x * 2 ^ n) y = 0) as -> by lia.
    apply Z.bits_inj'. intros i Hi. rewrite Z.land_spec, Z.bits_0.
    destruct (Z.lt_ge_cases i n) as [Hlt|Hge].
    - by rewrite Z.mul_pow2_bits_low.
    - rewrite <-(Z.mod_small y (2 ^ n)) by done. by rewrite Z.mod_pow2_bits_high, andb_false_r by lia. }
  rewrite (Hor b (d * 2 ^ 15) 20) by lia.
  replace (b * 2 ^ 20 + d * 2 ^ 15) with ((b * 2 ^ 5 + d) * 2 ^ 15) by lia.
  rewrite (Hor _ (f * 2 ^ 12) 15) by lia. lia.
Qed.

Section Properties.
Context {tgt : Target}.

(** C19: The configuration space of a function: on a bus that a region handles, every
    function of every device has 4 KiB of its own, inside the MiB of its bus in the
    region; the spaces of different functions do not overlap; and there is none on
    a bus that no region handles. *)
Theorem physical_address_spec regions segment bus device function :
  0 <= bus < 256 -> 0 <= device < 32 -> 0 <= function < 8 ->
  Forall (fun r => 0 <= base_address r /\ base_address r + 2 ^ 28 <= 2 ^ 64 /\ 0 <= bus_number_start r) regions ->
  match List.find (handles segment bus) regions with
  | None => physical_address (E := AcpiError) regions segment bus device function = Ok None
  | Some r =>
      exists page, physical_address (E := AcpiError) regions segment bus device function =
        Ok (Some (base_address r + 4096 * page)) /\
      256 * (bus - bus_number_start r) <= page < 256 * (bus - bus_number_start r + 1) /\
      forall device' function', 0 <= device' < 32 -> 0 <= function' < 8 ->
      physical_address (E := AcpiError) regions segment bus device' function' =
        Ok (Some (base_address r + 4096 * page)) -> device' = device /\ function' = function
  end.
Proof.
  intros Hb Hd Hf Hr. destruct (List.find _ _) as [r|] eqn:E.
  2: { unfold physical_address. by rewrite E. }
  pose proof (find_some _ _ E) as [Hin Hh]. apply list_elem_of_In in Hin.
  apply (proj1 (Forall_forall _ _) Hr) in Hin as (H0 & H1 & H2).
  unfold handles in Hh. apply andb_prop in Hh as [_ [Hlo%Z.leb_le Hhi]%andb_prop].
  assert (forall d f, 0 <= d < 32 -> 0 <= f < 8 ->
    physical_address (E := AcpiError) regions segment bus d f =
    Ok (Some (base_address r + 4096 * ((bus - bus_number_start r) * 256 + d * 8 + f)))) as Heq.
  { intros d f Hd' Hf'. unfold physical_address. rewrite E. unfold sub_w, add_w.
    rewrite checked_exact by (unfold in_width; lia). cbn [result_bind].
    rewrite offset_sum by lia. rewrite checked_exact by (unfold in_width; lia). cbn [result_bind].
    do 2 f_equal. lia. }
  eexists. split; [by apply Heq|]. split; [lia|]. intros d' f' Hd' Hf'. rewrite Heq by done.
  intros [= H]. lia.
Qed.
End Properties.

Lemma physical_address_spec_witness : exists page,
  @physical_address target_debug AcpiError [MkMcfg 0xb0000000 0 0 255] 0 3 31 2 =
    Ok (Some (0xb0000000 + 4096 * page)) /\ 768 <= page < 1024.
Proof.
  destruct (@physical_address_spec target_debug [MkMcfg 0xb0000000 0 0 255] 0 3 31 2) as (page & E & Hp & _).
  - lia.
  - lia.
  - lia.
  - repeat constructor; discriminate.
  - exists page. split; [exact E|exact Hp].
Defined.
