(* ===== verification/Hpet.v ===== *)
(** The event timer ([acpi/src/hpet.rs]) and the boot graphics ([acpi/src/bgrt.rs]). *)
From S2P Require Import Prelude Env RustStd Physical Rsdp Sdt Address Fadt Tables.
#[local] Open Scope Z_scope.

(** * The HPET *)

Inductive PageProtection := NoProtection | Protected4K | Protected64K | OtherProtection.

(** [HpetInfo] *)
Record HpetInfo := MkHpet {
  event_timer_block_id : Z;
  hpet_base_address : Z;
  hpet_number : Z;
  clock_tick_unit : Z;
  page_protection : PageProtection
}.

Definition HpetTable : layout :=
  SdtHeader ++ [F "event_timer_block_id" 4; F "base_address" 12; F "hpet_number" 1;
    F "clock_tick_unit" 2; F "page_protection_and_oem" 1].

Section Hpet.
Context {tgt : Target} {bitfield : BitField}.

(** The match on the page protection. *)
Definition page_protection_of {E} (value : Z) : result E PageProtection :=
  match get_bits value 0 4 with
  | 0 => Ok NoProtection
  | 1 => Ok Protected4K
  | 2 => Ok Protected64K
  | n => if (3 <=? n) && (n <=? 15) then Ok OtherProtection else Fail Panic
  end.

(** [HpetInfo::new], given the table. *)
Definition hpet_info {E} (hpet : Window) : result E HpetInfo :=
  let? base := read_raw (w_shift hpet 40) in
  let? _ := assert_ (raw_address_space base =? 0) in
  let? event_timer_block_id := field HpetTable hpet "event_timer_block_id" in
  let? hpet_number := field HpetTable hpet "hpet_number" in
  let? clock_tick_unit := field HpetTable hpet "clock_tick_unit" in
  let? protection := field HpetTable hpet "page_protection_and_oem" in
  let? page_protection := page_protection_of protection in
  Ok (MkHpet event_timer_block_id (as_usize (raw_address base)) hpet_number clock_tick_unit
        page_protection).

Definition hpet_new {handler : AcpiHandler} (tables : AcpiTables) : SE Machine AcpiError HpetInfo :=
  let! hpet := find_table Signature.HPET tables in
  scoped hpet (let! hpet := deref hpet in se_lift (hpet_info hpet)).

(** [HpetInfo::hardware_rev] and the other methods. *)
Definition hardware_rev (self : HpetInfo) : Z := wrap 8 (get_bits (event_timer_block_id self) 0 8).
Definition num_comparators {E} (self : HpetInfo) : result E Z :=
  add_w 8 (wrap 8 (get_bits (event_timer_block_id self) 8 13)) 1.
Definition main_counter_is_64bits (self : HpetInfo) : bool := get_bit (event_timer_block_id self) 13.
Definition legacy_irq_capable (self : HpetInfo) : bool := get_bit (event_timer_block_id self) 15.
Definition pci_vendor_id (self : HpetInfo) : Z := wrap 16 (get_bits (event_timer_block_id self) 16 32).
End Hpet.

(** * The BGRT *)

Definition Bgrt : layout :=
  SdtHeader ++ [F "version" 2; F "status" 1; F "image_type" 1; F "image_address" 8;
    F "image_offset_x" 4; F "image_offset_y" 4].

Inductive ImageType := Bitmap | ReservedType.

Section Bgrt.
Context {bitfield : BitField}.

(** [Bgrt::image_type], [Bgrt::orientation_offset], [Bgrt::was_displayed],
    [Bgrt::image_offset] *)
Definition image_type {E} (self : Window) : result E ImageType :=
  let? img_type := field Bgrt self "image_type" in
  Ok match img_type with 0 => Bitmap | _ => ReservedType end.
Definition orientation_offset {E} (self : Window) : result E Z :=
  let? status := field Bgrt self "status" in
  match get_bits status 1 3 with
  | 0 => Ok 0
  | 1 => Ok 90
  | 2 => Ok 180
  | 3 => Ok 270
  | _ => Fail Panic
  end.
Definition was_displayed {E} (self : Window) : result E bool :=
  let? status := field Bgrt self "status" in Ok (get_bit status 0).
Definition image_offset {E} (self : Window) : result E (Z * Z) :=
  let? x := field Bgrt self "image_offset_x" in
  let? y := field Bgrt self "image_offset_y" in
  Ok (x, y).
End Bgrt.

(** * Properties *)

(** The capabilities in an event timer block. *)
Definition block_id (rev comparators : Z) (wide legacy : bool) (vendor : Z) : Z :=
  rev + 2 ^ 8 * comparators + 2 ^ 13 * Z.b2z wide + 2 ^ 15 * Z.b2z legacy + 2 ^ 16 * vendor.

Section Properties.
Context {tgt : Target} {bitfield : BitField}.

(** The event timer block: the capabilities that an identifier is made of are read
    back, for up to 32 comparators, without an overflow. *)
Theorem hpet_capabilities info rev comparators wide legacy vendor :
  is_u8 rev -> 0 <= comparators < 32 -> is_u16 vendor ->
  event_timer_block_id info = block_id rev comparators wide legacy vendor ->
  hardware_rev info = rev /\ num_comparators (E := AcpiError) info = Ok (comparators + 1) /\
  main_counter_is_64bits info = wide /\ legacy_irq_capable info = legacy /\
  pci_vendor_id info = vendor.
Proof.
  unfold in_width. intros Hr Hc Hv He.
  unfold hardware_rev, num_comparators, main_counter_is_64bits, legacy_irq_capable, pci_vendor_id.
  rewrite He. unfold block_id.
  set (v := _ + _ * vendor). assert (0 <= v < 2 ^ 32) as Hv0 by (subst v; destruct wide, legacy; cbn; lia).
  assert (forall b b', Z.b2z b = Z.b2z b' -> b = b') as Hb by (intros [] []; cbn; lia).
  assert (0 <= Z.b2z wide <= 1 /\ 0 <= Z.b2z legacy <= 1) as [Hw Hl] by (destruct wide, legacy; cbn; lia).
  split_and!; [| |apply Hb|apply Hb|]; rewrite ?get_bit_div, ?get_bits_div by lia;
    unfold wrap, add_w; subst v.
  - Z.to_euclidean_division_equations. lia.
  - rewrite checked_exact; [f_equal|unfold in_width]; Z.to_euclidean_division_equations; lia.
  - Z.to_euclidean_division_equations. lia.
  - Z.to_euclidean_division_equations. lia.
  - Z.to_euclidean_division_equations. lia.
Qed.

(** The orientation of a boot graphic is one of four angles, whatever the table
    says: the branch that the code takes to be unreachable is. *)
Theorem orientation_offset_total self : 56 <= w_len self ->
  exists angle, orientation_offset (E := AcpiError) self = Ok angle /\ angle ∈ [0; 90; 180; 270].
Proof.
  intros Hl. unfold orientation_offset.
  assert (field (E := AcpiError) Bgrt self "status" = Ok (from_le_bytes (w_bytes self 38 1))) as ->.
  { exact (field_ok Bgrt self "status" 38%nat 1%nat eq_refl ltac:(cbn; lia)). }
  cbn [result_bind]. pose proof (from_le_bytes_range (w_bytes self 38 1)) as Hs.
  rewrite get_bits_div by lia. set (n := _ mod _).
  assert (n = 0 \/ n = 1 \/ n = 2 \/ n = 3) as Hn.
  { pose proof (Z.mod_pos_bound (from_le_bytes (w_bytes self 38 1) / 2 ^ 1) (2 ^ (3 - 1)) eq_refl). lia. }
  clearbody n. destruct Hn as [->|[->|[->| ->]]]; eexists; (split; [reflexivity|set_solver]).
Qed.
End Properties.

(** * The properties on concrete tables *)

Lemma hpet_capabilities_witness :
  @num_comparators target_debug bitfield_model AcpiError (MkHpet 0x8086a201 0xfed00000 0 100 NoProtection) = Ok 3.
Proof.
  destruct (@hpet_capabilities target_debug bitfield_model (MkHpet 0x8086a201 0xfed00000 0 100 NoProtection)
    1 2 true true 0x8086) as (_ & H & _).
  - split; [discriminate|reflexivity].
  - split; [discriminate|reflexivity].
  - split; [discriminate|reflexivity].
  - reflexivity.
  - exact H.
Defined.

Lemma orientation_offset_total_witness : exists angle,
  @orientation_offset bitfield_model AcpiError (w_of (replicate 56 x00)) = Ok angle /\ angle ∈ [0; 90; 180; 270].
Proof. apply (@orientation_offset_total bitfield_model). vm_compute. discriminate. Defined.
