(* ===== verification/Madt.v ===== *)
(** The interrupt controllers of the platform ([acpi/src/madt.rs] and
    [acpi/src/platform]): the entries of the MADT, and what its two passes make of
    them. *)
From S2P Require Import Prelude Env RustStd Physical Rsdp Sdt Address Fadt Tables Slice.
#[local] Open Scope Z_scope.

(** * The entries *)

Definition Madt : layout := SdtHeader ++ [F "local_apic_address" 4; F "flags" 4].
Definition EntryHeader : layout := [F "entry_type" 1; F "length" 1].

Definition LocalApicEntry : layout :=
  [F "header" 2; F "processor_id" 1; F "apic_id" 1; F "flags" 4].
Definition IoApicEntry : layout :=
  [F "header" 2; F "io_apic_id" 1; F "_reserved" 1; F "io_apic_address" 4;
   F "global_system_interrupt_base" 4].
Definition InterruptSourceOverrideEntry : layout :=
  [F "header" 2; F "bus" 1; F "irq" 1; F "global_system_interrupt" 4; F "flags" 2].
Definition NmiSourceEntry : layout :=
  [F "header" 2; F "flags" 2; F "global_system_interrupt" 4].
Definition LocalApicNmiEntry : layout :=
  [F "header" 2; F "processor_id" 1; F "flags" 2; F "nmi_line" 1].
Definition LocalApicAddressOverrideEntry : layout :=
  [F "header" 2; F "_reserved" 2; F "local_apic_address" 8].
Definition IoSapicEntry : layout :=
  [F "header" 2; F "io_apic_id" 1; F "_reserved" 1; F "global_system_interrupt_base" 4;
   F "io_sapic_address" 8].
Definition LocalSapicEntry : layout :=
  [F "header" 2; F "processor_id" 1; F "local_sapic_id" 1; F "local_sapic_eid" 1;
   F "_reserved" 3; F "flags" 4; F "processor_uid" 4; F "processor_uid_string" 1].
Definition PlatformInterruptSourceEntry : layout :=
  [F "header" 2; F "flags" 2; F "interrupt_type" 1; F "processor_id" 1; F "processor_eid" 1;
   F "io_sapic_vector" 1; F "global_system_interrupt" 4;
   F "platform_interrupt_source_flags" 4].
Definition LocalX2ApicEntry : layout :=
  [F "header" 2; F "_reserved" 2; F "x2apic_id" 4; F "flags" 4; F "processor_uid" 4].
Definition X2ApicNmiEntry : layout :=
  [F "header" 2; F "flags" 2; F "processor_uid" 4; F "nmi_line" 1; F "_reserved" 3].
Definition GiccEntry : layout :=
  [F "header" 2; F "_reserved1" 2; F "cpu_interface_number" 4; F "processor_uid" 4;
   F "flags" 4; F "parking_protocol_version" 4; F "performance_interrupt_gsiv" 4;
   F "parked_address" 8; F "gic_registers_address" 8; F "gic_control_block_address" 8;
   F "vgic_maintenance_interrupt" 4; F "gicr_base_address" 8; F "mpidr" 8;
   F "processor_power_efficiency_class" 1; F "_reserved2" 3].
Definition GicdEntry : layout :=
  [F "header" 2; F "_reserved1" 2; F "gic_id" 4; F "physical_base_address" 8;
   F "system_vector_base" 4; F "gic_version" 1; F "_reserved2" 3].
Definition GicMsiFrameEntry : layout :=
  [F "header" 2; F "_reserved" 2; F "frame_id" 4; F "physical_base_address" 8; F "flags" 4;
   F "spi_count" 2; F "spi_base" 2].
Definition GicRedistributorEntry : layout :=
  [F "header" 2; F "_reserved" 2; F "discovery_range_base_address" 8;
   F "discovery_range_length" 4].
Definition GicInterruptTranslationServiceEntry : layout :=
  [F "header" 2; F "_reserved1" 2; F "id" 4; F "physical_base_address" 8; F "_reserved2" 4].
Definition MultiprocessorWakeupEntry : layout :=
  [F "header" 2; F "mailbox_version" 2; F "_reserved" 4; F "mailbox_address" 8].

(** [MadtEntry]: a reference to an entry is a window. *)
Inductive MadtEntry :=
  | LocalApic (e : Window)
  | IoApic (e : Window)
  | InterruptSourceOverride (e : Window)
  | NmiSource (e : Window)
  | LocalApicNmi (e : Window)
  | LocalApicAddressOverride (e : Window)
  | IoSapic (e : Window)
  | LocalSapic (e : Window)
  | PlatformInterruptSource (e : Window)
  | LocalX2Apic (e : Window)
  | X2ApicNmi (e : Window)
  | Gicc (e : Window)
  | Gicd (e : Window)
  | GicMsiFrame (e : Window)
  | GicRedistributor (e : Window)
  | GicInterruptTranslationService (e : Window)
  | MultiprocessorWakeup (e : Window).

(** The match of [construct_entry!]: reserved types have no entry. *)
Definition construct_entry (entry_type : Z) (e : Window) : option MadtEntry :=
  match entry_type with
  | 0x0 => Some (LocalApic e)
  | 0x1 => Some (IoApic e)
  | 0x2 => Some (InterruptSourceOverride e)
  | 0x3 => Some (NmiSource e)
  | 0x4 => Some (LocalApicNmi e)
  | 0x5 => Some (LocalApicAddressOverride e)
  | 0x6 => Some (IoSapic e)
  | 0x7 => Some (LocalSapic e)
  | 0x8 => Some (PlatformInterruptSource e)
  | 0x9 => Some (LocalX2Apic e)
  | 0xa => Some (X2ApicNmi e)
  | 0xb => Some (Gicc e)
  | 0xc => Some (Gicd e)
  | 0xd => Some (GicMsiFrame e)
  | 0xe => Some (GicRedistributor e)
  | 0xf => Some (GicInterruptTranslationService e)
  | 0x10 => Some (MultiprocessorWakeup e)
  | _ => None
  end.

(** [MadtEntryIter]; the pointer is an offset into the table. *)
Record MadtEntryIter := MkIter { pointer : Z; remaining_length : Z }.

Section Iteration.
Context {tgt : Target}.

(** [MadtEntryIter::next]; [fuel] bounds the rounds of its loop. *)
Fixpoint madt_next {E} (fuel : nat) (self : Window) (it : MadtEntryIter)
    : result E (option MadtEntry * MadtEntryIter) :=
  match fuel with
  | O => Fail OutOfFuel
  | S fuel =>
      if 0 <? remaining_length it then
        let entry := w_shift self (pointer it) in
        let? entry_type := field EntryHeader entry "entry_type" in
        let? length := field EntryHeader entry "length" in
        let? remaining := sub_w 32 (remaining_length it) length in
        let it := MkIter (pointer it + length) remaining in
        match construct_entry entry_type entry with
        | Some e => Ok (Some e, it)
        | None => madt_next fuel self it
        end
      else Ok (None, it)
  end.

(** [Madt::entries] *)
Definition madt_entries {E} (self : Window) : result E MadtEntryIter :=
  let? length := sdt_length self in
  let? remaining := sub_w 32 length (Z.of_nat (size_of Madt)) in
  Ok (MkIter (Z.of_nat (size_of Madt)) remaining).

(** [for entry in self.entries() { .. }] with a state and an early return. *)
Fixpoint for_entries {S E} (fuel : nat) (self : Window) (it : MadtEntryIter)
    (body : MadtEntry -> S -> result E S) (s : S) : result E S :=
  match fuel with
  | O => Fail OutOfFuel
  | Datatypes.S fuel =>
      let? (entry, it) := madt_next fuel self it in
      match entry with
      | None => Ok s
      | Some entry => let? s := body entry s in for_entries fuel self it body s
      end
  end.
End Iteration.

(** * Interrupt models *)

Inductive Polarity := PolaritySameAsBus | ActiveHigh | ActiveLow.
Inductive TriggerMode := TriggerSameAsBus | Edge | Level.
Inductive LocalInterruptLine := Lint0 | Lint1.
Inductive NmiProcessor := AllProcessors | ProcessorUid (uid : Z).
Inductive ProcessorState := Disabled | WaitingForSipi | Running.

Record IoApicInfo := MkIoApic { io_apic_id : Z; io_apic_address : Z; gsi_base : Z }.
Record OverrideInfo := MkOverride {
  isa_source : Z; override_gsi : Z; override_polarity : Polarity; override_trigger : TriggerMode
}.
Record NmiSourceInfo := MkNmiSource {
  nmi_gsi : Z; nmi_polarity : Polarity; nmi_trigger : TriggerMode
}.
Record NmiLine := MkNmiLine { nmi_processor : NmiProcessor; line : LocalInterruptLine }.
Record Processor := MkProcessor {
  processor_uid : Z; local_apic_id : Z; state : ProcessorState; is_ap : bool
}.

(** [Apic], and [InterruptModel]. *)
Record Apic := MkApic {
  local_apic_address : Z;
  io_apics : ManagedSlice IoApicInfo;
  local_apic_nmi_lines : ManagedSlice NmiLine;
  interrupt_source_overrides : ManagedSlice OverrideInfo;
  nmi_sources : ManagedSlice NmiSourceInfo;
  also_has_legacy_pics : bool
}.
Inductive InterruptModel := UnknownModel | ApicModel (apic : Apic).

(** [ProcessorInfo] *)
Record ProcessorInfo := MkProcessors {
  boot_processor : Processor;
  application_processors : ManagedSlice Processor
}.

Section Model.
Context {tgt : Target} {bitfield : BitField} {allocator : Allocator}.

(** [parse_mps_inti_flags] *)
Definition parse_mps_inti_flags (flags : Z) : AcpiResult (Polarity * TriggerMode) :=
  let? polarity :=
    match get_bits flags 0 2 with
    | 0 => Ok PolaritySameAsBus
    | 1 => Ok ActiveHigh
    | 3 => Ok ActiveLow
    | _ => Err (InvalidMadt MpsIntiInvalidPolarity)
    end in
  let? trigger_mode :=
    match get_bits flags 2 4 with
    | 0 => Ok TriggerSameAsBus
    | 1 => Ok Edge
    | 3 => Ok Level
    | _ => Err (InvalidMadt MpsIntiInvalidTriggerMode)
    end in
  Ok (polarity, trigger_mode).

(** [Madt::supports_8259] *)
Definition supports_8259 {E} (self : Window) : result E bool :=
  let? flags := field Madt self "flags" in Ok (get_bit flags 0).

(** The numbers of entries that the first pass of [parse_apic_model_in] counts. *)
Record Counts := MkCounts {
  io_apic_count : nat; iso_count : nat; nmi_source_count : nat;
  local_nmi_line_count : nat; processor_count : nat
}.

Definition count_entry (entry : MadtEntry) (c : Counts) : AcpiResult Counts :=
  let '(MkCounts io iso nmi lnmi p) := c in
  Ok match entry with
     | IoApic _ => MkCounts (S io) iso nmi lnmi p
     | InterruptSourceOverride _ => MkCounts io (S iso) nmi lnmi p
     | NmiSource _ => MkCounts io iso (S nmi) lnmi p
     | LocalApicNmi _ => MkCounts io iso nmi (S lnmi) p
     | LocalApic _ => MkCounts io iso nmi lnmi (S p)
     | _ => c
     end.

(** What the second pass has read so far; the counts are the indices of the next
    elements. *)
Record Pass := MkPass {
  p_address : Z;
  p_io_apics : ManagedSlice IoApicInfo;
  p_overrides : ManagedSlice OverrideInfo;
  p_nmi_sources : ManagedSlice NmiSourceInfo;
  p_nmi_lines : ManagedSlice NmiLine;
  p_boot : option Processor;
  p_processors : ManagedSlice Processor;
  p_counts : Counts
}.

(** A processor: the first one is the boot processor. *)
Definition add_processor (processor_uid local_apic_id flags : Z) (p : Pass) : AcpiResult Pass :=
  let is_ap := match p_boot p with Some _ => true | None => false end in
  let is_disabled := negb (get_bit flags 0) in
  let state :=
    match is_ap, is_disabled with
    | _, true => Disabled
    | true, false => WaitingForSipi
    | false, false => Running
    end in
  let processor := MkProcessor processor_uid local_apic_id state is_ap in
  let '(MkPass address io iso nmi lines boot processors (MkCounts c1 c2 c3 c4 c5)) := p in
  if is_ap then
    let? processors := set_at processors c5 processor in
    Ok (MkPass address io iso nmi lines boot processors (MkCounts c1 c2 c3 c4 (S c5)))
  else Ok (MkPass address io iso nmi lines (Some processor) processors (MkCounts c1 c2 c3 c4 c5)).

(** The line of a local NMI. *)
Definition nmi_line_of (line : Z) : AcpiResult LocalInterruptLine :=
  match line with
  | 0 => Ok Lint0
  | 1 => Ok Lint1
  | _ => Err (InvalidMadt InvalidLocalNmiLine)
  end.

Definition add_nmi_line (processor : NmiProcessor) (line : Z) (p : Pass) : AcpiResult Pass :=
  let? line := nmi_line_of line in
  let '(MkPass address io iso nmi lines boot processors (MkCounts c1 c2 c3 c4 c5)) := p in
  let? lines := set_at lines c4 (MkNmiLine processor line) in
  Ok (MkPass address io iso nmi lines boot processors (MkCounts c1 c2 c3 (S c4) c5)).

(** The body of the second pass. *)
Definition handle_entry (entry : MadtEntry) (p : Pass) : AcpiResult Pass :=
  let '(MkPass address io iso nmi lines boot processors (MkCounts c1 c2 c3 c4 c5)) := p in
  match entry with
  | LocalApic e =>
      let? flags := field LocalApicEntry e "flags" in
      let? processor_id := field LocalApicEntry e "processor_id" in
      let? apic_id := field LocalApicEntry e "apic_id" in
      add_processor processor_id apic_id flags p
  | LocalX2Apic e =>
      let? flags := field LocalX2ApicEntry e "flags" in
      let? processor_uid := field LocalX2ApicEntry e "processor_uid" in
      let? x2apic_id := field LocalX2ApicEntry e "x2apic_id" in
      add_processor processor_uid x2apic_id flags p
  | IoApic e =>
      let? id := field IoApicEntry e "io_apic_id" in
      let? address' := field IoApicEntry e "io_apic_address" in
      let? base := field IoApicEntry e "global_system_interrupt_base" in
      let? io := set_at io c1 (MkIoApic id address' base) in
      Ok (MkPass address io iso nmi lines boot processors (MkCounts (S c1) c2 c3 c4 c5))
  | InterruptSourceOverride e =>
      let? bus := field InterruptSourceOverrideEntry e "bus" in
      if negb (bus =? 0) then Err (InvalidMadt InterruptOverrideEntryHasInvalidBus)
      else
        let? flags := field InterruptSourceOverrideEntry e "flags" in
        let? (polarity, trigger_mode) := parse_mps_inti_flags flags in
        let? irq := field InterruptSourceOverrideEntry e "irq" in
        let? gsi := field InterruptSourceOverrideEntry e "global_system_interrupt" in
        let? iso := set_at iso c2 (MkOverride irq gsi polarity trigger_mode) in
        Ok (MkPass address io iso nmi lines boot processors (MkCounts c1 (S c2) c3 c4 c5))
  | NmiSource e =>
      let? flags := field NmiSourceEntry e "flags" in
      let? (polarity, trigger_mode) := parse_mps_inti_flags flags in
      let? gsi := field NmiSourceEntry e "global_system_interrupt" in
      let? nmi := set_at nmi c3 (MkNmiSource gsi polarity trigger_mode) in
      Ok (MkPass address io iso nmi lines boot processors (MkCounts c1 c2 (S c3) c4 c5))
  | LocalApicNmi e =>
      let? processor_id := field LocalApicNmiEntry e "processor_id" in
      let? line := field LocalApicNmiEntry e "nmi_line" in
      add_nmi_line (if processor_id =? 0xff then AllProcessors else ProcessorUid processor_id) line p
  | X2ApicNmi e =>
      let? processor_uid := field X2ApicNmiEntry e "processor_uid" in
      let? line := field X2ApicNmiEntry e "nmi_line" in
      add_nmi_line (if processor_uid =? 0xffffffff then AllProcessors else ProcessorUid processor_uid)
        line p
  | LocalApicAddressOverride e =>
      let? address := field LocalApicAddressOverrideEntry e "local_apic_address" in
      Ok (MkPass address io iso nmi lines boot processors (MkCounts c1 c2 c3 c4 c5))
  | _ => Err (InvalidMadt UnexpectedEntry)
  end.

(** [Madt::parse_apic_model_in] *)
Definition parse_apic_model_in (fuel : nat) (self : Window)
    : AcpiResult (InterruptModel * option ProcessorInfo) :=
  let? local_apic_address := field Madt self "local_apic_address" in
  let? it := madt_entries self in
  let? counts := for_entries fuel self it count_entry (MkCounts 0 0 0 0 0) in
  let? io := new_in 0 (io_apic_count counts) in
  let? iso := new_in 1 (iso_count counts) in
  let? nmi := new_in 2 (nmi_source_count counts) in
  let? lines := new_in 3 (local_nmi_line_count counts) in
  let? processors := new_in 4 (processor_count counts - 1) in
  let? it := madt_entries self in
  let? p := for_entries fuel self it handle_entry
    (MkPass local_apic_address io iso nmi lines None processors (MkCounts 0 0 0 0 0)) in
  let? legacy := supports_8259 self in
  let? boot := unwrap (p_boot p) in
  Ok (ApicModel (MkApic (p_address p) (p_io_apics p) (p_nmi_lines p) (p_overrides p)
        (p_nmi_sources p) legacy), Some (MkProcessors boot (p_processors p))).

(** The interrupt model that an entry belongs to, if it is of one. *)
Inductive EntryModel := OfApic | Unimplemented | OfNone.
Definition entry_model (entry : MadtEntry) : EntryModel :=
  match entry with
  | LocalApic _ | LocalX2Apic _ | IoApic _ | InterruptSourceOverride _ | NmiSource _
  | LocalApicNmi _ | X2ApicNmi _ | LocalApicAddressOverride _ => OfApic
  | IoSapic _ | LocalSapic _ | PlatformInterruptSource _ => Unimplemented
  | Gicc _ | Gicd _ | GicMsiFrame _ | GicRedistributor _ | GicInterruptTranslationService _ =>
      Unimplemented
  | MultiprocessorWakeup _ => OfNone
  end.

(** The loop of [Madt::parse_interrupt_model_in], for [n] more entries. *)
Fixpoint find_model (n fuel : nat) (self : Window) (it : MadtEntryIter)
    : AcpiResult (InterruptModel * option ProcessorInfo) :=
  match n with
  | O => Fail OutOfFuel
  | S n =>
      let? (entry, it) := madt_next n self it in
      match entry with
      | None => Ok (UnknownModel, None)
      | Some entry =>
          match entry_model entry with
          | OfApic => parse_apic_model_in fuel self
          | Unimplemented => Fail Panic
          | OfNone => find_model n fuel self it
          end
      end
  end.

(** [Madt::parse_interrupt_model_in] *)
Definition parse_interrupt_model_in (fuel : nat) (self : Window)
    : AcpiResult (InterruptModel * option ProcessorInfo) :=
  let? it := madt_entries self in find_model fuel fuel self it.
End Model.

(** * Termination *)

Section Properties.
Context {tgt : Target} {bitfield : BitField}.

(** C40: An entry whose header says that it has no length stops the iterator: the loop
    over the entries never ends, however many rounds it is given. *)
Theorem madt_zero_length_stuck fuel w it c e :
  0 < remaining_length it < 2 ^ 32 ->
  field (E := AcpiError) EntryHeader (w_shift w (pointer it)) "entry_type" = Ok e ->
  field (E := AcpiError) EntryHeader (w_shift w (pointer it)) "length" = Ok 0 ->
  for_entries fuel w it count_entry c = Fail OutOfFuel.
Proof.
  intros Hr He Hl.
  assert (forall n, @madt_next tgt AcpiError n w it = Fail OutOfFuel \/
    exists entry, @madt_next tgt AcpiError n w it = Ok (Some entry, it)) as Hnext.
  { induction n as [|n IH]; [by left|]. cbn [madt_next]. rewrite (proj2 (Z.ltb_lt _ _)) by lia.
    rewrite He, Hl. cbn [result_bind]. unfold sub_w. rewrite checked_exact by (unfold in_width; lia).
    cbn [result_bind]. rewrite Z.add_0_r, Z.sub_0_r. destruct it as [off rem]. cbn [pointer remaining_length].
    destruct (construct_entry _ _) as [entry|]; [right; by exists entry|exact IH]. }
  revert c. induction fuel as [|fuel IH]; intros c; [done|]. cbn [for_entries].
  destruct (Hnext fuel) as [->|[entry ->]]; cbn [result_bind]; [done|].
  destruct c, entry; cbn [count_entry result_bind]; apply IH.
Qed.
End Properties.

Lemma madt_zero_length_stuck_witness :
  for_entries (tgt := target_debug) 1000 (w_of [x80; x00]) (MkIter 0 2) count_entry (MkCounts 0 0 0 0 0) =
  Fail OutOfFuel.
Proof.
  apply (@madt_zero_length_stuck target_debug 1000 (w_of [x80; x00]) (MkIter 0 2) (MkCounts 0 0 0 0 0) 0x80);
    [split; reflexivity|reflexivity..].
Defined.
