(* ===== verification/MadtEntries.v ===== *)
(** The entries of a MADT as a list: their encoding, and the iterator over them, which
    finds the entries of the list in order and skips the reserved ones. *)
From S2P Require Import Prelude Env RustStd Physical Rsdp Sdt Address Fadt Tables Slice Madt.
#[local] Open Scope Z_scope.

(** * Descriptions of entries *)

Inductive Desc :=
  | DLocalApic (processor_id apic_id flags : Z)
  | DX2Apic (x2apic_id flags processor_uid : Z)
  | DIoApic (id address base : Z)
  | DOverride (bus irq gsi flags : Z)
  | DNmiSource (flags gsi : Z)
  | DLocalNmi (processor_id flags line : Z)
  | DAddress (address : Z)
  | DX2Nmi (flags processor_uid line : Z)
  | DWakeup (version mailbox : Z)
  | DOther (entry_type : byte) (data : bytes)
  | DReserved (entry_type : byte) (data : bytes).

(** The type of an entry, and the values of its fields behind the header. *)
Definition desc_type (d : Desc) : byte :=
  match d with
  | DLocalApic _ _ _ => x00
  | DIoApic _ _ _ => x01
  | DOverride _ _ _ _ => x02
  | DNmiSource _ _ => x03
  | DLocalNmi _ _ _ => x04
  | DAddress _ => x05
  | DX2Apic _ _ _ => x09
  | DX2Nmi _ _ _ => x0a
  | DWakeup _ _ => x10
  | DOther t _ | DReserved t _ => t
  end.

Definition desc_fields (d : Desc) : list bytes :=
  match d with
  | DLocalApic p a f => [to_le_bytes 1 p; to_le_bytes 1 a; to_le_bytes 4 f]
  | DX2Apic x f p => [[x00; x00]; to_le_bytes 4 x; to_le_bytes 4 f; to_le_bytes 4 p]
  | DIoApic i a b => [to_le_bytes 1 i; [x00]; to_le_bytes 4 a; to_le_bytes 4 b]
  | DOverride b i g f => [to_le_bytes 1 b; to_le_bytes 1 i; to_le_bytes 4 g; to_le_bytes 2 f]
  | DNmiSource f g => [to_le_bytes 2 f; to_le_bytes 4 g]
  | DLocalNmi p f l => [to_le_bytes 1 p; to_le_bytes 2 f; to_le_bytes 1 l]
  | DAddress a => [[x00; x00]; to_le_bytes 8 a]
  | DX2Nmi f p l => [to_le_bytes 2 f; to_le_bytes 4 p; to_le_bytes 1 l; [x00; x00; x00]]
  | DWakeup v m => [to_le_bytes 2 v; [x00; x00; x00; x00]; to_le_bytes 8 m]
  | DOther _ data | DReserved _ data => [data]
  end.

Definition desc_length (d : Desc) : nat := 2 + length (concat (desc_fields d)).

Definition desc_header (d : Desc) : list bytes :=
  [[desc_type d]; to_le_bytes 1 (Z.of_nat (desc_length d))].
Definition desc_bytes (d : Desc) : bytes := concat (desc_header d) ++ concat (desc_fields d).

Definition reserved (d : Desc) : bool := match d with DReserved _ _ => true | _ => false end.

Definition desc_ok (d : Desc) : Prop :=
  match d with
  | DLocalApic p a f => is_u8 p /\ is_u8 a /\ is_u32 f
  | DX2Apic x f p => is_u32 x /\ is_u32 f /\ is_u32 p
  | DIoApic i a b => is_u8 i /\ is_u32 a /\ is_u32 b
  | DOverride b i g f => is_u8 b /\ is_u8 i /\ is_u32 g /\ is_u16 f
  | DNmiSource f g => is_u16 f /\ is_u32 g
  | DLocalNmi p f l => is_u8 p /\ is_u16 f /\ is_u8 l
  | DAddress a => is_u64 a
  | DX2Nmi f p l => is_u16 f /\ is_u32 p /\ is_u8 l
  | DWakeup v m => is_u16 v /\ is_u64 m
  | DOther t data =>
      (6 <= u8 t <= 8 \/ 0xb <= u8 t <= 0xf) /\ (length data <= 253)%nat
  | DReserved t data => 0x11 <= u8 t /\ (length data <= 253)%nat
  end.

(** The entry that the iterator makes of a description. *)
Definition desc_entry (d : Desc) (e : Window) : option MadtEntry :=
  construct_entry (u8 (desc_type d)) e.

Lemma desc_length_ok d : desc_ok d -> (2 <= desc_length d <= 255)%nat.
Proof. unfold desc_length. destruct d; cbn; rewrite ?length_app; cbn; lia. Qed.

Lemma desc_bytes_length d : length (desc_bytes d) = desc_length d.
Proof. unfold desc_bytes. rewrite length_app. done. Qed.

(** The types of the entries that only another interrupt model has. *)
Lemma other_type t : 6 <= t <= 8 \/ 0xb <= t <= 0xf ->
  t = 6 \/ t = 7 \/ t = 8 \/ t = 0xb \/ t = 0xc \/ t = 0xd \/ t = 0xe \/ t = 0xf.
Proof. lia. Qed.

Lemma reserved_entry t e : 0x11 <= t -> construct_entry t e = None.
Proof.
  intros Ht. unfold construct_entry. destruct t as [|q|q]; [lia| |lia].
  do 5 (destruct q as [q|q|]; try done; try (exfalso; lia)).
Qed.

Lemma desc_entry_reserved d e : desc_ok d ->
  if reserved d then desc_entry d e = None else exists entry, desc_entry d e = Some entry.
Proof.
  destruct d as [| | | | | | | | |t data|t data]; intros Hd; try by eexists.
  - destruct Hd as [Ht _]. unfold desc_entry. cbn.
    by destruct (other_type _ Ht) as [->|[->|[->|[->|[->|[->|[->| ->]]]]]]]; eexists.
  - apply reserved_entry, Hd.
Qed.

(** * The iterator *)

Section Iterator.
Context {tgt : Target}.

Lemma w_shift_app w off a b : 0 <= off -> w_agrees (w_shift w off) (a ++ b) ->
  w_agrees (w_shift w off) a /\ w_agrees (w_shift w (off + Z.of_nat (length a))) b.
Proof.
  intros H0 H. split; [by eapply w_agrees_app|]. destruct H as [Hl Hd]. rewrite length_app in *.
  cbn [w_shift w_len] in *. split; [cbn; lia|].
  pose proof (w_bytes_split (w_shift w off) 0 (length a + length b) (length a) (length b) ltac:(lia)) as Hs.
  rewrite Hd, drop_app_length, take_ge in Hs by lia.
  transitivity (w_bytes (w_shift w off) (0 + Z.of_nat (length a)) (length b)); [|exact Hs].
  unfold w_bytes. apply map_ext. intros i. cbn. f_equal. lia.
Qed.

Definition descs_bytes (ds : list Desc) : bytes := concat (map desc_bytes ds).

Lemma header_fields {E} d w : desc_ok d -> w_agrees w (desc_bytes d) ->
  @field E EntryHeader w "entry_type" = Ok (u8 (desc_type d)) /\
  @field E EntryHeader w "length" = Ok (Z.of_nat (desc_length d)).
Proof.
  intros Hd Hw. pose proof (desc_length_ok d Hd).
  assert (fits EntryHeader (desc_header d)) as Hf by repeat constructor.
  pose proof (fun name v => @field_struct E _ _ w name v Hf (w_agrees_app _ _ _ Hw)) as Hi. split.
  - rewrite (Hi _ [desc_type d]) by done. cbn. by rewrite Z.add_0_r.
  - rewrite (Hi _ (to_le_bytes 1 (Z.of_nat (desc_length d)))) by done.
    rewrite from_to_le_bytes; [done|]. change (2 ^ (8 * Z.of_nat 1)) with 256. lia.
Qed.

(** One step of the iterator over the encoding of a list: the first entry that is not
    reserved, and the iterator behind it. *)
Inductive NextOf {E} (w : Window) (ds : list Desc) : result E (option MadtEntry * MadtEntryIter) -> Prop :=
  | next_end it : Forall (fun d => reserved d = true) ds -> NextOf w ds (Ok (None, it))
  | next_entry skipped d rest off entry e :
      ds = skipped ++ d :: rest -> Forall (fun d => reserved d = true) skipped -> reserved d = false ->
      desc_entry d e = Some entry -> w_agrees e (desc_bytes d) ->
      0 <= off -> w_agrees (w_shift w off) (descs_bytes rest) ->
      (length (descs_bytes rest) < length (descs_bytes ds))%nat ->
      NextOf w ds (Ok (Some entry, MkIter off (Z.of_nat (length (descs_bytes rest))))).

Lemma madt_next_spec {E} fuel w off ds : Forall desc_ok ds -> 0 <= off ->
  w_agrees (w_shift w off) (descs_bytes ds) -> Z.of_nat (length (descs_bytes ds)) < 2 ^ 32 ->
  (length (descs_bytes ds) < fuel)%nat ->
  NextOf w ds (@madt_next tgt E fuel w (MkIter off (Z.of_nat (length (descs_bytes ds))))).
Proof.
  intros Hds. revert fuel off. induction Hds as [|d ds Hd Hds IH]; intros fuel off H0 Hw H32 Hf.
  - destruct fuel; [cbn in Hf; lia|]. by constructor.
  - unfold descs_bytes in *. cbn [map concat] in *. fold (descs_bytes ds) in *.
    rewrite length_app, desc_bytes_length in *. pose proof (desc_length_ok d Hd).
    destruct fuel as [|fuel]; [lia|]. destruct (w_shift_app _ _ _ _ H0 Hw) as [Hw1 Hw2].
    rewrite desc_bytes_length in Hw2.
    destruct (header_fields (E := E) d _ Hd Hw1) as [Ht Hl].
    assert (@madt_next tgt E (S fuel) w (MkIter off (Z.of_nat (desc_length d + length (descs_bytes ds)))) =
      match desc_entry d (w_shift w off) with
      | Some e => Ok (Some e, MkIter (off + Z.of_nat (desc_length d)) (Z.of_nat (length (descs_bytes ds))))
      | None => madt_next fuel w (MkIter (off + Z.of_nat (desc_length d)) (Z.of_nat (length (descs_bytes ds))))
      end) as ->.
    { cbn [madt_next remaining_length pointer]. rewrite (proj2 (Z.ltb_lt _ _)) by lia.
      rewrite Ht. cbn [result_bind]. rewrite Hl. cbn [result_bind]. unfold sub_w.
      rewrite checked_exact by (unfold in_width; lia). cbn [result_bind].
      fold (desc_entry d (w_shift w off)).
      by replace (Z.of_nat (desc_length d + length (descs_bytes ds)) - Z.of_nat (desc_length d))
        with (Z.of_nat (length (descs_bytes ds))) by lia. }
    pose proof (desc_entry_reserved d (w_shift w off) Hd) as Hentry.
    assert (length (descs_bytes (d :: ds)) = desc_length d + length (descs_bytes ds))%nat as Hlen
      by (unfold descs_bytes; cbn [map concat]; by rewrite length_app, desc_bytes_length).
    destruct (reserved d) eqn:Hr.
    + rewrite Hentry. specialize (fun H => IH fuel _ H Hw2 ltac:(lia) ltac:(lia)).
      specialize (IH ltac:(lia)). inversion IH as [it Hall|skipped d' rest off' entry e -> Hs Hr' He Ha H1 H2 H3].
      * constructor. by apply Forall_cons.
      * apply (next_entry _ _ (d :: skipped) d' rest off' entry e); try done; [|lia]. by apply Forall_cons.
    + destruct Hentry as [entry He]. rewrite He.
      eapply (next_entry _ _ [] d); [done|done|done|exact He|done|lia|done|lia].
Qed.

(** * Loops over the entries *)

(** What ends a loop before its end. *)
Inductive Stop E := Reports (e : E) | Fails (r : abort).
#[global] Arguments Reports {E} e.
#[global] Arguments Fails {E} r.

Definition stopped {E A} (s : Stop E) : result E A :=
  match s with Reports e => Err e | Fails r => Fail r end.

(** The first entry with a problem, which may depend on the entries before it. *)
Fixpoint first_problem {E} (problem : list Desc -> Desc -> option (Stop E)) (before rest : list Desc)
    : option (Stop E) :=
  match rest with
  | [] => None
  | d :: rest =>
      match problem before d with
      | Some s => Some s
      | None => first_problem problem (before ++ [d]) rest
      end
  end.

Section Loop.
Context {S E : Type} (st : list Desc -> S) (problem : list Desc -> Desc -> option (Stop E)).

Definition outcome (before rest : list Desc) : result E S :=
  match first_problem problem before rest with
  | Some s => stopped s
  | None => Ok (st (before ++ rest))
  end.

(** The reserved entries neither have a problem nor change the state. *)
Definition ignores_reserved : Prop := forall before d, reserved d = true ->
  problem before d = None /\ st (before ++ [d]) = st before.

(** The body of the loop reads_entries the entries of [all] as [st] and [problem] say. *)
Definition reads_entries (body : MadtEntry -> S -> result E S) (all : list Desc) : Prop :=
  forall before d rest e entry, all = before ++ d :: rest -> reserved d = false -> desc_ok d ->
  w_agrees e (desc_bytes d) -> desc_entry d e = Some entry ->
  body entry (st before) = match problem before d with
    | Some s => stopped s
    | None => Ok (st (before ++ [d]))
    end.

Lemma outcome_skip before skipped rest : ignores_reserved -> Forall (fun d => reserved d = true) skipped ->
  outcome before (skipped ++ rest) = outcome (before ++ skipped) rest /\
  st (before ++ skipped) = st before.
Proof.
  intros Hr Hs. revert before. induction Hs as [|d skipped Hd _ IH]; intros before.
  - by rewrite app_nil_r.
  - destruct (Hr before d Hd) as [Hn Hst]. destruct (IH (before ++ [d])) as [Ho Hst'].
    rewrite <-!app_assoc in *. cbn [app] in *. split; [|congruence].
    rewrite <-Ho. unfold outcome. cbn [first_problem]. by rewrite Hn, <-app_assoc.
Qed.

Lemma for_entries_spec body all : ignores_reserved -> reads_entries body all ->
  forall fuel w off before rest, all = before ++ rest ->
  Forall desc_ok rest -> 0 <= off -> w_agrees (w_shift w off) (descs_bytes rest) ->
  Z.of_nat (length (descs_bytes rest)) < 2 ^ 32 -> (length (descs_bytes rest) + 1 < fuel)%nat ->
  for_entries fuel w (MkIter off (Z.of_nat (length (descs_bytes rest)))) body (st before) =
  outcome before rest.
Proof.
  intros Hr Hb. induction fuel as [|fuel IH]; intros w off before rest Ha Hds H0 Hw H32 Hf; [lia|].
  cbn [for_entries].
  destruct (madt_next_spec (E := E) fuel w off rest Hds H0 Hw H32 ltac:(lia))
    as [it Hall|skipped d rest' off' entry e -> Hs Hd He He' H1 H2 H3]; cbn [result_bind].
  - destruct (outcome_skip before rest [] Hr Hall) as [Ho Hst]. rewrite app_nil_r in Ho. rewrite Ho.
    unfold outcome. cbn. by rewrite app_nil_r, Hst.
  - destruct (outcome_skip before skipped (d :: rest') Hr Hs) as [-> Hst]. rewrite <-Hst.
    apply Forall_app in Hds as [_ Hds]. apply Forall_cons in Hds as [Hok Hds].
    rewrite (Hb (before ++ skipped) d rest' e entry); [|by rewrite <-app_assoc|done..].
    unfold outcome. cbn [first_problem]. destruct (problem (before ++ skipped) d) as [s|].
    + by destruct s.
    + cbn [result_bind]. rewrite (IH w off' _ rest'); [|by rewrite Ha, <-!app_assoc|done..|lia|lia].
      unfold outcome. by rewrite <-!app_assoc.
Qed.
End Loop.
End Iterator.
