(* ===== verification/MadtCorrect.v ===== *)
(** What the two passes over a MADT make of it: for every list of entries, the
    outcome that a direct reading of the list gives. *)
From S2P Require Import Prelude Env RustStd Physical Rsdp Sdt Address Fadt Tables Slice Madt MadtEntries.
#[local] Open Scope Z_scope.

(** * A reading of the list of entries *)

(** The two bit fields of the MPS INTI flags. *)
Definition polarity_of (flags : Z) : option Polarity :=
  match flags mod 4 with
  | 0 => Some PolaritySameAsBus
  | 1 => Some ActiveHigh
  | 3 => Some ActiveLow
  | _ => None
  end.
Definition trigger_of (flags : Z) : option TriggerMode :=
  match (flags / 4) mod 4 with
  | 0 => Some TriggerSameAsBus
  | 1 => Some Edge
  | 3 => Some Level
  | _ => None
  end.
Definition line_of (line : Z) : option LocalInterruptLine :=
  match line with 0 => Some Lint0 | 1 => Some Lint1 | _ => None end.
Definition target_of (all uid : Z) : NmiProcessor :=
  if uid =? all then AllProcessors else ProcessorUid uid.

(** What an entry describes. *)
Definition io_apic_of (d : Desc) : option IoApicInfo :=
  match d with DIoApic id address base => Some (MkIoApic id address base) | _ => None end.
Definition override_of (d : Desc) : option OverrideInfo :=
  match d with
  | DOverride _ irq gsi flags =>
      match polarity_of flags, trigger_of flags with
      | Some p, Some t => Some (MkOverride irq gsi p t)
      | _, _ => None
      end
  | _ => None
  end.
Definition nmi_source_of (d : Desc) : option NmiSourceInfo :=
  match d with
  | DNmiSource flags gsi =>
      match polarity_of flags, trigger_of flags with
      | Some p, Some t => Some (MkNmiSource gsi p t)
      | _, _ => None
      end
  | _ => None
  end.
Definition nmi_of (d : Desc) : option NmiLine :=
  match d with
  | DLocalNmi uid _ l => option_map (MkNmiLine (target_of 0xff uid)) (line_of l)
  | DX2Nmi _ uid l => option_map (MkNmiLine (target_of 0xffffffff uid)) (line_of l)
  | _ => None
  end.
Definition address_of (d : Desc) : option Z :=
  match d with DAddress address => Some address | _ => None end.

(** A processor: its identifiers, and whether it is enabled. *)
Definition processor_of (d : Desc) : option (Z * Z * bool) :=
  match d with
  | DLocalApic uid id flags => Some (uid, id, Z.odd flags)
  | DX2Apic id flags uid => Some (uid, id, Z.odd flags)
  | _ => None
  end.
Definition boot_of (p : Z * Z * bool) : Processor :=
  let '(uid, id, enabled) := p in MkProcessor uid id (if enabled then Running else Disabled) false.
Definition ap_of (p : Z * Z * bool) : Processor :=
  let '(uid, id, enabled) := p in MkProcessor uid id (if enabled then WaitingForSipi else Disabled) true.

(** The numbers of entries of a kind. *)
Definition num (kind : Desc -> bool) (ds : list Desc) : nat := length (List.filter kind ds).

Definition is_local_apic (d : Desc) : bool := match d with DLocalApic _ _ _ => true | _ => false end.
Definition is_io_apic (d : Desc) : bool := match d with DIoApic _ _ _ => true | _ => false end.
Definition is_override (d : Desc) : bool := match d with DOverride _ _ _ _ => true | _ => false end.
Definition is_nmi_source (d : Desc) : bool := match d with DNmiSource _ _ => true | _ => false end.
Definition is_local_nmi (d : Desc) : bool := match d with DLocalNmi _ _ _ => true | _ => false end.

(** What is wrong with an entry, whatever else the table holds. *)
Definition flags_problem (flags : Z) : option MadtError :=
  match polarity_of flags, trigger_of flags with
  | None, _ => Some MpsIntiInvalidPolarity
  | Some _, None => Some MpsIntiInvalidTriggerMode
  | Some _, Some _ => None
  end.
Definition desc_problem (d : Desc) : option MadtError :=
  match d with
  | DOverride bus _ _ flags =>
      if bus =? 0 then flags_problem flags else Some InterruptOverrideEntryHasInvalidBus
  | DNmiSource flags _ => flags_problem flags
  | DLocalNmi _ _ l | DX2Nmi _ _ l =>
      match line_of l with Some _ => None | None => Some InvalidLocalNmiLine end
  | DWakeup _ _ | DOther _ _ => Some UnexpectedEntry
  | DLocalApic _ _ _ | DX2Apic _ _ _ | DIoApic _ _ _ | DAddress _ | DReserved _ _ => None
  end.

(** How many elements the blocks have room for that the allocator gives. *)
Record Rooms := MkRooms {
  room_io_apics : nat;
  room_overrides : nat;
  room_nmi_sources : nat;
  room_lines : nat;
  room_processors : nat
}.

(** A block that is too small for the processors but the first, or for the lines. *)
Definition overflows (rooms : Rooms) (before : list Desc) (d : Desc) : bool :=
  match d with
  | DLocalApic _ _ _ | DX2Apic _ _ _ => (room_processors rooms <? length (omap processor_of before))%nat
  | DLocalNmi _ _ _ | DX2Nmi _ _ _ => (room_lines rooms <=? length (omap nmi_of before))%nat
  | _ => false
  end.
Definition problem (rooms : Rooms) (before : list Desc) (d : Desc) : option (Stop AcpiError) :=
  match desc_problem d with
  | Some e => Some (Reports (InvalidMadt e))
  | None => if overflows rooms before d then Some (Fails Panic) else None
  end.

(** A block of [n] elements of which the first ones are written. *)
Definition slots {A} (n : nat) (l : list A) : ManagedSlice A :=
  map Some l ++ replicate (n - length l) None.

(** The interrupt model of a list of entries. *)
Definition apic_of (rooms : Rooms) (address flags : Z) (ds : list Desc) : Apic :=
  MkApic (default address (last (omap address_of ds)))
    (slots (room_io_apics rooms) (omap io_apic_of ds)) (slots (room_lines rooms) (omap nmi_of ds))
    (slots (room_overrides rooms) (omap override_of ds))
    (slots (room_nmi_sources rooms) (omap nmi_source_of ds)) (Z.odd flags).

Section Reading.
Context {allocator : Allocator}.

(** What is asked for: room for as many application processors as there are local APICs
    but one, and for as many lines as there are NMIs of local APICs - the x2APIC entries
    are not counted. *)
Definition rooms_of (ds : list Desc) : option Rooms :=
  io ← allocate 0 (num is_io_apic ds);
  iso ← allocate 1 (num is_override ds);
  nmi ← allocate 2 (num is_nmi_source ds);
  lines ← allocate 3 (num is_local_nmi ds);
  processors ← allocate 4 (num is_local_apic ds - 1);
  Some (MkRooms io iso nmi lines processors).

Definition apic_reading (address flags : Z) (ds : list Desc)
    : AcpiResult (InterruptModel * option ProcessorInfo) :=
  match rooms_of ds with
  | None => Err AllocError
  | Some rooms =>
      match first_problem (problem rooms) [] ds with
      | Some s => stopped s
      | None =>
          match omap processor_of ds with
          | [] => Fail Panic
          | boot :: aps =>
              Ok (ApicModel (apic_of rooms address flags ds),
                  Some (MkProcessors (boot_of boot) (slots (room_processors rooms) (map ap_of aps))))
          end
      end
  end.

(** The entry that decides on the model. *)
Definition decides (d : Desc) : bool :=
  match d with DReserved _ _ | DWakeup _ _ => false | _ => true end.

Definition madt_reading (address flags : Z) (ds : list Desc)
    : AcpiResult (InterruptModel * option ProcessorInfo) :=
  match List.find decides ds with
  | None => Ok (UnknownModel, None)
  | Some (DOther _ _) => Fail Panic
  | Some _ => apic_reading address flags ds
  end.

(** The blocks have room for what was asked for. *)
Lemma rooms_of_ok ds rooms : rooms_of ds = Some rooms ->
  (num is_io_apic ds <= room_io_apics rooms)%nat /\ (num is_override ds <= room_overrides rooms)%nat /\
  (num is_nmi_source ds <= room_nmi_sources rooms)%nat.
Proof.
  unfold rooms_of. intros H. simplify_option_eq. split_and!; by eapply allocate_ok.
Qed.
End Reading.

(** * Lemmas on the readings *)

Lemma omap_length_num {A} (f : Desc -> option A) kind l :
  (forall d, f d <> None -> kind d = true) -> (length (omap f l) <= num kind l)%nat.
Proof.
  intros Hk. unfold num. induction l as [|d l IH]; [done|]. cbn. specialize (Hk d).
  destruct (f d); [|destruct (kind d); cbn; lia]. rewrite Hk by done. cbn. lia.
Qed.

Lemma num_room {A} (f : Desc -> option A) kind before d rest :
  (forall d, f d <> None -> kind d = true) -> kind d = true ->
  (length (omap f before) < num kind (before ++ d :: rest))%nat.
Proof.
  intros Hk Hd. pose proof (omap_length_num f kind before Hk) as H. unfold num in *.
  rewrite List.filter_app, length_app. cbn. rewrite Hd. cbn. lia.
Qed.

Lemma omap_snoc_none {A} (f : Desc -> option A) l d : f d = None -> omap f (l ++ [d]) = omap f l.
Proof. intros H. rewrite omap_app. cbn. by rewrite H, app_nil_r. Qed.

Lemma omap_snoc_some {A} (f : Desc -> option A) l d x : f d = Some x -> omap f (l ++ [d]) = omap f l ++ [x].
Proof. intros H. rewrite omap_app. cbn. by rewrite H. Qed.

Lemma set_at_slots {A} n (l : list A) x : set_at (slots n l) (length l) x =
  if (n <=? length l)%nat then Fail Panic else Ok (slots n (l ++ [x])).
Proof.
  unfold slots. destruct (Nat.leb_spec n (length l)) as [Hle|Hgt].
  - replace (n - length l)%nat with O by lia. rewrite app_nil_r. apply set_at_full.
  - rewrite length_app. cbn [length]. replace (n - length l)%nat with (S (n - (length l + 1))) by lia.
    apply set_at_next.
Qed.

Section Flags.
Context {bitfield : BitField}.

Lemma parse_mps_inti_flags_spec flags : 0 <= flags ->
  parse_mps_inti_flags flags =
  match polarity_of flags, trigger_of flags with
  | None, _ => Err (InvalidMadt MpsIntiInvalidPolarity)
  | Some _, None => Err (InvalidMadt MpsIntiInvalidTriggerMode)
  | Some p, Some t => Ok (p, t)
  end.
Proof.
  intros H. unfold parse_mps_inti_flags, polarity_of, trigger_of. rewrite !get_bits_div by lia.
  change (2 ^ 0) with 1. change (2 ^ (2 - 0)) with 4. change (2 ^ 2) with 4. change (2 ^ (4 - 2)) with 4.
  rewrite Z.div_1_r. set (a := flags mod 4). set (b := (flags / 4) mod 4).
  destruct a as [|[[]|[]|]|], b as [|[[]|[]|]|]; reflexivity.
Qed.

Lemma get_bit_odd flags : 0 <= flags -> get_bit flags 0 = Z.odd flags.
Proof. intros H. by rewrite get_bit_spec, Z.bit0_odd by lia. Qed.

Lemma nmi_line_of_spec l :
  nmi_line_of l = match line_of l with Some n => Ok n | None => Err (InvalidMadt InvalidLocalNmiLine) end.
Proof. destruct l as [|[]|]; reflexivity. Qed.
End Flags.

(** * The two passes *)

(** Sizes that compute. *)
Fixpoint fitsb (l : layout) (vals : list bytes) : bool :=
  match l, vals with
  | [], [] => true
  | f :: l, v :: vals => Nat.eqb (length v) (field_size f) && fitsb l vals
  | _, _ => false
  end.

Lemma fitsb_fits l vals : fitsb l vals = true -> fits l vals.
Proof.
  revert vals. induction l as [|f l IH]; intros [|v vals] H; try done; [constructor|].
  apply andb_prop in H as [H1%Nat.eqb_eq H2]. constructor; [done|]. by apply IH.
Qed.

Lemma desc_field {E} L d w name n z : w_agrees w (desc_bytes d) ->
  fits L (concat (desc_header d) :: desc_fields d) ->
  value_of L (concat (desc_header d) :: desc_fields d) name = Some (to_le_bytes n z) ->
  in_width (8 * Z.of_nat n) z -> @field E L w name = Ok z.
Proof.
  intros Hw Hf Hv Hz. rewrite (field_struct L _ w name _ Hf Hw Hv). by rewrite from_to_le_bytes.
Qed.

(** The counts of the first pass. *)
Definition counts_of (ds : list Desc) : Counts :=
  MkCounts (num is_io_apic ds) (num is_override ds) (num is_nmi_source ds) (num is_local_nmi ds)
    (num is_local_apic ds).

Lemma num_snoc kind before d : num kind (before ++ [d]) = (num kind before + if kind d then 1 else 0)%nat.
Proof. unfold num. rewrite List.filter_app, length_app. cbn. by destruct (kind d). Qed.

Lemma count_entry_spec all : reads_entries counts_of (fun _ _ => None) count_entry all.
Proof.
  intros before d rest e entry _ Hr Hok _ He. unfold counts_of. rewrite !num_snoc.
  destruct d; try (injection He as <-; cbn; by rewrite ?Nat.add_0_r, ?Nat.add_1_r); [|done].
  destruct Hok as [Ht _]. unfold desc_entry in He. cbn in He. cbn. rewrite !Nat.add_0_r.
  destruct (other_type _ Ht) as [E|[E|[E|[E|[E|[E|[E|E]]]]]]]; rewrite E in He; injection He as <-;
    reflexivity.
Qed.

Lemma counts_ignores : ignores_reserved (E := AcpiError) counts_of (fun _ _ => None).
Proof.
  intros before d Hd. split; [done|]. unfold counts_of. rewrite !num_snoc.
  destruct d; try done. cbn. by rewrite !Nat.add_0_r.
Qed.

(** What the second pass has read of the first entries. *)
Definition pass_of (address : Z) (rooms : Rooms) (before : list Desc) : Pass :=
  let processors := omap processor_of before in
  MkPass (default address (last (omap address_of before)))
    (slots (room_io_apics rooms) (omap io_apic_of before))
    (slots (room_overrides rooms) (omap override_of before))
    (slots (room_nmi_sources rooms) (omap nmi_source_of before))
    (slots (room_lines rooms) (omap nmi_of before))
    (option_map boot_of (head processors))
    (slots (room_processors rooms) (map ap_of (tail processors)))
    (MkCounts (length (omap io_apic_of before)) (length (omap override_of before))
      (length (omap nmi_source_of before)) (length (omap nmi_of before))
      (length (map ap_of (tail processors)))).

(** The lists of what the other entries describe. *)
Ltac snoc_none l d := repeat match goal with
  | |- context [@omap _ _ _ _ ?f (l ++ [d])] => rewrite (omap_snoc_none f l d) by done
  end.

Section Pass.
Context {bitfield : BitField}.

Lemma add_processor_spec uid id flags address rooms before d : 0 <= flags ->
  processor_of d = Some (uid, id, Z.odd flags) ->
  address_of d = None -> io_apic_of d = None -> override_of d = None -> nmi_source_of d = None ->
  nmi_of d = None ->
  add_processor uid id flags (pass_of address rooms before) =
  if (room_processors rooms <? length (omap processor_of before))%nat then Fail Panic
  else Ok (pass_of address rooms (before ++ [d])).
Proof.
  intros Hf Hp H1 H2 H3 H4 H5. unfold add_processor, pass_of.
  rewrite get_bit_odd, (omap_snoc_some _ _ _ _ Hp) by done. snoc_none before d.
  destruct (omap processor_of before) as [|p ps].
  - cbn. by destruct (Z.odd flags).
  - cbn [head tail app option_map length]. rewrite set_at_slots, length_map. unfold Nat.ltb. cbn [Nat.leb].
    destruct (Nat.leb _ _); [done|]. cbn [result_bind]. rewrite map_app, length_app, length_map. cbn.
    rewrite Nat.add_1_r. by destruct (Z.odd flags).
Qed.

Lemma add_nmi_line_spec target l address rooms before d :
  nmi_of d = option_map (MkNmiLine target) (line_of l) ->
  address_of d = None -> io_apic_of d = None -> override_of d = None -> nmi_source_of d = None ->
  processor_of d = None ->
  add_nmi_line target l (pass_of address rooms before) =
  match line_of l with
  | None => Err (InvalidMadt InvalidLocalNmiLine)
  | Some _ =>
      if (room_lines rooms <=? length (omap nmi_of before))%nat then Fail Panic
      else Ok (pass_of address rooms (before ++ [d]))
  end.
Proof.
  intros Hn H1 H2 H3 H4 H5. unfold add_nmi_line, pass_of. rewrite nmi_line_of_spec.
  destruct (line_of l) as [n|]; [|done]. cbn [result_bind option_map] in *.
  rewrite (omap_snoc_some _ _ _ _ Hn), set_at_slots. snoc_none before d.
  destruct (Nat.leb _ _); [done|]. rewrite length_app. cbn. by rewrite Nat.add_1_r.
Qed.

(** The fields of an entry, read one after the other. *)
Ltac read_fields H := repeat match goal with
  | |- context [@field _ ?L ?w ?name] =>
      erewrite (desc_field L _ w name _ _ H);
        [cbn [result_bind]|apply fitsb_fits; reflexivity|reflexivity|unfold in_width in *; cbn; lia]
  end.

Lemma handle_processor d e entry address rooms before : desc_ok d -> w_agrees e (desc_bytes d) ->
  desc_entry d e = Some entry -> processor_of d <> None ->
  handle_entry entry (pass_of address rooms before) =
  match problem rooms before d with
  | Some s => stopped s
  | None => Ok (pass_of address rooms (before ++ [d]))
  end.
Proof.
  intros Hok He Hd Hp. destruct d as [uid id flags|id flags uid| | | | | | | | |]; try done;
    injection Hd as <-; cbn in Hok; unfold handle_entry, pass_of at 1; cbv beta iota; read_fields He;
    [rewrite (add_processor_spec _ _ _ _ _ _ (DLocalApic uid id flags)); try done
    |rewrite (add_processor_spec _ _ _ _ _ _ (DX2Apic id flags uid)); try done];
    first [apply Hok|unfold problem; cbn [desc_problem overflows]; by destruct (Nat.ltb _ _)].
Qed.

Lemma handle_nmi d e entry address rooms before : desc_ok d -> w_agrees e (desc_bytes d) ->
  desc_entry d e = Some entry -> (exists uid flags l, d = DLocalNmi uid flags l \/ d = DX2Nmi flags uid l) ->
  handle_entry entry (pass_of address rooms before) =
  match problem rooms before d with
  | Some s => stopped s
  | None => Ok (pass_of address rooms (before ++ [d]))
  end.
Proof.
  intros Hok He Hd (uid & flags & l & Hcase).
  destruct Hcase as [-> | ->]; injection Hd as <-; cbn in Hok; unfold handle_entry, pass_of at 1;
    cbv beta iota; read_fields He;
    [rewrite (add_nmi_line_spec _ _ _ _ _ (DLocalNmi uid flags l)) by done
    |rewrite (add_nmi_line_spec _ _ _ _ _ (DX2Nmi flags uid l)) by done];
    unfold problem; cbn; destruct (line_of l); try done; by destruct (Nat.leb _ _).
Qed.

(** The element that an entry adds to its slice. *)
Ltac append_slot f l d :=
  cbn [result_bind]; unfold pass_of; snoc_none l d;
  erewrite (omap_snoc_some f l d) by (cbn; by simplify_option_eq);
  rewrite length_app; cbn; by rewrite Nat.add_1_r.

(** There is room for the entries that are counted. *)
Definition rooms_ok (rooms : Rooms) (all : list Desc) : Prop :=
  (num is_io_apic all <= room_io_apics rooms)%nat /\ (num is_override all <= room_overrides rooms)%nat /\
  (num is_nmi_source all <= room_nmi_sources rooms)%nat.

(** An entry of the other kinds goes into a slice that has room for it. *)
Lemma handle_sliced d e entry address rooms before rest : rooms_ok rooms (before ++ d :: rest) -> desc_ok d -> w_agrees e (desc_bytes d) ->
  desc_entry d e = Some entry ->
  is_io_apic d = true \/ is_override d = true \/ is_nmi_source d = true ->
  handle_entry entry (pass_of address rooms before) =
  match desc_problem d with
  | Some s => Err (InvalidMadt s)
  | None => Ok (pass_of address rooms (before ++ [d]))
  end.
Proof.
  intros (R1 & R2 & R3) Hok He Hd Hk.
  assert (forall A (f : Desc -> option A) kind n, (num kind (before ++ d :: rest) <= n)%nat -> kind d = true ->
    (forall d, f d <> None -> kind d = true) -> (n <=? length (omap f before))%nat = false) as Hroom.
  { intros A f kind n Hn Hkd Hf. apply Nat.leb_gt. pose proof (num_room f kind before d rest Hf Hkd). lia. }
  destruct d as [| |id ad base|bus irq gsi flags|flags gsi| | | | | |]; cbn in Hk; try (intuition discriminate);
    injection Hd as <-; cbn in Hok; unfold handle_entry, pass_of at 1; cbv beta iota.
  - read_fields He. rewrite set_at_slots, (Hroom _ _ _ _ R1) by (done || by intros []).
    append_slot io_apic_of before (DIoApic id ad base).
  - read_fields He. cbn [desc_problem]. destruct (bus =? 0); [|done]. cbn [negb]. read_fields He.
    rewrite parse_mps_inti_flags_spec by (unfold in_width in Hok; lia). unfold flags_problem. cbn [override_of].
    destruct (polarity_of flags) as [p|] eqn:Ep; [|done].
    destruct (trigger_of flags) as [t|] eqn:Et; [|done]. cbn [result_bind]. read_fields He.
    rewrite set_at_slots, (Hroom _ _ _ _ R2) by (done || by intros []).
    append_slot override_of before (DOverride bus irq gsi flags).
  - read_fields He. cbn [desc_problem].
    rewrite parse_mps_inti_flags_spec by (unfold in_width in Hok; lia). unfold flags_problem.
    destruct (polarity_of flags) as [p|] eqn:Ep; [|done].
    destruct (trigger_of flags) as [t|] eqn:Et; [|done]. cbn [result_bind]. read_fields He.
    rewrite set_at_slots, (Hroom _ _ _ _ R3) by (done || by intros []).
    append_slot nmi_source_of before (DNmiSource flags gsi).
Qed.

(** The second pass reads the entries as they were described. *)
Lemma handle_entry_spec address rooms all : rooms_ok rooms all ->
  reads_entries (pass_of address rooms) (problem rooms) handle_entry all.
Proof.
  intros Hrooms before d rest e entry -> Hr Hok He Hd. unfold problem.
  destruct d as [uid id flags|id flags uid|id ad base|bus irq gsi flags|flags gsi|uid flags l|ad|flags uid l
    |version mailbox|t data|t data].
  - by apply (handle_processor (DLocalApic uid id flags) e).
  - by apply (handle_processor (DX2Apic id flags uid) e).
  - rewrite (handle_sliced (DIoApic id ad base) e _ _ _ _ rest) by auto. done.
  - rewrite (handle_sliced (DOverride bus irq gsi flags) e _ _ _ _ rest) by auto. by destruct (desc_problem _).
  - rewrite (handle_sliced (DNmiSource flags gsi) e _ _ _ _ rest) by auto. by destruct (desc_problem _).
  - apply (handle_nmi (DLocalNmi uid flags l) e); eauto.
  - injection Hd as <-. cbn in Hok. unfold handle_entry, pass_of at 1. cbv beta iota. read_fields He.
    cbn. unfold pass_of. snoc_none before (DAddress ad). 
    by rewrite (omap_snoc_some address_of _ (DAddress ad) _ eq_refl), last_snoc.
  - apply (handle_nmi (DX2Nmi flags uid l) e); eauto.
  - by injection Hd as <-.
  - destruct Hok as [Ht _]. unfold desc_entry in Hd. cbn in Hd.
    destruct (other_type _ Ht) as [E|[E|[E|[E|[E|[E|[E|E]]]]]]]; rewrite E in Hd; by injection Hd as <-.
  - done.
Qed.

Lemma pass_ignores address rooms : ignores_reserved (pass_of address rooms) (problem rooms).
Proof.
  intros before d Hd. destruct d as [| | | | | | | | | |t data]; try done. split; [done|].
  unfold pass_of. by snoc_none before (DReserved t data).
Qed.
End Pass.

(** * The table *)

(** A table with a list of entries. *)
Definition madt_encode (h : SdtId) (address flags : Z) (ds : list Desc) : bytes :=
  sdt_encode h (to_le_bytes 4 address ++ to_le_bytes 4 flags ++ descs_bytes ds).

Definition madt_ok (h : SdtId) (address flags : Z) (ds : list Desc) : Prop :=
  id_ok h /\ is_u32 address /\ is_u32 flags /\ Forall desc_ok ds /\
  44 + Z.of_nat (length (descs_bytes ds)) < 2 ^ 32.

(** The structure at the beginning of the table, and the entries behind it. *)
Lemma madt_encode_parts {E} w h address flags ds : madt_ok h address flags ds ->
  w_agrees w (madt_encode h address flags ds) ->
  @sdt_length E w = Ok (44 + Z.of_nat (length (descs_bytes ds))) /\
  @field E Madt w "local_apic_address" = Ok address /\ @field E Madt w "flags" = Ok flags /\
  w_agrees (w_shift w 44) (descs_bytes ds).
Proof.
  intros (Hh & Ha & Hfl & Hds & Hl) Hw. unfold madt_encode, sdt_encode in Hw.
  set (body := to_le_bytes 4 address ++ _) in Hw.
  assert (Z.of_nat (length body) = 8 + Z.of_nat (length (descs_bytes ds))) as Hb.
  { subst body. rewrite !length_app, !length_to_le_bytes. lia. }
  set (checksum := checksum_of _) in Hw.
  set (vals := sdt_header h (36 + Z.of_nat (length body)) checksum ++ [to_le_bytes 4 address; to_le_bytes 4 flags]).
  assert (fits Madt vals) as Hf.
  { apply Forall2_app; [by apply sdt_header_fits|by repeat constructor]. }
  replace (concat (sdt_header _ _ _ ++ _)) with (concat vals ++ descs_bytes ds) in Hw
    by (subst vals body; rewrite !concat_app; cbn [concat]; by rewrite !app_nil_r, <-!app_assoc).
  pose proof (fun name v => @field_struct E _ _ w name v Hf (w_agrees_app _ _ _ Hw)) as Hi.
  split_and!.
  - unfold sdt_length.
    rewrite (field_struct SdtHeader _ w _ (to_le_bytes 4 (36 + Z.of_nat (length body)))
      (sdt_header_fits h (36 + Z.of_nat (length body)) checksum Hh)); [| |done].
    + rewrite from_to_le_bytes by (cbn; lia). f_equal. lia.
    + apply w_agrees_app in Hw. subst vals. rewrite concat_app in Hw. by eapply w_agrees_app.
  - rewrite (Hi _ (to_le_bytes 4 address)) by done. by rewrite from_to_le_bytes.
  - rewrite (Hi _ (to_le_bytes 4 flags)) by done. by rewrite from_to_le_bytes.
  - assert (w_agrees (w_shift w 0) (concat vals ++ descs_bytes ds)) as Hw0.
    { destruct Hw as [H1 H2]. split; [cbn [w_shift w_len]; lia|]. exact H2. }
    apply w_shift_app in Hw0 as [_ Hw0]; [|lia]. by rewrite (fits_length _ _ Hf) in Hw0.
Qed.

Section Table.
Context {tgt : Target} {bitfield : BitField} {allocator : Allocator}.
Variables (w : Window) (h : SdtId) (address flags : Z) (ds : list Desc).
Hypothesis Hok : madt_ok h address flags ds.
Hypothesis Hw : w_agrees w (madt_encode h address flags ds).

Lemma madt_entries_spec {E} : @madt_entries tgt E w = Ok (MkIter 44 (Z.of_nat (length (descs_bytes ds)))).
Proof using Hok Hw.
  destruct (madt_encode_parts (E := E) w h address flags ds Hok Hw) as (Hl & _ & _ & _).
  destruct Hok as (_ & _ & _ & _ & H32). unfold madt_entries, sub_w. rewrite Hl. cbn [result_bind].
  change (Z.of_nat (size_of Madt)) with 44.
  rewrite checked_exact by (unfold in_width; lia). cbn [result_bind]. do 2 f_equal. lia.
Qed.

(** The outcome of a whole pass. *)
Lemma pass_spec {S} st problem (body : MadtEntry -> S -> AcpiResult S) fuel :
  (length (descs_bytes ds) + 1 < fuel)%nat -> ignores_reserved st problem -> reads_entries st problem body ds ->
  for_entries fuel w (MkIter 44 (Z.of_nat (length (descs_bytes ds)))) body (st []) =
  outcome st problem [] ds.
Proof using Hok Hw.
  intros Hf Hr Hb. destruct (madt_encode_parts (E := unit) w h address flags ds Hok Hw) as (_ & _ & _ & He).
  destruct Hok as (_ & _ & _ & Hds & H32).
  apply (for_entries_spec st problem body ds Hr Hb fuel w 44 [] ds); try done; lia.
Qed.

Lemma first_problem_none {E} before rest : first_problem (E := E) (fun _ _ => None) before rest = None.
Proof. revert before. by induction rest; intros before; cbn. Qed.

Lemma parse_apic_model_spec fuel : (length (descs_bytes ds) + 1 < fuel)%nat ->
  parse_apic_model_in fuel w = apic_reading address flags ds.
Proof using Hok Hw.
  intros Hf. destruct (madt_encode_parts (E := AcpiError) w h address flags ds Hok Hw) as (Hl & Ha & Hfl & _).
  unfold parse_apic_model_in. rewrite Ha. cbn [result_bind]. rewrite madt_entries_spec. cbn [result_bind].
  pose proof (pass_spec counts_of _ count_entry fuel Hf counts_ignores (count_entry_spec ds)) as Hc.
  change (counts_of []) with (MkCounts 0 0 0 0 0) in Hc. rewrite Hc. clear Hc.
  unfold outcome, apic_reading. rewrite first_problem_none.
  cbn [result_bind app counts_of io_apic_count iso_count nmi_source_count local_nmi_line_count processor_count].
  pose proof (rooms_of_ok ds) as Hrooms. unfold rooms_of in Hrooms |- *. unfold new_in.
  destruct (allocate 0 _) as [io|], (allocate 1 _) as [iso|], (allocate 2 _) as [nmi|],
    (allocate 3 _) as [lines|], (allocate 4 _) as [processors|]; cbn [result_bind option_bind mbind] in *; try done.
  specialize (Hrooms _ eq_refl). set (rooms := MkRooms io iso nmi lines processors) in *.
  replace (MkPass address _ _ _ _ _ _ _) with (pass_of address rooms [])
    by (unfold pass_of, slots; cbn; by rewrite !Nat.sub_0_r).
  rewrite (pass_spec _ _ handle_entry fuel Hf (pass_ignores address rooms)
    (handle_entry_spec address rooms ds Hrooms)).
  unfold outcome. destruct (first_problem (problem rooms) [] ds) as [s|]; [by destruct s|].
  cbn [result_bind app]. unfold supports_8259. rewrite Hfl. cbn [result_bind].
  destruct Hok as (_ & _ & H32 & _). rewrite get_bit_odd by apply H32.
  unfold pass_of. cbn [p_boot p_address p_io_apics p_nmi_lines p_overrides p_nmi_sources p_processors].
  by destruct (omap processor_of ds).
Qed.

Lemma decides_reserved skipped : Forall (fun d => reserved d = true) skipped ->
  forall rest, List.find decides (skipped ++ rest) = List.find decides rest.
Proof. induction 1 as [|d skipped Hd _ IH]; intros rest; [done|]. destruct d; try done. apply IH. Qed.

(** The first pass finds the entry that decides. *)
Lemma find_model_spec n fuel off rest : (length (descs_bytes rest) + 1 < n)%nat ->
  Forall desc_ok rest -> 0 <= off -> w_agrees (w_shift w off) (descs_bytes rest) ->
  Z.of_nat (length (descs_bytes rest)) < 2 ^ 32 ->
  find_model n fuel w (MkIter off (Z.of_nat (length (descs_bytes rest)))) =
  match List.find decides rest with
  | None => Ok (UnknownModel, None)
  | Some (DOther _ _) => Fail Panic
  | Some _ => parse_apic_model_in fuel w
  end.
Proof.
  revert off rest. induction n as [|n IH]; intros off rest Hn Hds H0 Hr H32; [lia|]. cbn [find_model].
  destruct (madt_next_spec (E := AcpiError) n w off rest Hds H0 Hr H32 ltac:(lia))
    as [it Hall|skipped d rest' off' entry e -> Hs Hd He He' H1 H2 H3]; cbn [result_bind].
  - pose proof (decides_reserved rest Hall []) as E. rewrite app_nil_r in E. by rewrite E.
  - rewrite decides_reserved by done. apply Forall_app in Hds as [_ Hds]. apply Forall_cons in Hds as [Hd' Hds].
    cbn [List.find]. destruct d as [| | | | | | | |version mailbox|t data|]; try done;
      try (injection He as <-; done).
    + injection He as <-. cbn [entry_model decides]. apply IH; try done; lia.
    + destruct Hd' as [Ht _]. unfold desc_entry in He. cbn in He.
      destruct (other_type _ Ht) as [E|[E|[E|[E|[E|[E|[E|E]]]]]]]; rewrite E in He; by injection He as <-.
Qed.
(** Both passes. *)
Lemma parse_interrupt_model_spec fuel : (length (descs_bytes ds) + 1 < fuel)%nat ->
  parse_interrupt_model_in fuel w = madt_reading address flags ds.
Proof using Hok Hw.
  intros Hf. unfold parse_interrupt_model_in, madt_reading. rewrite madt_entries_spec. cbn [result_bind].
  destruct (madt_encode_parts (E := unit) w h address flags ds Hok Hw) as (_ & _ & _ & He).
  destruct Hok as (_ & _ & _ & Hds & H32).
  rewrite find_model_spec by (done || lia). by rewrite parse_apic_model_spec.
Qed.
End Table.

(** Entries that are fine are read to the end exactly when the blocks are large enough. *)
Lemma first_problem_room rooms before rest : Forall (fun d => desc_problem d = None) rest ->
  (length (omap processor_of before) <= room_processors rooms + 1)%nat ->
  (length (omap nmi_of before) <= room_lines rooms)%nat ->
  first_problem (problem rooms) before rest = None <->
  (length (omap processor_of (before ++ rest)) <= room_processors rooms + 1)%nat /\
  (length (omap nmi_of (before ++ rest)) <= room_lines rooms)%nat.
Proof.
  intros H. revert before. induction H as [|d rest Hd _ IH]; intros before Hp Hn.
  - rewrite app_nil_r. by split.
  - replace (before ++ d :: rest) with ((before ++ [d]) ++ rest) by by rewrite <-app_assoc.
    cbn [first_problem]. unfold problem at 1. rewrite Hd.
    pose proof (omap_app processor_of (before ++ [d]) rest) as Ep.
    pose proof (omap_app nmi_of (before ++ [d]) rest) as En.
    pose proof (omap_app processor_of before [d]) as Ep1. pose proof (omap_app nmi_of before [d]) as En1.
    apply (f_equal length) in Ep, En, Ep1, En1. rewrite !length_app in Ep, En, Ep1, En1.
    destruct (overflows rooms before d) eqn:Ho.
    + split; [done|]. intros [H1 H2].
      destruct d; cbn in Ho; try discriminate Ho; cbn in Ep1, En1, Hd.
      1,2: apply Nat.ltb_lt in Ho; lia.
      all: destruct (line_of _); [|discriminate Hd]; cbn in En1; apply Nat.leb_le in Ho; lia.
    + apply IH; destruct d; cbn in Ho, Ep1, En1, Hd; try (destruct (line_of _); cbn in En1); try discriminate Hd; repeat match goal with
        | H : (_ <? _)%nat = false |- _ => apply Nat.ltb_ge in H
        | H : (_ <=? _)%nat = false |- _ => apply Nat.leb_gt in H
        | H : context [match ?x with _ => _ end] |- _ => destruct x; cbn in H
        end; lia.
Qed.

Lemma first_problem_panics rooms before rest s : Forall (fun d => desc_problem d = None) rest ->
  first_problem (problem rooms) before rest = Some s -> s = Fails Panic.
Proof.
  intros H. revert before. induction H as [|d rest Hd _ IH]; intros before; cbn; [done|].
  unfold problem at 1. rewrite Hd. destruct (overflows rooms before d); [by intros [= <-]|apply IH].
Qed.

(** * Properties *)

Section Properties.
Context {tgt : Target} {bitfield : BitField} {allocator : Allocator}.

(** C10: The interrupt model of a table is the reading of its list of entries, whatever
    entries it lists, reserved ones and those of other interrupt models included, and
    whatever the allocator does, which may fail or give larger blocks than it was asked
    for: a failing allocation is an AllocError, the first entry that is wrong is reported,
    an entry that does not fit into its block is a panic, and otherwise the I/O APICs, the
    overrides, the NMI sources and lines and the processors appear in the order of the
    table at the beginning of their blocks, whose rest is left uninitialised, the first
    processor being the one that boots. The passes end within as many rounds as the table
    has bytes. *)
Theorem madt_refines fuel w h address flags ds :
  madt_ok h address flags ds -> w_agrees w (madt_encode h address flags ds) ->
  (length (descs_bytes ds) + 1 < fuel)%nat ->
  parse_interrupt_model_in fuel w = madt_reading address flags ds.
Proof. intros Hok Hw. by apply (parse_interrupt_model_spec w h). Qed.

(** C39: The x2APIC entries are not counted when the slices are allocated. A table whose
    entries are all fine, and for which every allocation succeeds, makes the second pass
    panic exactly when the processors behind the first do not fit into the block that was
    asked for the local APICs but one, when the NMI lines do not fit into the block for
    those of local APICs, or when there is no processor; so it does with an x2APIC among at
    least two processors when the block has the size that was asked for. *)
Theorem madt_x2apic_panics fuel w h address flags ds rooms :
  madt_ok h address flags ds -> w_agrees w (madt_encode h address flags ds) ->
  (length (descs_bytes ds) + 1 < fuel)%nat ->
  Forall (fun d => desc_problem d = None) ds -> rooms_of ds = Some rooms ->
  (parse_apic_model_in fuel w = Fail Panic <->
     (room_processors rooms + 1 < length (omap processor_of ds))%nat \/
     (room_lines rooms < length (omap nmi_of ds))%nat \/ omap processor_of ds = []) /\
  (room_processors rooms = (num is_local_apic ds - 1)%nat ->
     (num is_local_apic ds < length (omap processor_of ds))%nat -> (1 < length (omap processor_of ds))%nat ->
     parse_apic_model_in fuel w = Fail Panic).
Proof.
  intros Hok Hw Hf Hfine Hrooms.
  assert (parse_apic_model_in fuel w = Fail Panic <->
     (room_processors rooms + 1 < length (omap processor_of ds))%nat \/
     (room_lines rooms < length (omap nmi_of ds))%nat \/ omap processor_of ds = []) as H.
  { rewrite (parse_apic_model_spec w h address flags ds Hok Hw) by done.
    unfold apic_reading. rewrite Hrooms.
    pose proof (first_problem_room rooms [] ds Hfine ltac:(cbn; lia) ltac:(cbn; lia)) as Hr.
    cbn [app] in Hr. destruct (first_problem (problem rooms) [] ds) as [s|] eqn:Hp.
    - rewrite (first_problem_panics _ _ _ _ Hfine Hp). split; [|done]. intros _.
      destruct (decide (length (omap processor_of ds) <= room_processors rooms + 1)%nat); [|left; lia].
      destruct (decide (length (omap nmi_of ds) <= room_lines rooms)%nat); [|right; left; lia].
      by destruct Hr as [_ Hr]; specialize (Hr ltac:(done)).
    - destruct Hr as [Hr _]. specialize (Hr eq_refl).
      destruct (omap processor_of ds); [split; [intros _; by right; right|done]|].
      split; [done|]. intros [?|[?|?]]; [lia..|done]. }
  split; [exact H|]. intros E Hx H1. apply H. left. lia.
Qed.

End Properties.

(** * The properties on concrete tables *)

Definition sample_madt : list Desc :=
  [DLocalApic 0 0 1; DReserved x80 [x01; x02]; DLocalApic 1 4 1; DIoApic 2 0xfec00000 0;
   DOverride 0 0 2 0; DNmiSource 5 9; DLocalNmi 0xff 5 1; DAddress 0x1fee00000].

Definition sample_x2apic : list Desc := [DLocalApic 0 0 1; DX2Apic 300 1 5].

Ltac descs_ok :=
  repeat match goal with |- Forall _ (_ :: _) => apply Forall_cons; split end;
  [..|by apply Forall_nil]; unfold in_width; cbn; split_and?; first [lia|by vm_compute].

Lemma sample_madt_ok : madt_ok (sample_id Signature.MADT x03) 0xfee00000 1 sample_madt.
Proof.
  split_and!; [by apply sample_id_ok|split; lia..| |reflexivity].
  unfold sample_madt. descs_ok.
Qed.

Lemma sample_x2apic_ok : madt_ok (sample_id Signature.MADT x03) 0xfee00000 1 sample_x2apic.
Proof.
  split_and!; [by apply sample_id_ok|split; lia..| |reflexivity].
  unfold sample_x2apic. descs_ok.
Qed.

(** An allocator whose blocks have room for one more. *)
#[program] Definition roomy_allocator : Allocator := {| allocate _ len := Some (S len) |}.
Next Obligation. by intros _ len slots [= <-]; apply Nat.le_succ_diag_r. Qed.

Lemma madt_refines_witness :
  parse_interrupt_model_in (tgt := target_debug) (bitfield := bitfield_model) (allocator := roomy_allocator)
    100 (w_of (madt_encode (sample_id Signature.MADT x03) 0xfee00000 1 sample_madt)) =
  Ok (ApicModel (MkApic 0x1fee00000 [Some (MkIoApic 2 0xfec00000 0); None]
        [Some (MkNmiLine AllProcessors Lint1); None]
        [Some (MkOverride 0 2 PolaritySameAsBus TriggerSameAsBus); None]
        [Some (MkNmiSource 9 ActiveHigh Edge); None] true),
      Some (MkProcessors (MkProcessor 0 0 Running false) [Some (MkProcessor 1 4 WaitingForSipi true); None])).
Proof.
  rewrite (@madt_refines target_debug bitfield_model roomy_allocator 100
    (w_of (madt_encode (sample_id Signature.MADT x03) 0xfee00000 1 sample_madt))
    (sample_id Signature.MADT x03) 0xfee00000 1 sample_madt sample_madt_ok (w_agrees_of _)).
  - reflexivity.
  - apply Nat.ltb_lt. reflexivity.
Defined.

(** A block of the size that was asked for is too small for the x2APIC; a larger one is
    not. *)
Lemma madt_x2apic_panics_witness :
  parse_apic_model_in (tgt := target_debug) (bitfield := bitfield_model) (allocator := exact_allocator)
    100 (w_of (madt_encode (sample_id Signature.MADT x03) 0xfee00000 1 sample_x2apic)) = Fail Panic /\
  parse_apic_model_in (tgt := target_debug) (bitfield := bitfield_model) (allocator := roomy_allocator)
    100 (w_of (madt_encode (sample_id Signature.MADT x03) 0xfee00000 1 sample_x2apic)) <> Fail Panic.
Proof.
  assert (length (descs_bytes sample_x2apic) + 1 < 100)%nat as Hf by (apply Nat.ltb_lt; reflexivity).
  pose proof (fun allocator rooms => @madt_x2apic_panics target_debug bitfield_model allocator 100
    (w_of (madt_encode (sample_id Signature.MADT x03) 0xfee00000 1 sample_x2apic))
    (sample_id Signature.MADT x03) 0xfee00000 1 sample_x2apic rooms sample_x2apic_ok (w_agrees_of _)
    Hf ltac:(repeat constructor)) as H.
  split.
  - destruct (H exact_allocator (MkRooms 0 0 0 0 0) eq_refl) as [_ Hx].
    apply Hx; [reflexivity|apply Nat.ltb_lt; reflexivity..].
  - destruct (H roomy_allocator (MkRooms 1 1 1 1 1) eq_refl) as [Hx _]. intros E. apply Hx in E.
    cbn in E. destruct E as [E|[E|E]]; [lia..|discriminate].
Defined.
