(* ===== verification/Platform.v ===== *)
(** The platform information ([acpi/src/platform/mod.rs]): what the FADT and the
    MADT say, put together; and that it is what their bytes say. *)
From S2P Require Import Prelude Env RustStd Physical Rsdp Sdt Address Fadt Tables Slice Madt MadtEntries MadtCorrect.
#[local] Open Scope Z_scope.

(** [PmTimer] *)
Record PmTimer := MkPmTimer { base : GenericAddress; supports_32bit : bool }.

(** [PlatformInfo] *)
Record PlatformInfo := MkPlatform {
  platform_power_profile : PowerProfile;
  interrupt_model : InterruptModel;
  processor_info : option ProcessorInfo;
  pm_timer : option PmTimer
}.

Section Platform.
Context {tgt : Target} {bitfield : BitField} {handler : AcpiHandler} {allocator : Allocator}.

(** [PmTimer::new] *)
Definition pm_timer_new (fadt : Window) : AcpiResult (option PmTimer) :=
  let? block := pm_timer_block fadt in
  match block with
  | Some base =>
      let? flags := field Fadt fadt "flags" in
      Ok (Some (MkPmTimer base (pm_timer_is_32_bit flags)))
  | None => Ok None
  end.

(** What [PlatformInfo::new_in] does once it has found the FADT. *)
Definition platform_body (fuel : nat) (tables : AcpiTables) (fadt : PhysicalMapping)
    : SE Machine AcpiError PlatformInfo :=
  let! self := deref fadt in
  let! power_profile := se_lift (power_profile self) in
  let! madt := se_try (find_table Signature.MADT tables) in
  let! (interrupt_model, processor_info) :=
    match madt with
    | Ok madt =>
        scoped madt (let! self := deref madt in se_lift (parse_interrupt_model_in fuel self))
    | Err _ => se_ret (UnknownModel, None)
    | Fail r => se_fail r
    end in
  let! self := deref fadt in
  let! pm_timer := se_lift (pm_timer_new self) in
  se_ret (MkPlatform power_profile interrupt_model processor_info pm_timer).

(** [PlatformInfo::new_in] *)
Definition platform_info (fuel : nat) (tables : AcpiTables) : SE Machine AcpiError PlatformInfo :=
  let! fadt := find_table Signature.FADT tables in scoped fadt (platform_body fuel tables fadt).
End Platform.

(** * What the tables say *)

(** The power profile that a byte stands for. *)
Definition profile_of (n : Z) : PowerProfile :=
  default (Reserved n) ([Unspecified; Desktop; Mobile; Workstation; EnterpriseServer; SohoServer; AppliancePc;
    PerformanceServer; Tablet] !! Z.to_nat n).

(** A little-endian number in a table. *)
Definition number_at (w : Window) (off : Z) (n : nat) : Z := from_le_bytes (w_bytes w off n).

(** The timer that the bytes of a FADT describe: there is one when its length is 4 and it
    has an address - the extended one, of 12 bytes at 208, in tables of revision 2 or
    later, if its address is not zero, or the legacy one, a port, at 76 - and bit 8 of the
    flags at 112 tells its width. *)
Inductive timer_of (w : Window) : AcpiResult (option PmTimer) -> Prop :=
  | timer_unsupported : number_at w 91 1 <> 4 -> timer_of w (Ok None)
  | timer_extended a : number_at w 91 1 = 4 ->
      2 <= number_at w 8 1 -> number_at w 212 8 <> 0 ->
      address_ok a -> w_bytes w 208 12 = concat (address_fields a) ->
      timer_of w (Ok (Some (MkPmTimer a (Z.testbit (number_at w 112 4) 8))))
  | timer_malformed : number_at w 91 1 = 4 ->
      2 <= number_at w 8 1 -> number_at w 212 8 <> 0 ->
      (forall a, address_ok a -> w_bytes w 208 12 <> concat (address_fields a)) ->
      timer_of w (Err InvalidGenericAddress)
  | timer_legacy : number_at w 91 1 = 4 ->
      number_at w 8 1 < 2 \/ number_at w 212 8 = 0 -> number_at w 76 4 <> 0 ->
      timer_of w (Ok (Some (MkPmTimer (MkAddress SystemIo 32 0 Undefined (number_at w 76 4))
        (Z.testbit (number_at w 112 4) 8))))
  | timer_absent : number_at w 91 1 = 4 ->
      number_at w 8 1 < 2 \/ number_at w 212 8 = 0 -> number_at w 76 4 = 0 -> timer_of w (Ok None).

(** The part of a FADT that is read is mapped. *)
Definition fadt_mapped (w : Window) : Prop := (if 2 <=? number_at w 8 1 then 220 else 116) <= w_len w.

(** The interrupt model of the MADT, if there is one: the reading of its list of
    entries. *)
Inductive interrupts_of {allocator : Allocator} (fuel : nat)
    : option Window -> AcpiResult (InterruptModel * option ProcessorInfo) -> Prop :=
  | interrupts_unknown : interrupts_of fuel None (Ok (UnknownModel, None))
  | interrupts_madt w h address flags ds :
      madt_ok h address flags ds -> w_agrees w (madt_encode h address flags ds) ->
      (length (descs_bytes ds) + 1 < fuel)%nat ->
      interrupts_of fuel (Some w) (madt_reading address flags ds).

(** The information in a FADT, with these interrupts and this timer. *)
Definition platform_reading (fadt : Window) (interrupts : AcpiResult (InterruptModel * option ProcessorInfo))
    (timer : AcpiResult (option PmTimer)) : AcpiResult PlatformInfo :=
  let? (model, processors) := interrupts in
  let? timer := timer in
  Ok (MkPlatform (profile_of (number_at fadt 45 1)) model processors timer).

(** ** The fields of the FADT *)

#[local] Arguments extended_block self name%_string_scope.
#[local] Arguments field_ok {E} l w name%_string_scope o n.

Section Fields.
Context {tgt : Target} {bitfield : BitField}.

Lemma fadt_number {E} w name o n : offset_of Fadt name = Some (o, n) -> Z.of_nat (o + n) <= w_len w ->
  @field E Fadt w name = Ok (number_at w (Z.of_nat o) n).
Proof. apply field_ok. Qed.
#[local] Arguments fadt_number {E} w name%_string_scope o n.

Lemma power_profile_spec {E} w : 116 <= w_len w -> @power_profile E w = Ok (profile_of (number_at w 45 1)).
Proof.
  intros Hw. unfold power_profile. rewrite (fadt_number w _ 45%nat 1%nat) by (done || (cbn; lia)).
  cbn [result_bind]. change (Z.of_nat 45) with 45.
  pose proof (from_le_bytes_in_width 8 (w_bytes w 45 1) ltac:(discriminate)) as H.
  fold (number_at w 45 1) in H. unfold in_width in H. generalize dependent (number_at w 45 1). intros n Hn.
  unfold profile_of. destruct (Z_lt_ge_dec n 9) as [H9|H9].
  - assert (n = 0 \/ n = 1 \/ n = 2 \/ n = 3 \/ n = 4 \/ n = 5 \/ n = 6 \/ n = 7 \/ n = 8) as Hc by lia.
    by destruct Hc as [->|[->|[->|[->|[->|[->|[->|[->| ->]]]]]]]].
  - rewrite lookup_ge_None_2 by (cbn; lia). cbn [default].
    destruct n as [|q|q]; [lia| |lia]. do 4 (destruct q as [q|q|]; try done; try lia).
Qed.

(** The extended block of the timer, in tables that have one. *)
Lemma extended_timer w : fadt_mapped w ->
  if bool_decide (2 <= number_at w 8 1 /\ number_at w 212 8 <> 0) then
    match extended_block w "x_pm_timer_block" with
    | Ok (Some a) => address_ok a /\ w_bytes w 208 12 = concat (address_fields a)
    | Err e => e = InvalidGenericAddress /\ forall a, address_ok a -> w_bytes w 208 12 <> concat (address_fields a)
    | _ => False
    end
  else extended_block w "x_pm_timer_block" = Ok None.
Proof.
  unfold fadt_mapped. intros Hw. unfold extended_block, raw_access, sdt_revision.
  assert (116 <= w_len w) as H116 by (destruct (2 <=? _); lia).
  rewrite (field_ok SdtHeader w "revision" 8%nat 1%nat eq_refl) by (cbn; lia). cbn [result_bind].
  change (from_le_bytes (w_bytes w (Z.of_nat 8) 1)) with (number_at w 8 1). unfold access.
  destruct (Z.leb_spec 2 (number_at w 8 1)) as [Hr|Hr].
  2: { rewrite bool_decide_false by lia. done. }
  change (raw_field w "x_pm_timer_block") with (@read_raw AcpiError (w_shift w 208)).
  destruct (@read_raw_decodes AcpiError (w_shift w 208)) as (raw & -> & Ea & Hraw); [cbn; lia|].
  cbn [result_bind].
  assert (forall i k, w_bytes (w_shift w 208) i k = w_bytes w (208 + i) k) as Hs.
  { intros i k. unfold w_bytes. apply map_ext. intros j. cbn. f_equal. lia. }
  rewrite !Hs in *. change (208 + 4) with 212 in Ea. change (208 + 0) with 208 in Hraw.
  change (from_le_bytes (w_bytes w 212 8)) with (number_at w 212 8) in Ea.
  cbn [result_map result_bind]. rewrite Ea.
  destruct (Z.eqb_spec (number_at w 212 8) 0) as [Hz|Hz]; cbn [negb].
  - rewrite bool_decide_false by lia. done.
  - rewrite bool_decide_true by lia. by destruct (from_raw raw).
Qed.

Lemma pm_timer_spec w : fadt_mapped w -> timer_of w (pm_timer_new w).
Proof.
  intros Hw. pose proof (extended_timer w Hw) as Hx.
  assert (116 <= w_len w) as H116 by (unfold fadt_mapped in Hw; destruct (2 <=? _); lia).
  unfold pm_timer_new, pm_timer_block.
  rewrite (fadt_number w "pm_timer_length" 91%nat 1%nat) by (done || (cbn; lia)). cbn [result_bind].
  change (Z.of_nat 91) with 91.
  assert (@field AcpiError Fadt w "flags" = Ok (number_at w 112 4)) as Hf
    by (apply (fadt_number w "flags" 112%nat 4%nat); [done|cbn; lia]).
  assert (pm_timer_is_32_bit (number_at w 112 4) = Z.testbit (number_at w 112 4) 8) as Hb.
  { apply get_bit_spec; [|lia]. apply (from_le_bytes_range (w_bytes w 112 4)). }
  destruct (Z.eqb_spec (number_at w 91 1) 4) as [H4|H4]; cbn [negb]; [|by apply timer_unsupported].
  case_bool_decide as Hc.
  - destruct Hc as [H2 Hz]. destruct (extended_block w "x_pm_timer_block") as [[a|]|e|r]; try done; cbn [result_bind].
    + destruct Hx as [Ha Hbytes]. rewrite Hf. cbn [result_bind]. rewrite Hb. by apply timer_extended.
    + destruct Hx as [-> Hn]. by apply timer_malformed.
  - rewrite Hx. cbn [result_bind].
    assert (number_at w 8 1 < 2 \/ number_at w 212 8 = 0) as Hno.
    { destruct (Z.lt_ge_cases (number_at w 8 1) 2) as [|H2]; [by left|right].
      destruct (Z.eq_dec (number_at w 212 8) 0); [done|by destruct Hc]. }
    rewrite (fadt_number w "pm_timer_block" 76%nat 4%nat) by (done || (cbn; lia)). cbn [result_bind].
    change (Z.of_nat 76) with 76.
    destruct (Z.eqb_spec (number_at w 76 4) 0) as [Hz|Hz]; cbn [negb result_bind].
    + by apply timer_absent.
    + rewrite Hf. cbn [result_bind]. rewrite Hb. by apply timer_legacy.
Qed.

Lemma interrupts_spec {allocator : Allocator} fuel w interrupts : interrupts_of fuel (Some w) interrupts ->
  parse_interrupt_model_in fuel w = interrupts.
Proof. intros H. inversion H; subst. by eapply parse_interrupt_model_spec. Qed.
End Fields.

(** * The platform information *)

Section Properties.
Context {tgt : Target} {bitfield : BitField} {handler : AcpiHandler} {allocator : Allocator}.

(** The first valid table of the root table with a signature. *)
Definition found (signature : Signature) (tables : AcpiTables) (length : Z) : option Z :=
  List.find (is_table signature) (entries (root_of tables) length (revision tables)).

Lemma scoped_quiet {A} p (f : SE Machine AcpiError A) m : unmaps = false -> scoped p f m = f m.
Proof.
  intros Hu. unfold scoped, se_try, drop_mapping, se_modify, se_bind, se_lift. rewrite Hu.
  by destruct (f m).
Qed.

(** A table that was found stays readable. *)
Lemma found_live a m : tidy m -> unmaps = false ->
  live (dropped m) (MkMapping (requests m) a 36 (extent a 36)).
Proof.
  intros Hm Hu. split; [cbn; lia|]. unfold dropped. rewrite Hu. exact (fresh_not_unmapped m Hm).
Qed.

Lemma deref_bind {A} p (k : Window -> SE Machine AcpiError A) m : live m p ->
  (let! w := deref p in k w) m = k (memory (physical_start p) (mapped_length p)) m.
Proof. intros H. unfold se_bind. by rewrite deref_live. Qed.

(** What is made of a FADT that stays mapped. *)
Lemma platform_body_spec fuel tables length m fadt interrupts : tidy m -> root_ok m tables length ->
  unmaps = false -> live m fadt ->
  Forall (covered Signature.MADT) (entries (root_of tables) length (revision tables)) ->
  fadt_mapped (memory (physical_start fadt) (mapped_length fadt)) ->
  interrupts_of fuel (header_at <$> found Signature.MADT tables length) interrupts ->
  exists m', scoped fadt (platform_body fuel tables fadt) m =
  let w := memory (physical_start fadt) (mapped_length fadt) in
  match platform_reading w interrupts (pm_timer_new w) with
  | Ok info => SOk info m'
  | Err e => SErr e m'
  | Fail r => SFail r
  end.
Proof.
  intros Hm Hroot Hu Hf Hcm Hmapped Hi. unfold platform_body. cbv zeta. rewrite scoped_quiet, deref_bind by done.
  set (w := memory (physical_start fadt) (mapped_length fadt)) in *.
  assert (116 <= w_len w) as H116 by (unfold fadt_mapped in Hmapped; destruct (2 <=? _); lia).
  unfold se_bind at 1, se_lift at 1. rewrite (power_profile_spec w H116). unfold platform_reading.
  destruct (find_table_eq _ tables length m Hm Hroot Hcm) as (m3 & Hm3 & Hl3 & E3).
  unfold se_bind at 1, se_try. rewrite E3. unfold found in Hi. unfold se_bind at 1.
  destruct (List.find _ _) as [madt|]; cbn [fmap option_fmap option_map] in Hi.
  - rewrite scoped_quiet, deref_bind by (done || by apply found_live).
    cbn [physical_start mapped_length]. fold (header_at madt). unfold se_lift at 1.
    rewrite (interrupts_spec _ _ _ Hi).
    destruct interrupts as [[model processors]|e|r]; cbn [result_bind]; [|by eexists|by exists m].
    rewrite deref_bind by (by apply dropped_live, Hl3). fold w. unfold se_bind, se_lift, se_ret.
    destruct (pm_timer_new w); [by eexists..|by exists m].
  - inversion Hi; subst. unfold se_ret at 1. cbn [result_bind].
    rewrite deref_bind by (by apply Hl3). fold w. unfold se_bind, se_lift, se_ret.
    destruct (pm_timer_new w); [by eexists..|by exists m].
Qed.

(** C17: The platform information. Where memory stays mapped, it is what the bytes of the
    first valid FADT and of the first valid MADT of the root table say: the power profile,
    the timer - whose address may be malformed, which is reported - and the reading of the
    entries of the MADT, with its errors and panics; a missing FADT is an error, a missing
    or invalid MADT only leaves the interrupt model unknown. Where unmapping takes memory
    away, the FADT that was found can no longer be read. The tables that are looked at can
    be validated in what is mapped for their headers, and so much of the FADT is mapped as
    its revision makes the code read. *)
Theorem platform_info_spec fuel tables length m interrupts : tidy m -> root_ok m tables length ->
  Forall (covered Signature.FADT) (entries (root_of tables) length (revision tables)) ->
  Forall (covered Signature.MADT) (entries (root_of tables) length (revision tables)) ->
  (forall fadt, found Signature.FADT tables length = Some fadt -> fadt_mapped (header_at fadt)) ->
  interrupts_of fuel (header_at <$> found Signature.MADT tables length) interrupts ->
  match found Signature.FADT tables length with
  | None => exists m', platform_info fuel tables m = SErr (TableMissing Signature.FADT) m'
  | Some fadt =>
      if unmaps then platform_info fuel tables m = SFail UB
      else exists timer m', timer_of (header_at fadt) timer /\
        platform_info fuel tables m =
        match platform_reading (header_at fadt) interrupts timer with
        | Ok info => SOk info m'
        | Err e => SErr e m'
        | Fail r => SFail r
        end
  end.
Proof.
  intros Hm Hroot Hcf Hcm Hmapped Hi. unfold platform_info.
  destruct (find_table_eq _ tables length m Hm Hroot Hcf) as (m1 & Hm1 & Hl1 & E1).
  unfold se_bind at 1, se_bind at 1, se_bind at 1. rewrite !E1. fold (found Signature.FADT tables length).
  destruct (found Signature.FADT tables length) as [fadt|]; [|by exists m1].
  specialize (Hmapped fadt eq_refl). destruct unmaps eqn:Hu.
  { cbv [scoped platform_body se_try se_bind]. by rewrite deref_read, Hu. }
  pose proof (found_live fadt m1 Hm1 Hu) as Hf. pose proof (dropped_tidy m1 Hm1) as Hm2.
  assert (root_ok (dropped m1) tables length) as Hroot2.
  { destruct Hroot as (Hr & Hrest). split; [by apply dropped_live, Hl1|exact Hrest]. }
  exists (pm_timer_new (header_at fadt)).
  enough (exists m', scoped (MkMapping (requests m1) fadt 36 (extent fadt 36))
    (platform_body fuel tables (MkMapping (requests m1) fadt 36 (extent fadt 36))) (dropped m1) =
    match platform_reading (header_at fadt) interrupts (pm_timer_new (header_at fadt)) with
    | Ok info => SOk info m' | Err e => SErr e m' | Fail r => SFail r end) as (m' & E).
  { exists m'. split; [by apply pm_timer_spec|exact E]. }
  by eapply platform_body_spec.
Qed.
End Properties.

(** * The properties on a concrete firmware *)

(** An XSDT with the FADT and a MADT of one processor. *)
Definition platform_firmware : list (Z * bytes) :=
  [(0x7fe1000, sample_table Signature.XSDT (to_le_bytes 8 0x7fe3000 ++ to_le_bytes 8 0x7fe5000));
   (0x7fe3000, sample_fadt);
   (0x7fe5000, sample_table Signature.MADT (to_le_bytes 4 0xfee00000 ++ to_le_bytes 4 1 ++
      [x00; x08; x00; x02; x01; x00; x00; x00]))].
Definition platform_handler (unmaps : bool) : AcpiHandler := sample_handler platform_firmware 4096 unmaps.

Lemma platform_root_ok u : @root_ok (platform_handler u) sample_machine sample_tables 52.
Proof.
  split; [apply sample_live, Nat.ltb_lt; reflexivity|]. split; [intros E; vm_compute; reflexivity|].
  split; [|reflexivity]. split; vm_compute; discriminate.
Qed.

Lemma platform_covered u signature :
  signature = Signature.FADT \/ signature = Signature.MADT ->
  Forall (@covered (platform_handler u) signature)
    (@entries target_debug (@root_of (platform_handler u) sample_tables) 52 2).
Proof.
  assert (@entries target_debug (@root_of (platform_handler u) sample_tables) 52 2 = [0x7fe3000; 0x7fe5000])
    as -> by (vm_compute; reflexivity).
  intros [-> | ->]; repeat apply Forall_cons_2; try apply Forall_nil_2; vm_compute; discriminate.
Qed.

Lemma platform_found u :
  @found target_debug (platform_handler u) Signature.FADT sample_tables 52 = Some 0x7fe3000 /\
  @found target_debug (platform_handler u) Signature.MADT sample_tables 52 = Some 0x7fe5000.
Proof. split; vm_compute; reflexivity. Qed.

(** The MADT lists one processor. *)
Definition platform_interrupts : AcpiResult (InterruptModel * option ProcessorInfo) :=
  @madt_reading exact_allocator 0xfee00000 1 [DLocalApic 0 2 1].

Lemma platform_interrupts_of u : @interrupts_of exact_allocator 10
  (@header_at (platform_handler u) <$> @found target_debug (platform_handler u) Signature.MADT sample_tables 52)
  platform_interrupts.
Proof.
  rewrite (proj2 (platform_found u)). cbn [fmap option_fmap option_map].
  apply (interrupts_madt _ _ (sample_id Signature.MADT x01)).
  - split_and!; [by apply sample_id_ok|split; lia..|repeat constructor; unfold in_width; cbn; lia|reflexivity].
  - split; vm_compute; [discriminate|reflexivity].
  - apply Nat.ltb_lt. reflexivity.
Qed.

Lemma platform_fadt_mapped u fadt :
  @found target_debug (platform_handler u) Signature.FADT sample_tables 52 = Some fadt ->
  fadt_mapped (@header_at (platform_handler u) fadt).
Proof. rewrite (proj1 (platform_found u)). intros [= <-]. vm_compute. discriminate. Qed.

Lemma platform_info_spec_witness :
  (exists info m', @platform_info target_debug bitfield_model (platform_handler false) exact_allocator 10
     sample_tables sample_machine = SOk info m' /\
   interrupt_model info = ApicModel (MkApic 0xfee00000 [] [] [] [] true) /\
   processor_info info = Some (MkProcessors (MkProcessor 0 2 Running false) []) /\ pm_timer info = None) /\
  @platform_info target_debug bitfield_model (platform_handler true) exact_allocator 10
     sample_tables sample_machine = SFail UB.
Proof.
  pose proof (fun u => @platform_info_spec target_debug bitfield_model (platform_handler u) exact_allocator 10
    sample_tables 52 sample_machine platform_interrupts sample_tidy (platform_root_ok u)
    (platform_covered u _ (or_introl eq_refl)) (platform_covered u _ (or_intror eq_refl))
    (platform_fadt_mapped u) (platform_interrupts_of u)) as H.
  split; [specialize (H false)|specialize (H true)]; rewrite (proj1 (platform_found _)) in H; [|exact H].
  destruct H as (timer & m' & Ht & E).
  assert (timer = Ok None) as -> by (inversion Ht; subst; done).
  exists (MkPlatform Unspecified (ApicModel (MkApic 0xfee00000 [] [] [] [] true))
    (Some (MkProcessors (MkProcessor 0 2 Running false) [])) None), m'.
  split; [|split_and!; reflexivity]. rewrite E. vm_compute. reflexivity.
Defined.
